(* ===== verification/_CoqProject ===== *)
-Q . S2P
Prelude.v
Text.v
Bytes.v
F64.v
Json.v
StrictJson.v
Serde.v
Http.v
UrlParts.v
Error.v
Crypto.v
Policy.v
Config.v
Routing.v
Vocab.v
Recorder.v
RecorderFacts.v
Identity.v
Release.v
Attestation.v
AttestationFacts.v
ReceiptStream.v
ReceiptStreamFacts.v
ReceiptRoundtrip.v
Receipts.v
ReceiptFacts.v
Headers.v
Engine.v
EngineFacts.v
Transport.v
TelemetryTests.v
TransportTests.v
Sse.v
SseFacts.v
Wire.v
Reporter.v
WireJson.v
TestLibraries.v
ReceiptTests.v
ClientApi.v
OAuthFlow.v
EvidenceTypes.v
Types.v
Tools.v
TypesFacts.v
TypedApi.v
Blocking.v
Ffi.v
FfiTests.v
CounterFacts.v
ReporterFacts.v
BeaconFacts.v
Lifecycle.v
ReporterTests.v
BeaconDocs.v
Witnesses.v
BeaconWitnesses.v
EvidenceWitnesses.v
