(* ===== verification/Prelude.v ===== *)
(** * A verification of the TrustedRouter Rust SDK

    The SDK ([src/crates/trusted-router/src]) is a client of an inference
    router.  A call enters through an endpoint method ([client.rs]), is
    resolved to one URL per candidate host ([transport/routing.rs]), given
    its headers ([transport/headers.rs]) and carried by one engine
    ([transport/engine.rs]) that retries and fails over as a policy kernel
    decides ([transport/policy.rs]).  Streaming calls hand the open response
    to a server-sent-events decoder with protocol validators ([sse.rs]).
    Beside the call a recorder ([telemetry.rs]) observes every attempt, puts
    one header on each request, and reports the finished call once to a
    reporter ([telemetry/reporter.rs]), which aggregates calls into counter
    windows and sampled events and sends them to the control plane in a
    closed schema ([telemetry/wire.rs]).

    What the router promises is checked on the client's side: an attestation
    verifier decides whether a gateway runs a published image
    ([attestation.rs]), and a receipt verifier ties one exchange to a key such
    a gateway attests ([receipts.rs]).  [oauth.rs] obtains a delegated key by
    a browser sign-in; [blocking.rs] and the C ABI ([trusted-router-ffi]) are
    how other programs call all this.

    ** Files

    - [Prelude]: Rust's [Result], options, durations and instants, record
      update, the monad and update notations in scope [sdk_scope], the
      tactic [reflect] and the hint database [sdk].
    - [Text], [Bytes], [F64], [Json]: strings as bytes ([str] methods, ASCII folding,
      trimming, splitting, decimal printing and parsing) with UTF-8
      validation, hexadecimal and subslice search; binary64 values as
      the standard library's [SpecFloat] with rounding, comparison, casts and
      parsing; [serde_json::Value] with sorted object maps.
    - [Http]: the third-party surface as type classes.  [HttpLib] with its
      laws [HttpLaws] is [http::HeaderMap]; [UrlLib] is the url crate;
      [HttpDateLib] is httpdate.  Module [Concrete] instantiates them with
      executable functions, so that every hypothesis on them is inhabited.
      [UrlParts] adds hosts, ports, credentials and query pairs of a URL, with
      the instance [FullUrl]; [Crypto] is SHA-256, base64, Ed25519 and
      constant-time comparison as the class [CryptoLib] with [CryptoLaws],
      instantiated in [ConcreteCrypto] with a real base64url codec.
    - [StrictJson]: the duplicate-refusing JSON reader of [receipts.rs].
    - [Serde]: what serde's attributes derive: codecs, members that are
      skipped, defaulted or null, flattened maps, and combinators that build
      a record's reader and writer from one list of fields, with their laws
      as classes ([LawfulCodec], [LawfulMember], [Flattened]).
    - [Error], [Config], [Release]: [error.rs], [constants.rs], the records of
      [client.rs] ([CallOptions], [Client]) and the build script.
    - [Policy]: retry, failover and delay decisions ([transport/policy.rs]).
    - [Routing]: candidates and semantic routes ([transport/routing.rs]).
    - [Vocab]: the closed enums and classifiers of [telemetry.rs].
    - [Recorder], [RecorderFacts]: [RequestRecorder] and [StreamRecorder] of
      [telemetry.rs] as a record and its methods; the clock is an argument
      and the sink is the list of the calls made to it.
    - [Identity]: SDK identity and user agent ([telemetry/wire.rs]).
    - [Headers]: header assembly ([transport/headers.rs]).
    - [Engine], [EngineFacts]: [Client::execute] and its attempts
      ([transport/engine.rs]) in explicit state: the clock, the recorder and
      the requests handed to the HTTP client, each with the client that got
      it.  The network, the request builder, the JSON parser, the random draw
      and the wall clock are the fields of [Env].  [wire_header] is what
      reqwest makes of a request's header when it adds the HTTP client's own
      default headers to the vacant slots; the claims about what leaves the
      process (C18, C19, C24) are stated on it.
    - [Transport]: buffered and streaming entry points and the credential
      boundary ([transport/mod.rs]).
    - [Sse], [SseFacts]: the idle deadline, the decoded stream, and the four
      validators as resumable generators with their openers ([sse.rs]).
    - [Wire], [WireJson]: the beacon schema, clamps and counter rows
      ([telemetry/wire.rs]), and the JSON document each shape derives.
    - [Reporter]: the state of the reporter and every operation on it
      ([telemetry/reporter.rs]), split where the code takes and releases its
      lock.  [CounterFacts] is about the counter windows, [ReporterFacts]
      about each operation, [BeaconFacts] about all interleavings of
      recording, flushing, replies, worker passes and close, [BeaconDocs]
      about the documents that leave.  [Lifecycle] has [flush_with], the
      worker task and [close] as threads that interleave at their locks and
      awaits.
    - [ClientApi], [TypedApi]: the builder and the endpoint methods
      ([client.rs]), the untyped ones as the requests they make and the typed
      ones with the decoding of their answers.
    - [Attestation], [AttestationFacts]: policies, trust releases, the checks
      of [verify_claims] one by one, the token and the three entry points
      ([attestation.rs]).  jsonwebtoken is [JwtLib] with [JwtLaws], key-set
      retrieval is [KeyFetch].
    - [ReceiptStream]: SSE framing, the digest of a stream and
      [ReceiptCapture]; [ReceiptStreamFacts] has the reference definition of
      an accepted stream, [ReceiptRoundtrip] a writer for it.
    - [Receipts], [ReceiptFacts]: the verification of a receipt in the order
      of the source ([receipts.rs]), every check a definition, and what a
      success establishes.
    - [OAuthFlow]: PKCE, authorize URL, loopback listener and key exchange
      ([oauth.rs]).
    - [Types], [EvidenceTypes], [Tools], [TypesFacts]: a module per struct of
      [types.rs], [tools.rs], [attestation.rs] and [oauth.rs] that is read or
      written as JSON, with the members its attributes derive, the
      constructors and the tool builders; the bodies of the typed calls and
      the round trips.
    - [Blocking]: the callback loops of [blocking.rs] against a reference
      delivery.
    - [Ffi]: the C ABI over an explicit heap of result strings and clients;
      using a pointer that is not live is undefined behaviour.
    - [Witnesses], [BeaconWitnesses], [EvidenceWitnesses]: concrete runs that
      satisfy the hypotheses of the claims.
    - [TransportTests], [TelemetryTests], [ReporterTests], [ReceiptTests],
      [FfiTests]: the unit tests of the crate, translated assertion by
      assertion and evaluated on the model, on the stand-ins of
      [TestLibraries]; they check the definitions against what the authors
      expect of the code.

    ** What is shown

    - Engine (C1, C8, C15; C20 and C35 on the policy): the loop implements an
      abstract retry machine ([run_spec], an inductive relation) whose attempts
      are the requests sent, each to its own candidate ([wire_of]); it always
      returns within its attempt ceiling with bounded sleeps, and replays the
      same method, body and headers on every attempt.
    - Receipts (C2, C3, C11 to C13, C28, C29): what a verified receipt
      establishes, down to the published image behind its signing key; the
      digest of a stream equals a reference definition and terminates; a
      capture forwards what it sees and how a response is cut into chunks is
      irrelevant; written streams read back;
      ambiguous JSON is refused.
    - Attestation (C4, C38): an accepted token is signed, production (unless
      the policy allows debugging), pinned and fresh, and a reported binding
      was compared with the caller's own connection; a policy pins exactly
      what its release publishes.
    - OAuth (C22 to C24): exactly which callbacks are accepted and what the
      browser is told, that a flow closes, and that the exchange carries no
      credentials.
    - Callers (C25 to C27): every C result owns one string and is freed once;
      a stream that reports success was complete; callbacks see exactly the
      pure reading of a stream.
    - Types (C21, C36, C37): a typed method makes its documented call, or
      refuses a bad resource ID, and delivers the decoding of what the server
      answered, with its record settled; the body of every typed request
      against a list of its documented members; each type reads back what it writes, keeps members it does not
      know and is not disturbed by new ones.
    - Entry points (C16 to C19, C40): streams yield exactly a pure reading of
      their frames and are never silently truncated; a stream is reported
      once however it is consumed; a client that opted out of telemetry adds
      none to any request, and a credential-free call no credential (what a
      caller's own injected HTTP client adds by default is stated for both); a Responses stream
      dropped at its terminal event is reported as aborted.
    - Headers and routing (C9, C34): the SDK owns its header slots, and
      excluded routes stay untracked in every spelling.
    - Recorder (C10, C14): at most one report per call over every sequence of
      methods, and its exact contents.
    - Reporter (C5 to C7, C30 to C33, C39): memory bounds under every
      interleaving, the schema of every document sent, a refinement from the
      threads to the atomic steps, that a close ends, exact retirement of what
      was answered, conservation of counts, pacing and shutdown.

    Other theorems support these: what a builder configures, the exact outcome of abandoned and broken
    streams, header and back-off bounds, closed vocabularies, canonical
    routes, latency buckets, commuting counters, round trips of one event, what
    an attestation document alone establishes, that endpoint calls are replay
    safe and buffered calls settle their record, and the totality of receipt
    verification.  Five theorems record where the code and its intent or its
    documentation part: [terminal_event_then_drop_is_aborted] (C40),
    [worker_flushes_spaced] (C33: after the first flush a backlog is not
    flushed early), [overflowing_age_is_accepted], [ffi_success_is_200] and
    [evicted_in_flight_counted_twice].

    ** Fuel and bounds

    The retry loop runs on fuel [max_retries + 1], proved enough: the outcome
    [OutOfFuel] and the panic of an index out of range are unreachable (C15).
    The loops over a response stream advance by at least one byte, so its
    length is enough fuel (C11 proves that the digest always returns).
    Trimming a batch to its byte limit removes one item per step and starts
    with one unit of fuel per item and one more.  Popping trailing slashes,
    trimming and decimal printing start with the length of their input (or
    its bit length).  A stream is polled with a list of instants, and the
    stream claims ask for more polls than frames, which is what reading it to
    its end means.  Durations and instants are unbounded naturals of
    nanoseconds; counts, statuses and f64 values keep the widths and clamps
    of the code.

    ** Not modelled

    The wrap-around of the plain 64-bit counters of the reporter: they are
    unbounded naturals, and the schema of the documents asks no upper bound of
    the two members that carry them.  A network operation that never
    completes: a [Fut] has a finite duration, cut by the deadline if there is
    one, so that the engine returns (C15) is about the engine and not about a
    peer that stays silent on a call without a timeout.  Third-party
    code is a parameter: the framing of the eventsource-stream crate, the
    network and HTTP client construction, UUIDs and random tokens, the
    cryptographic primitives, JWT decoding and JSON text.  Whether a runtime
    or a thread can be had is an argument of the reporter's steps.  The
    serialisation serde derives follows the documented meaning of its
    attributes, without its error texts.  Accessors that only return a field
    have no definition of their own.  Of the unit tests, those that open
    sockets of their own, read the frozen fixture files or need a batch above
    64 KiB are not evaluated.  The examples and the release scripts only call
    the SDK. *)
From stdpp Require Export base tactics option list numbers strings gmap.
From Stdlib Require Export Ascii.


(** ** Notation scope and hint database of the development *)

Declare Scope sdk_scope.
Delimit Scope sdk_scope with sdk.
Create HintDb sdk.
#[global] Open Scope sdk_scope.

(** ** Rust's [Result]

    [result E A] is [std::result::Result<A, E>]; the [?] operator is the
    bind of stdpp's monad notation ([x ← e; k]). *)

Inductive result (E A : Type) : Type :=
| Ok (value : A)
| Err (error : E).
Arguments Ok {E A} value.
Arguments Err {E A} error.

#[global] Instance result_bind {E} : MBind (result E) := λ A B f r,
  match r with Ok a => f a | Err e => Err e end.
#[global] Instance result_ret {E} : MRet (result E) := λ A a, Ok a.
#[global] Instance result_fmap {E} : FMap (result E) := λ A B f r,
  match r with Ok a => Ok (f a) | Err e => Err e end.

Definition map_err {E F A} (f : E → F) (r : result E A) : result F A :=
  match r with Ok a => Ok a | Err e => Err (f e) end.

(** [Result::ok]. *)
Definition ok {E A} (r : result E A) : option A :=
  match r with Ok a => Some a | Err _ => None end.

(** [Option::ok_or]. *)
Definition ok_or {E A} (e : E) (o : option A) : result E A :=
  match o with Some a => Ok a | None => Err e end.

Definition is_ok {E A} (r : result E A) : bool :=
  match r with Ok _ => true | Err _ => false end.

(** ** [Option] combinators of the Rust standard library *)

(** [Option::and_then], chained left to right as in the sources. *)
Definition and_then {A B} (o : option A) (f : A → option B) : option B :=
  match o with Some a => f a | None => None end.
Notation "o >>? f" := (and_then o f) (at level 50, left associativity) : sdk_scope.

(** [Option::filter]. *)
Definition opt_filter {A} (p : A → bool) (o : option A) : option A :=
  match o with Some a => if p a then Some a else None | None => None end.

(** [Option::or] and [Option::or_else] (the alternative is pure here). *)
Definition opt_or {A} (o alt : option A) : option A :=
  match o with Some a => Some a | None => alt end.

(** [Option::is_some_and]. *)
Definition is_some_and {A} (p : A → bool) (o : option A) : bool :=
  match o with Some a => p a | None => false end.

(** [Option::is_none_or]. *)
Definition is_none_or {A} (p : A → bool) (o : option A) : bool :=
  match o with Some a => p a | None => true end.

(** ** Record update: [r <| field := v |>]

    A record type opts in with a [Settable] instance giving its eta
    expansion; the update of one field is then found by instance search. *)

Class Settable (R : Type) := eta : R → R.
Class Setter {R T : Type} (field : R → T) := modify : (T → T) → R → R.
Arguments modify {R T} field {_} f r /.

Ltac build_setter :=
  match goal with
  | |- @Setter ?R ?T ?field =>
      refine (fun (f : T -> T) (r : R) =>
        ltac:(let full := eval hnf in (@eta R _ r) in
              match (eval pattern (field r) in full) with
              | ?ctx _ =>
                  let body := eval cbv beta in (ctx (f (field r))) in exact body
              end))
  end.
#[global] Hint Extern 1 (@Setter _ _ _) => build_setter : typeclass_instances.

#[warnings="-postfix-notation-not-level-1"]
Notation "r <| field := v |>" := (modify field (λ _, v) r)
  (at level 12, left associativity) : sdk_scope.

(** ** Machine integers

    [u16], [u64] and [usize] values are [N]; [i64] values are [Z].  The
    wrap-around of the source is written out: every arithmetic step the
    source performs is saturating, checked or provably in range. *)

Definition u64_max : N := 18446744073709551615.
Definition usize_max : N := u64_max.
Definition sat_add (a b : N) : N := N.min (a + b) u64_max.
(** [saturating_sub] is exactly truncated subtraction on [N]. *)
Definition sat_sub (a b : N) : N := (a - b)%N.
Definition clamp (x lo hi : N) : N := N.min (N.max x lo) hi.
Definition in_range (lo hi x : N) : bool := (lo <=? x)%N && (x <=? hi)%N.

(** [Duration] and [Instant] are nanosecond counts. *)
Definition Duration := N.
Definition Instant := N.
Definition ns_per_ms : N := 1000000.
Definition ns_per_s : N := 1000000000.
Definition from_millis (ms : N) : Duration := (ms * ns_per_ms)%N.
Definition from_secs (s : N) : Duration := (s * ns_per_s)%N.
Definition as_millis (d : Duration) : N := (d / ns_per_ms)%N.
Definition as_secs (d : Duration) : N := (d / ns_per_s)%N.

(** ** Proof automation *)

(** Case analysis on the scrutinee of the first [match] in sight. *)
Ltac split_match :=
  match goal with
  | |- context [match ?x with _ => _ end] => destruct x eqn:?
  | H : context [match ?x with _ => _ end] |- _ => destruct x eqn:?
  end.
Ltac split_matches := repeat (split_match; simplify_eq/=).

(** Reflect the boolean tests of the source into propositions. *)
Ltac reflect :=
  repeat match goal with
  | H : _ && _ = true |- _ => apply andb_true_iff in H as [? ?]
  | H : _ || _ = false |- _ => apply orb_false_iff in H as [? ?]
  | H : negb _ = true |- _ => apply negb_true_iff in H
  | H : negb _ = false |- _ => apply negb_false_iff in H
  | H : N.leb _ _ = true |- _ => apply N.leb_le in H
  | H : N.leb _ _ = false |- _ => apply N.leb_gt in H
  | H : N.ltb _ _ = true |- _ => apply N.ltb_lt in H
  | H : N.ltb _ _ = false |- _ => apply N.ltb_ge in H
  | H : N.eqb _ _ = true |- _ => apply N.eqb_eq in H
  | H : N.eqb _ _ = false |- _ => apply N.eqb_neq in H
  | H : Nat.leb _ _ = true |- _ => apply Nat.leb_le in H
  | H : Nat.leb _ _ = false |- _ => apply Nat.leb_gt in H
  | H : Nat.ltb _ _ = true |- _ => apply Nat.ltb_lt in H
  | H : Nat.ltb _ _ = false |- _ => apply Nat.ltb_ge in H
  | H : bool_decide _ = true |- _ => apply bool_decide_eq_true in H
  | H : bool_decide _ = false |- _ => apply bool_decide_eq_false in H
  end.

(** ** Generic lemmas *)

Lemma sat_add_bound a b : (sat_add a b <= u64_max)%N.
Proof. unfold sat_add. lia. Qed.

Lemma sat_add_exact a b : (a + b <= u64_max)%N → sat_add a b = (a + b)%N.
Proof. unfold sat_add. lia. Qed.

Lemma clamp_bounds x lo hi : (lo <= hi)%N → (lo <= clamp x lo hi <= hi)%N.
Proof. unfold clamp. lia. Qed.

Lemma clamp_id x lo hi : (lo <= x <= hi)%N → clamp x lo hi = x.
Proof. unfold clamp. lia. Qed.

Lemma in_range_true lo hi x : in_range lo hi x = true ↔ (lo <= x <= hi)%N.
Proof. unfold in_range. rewrite andb_true_iff, !N.leb_le. done. Qed.

Lemma is_ok_inv {E A} (r : result E A) : is_ok r = true → ∃ a, r = Ok a.
Proof. destruct r; [by eexists|done]. Qed.

Lemma bind_Ok {E A B} (r : result E A) (f : A → result E B) b :
  (r ≫= f) = Ok b ↔ ∃ a, r = Ok a ∧ f a = Ok b.
Proof. destruct r; cbn; naive_solver. Qed.

Lemma map_err_Ok {E F A} (f : E → F) (r : result E A) a : map_err f r = Ok a ↔ r = Ok a.
Proof. destruct r; cbn; naive_solver. Qed.

Lemma ok_or_Ok {E A} (e : E) (o : option A) a : ok_or e o = Ok a ↔ o = Some a.
Proof. destruct o; cbn; naive_solver. Qed.

(** Inverts the successful run of a sequence of fallible steps. *)
Ltac inv_ok :=
  repeat match goal with
  | H : (_ ≫= _) = Ok _ |- _ => apply bind_Ok in H as (?&?&?)
  | H : map_err _ _ = Ok _ |- _ => apply map_err_Ok in H
  | H : ok_or _ _ = Ok _ |- _ => apply ok_or_Ok in H
  | H : Ok _ = Ok _ |- _ => injection H as H
  | H : Err _ = Ok _ |- _ => discriminate H
  end.

Lemma opt_filter_Some {A} (p : A → bool) o a :
  opt_filter p o = Some a ↔ o = Some a ∧ p a = true.
Proof.
  destruct o as [x|]; simpl; [|naive_solver].
  destruct (p x) eqn:?; split; [naive_solver..|done|intros [[= ->] ?]; congruence].
Qed.

Lemma from_millis_as_millis ms : as_millis (from_millis ms) = ms.
Proof. unfold as_millis, from_millis, ns_per_ms. by rewrite N.div_mul. Qed.

Lemma as_millis_mono d e : (d <= e)%N → (as_millis d <= as_millis e)%N.
Proof. apply N.Div0.div_le_mono. Qed.

#[export] Hint Resolve sat_add_bound clamp_bounds : sdk.

(** Rust's [Iterator::position]. *)
Fixpoint position {A} (p : A → bool) (l : list A) : option nat :=
  match l with
  | [] => None
  | x :: l => if p x then Some 0 else S <$> position p l
  end.

Lemma position_Some {A} (p : A → bool) (l : list A) i :
  position p l = Some i ↔
  ∃ x, l !! i = Some x ∧ p x = true ∧ ∀ j y, j < i → l !! j = Some y → p y = false.
Proof.
  revert i. induction l as [|x l IH]; intros i; simpl.
  { split; [done|]. by intros (?&?&?). }
  destruct (p x) eqn:Hx.
  - split.
    + intros [= <-]. exists x. split_and!; [done..|lia].
    + intros (y&Hy&Hp&Hlt). destruct i as [|i]; [done|].
      rewrite (Hlt 0 x) in Hx; [done|lia|done].
  - rewrite fmap_Some. split.
    + intros (k&Hk%IH&->). destruct Hk as (y&?&?&Hlt). exists y.
      split_and!; [done..|]. intros [|j] z ? Hz; simpl in *; [congruence|].
      eapply Hlt; [|done]. lia.
    + intros (y&Hy&Hp&Hlt). destruct i as [|i]; simpl in *; [congruence|].
      exists i. split; [|done]. apply IH. exists y. split_and!; [done..|].
      intros j z ? ?. apply (Hlt (S j)); [lia|done].
Qed.

Lemma position_lt {A} (p : A → bool) (l : list A) i :
  position p l = Some i → i < length l.
Proof. intros (x&?&_)%position_Some. by eapply lookup_lt_Some. Qed.

Lemma position_None {A} (p : A → bool) (l : list A) :
  position p l = None ↔ Forall (λ x, p x = false) l.
Proof.
  induction l as [|x l IH]; simpl; [done|].
  rewrite Forall_cons, <-IH. destruct (p x), (position p l); naive_solver.
Qed.

(** Rust's [Iterator::find_map]. *)
Fixpoint find_map {A B} (f : A → option B) (l : list A) : option B :=
  match l with
  | [] => None
  | x :: l => match f x with Some b => Some b | None => find_map f l end
  end.
