(* ===== verification/Text.v ===== *)
(** * Byte strings and the parts of [str] the SDK uses

    A Rust [String] or [&str] is its UTF-8 byte sequence, an 8-bit
    [ascii] list.  The functions below model the standard-library methods
    the sources call, on those bytes: [to_ascii_lowercase], [trim] (Unicode
    white space), [split], [strip_prefix], [parse::<u64>] and the decimal
    [Display] of unsigned integers. *)
From S2P Require Import Prelude.

#[global] Arguments String.append !_ _ : simpl nomatch.

Definition byte_of (c : ascii) : N := N_of_ascii c.

Definition is_ascii_digit (c : ascii) : bool := in_range 48 57 (byte_of c).
Definition is_ascii_lowercase (c : ascii) : bool := in_range 97 122 (byte_of c).
Definition is_ascii_uppercase (c : ascii) : bool := in_range 65 90 (byte_of c).
Definition is_ascii_alphanumeric (c : ascii) : bool :=
  is_ascii_digit c || is_ascii_lowercase c || is_ascii_uppercase c.

Definition lower_byte (c : ascii) : ascii :=
  if is_ascii_uppercase c then ascii_of_N (byte_of c + 32) else c.

(** [str::to_ascii_lowercase]. *)
Fixpoint to_ascii_lowercase (s : string) : string :=
  match s with
  | EmptyString => EmptyString
  | String c s => String (lower_byte c) (to_ascii_lowercase s)
  end.

(** [str::eq_ignore_ascii_case]. *)
Definition eq_ignore_ascii_case (a b : string) : bool :=
  bool_decide (to_ascii_lowercase a = to_ascii_lowercase b).

(** [bytes().all(p)]. *)
Fixpoint all_bytes (p : ascii → bool) (s : string) : bool :=
  match s with
  | EmptyString => true
  | String c s => p c && all_bytes p s
  end.

(** [byte_slice.contains(&byte)]. *)
Fixpoint contains_byte (s : string) (c : ascii) : bool :=
  match s with
  | EmptyString => false
  | String d s => bool_decide (c = d) || contains_byte s c
  end.

(** [str::strip_prefix]. *)
Fixpoint strip_prefix (p s : string) : option string :=
  match p, s with
  | EmptyString, _ => Some s
  | String c p, String d s => if bool_decide (c = d) then strip_prefix p s else None
  | String _ _, EmptyString => None
  end.

Definition starts_with (p s : string) : bool := bool_decide (is_Some (strip_prefix p s)).

Fixpoint string_drop (n : nat) (s : string) : string :=
  match n, s with
  | O, _ => s
  | S n, String _ s => string_drop n s
  | S _, EmptyString => EmptyString
  end.

(** [str::ends_with]. *)
Definition ends_with (p s : string) : bool :=
  (String.length p <=? String.length s)%nat
  && bool_decide (string_drop (String.length s - String.length p) s = p).

(** [str::contains] of a substring. *)
Fixpoint contains (p s : string) : bool :=
  starts_with p s
  || match s with EmptyString => false | String _ s => contains p s end.

(** [str::split] on a byte predicate: always at least one piece. *)
Fixpoint split_by (p : ascii → bool) (s : string) : list string :=
  match s with
  | EmptyString => [EmptyString]
  | String c s =>
      if p c then EmptyString :: split_by p s
      else match split_by p s with
           | [] => [String c EmptyString]
           | piece :: rest => String c piece :: rest
           end
  end.

(** [str::split_once] on one byte. *)
Fixpoint split_once (sep : ascii) (s : string) : option (string * string) :=
  match s with
  | EmptyString => None
  | String c s =>
      if bool_decide (c = sep) then Some (EmptyString, s)
      else prod_map (String c) id <$> split_once sep s
  end.

(** [str::trim_start_matches] of one byte. *)
Fixpoint trim_start_matches (c : ascii) (s : string) : string :=
  match s with
  | String d s' => if bool_decide (c = d) then trim_start_matches c s' else s
  | EmptyString => EmptyString
  end.

(** *** [str::trim]

    The code points with the Unicode [White_Space] property, as UTF-8. *)
Definition bytes (l : list N) : string := fold_right (λ b s, String (ascii_of_N b) s) EmptyString l.

Definition white_space : list string := map bytes
  ([ [9]; [10]; [11]; [12]; [13]; [32]; [194; 133]; [194; 160]; [225; 154; 128];
     [226; 128; 168]; [226; 128; 169]; [226; 128; 175]; [226; 129; 159]; [227; 128; 128] ]
   ++ map (λ k, [226; 128; 128 + k]) [0; 1; 2; 3; 4; 5; 6; 7; 8; 9; 10])%N.

Definition strip_suffix (p s : string) : option string :=
  if ends_with p s then Some (String.substring 0 (String.length s - String.length p) s) else None.

(** Each round removes at least one byte, so [length s] rounds suffice. *)
Fixpoint trim_rounds (strip : string → option string) (fuel : nat) (s : string) : string :=
  match fuel with
  | O => s
  | S fuel => match strip s with Some s' => trim_rounds strip fuel s' | None => s end
  end.

Definition trim_start (s : string) : string :=
  trim_rounds (λ s, find_map (λ w, strip_prefix w s) white_space) (String.length s) s.
Definition trim_end (s : string) : string :=
  trim_rounds (λ s, find_map (λ w, strip_suffix w s) white_space) (String.length s) s.
Definition trim (s : string) : string := trim_end (trim_start s).

(** *** Decimal integers *)

Definition digit_value (c : ascii) : option N :=
  if is_ascii_digit c then Some (byte_of c - 48)%N else None.

(** The accumulator loop of [u64::from_str]: overflow is an error. *)
Fixpoint parse_digits (acc : N) (s : string) : option N :=
  match s with
  | EmptyString => Some acc
  | String c s =>
      d ← digit_value c;
      let acc := (acc * 10 + d)%N in
      if (acc <=? u64_max)%N then parse_digits acc s else None
  end.

(** [str::parse::<u64>]: an optional [+], then at least one digit. *)
Definition parse_u64 (s : string) : option N :=
  let digits := match s with String "+" s => s | _ => s end in
  match digits with EmptyString => None | _ => parse_digits 0 digits end.

Definition digit_char (d : N) : ascii := ascii_of_N (48 + d).

Fixpoint show_digits (fuel : nat) (n : N) (acc : string) : string :=
  let acc := String (digit_char (n mod 10)) acc in
  match fuel with
  | O => acc
  | S fuel => if (n <? 10)%N then acc else show_digits fuel (n / 10) acc
  end.

(** Decimal [Display] of an unsigned integer; 20 digits hold any [u64]
    and the fuel grows with the number beyond that. *)
Definition show_N (n : N) : string := show_digits (20 + N.to_nat (N.log2 n)) n EmptyString.

(** [format!("{}{}", ..)] of pieces and [join]. *)
Fixpoint concat_strings (l : list string) : string :=
  match l with [] => EmptyString | s :: l => s +:+ concat_strings l end.

Fixpoint join (sep : string) (l : list string) : string :=
  match l with
  | [] => EmptyString
  | [s] => s
  | s :: l => s +:+ sep +:+ join sep l
  end.

Definition is_empty (s : string) : bool := match s with EmptyString => true | _ => false end.

Lemma is_empty_spec s : is_empty s = true ↔ s = "".
Proof. by destruct s. Qed.

Lemma is_empty_false s : is_empty s = false ↔ s ≠ "".
Proof. by destruct s. Qed.

(** ** Lemmas *)

Lemma contains_byte_true s c :
  contains_byte s c = true ↔ ∃ before after, s = before +:+ String c after.
Proof.
  induction s as [|d s IH]; cbn [contains_byte].
  - split; [done|]. by intros ([]&after&?).
  - rewrite orb_true_iff, bool_decide_eq_true, IH. split.
    + intros [->|(before&after&->)]; [by exists "", s|by exists (String d before), after].
    + intros ([|e before]&after&[= -> ->]); eauto.
Qed.

Lemma length_append (s t : string) : String.length (s +:+ t) = String.length s + String.length t.
Proof. induction s; simpl; lia. Qed.

Lemma append_nil_r (s : string) : s +:+ "" = s.
Proof. induction s; simpl; congruence. Qed.

Lemma append_assoc (a b c : string) : a +:+ (b +:+ c) = (a +:+ b) +:+ c.
Proof. induction a; simpl; congruence. Qed.

Lemma all_bytes_app p s t : all_bytes p (s +:+ t) = all_bytes p s && all_bytes p t.
Proof. induction s; simpl; [done|]. rewrite IHs. by rewrite andb_assoc. Qed.

Lemma length_lowercase s : String.length (to_ascii_lowercase s) = String.length s.
Proof. induction s; simpl; congruence. Qed.

Lemma lower_byte_idemp c : lower_byte (lower_byte c) = lower_byte c.
Proof. by destruct c as [[][][][][][][][]]. Qed.

Lemma to_ascii_lowercase_idemp s :
  to_ascii_lowercase (to_ascii_lowercase s) = to_ascii_lowercase s.
Proof. induction s; simpl; [done|]. by rewrite lower_byte_idemp, IHs. Qed.

Lemma strip_prefix_Some p s t : strip_prefix p s = Some t ↔ s = p +:+ t.
Proof.
  revert s. induction p as [|c p IH]; intros s; simpl; [naive_solver|].
  destruct s as [|d s]; [naive_solver|]. case_bool_decide; [|naive_solver].
  subst. rewrite IH. naive_solver.
Qed.

Lemma starts_with_spec p s : starts_with p s = true ↔ ∃ t, s = p +:+ t.
Proof.
  unfold starts_with. rewrite bool_decide_eq_true. unfold is_Some.
  by setoid_rewrite strip_prefix_Some.
Qed.

Lemma string_drop_app s t : string_drop (String.length s) (s +:+ t) = t.
Proof. induction s; simpl; done. Qed.

Lemma string_drop_split n s :
  (n <= String.length s)%nat → s = String.substring 0 n s +:+ string_drop n s.
Proof.
  revert n. induction s as [|c s IH]; intros [|n] Hn; simpl in *; try done; try lia.
  f_equal. apply IH. lia.
Qed.

Lemma ends_with_spec p s : ends_with p s = true ↔ ∃ t, s = t +:+ p.
Proof.
  unfold ends_with. rewrite andb_true_iff, Nat.leb_le, bool_decide_eq_true. split.
  - intros [Hl Hd]. exists (String.substring 0 (String.length s - String.length p) s).
    rewrite (string_drop_split (String.length s - String.length p) s) at 1 by lia.
    by rewrite Hd.
  - intros [t ->]. rewrite length_append. split; [lia|].
    replace (_ + _ - _) with (String.length t) by lia. apply string_drop_app.
Qed.

Lemma string_drop_app_add s t n : string_drop (String.length s + n) (s +:+ t) = string_drop n t.
Proof. induction s; simpl; done. Qed.

Lemma ends_with_app p s t :
  (String.length p <= String.length t)%nat → ends_with p (s +:+ t) = ends_with p t.
Proof.
  intros Hl. unfold ends_with. rewrite length_append.
  rewrite !(proj2 (Nat.leb_le _ _)) by lia. simpl.
  replace (_ + _ - _) with (String.length s + (String.length t - String.length p)) by lia.
  by rewrite string_drop_app_add.
Qed.

Lemma split_by_none p s : all_bytes (λ c, negb (p c)) s = true → split_by p s = [s].
Proof.
  induction s as [|c s IH]; simpl; [done|]. intros [Hc Hs]%andb_true_iff.
  apply negb_true_iff in Hc as ->. by rewrite IH.
Qed.

Lemma contains_spec p s : contains p s = true ↔ ∃ a b, s = a +:+ p +:+ b.
Proof.
  induction s as [|c s IH]; simpl; rewrite orb_true_iff, starts_with_spec.
  - split.
    + intros [[t Ht]|]; [|done]. by exists "", t.
    + intros (a&b&H). left. destruct a; simpl in H; [by exists b|done].
  - rewrite IH. split.
    + intros [[t ->]|(a&b&->)]; [by exists "", t|]. by exists (String c a), b.
    + intros ([|d a]&b&H); simpl in H; [left; by exists b|]. right.
      injection H as -> ->. by exists a, b.
Qed.

Lemma digit_char_digit n : is_ascii_digit (digit_char (n mod 10)) = true.
Proof.
  unfold is_ascii_digit, digit_char, byte_of.
  pose proof (N.mod_upper_bound n 10 ltac:(done)).
  rewrite N_ascii_embedding by lia. apply in_range_true. revert H. generalize (n mod 10)%N. intros m Hm. lia.
Qed.

Lemma show_digits_spec fuel n acc :
  all_bytes is_ascii_digit acc = true →
  all_bytes is_ascii_digit (show_digits fuel n acc) = true.
Proof.
  revert n acc. induction fuel as [|fuel IH]; intros n acc Hacc; simpl.
  - by rewrite digit_char_digit.
  - destruct (n <? 10)%N; [|apply IH]; simpl; by rewrite digit_char_digit.
Qed.

Lemma show_N_digits n : all_bytes is_ascii_digit (show_N n) = true.
Proof. by apply show_digits_spec. Qed.

Lemma show_digits_length fuel n acc k :
  (0 < k)%N → (n < 10 ^ k)%N →
  (N.of_nat (String.length (show_digits fuel n acc)) <= k + N.of_nat (String.length acc))%N.
Proof.
  revert n acc k. induction fuel as [|fuel IH]; intros n acc k Hk Hn; simpl; [lia|].
  destruct (n <? 10)%N eqn:E; [simpl; lia|]. apply N.ltb_ge in E.
  destruct (decide (k = 1)%N) as [->|]; [lia|].
  specialize (IH (n / 10)%N (String (digit_char (n mod 10)) acc) (k - 1)%N).
  simpl in IH. enough (n / 10 < 10 ^ (k - 1))%N by lia.
  apply N.Div0.div_lt_upper_bound. rewrite <-N.pow_succ_r'.
  by replace (N.succ (k - 1)) with k by lia.
Qed.

Lemma show_N_length n k :
  (0 < k)%N → (n < 10 ^ k)%N → (N.of_nat (String.length (show_N n)) <= k)%N.
Proof. intros. rewrite <-(N.add_0_r k). by apply (show_digits_length _ _ ""). Qed.

Lemma show_digits_nonempty fuel n acc : show_digits fuel n acc ≠ "".
Proof.
  revert n acc. induction fuel as [|fuel IH]; intros n acc; simpl; [done|].
  destruct (n <? 10)%N; [done|apply IH].
Qed.

Lemma show_N_nonempty n : show_N n ≠ "".
Proof. apply show_digits_nonempty. Qed.

Lemma parse_digits_bound acc s n :
  (acc <= u64_max)%N → parse_digits acc s = Some n → (n <= u64_max)%N.
Proof.
  revert acc. induction s as [|c s IH]; simpl; intros acc Ha; [naive_solver|].
  destruct (digit_value c) as [d|]; simpl; [|done].
  destruct (_ <=? _)%N eqn:E; [|done]. apply N.leb_le in E. by apply IH.
Qed.

Lemma parse_u64_bound s n : parse_u64 s = Some n → (n <= u64_max)%N.
Proof.
  unfold parse_u64. generalize (match s with String "+" s => s | _ => s end).
  intros t. destruct t; [done|]. by apply parse_digits_bound.
Qed.
