(* ===== verification/Bytes.v ===== *)
(** * Byte slices: UTF-8 validation, hexadecimal, subslice search

    [std::str::from_utf8], the [hex] helpers of [attestation.rs] and
    [receipts.rs], and the slice operations of the receipt framing.  A byte
    slice is a [string]. *)
From S2P Require Import Prelude Text.

(** ** [std::str::from_utf8] *)

(** What starts at the head of a slice: a character of some width, an
    invalid sequence of some length, or a sequence cut short. *)
Inductive Utf8 := U8Char (width : nat) | U8Bad (len : N) | U8Incomplete.

Definition continuation (b : N) : bool := in_range 128 191 b.

(** The bytes after the first, each with its test. *)
Fixpoint utf8_tail (tests : list (N → bool)) (seen : N) (s : string) : Utf8 :=
  match tests, s with
  | [], _ => U8Char (N.to_nat seen)
  | _ :: _, EmptyString => U8Incomplete
  | test :: tests, String c s =>
      if test (byte_of c) then utf8_tail tests (seen + 1) s else U8Bad seen
  end.

Definition utf8_head (s : string) : Utf8 :=
  match s with
  | EmptyString => U8Char 0
  | String c s =>
      let b := byte_of c in
      if (b <? 128)%N then U8Char 1
      else if in_range 194 223 b then utf8_tail [continuation] 1 s
      else if (b =? 224)%N then utf8_tail [in_range 160 191; continuation] 1 s
      else if (b =? 237)%N then utf8_tail [in_range 128 159; continuation] 1 s
      else if in_range 225 239 b then utf8_tail [continuation; continuation] 1 s
      else if (b =? 240)%N then utf8_tail [in_range 144 191; continuation; continuation] 1 s
      else if in_range 241 243 b then utf8_tail [continuation; continuation; continuation] 1 s
      else if (b =? 244)%N then utf8_tail [in_range 128 143; continuation; continuation] 1 s
      else U8Bad 1
  end.

(** The index and the kind of the first error; a round consumes at least one
    byte. *)
Fixpoint utf8_error (fuel : nat) (index : N) (s : string) : option (N * option N) :=
  match fuel, s with
  | O, _ | _, EmptyString => None
  | S fuel, _ =>
      match utf8_head s with
      | U8Char width => utf8_error fuel (index + N.of_nat width) (string_drop width s)
      | U8Bad len => Some (index, Some len)
      | U8Incomplete => Some (index, None)
      end
  end.

(** [from_utf8] with the [Display] of its error. *)
Definition from_utf8 (s : string) : result string string :=
  match utf8_error (String.length s) 0 s with
  | None => Ok s
  | Some (index, Some len) =>
      Err ("invalid utf-8 sequence of " +:+ show_N len +:+ " bytes from index " +:+ show_N index)
  | Some (index, None) => Err ("incomplete utf-8 byte sequence from index " +:+ show_N index)
  end.

Definition is_ascii (s : string) : bool := all_bytes (λ c, (byte_of c <? 128)%N) s.

(** ** Hexadecimal *)

Definition is_ascii_hexdigit (c : ascii) : bool :=
  is_ascii_digit c || in_range 97 102 (byte_of c) || in_range 65 70 (byte_of c).

Definition hex_char (n : N) : ascii := ascii_of_N (if (n <? 10)%N then 48 + n else 87 + n).

(** [write!(output, "{byte:02x}")] for each byte. *)
Fixpoint hex (s : string) : string :=
  match s with
  | EmptyString => EmptyString
  | String c s => String (hex_char (byte_of c / 16)) (String (hex_char (byte_of c mod 16)) (hex s))
  end.

(** ** Subslices *)

(** [windows(needle.len()).position(|window| window == needle)], for a needle
    that is not empty. *)
Fixpoint find_subslice (haystack needle : string) : option nat :=
  match strip_prefix needle haystack with
  | Some _ => Some 0
  | None =>
      match haystack with
      | EmptyString => None
      | String _ haystack => S <$> find_subslice haystack needle
      end
  end.

(** [&s[start..end]] in range. *)
Definition slice (s : string) (start stop : nat) : string :=
  String.substring 0 (stop - start) (string_drop start s).

(** Line ends. *)
Definition newline : string := String (ascii_of_N 10) EmptyString.
Definition carriage_return : string := String (ascii_of_N 13) EmptyString.

(** ** Lemmas *)

Lemma is_ascii_utf8_error fuel index s : is_ascii s = true → utf8_error fuel index s = None.
Proof.
  revert index s. induction fuel as [|fuel IH]; intros index s Hs; [by destruct s|].
  destruct s as [|c s]; [done|]. cbn [is_ascii all_bytes] in Hs.
  apply andb_true_iff in Hs as [Hc Hs]. cbn [utf8_error utf8_head]. rewrite Hc. by apply IH.
Qed.

Lemma from_utf8_ascii s : is_ascii s = true → from_utf8 s = Ok s.
Proof. intros Hs. unfold from_utf8. by rewrite is_ascii_utf8_error. Qed.

Lemma from_utf8_id s t : from_utf8 s = Ok t → t = s.
Proof. unfold from_utf8. destruct (utf8_error _ _ _) as [[? []]|]; congruence. Qed.

Lemma length_hex s : String.length (hex s) = 2 * String.length s.
Proof. induction s; cbn [hex String.length]; lia. Qed.

Lemma hex_byte_lower c :
  let digits := String (hex_char (byte_of c / 16)) (String (hex_char (byte_of c mod 16)) "") in
  all_bytes is_ascii_hexdigit digits = true ∧ to_ascii_lowercase digits = digits.
Proof. destruct c as [[][][][][][][][]]; split; vm_compute; reflexivity. Qed.

Lemma hex_digits s : all_bytes is_ascii_hexdigit (hex s) = true.
Proof.
  induction s as [|c s IH]; [done|]. pose proof (proj1 (hex_byte_lower c)) as H.
  cbn [hex all_bytes] in *. rewrite IH. by rewrite andb_true_r in *.
Qed.

Lemma lowercase_app s t :
  to_ascii_lowercase (s +:+ t) = to_ascii_lowercase s +:+ to_ascii_lowercase t.
Proof. induction s; simpl; congruence. Qed.

Lemma hex_lower s : to_ascii_lowercase (hex s) = hex s.
Proof.
  induction s as [|c s IH]; [done|]. pose proof (proj2 (hex_byte_lower c)) as H.
  cbn [hex to_ascii_lowercase] in *. rewrite IH. congruence.
Qed.


(** *** Searching *)

Lemma strip_prefix_app p s t u : strip_prefix p s = Some u → strip_prefix p (s +:+ t) = Some (u +:+ t).
Proof. rewrite !strip_prefix_Some. intros ->. by rewrite append_assoc. Qed.

Lemma find_subslice_Some s n i :
  find_subslice s n = Some i → ∃ a b, s = a +:+ n +:+ b ∧ String.length a = i.
Proof.
  revert i. induction s as [|c s IH]; intros i; simpl;
    destruct (strip_prefix n _) as [t|] eqn:E; try (apply strip_prefix_Some in E as ->).
  - intros [= <-]. by exists "", t.
  - done.
  - intros [= <-]. by exists "", t.
  - destruct (find_subslice s n) as [j|]; [|done]. intros [= <-].
    destruct (IH j eq_refl) as (a&b&->&<-). by exists (String c a), b.
Qed.

(** The search finds the first occurrence. *)
Lemma find_subslice_first a n b :
  ∃ i, find_subslice (a +:+ n +:+ b) n = Some i ∧ i <= String.length a.
Proof.
  induction a as [|c a (i&Hi&Hle)].
  - exists 0. split; [|done]. change ("" +:+ n +:+ b) with (n +:+ b).
    assert (strip_prefix n (n +:+ b) = Some b) as Hs by (by apply strip_prefix_Some).
    destruct (n +:+ b); simpl; by rewrite Hs.
  - change (String c a +:+ n +:+ b) with (String c (a +:+ n +:+ b)).
    simpl. destruct (strip_prefix n _); [exists 0; split; [done|lia]|].
    exists (S i). rewrite Hi. split; [done|simpl; lia].
Qed.

Lemma append_cut x y s t :
  x +:+ y = s +:+ t → String.length x <= String.length s → ∃ z, s = x +:+ z ∧ y = z +:+ t.
Proof.
  revert s. induction x as [|c x IH]; intros s H Hl; [by exists s|].
  destruct s as [|d s]; [simpl in Hl; lia|]. simpl in H. injection H as -> H.
  destruct (IH s H) as (z&->&->); [simpl in Hl; lia|]. by exists z.
Qed.

Lemma append_cut_eq x y s t :
  x +:+ y = s +:+ t → String.length x = String.length s → x = s ∧ y = t.
Proof.
  intros H Hl. destruct (append_cut _ _ _ _ H) as (z&->&->); [lia|].
  rewrite length_append in Hl. destruct z; [by rewrite append_nil_r|simpl in Hl; lia].
Qed.

(** More input does not move the first occurrence. *)
Lemma find_subslice_app s t n i :
  find_subslice s n = Some i → find_subslice (s +:+ t) n = Some i.
Proof.
  intros Hs. destruct (find_subslice_Some _ _ _ Hs) as (a&b&Hab&Ha).
  destruct (find_subslice_first a n (b +:+ t)) as (j&Hj&Hle).
  rewrite !append_assoc in Hj. rewrite append_assoc in Hab. rewrite <-Hab in Hj. rewrite Hj.
  destruct (find_subslice_Some _ _ _ Hj) as (a'&b'&Hab'&Ha'). rewrite append_assoc in Hab'.
  destruct (append_cut (a' +:+ n) b' s t) as (z&->&_);
    [done|rewrite Hab, !length_append; lia|].
  rewrite <-append_assoc in Hs. destruct (find_subslice_first a' n z) as (k&Hk&Hk'). f_equal.
  rewrite Hs in Hk. injection Hk as ->. lia.
Qed.

Lemma find_subslice_None s n a b : find_subslice s n = None → s ≠ a +:+ n +:+ b.
Proof. intros Hs ->. destruct (find_subslice_first a n b) as (i&Hi&_). congruence. Qed.

(** *** Slices *)

Lemma substring_app s t : String.substring 0 (String.length s) (s +:+ t) = s.
Proof. induction s; simpl; [by destruct t|]. by f_equal. Qed.

Lemma slice_middle a b c stop :
  stop = String.length a + String.length b → slice (a +:+ b +:+ c) (String.length a) stop = b.
Proof.
  intros ->. unfold slice. rewrite string_drop_app.
  replace (_ + _ - _) with (String.length b) by lia. apply substring_app.
Qed.

Lemma length_string_drop n s : String.length (string_drop n s) = String.length s - n.
Proof. revert n. induction s as [|c s IH]; intros [|n]; simpl; auto. Qed.

Lemma string_drop_0 s : string_drop 0 s = s.
Proof. by destruct s. Qed.

Lemma string_drop_full a b n : n = String.length a → string_drop n (a +:+ b) = b.
Proof. intros ->. apply string_drop_app. Qed.

Lemma strip_suffix_app s p : strip_suffix p (s +:+ p) = Some s.
Proof.
  unfold strip_suffix. rewrite (proj2 (ends_with_spec p (s +:+ p))) by (by exists s).
  rewrite length_append. replace (_ + _ - _) with (String.length s) by lia.
  by rewrite substring_app.
Qed.

Lemma strip_suffix_Some s p t : strip_suffix p s = Some t ↔ s = t +:+ p.
Proof.
  split; [|intros ->; apply strip_suffix_app].
  unfold strip_suffix. destruct (ends_with p s) eqn:E; [|done].
  apply ends_with_spec in E as [u ->]. intros [= <-]. rewrite length_append.
  replace (_ + _ - _) with (String.length u) by lia. by rewrite substring_app.
Qed.

(** *** Splitting *)

Lemma split_by_app p s t :
  all_bytes (λ c, negb (p c)) s = true → ∀ c, p c = true →
  split_by p (s +:+ String c t) = s :: split_by p t.
Proof.
  intros Hs c Hc. induction s as [|d s IH]; simpl.
  - by rewrite Hc.
  - simpl in Hs. apply andb_true_iff in Hs as [Hd Hs]. apply negb_true_iff in Hd as ->.
    by rewrite IH.
Qed.
