(* ===== verification/F64.v ===== *)
(** * IEEE-754 binary64, as far as the SDK computes with it

    [f64] is the Standard Library's executable [spec_float] at precision 53.
    Comparisons are IEEE (a NaN is unordered); [from_secs_f64] and
    [as_secs_f64] are the [Duration] conversions of the Rust standard
    library on nanosecond counts. *)
From Stdlib Require Export SpecFloat.
From S2P Require Import Prelude Text.

Definition f64 := spec_float.
Definition f64_prec : Z := 53.
Definition f64_emax : Z := 1024.

Definition f64_ltb (a b : f64) : bool := SFltb a b.
Definition f64_leb (a b : f64) : bool := SFleb a b.

Definition f64_is_finite (a : f64) : bool :=
  match a with S754_zero _ | S754_finite _ _ _ => true | _ => false end.

(** An integer converted with [as f64] (round to nearest even). *)
Definition f64_of_Z (z : Z) : f64 := binary_normalize f64_prec f64_emax z 0 false.
Definition f64_zero : f64 := S754_zero false.
Definition f64_one : f64 := f64_of_Z 1.
Definition f64_add (a b : f64) : f64 := SFadd f64_prec f64_emax a b.
Definition f64_div (a b : f64) : f64 := SFdiv f64_prec f64_emax a b.

(** [0.01]: the double nearest to one hundredth. *)
Definition f64_hundredth : f64 := f64_div (f64_of_Z 1) (f64_of_Z 100).

(** [f64::min] (a NaN operand is ignored) and [f64::clamp]. *)
Definition f64_min (a b : f64) : f64 :=
  match a, b with
  | S754_nan, _ => b
  | _, S754_nan => a
  | _, _ => if f64_ltb b a then b else a
  end.
Definition f64_clamp (x lo hi : f64) : f64 :=
  let x := if f64_ltb x lo then lo else x in
  if f64_ltb hi x then hi else x.

(** Quotient rounded to nearest, ties to even. *)
Definition div_round_even (n d : N) : N :=
  let q := (n / d)%N in
  let r := (n mod d)%N in
  match (2 * r ?= d)%N with
  | Lt => q
  | Gt => N.succ q
  | Eq => if N.even q then q else N.succ q
  end.

(** [Duration::from_secs_f64]; [None] is its panic (negative, non-finite or
    [2^64] seconds and above). *)
Definition from_secs_f64 (x : f64) : option Duration :=
  match x with
  | S754_zero _ => Some 0%N
  | S754_finite false m e =>
      let ns :=
        if (0 <=? e)%Z then (Npos m * 2 ^ Z.to_N e * ns_per_s)%N
        else div_round_even (Npos m * ns_per_s) (2 ^ Z.to_N (- e)) in
      if (ns <? 2 ^ 64 * ns_per_s)%N then Some ns else None
  | _ => None
  end.

(** [Duration::as_secs_f64]. *)
Definition as_secs_f64 (d : Duration) : f64 :=
  f64_add (f64_of_Z (Z.of_N (d / ns_per_s)))
          (f64_div (f64_of_Z (Z.of_N (d mod ns_per_s))) (f64_of_Z (Z.of_N ns_per_s))).

(** [str::parse::<f64>]: [Sign? ( inf | infinity | nan | Number )], where a
    number has at least one digit and an optional exponent; the decimal is
    rounded once, to nearest even. *)
Fixpoint take_digits (s : string) : string * string :=
  match s with
  | String c t =>
      if is_ascii_digit c then let '(d, r) := take_digits t in (String c d, r) else ("", s)
  | EmptyString => ("", "")
  end.

Fixpoint digits_value (acc : N) (s : string) : N :=
  match s with
  | String c t => digits_value (10 * acc + default 0%N (digit_value c)) t
  | EmptyString => acc
  end.

Definition take_sign (s : string) : bool * string :=
  match s with
  | String "-" t => (true, t)
  | String "+" t => (false, t)
  | _ => (false, s)
  end.

Definition parse_exponent (s : string) : option Z :=
  match s with
  | EmptyString => Some 0%Z
  | String c t =>
      if bool_decide (c = "e"%char) || bool_decide (c = "E"%char) then
        let '(negative, t) := take_sign t in
        match take_digits t with
        | (EmptyString, _) => None
        | (d, EmptyString) =>
            let e := Z.of_N (digits_value 0 d) in Some (if negative then (- e)%Z else e)
        | _ => None
        end
      else None
  end.

(** [mantissa * 10^exponent], correctly rounded. *)
Definition f64_of_decimal (negative : bool) (mantissa : N) (exponent : Z) : f64 :=
  match mantissa with
  | N0 => S754_zero negative
  | Npos m =>
      let '(numerator, denominator) :=
        if (0 <=? exponent)%Z then (Z.to_pos (Z.pos m * 10 ^ exponent), 1%positive)
        else (m, Z.to_pos (10 ^ (- exponent))) in
      SFdiv f64_prec f64_emax (S754_finite negative numerator 0) (S754_finite false denominator 0)
  end.

Definition parse_f64 (s : string) : option f64 :=
  let '(negative, s) := take_sign s in
  if eq_ignore_ascii_case s "inf" || eq_ignore_ascii_case s "infinity"
  then Some (S754_infinity negative)
  else if eq_ignore_ascii_case s "nan" then Some S754_nan
  else
    let '(whole, s) := take_digits s in
    let '(fraction, s) := match s with String "." t => take_digits t | _ => ("", s) end in
    if is_empty (whole +:+ fraction) then None
    else
      exponent ← parse_exponent s;
      Some (f64_of_decimal negative (digits_value 0 (whole +:+ fraction))
              (exponent - Z.of_nat (String.length fraction))).

Lemma div_round_even_bounds n d : (n / d <= div_round_even n d <= N.succ (n / d))%N.
Proof. unfold div_round_even. destruct (_ ?= _)%N; [destruct (N.even _)| |]; lia. Qed.

Lemma f64_min_finite_r a b :
  f64_is_finite a = true → f64_is_finite b = true → f64_is_finite (f64_min a b) = true.
Proof. destruct a, b; simpl; try done; intros _ _; by destruct (f64_ltb _ _). Qed.

Example parse_f64_cases :
  parse_f64 "600" = Some (f64_of_Z 600) ∧ parse_f64 "0.01" = Some f64_hundredth
  ∧ parse_f64 "-0.0" = Some (S754_zero true) ∧ parse_f64 "1e" = None ∧ parse_f64 "." = None
  ∧ parse_f64 "Inf" = Some (S754_infinity false)
  ∧ parse_f64 "2.5E1" = parse_f64 "25." ∧ parse_f64 "1e400" = Some (S754_infinity false).
Proof. split_and!; vm_compute; reflexivity. Qed.
