(* ===== verification/Json.v ===== *)
(** * JSON values

    The public enum [serde_json::Value] as data, and the accessors the
    sources call on it.  An object is its key/value sequence in the map's
    iteration order.  Parsing and printing JSON text belong to serde_json
    and are parameters wherever they are used. *)
From S2P Require Import Prelude F64.

Inductive Number : Type :=
| PosInt (n : N)
| NegInt (z : Z)
| Float (f : f64).

#[warnings="-register-all"]
Inductive Value : Type :=
| VNull
| VBool (b : bool)
| VNumber (n : Number)
| VString (s : string)
| VArray (l : list Value)
| VObject (members : list (string * Value)).

Definition Map := list (string * Value).

Fixpoint map_get (key : string) (m : Map) : option Value :=
  match m with
  | [] => None
  | (k, v) :: m => if bool_decide (k = key) then Some v else map_get key m
  end.

(** [BTreeMap::insert] on string keys, which it keeps in byte order;
    serde_json's map is one too. *)
Fixpoint map_insert {V} (key : string) (v : V) (m : list (string * V)) : list (string * V) :=
  match m with
  | [] => [(key, v)]
  | (k, w) :: m =>
      match String.compare key k with
      | Lt => (key, v) :: (k, w) :: m
      | Eq => (k, v) :: m
      | Gt => (k, w) :: map_insert key v m
      end
  end.

Definition contains_key (m : Map) (key : string) : bool := bool_decide (is_Some (map_get key m)).

(** [Value::get] with a string index. *)
Definition get (key : string) (v : Value) : option Value :=
  match v with VObject m => map_get key m | _ => None end.

Definition as_str (v : Value) : option string :=
  match v with VString s => Some s | _ => None end.
Definition as_bool (v : Value) : option bool :=
  match v with VBool b => Some b | _ => None end.
Definition as_object (v : Value) : option Map :=
  match v with VObject m => Some m | _ => None end.
Definition as_array (v : Value) : option (list Value) :=
  match v with VArray l => Some l | _ => None end.
Definition as_u64 (v : Value) : option N :=
  match v with VNumber (PosInt n) => Some n | _ => None end.
Definition as_i64 (v : Value) : option Z :=
  match v with
  | VNumber (PosInt n) => if (Z.of_N n <? 2 ^ 63)%Z then Some (Z.of_N n) else None
  | VNumber (NegInt z) => Some z
  | _ => None
  end.
(** [Number::as_f64]. *)
Definition number_as_f64 (n : Number) : option f64 :=
  Some match n with PosInt n => f64_of_Z (Z.of_N n) | NegInt z => f64_of_Z z | Float f => f end.
Definition is_object (v : Value) : bool := bool_decide (is_Some (as_object v)).
Definition is_string (v : Value) : bool := bool_decide (is_Some (as_str v)).
Definition is_null (v : Value) : bool := match v with VNull => true | _ => false end.
