(* ===== verification/StrictJson.v ===== *)
(** * Strict JSON ([StrictValue] and [load_json] of [receipts.rs])

    Receipts are read by a visitor of their own, which refuses duplicate
    object members at any depth.  serde_json's tokenizer is a parameter: it
    drives the visitor through a [Raw] tree, the calls it makes in order,
    which can break off with an error anywhere. *)
From S2P Require Import Prelude F64 Json.

(** What the deserializer feeds the visitor.  A sequence or a map ends, or
    fails, after its elements. *)
#[warnings="-register-all"]
Inductive Raw : Type :=
| RUnit
| RBool (b : bool)
| RI64 (z : Z)
| RU64 (n : N)
| RF64 (f : f64)
| RStr (s : string)
| RSeq (elements : list Raw) (failure : option string)
| RMap (entries : list (string * Raw)) (failure : option string)
| RFail (text : string).

Inductive JsonError :=
| Syntax (text : string)
| Duplicate (key : string)
| NonFinite.

(** [Number::from(i64)]: a non-negative integer is stored unsigned. *)
Definition number_from_i64 (z : Z) : Number := if (z <? 0)%Z then NegInt z else PosInt (Z.to_N z).

(** [Number::from_f64]. *)
Definition number_from_f64 (f : f64) : option Number :=
  if f64_is_finite f then Some (Float f) else None.

Definition ended {A} (failure : option string) (a : A) : result JsonError A :=
  match failure with Some text => Err (Syntax text) | None => Ok a end.

(** [StrictValueVisitor]. *)
Fixpoint visit (r : Raw) : result JsonError Value :=
  match r with
  | RUnit => Ok VNull
  | RBool b => Ok (VBool b)
  | RI64 z => Ok (VNumber (number_from_i64 z))
  | RU64 n => Ok (VNumber (PosInt n))
  | RF64 f => ok_or NonFinite (VNumber <$> number_from_f64 f)
  | RStr s => Ok (VString s)
  | RSeq elements failure =>
      (fix visit_seq (l : list Raw) (values : list Value) : result JsonError Value :=
         match l with
         | [] => ended failure (VArray values)
         | x :: l => v ← visit x; visit_seq l (values ++ [v])
         end) elements []
  | RMap entries failure =>
      (fix visit_map (l : list (string * Raw)) (seen : list string) (values : Map)
         : result JsonError Value :=
         match l with
         | [] => ended failure (VObject values)
         | (key, x) :: l =>
             if bool_decide (key ∈ seen) then Err (Duplicate key)
             else v ← visit x; visit_map l (key :: seen) (map_insert key v values)
         end) entries [] []
  | RFail text => Err (Syntax text)
  end.

(** serde_json on a document: the tree, what [Deserializer::end] says about
    the rest, and the rendering of an error, which adds its position. *)
Class JsonText := {
  deserialize : string → Raw;
  deserializer_end : string → option string;
  json_error : string → JsonError → string;
}.

(** [load_json], with the text of its error. *)
Definition load_json `{JsonText} (data check : string) : result string Value :=
  let failed e := check +:+ " check failed: invalid JSON: " +:+ json_error data e in
  value ← map_err failed (visit (deserialize data));
  match deserializer_end data with
  | Some text => Err (failed (Syntax text))
  | None => Ok value
  end.

(** ** The ordinary reading, and which trees are strict *)

(** The map an ordinary reader builds: later members replace earlier ones. *)
Definition insert_all (entries : list (string * Value)) (m : Map) : Map :=
  fold_left (λ m kv, map_insert kv.1 kv.2 m) entries m.

Fixpoint plain (r : Raw) : Value :=
  match r with
  | RUnit | RFail _ => VNull
  | RBool b => VBool b
  | RI64 z => VNumber (number_from_i64 z)
  | RU64 n => VNumber (PosInt n)
  | RF64 f => VNumber (Float f)
  | RStr s => VString s
  | RSeq elements _ => VArray (map plain elements)
  | RMap entries _ => VObject (insert_all (map (λ kv, (kv.1, plain kv.2)) entries) [])
  end.

(** Complete, finite, and every object's member names distinct. *)
Fixpoint strict (r : Raw) : bool :=
  match r with
  | RF64 f => f64_is_finite f
  | RSeq elements failure => bool_decide (failure = None) && forallb strict elements
  | RMap entries failure =>
      bool_decide (failure = None) && bool_decide (NoDup entries.*1)
      && forallb (λ kv, strict kv.2) entries
  | RFail _ => false
  | _ => true
  end.

Fixpoint Raw_rect' (P : Raw → Prop)
    (Hunit : P RUnit) (Hbool : ∀ b, P (RBool b)) (Hi : ∀ z, P (RI64 z)) (Hu : ∀ n, P (RU64 n))
    (Hf : ∀ f, P (RF64 f)) (Hs : ∀ s, P (RStr s))
    (Hseq : ∀ l failure, Forall P l → P (RSeq l failure))
    (Hmap : ∀ l failure, Forall (λ kv, P kv.2) l → P (RMap l failure))
    (Hfail : ∀ t, P (RFail t)) (r : Raw) : P r :=
  let rec := Raw_rect' P Hunit Hbool Hi Hu Hf Hs Hseq Hmap Hfail in
  match r with
  | RUnit => Hunit | RBool b => Hbool b | RI64 z => Hi z | RU64 n => Hu n | RF64 f => Hf f
  | RStr s => Hs s | RFail t => Hfail t
  | RSeq l failure =>
      Hseq l failure ((fix go l : Forall P l :=
        match l with [] => Forall_nil_2 _ | x :: l => Forall_cons_2 _ _ _ (rec x) (go l) end) l)
  | RMap l failure =>
      Hmap l failure ((fix go l : Forall (λ kv, P kv.2) l :=
        match l with
        | [] => Forall_nil_2 _
        | kv :: l => Forall_cons_2 (λ kv, P kv.2) _ _ (rec kv.2) (go l)
        end) l)
  end.

(** A tree is read as the ordinary reader reads it, or refused. *)
Definition reads (r : Raw) : Prop := ∀ v, visit r = Ok v ↔ strict r = true ∧ v = plain r.

Lemma reads_seq l failure : Forall reads l → reads (RSeq l failure).
Proof.
  intros Hl v. cbn [visit strict plain].
  assert (∀ acc, (fix visit_seq l values := match l with
     | [] => ended failure (VArray values)
     | x :: l => v ← visit x; visit_seq l (values ++ [v]) end) l acc = Ok v
     ↔ bool_decide (failure = None) && forallb strict l = true ∧ v = VArray (acc ++ map plain l)) as H.
  { induction Hl as [|x l Hx _ IH]; intros acc; cbn [forallb map].
    - rewrite app_nil_r, andb_true_r. destruct failure; cbn; naive_solver.
    - destruct (visit x) as [w|e] eqn:E; cbn.
      + apply Hx in E as [-> ->]. rewrite IH, <-app_assoc. done.
      + destruct (strict x) eqn:Es; [|rewrite andb_false_r; naive_solver].
        assert (visit x = Ok (plain x)) by (apply Hx; auto). congruence. }
  by rewrite (H []).
Qed.

Lemma reads_map l failure : Forall (λ kv, reads kv.2) l → reads (RMap l failure).
Proof.
  intros Hl v. cbn [visit strict plain].
  assert (∀ seen acc, (fix visit_map l seen values := match l with
     | [] => ended failure (VObject values)
     | (key, x) :: l =>
         if bool_decide (key ∈ seen) then Err (Duplicate key)
         else v ← visit x; visit_map l (key :: seen) (map_insert key v values) end) l seen acc = Ok v
     ↔ (bool_decide (failure = None) = true ∧ NoDup l.*1 ∧ (∀ k, k ∈ l.*1 → k ∉ seen)
        ∧ forallb (λ kv, strict kv.2) l = true)
       ∧ v = VObject (insert_all (map (λ kv, (kv.1, plain kv.2)) l) acc)) as H.
  { induction Hl as [|[k x] l Hx _ IH]; intros seen acc; cbn [forallb map fst snd fmap list_fmap].
    - destruct failure; cbn; [naive_solver|]. split; [intros [= <-]|naive_solver].
      split_and!; [done|constructor|set_solver|done|done].
    - cbn in Hx. destruct (bool_decide (k ∈ seen)) eqn:Hk; reflect.
      { split; [done|]. intros [(_&_&Hs&_) _]. by destruct (Hs k ltac:(set_solver)). }
      destruct (visit x) as [w|e] eqn:E; cbn.
      + apply Hx in E as [-> ->]. rewrite IH, NoDup_cons. set_solver.
      + destruct (strict x) eqn:Es; [|naive_solver].
        assert (visit x = Ok (plain x)) by (apply Hx; auto). congruence. }
  rewrite (H [] []), !andb_true_iff, (bool_decide_eq_true (NoDup _)). set_solver.
Qed.

Lemma visit_reads r : reads r.
Proof.
  induction r using Raw_rect'; [..|by apply reads_seq|by apply reads_map|];
    intros v; cbn [visit strict plain]; try naive_solver.
  unfold number_from_f64. destruct (f64_is_finite f); cbn; naive_solver.
Qed.

(** C29. A receipt document is accepted exactly when it is one complete JSON
    value whose objects, at every depth, have distinct member names (and
    whose numbers are finite), and is then read as an ordinary reader reads
    it. *)
Theorem load_json_strict `{JsonText} data check v :
  load_json data check = Ok v ↔
  strict (deserialize data) = true ∧ deserializer_end data = None ∧ v = plain (deserialize data).
Proof.
  unfold load_json. cbv zeta. pose proof (visit_reads (deserialize data)) as Hr.
  destruct (visit (deserialize data)) as [w|e] eqn:E; cbn.
  - destruct (proj1 (Hr w) E) as [Hs ->].
    destruct (deserializer_end data); naive_solver.
  - split; [done|]. intros (Hs&_&_).
    assert (visit (deserialize data) = Ok (plain (deserialize data))) by (apply Hr; auto).
    congruence.
Qed.
