(* ===== verification/Serde.v ===== *)
(** * Derived serialisation of records

    What [#[derive(Serialize, Deserialize)]] makes of a record under the
    attributes the SDK uses, by their documented meaning: a codec per field
    type, members that are skipped, defaulted or null, and the flattened map
    of the members the record does not name.  A record is described by one
    list of fields, from which its writer and its reader come.  Reading is on
    the members of a JSON object in the order of the text, so a repeated
    member is visible; the text of serde's errors is not modelled, a failure
    is [None]. *)
From Stdlib Require Import Sorted OrdersEx RelationClasses.
From S2P Require Import Prelude Text F64 Json StrictJson.

(** [BTreeMap<String, Value>]. *)
Abbreviation Members := (gmap string Value).

(** ** Codecs *)

(** How a type is written and read, and the values that survive it. *)
Record Codec (A : Type) := mkCodec {
  to_value : A → Value;
  of_value : Value → option A;
  valid : A → Prop;
}.
Arguments mkCodec {A} _ _ _.
Arguments to_value {A} _ _.
Arguments of_value {A} _ _.
Arguments valid {A} _ _.

Class LawfulCodec {A} (c : Codec A) : Prop := {
  of_to x : valid c x → of_value c (to_value c x) = Some x;
  of_valid v x : of_value c v = Some x → valid c x;
  of_nonnull v x : of_value c v = Some x → v ≠ VNull → to_value c x ≠ VNull;
}.

Definition str : Codec string := mkCodec VString as_str (λ _, True).
Definition boolean : Codec bool := mkCodec VBool as_bool (λ _, True).

(** A [Value] read from a text: each object is a map, in key order, that
    keeps the last of a repeated name. *)
Fixpoint canon (v : Value) : Value :=
  match v with
  | VArray l => VArray (map canon l)
  | VObject e => VObject (insert_all (map (λ kv, (kv.1, canon kv.2)) e) [])
  | _ => v
  end.

Definition canonical (v : Value) : Prop := canon v = v.

Definition json : Codec Value := mkCodec id (λ v, Some (canon v)) canonical.

(** An unsigned integer of [bits] bits. *)
Definition uint (bits : N) : Codec N :=
  mkCodec (λ n, VNumber (PosInt n)) (λ v, opt_filter (λ n, (n <? 2 ^ bits)%N) (as_u64 v))
    (λ n, (n < 2 ^ bits)%N).

Definition in_i64 (z : Z) : bool := (- 2 ^ 63 <=? z)%Z && (z <? 2 ^ 63)%Z.

Definition i64 : Codec Z :=
  mkCodec (λ z, VNumber (number_from_i64 z)) (λ v, opt_filter in_i64 (as_i64 v)) (λ z, in_i64 z = true).

(** A non-finite number is written as null; a number that is read is finite. *)
Definition double : Codec f64 :=
  mkCodec (λ f, from_option VNumber VNull (number_from_f64 f))
    (λ v, opt_filter f64_is_finite match v with VNumber n => number_as_f64 n | _ => None end)
    (λ f, f64_is_finite f = true).

Definition vec {A} (c : Codec A) : Codec (list A) :=
  mkCodec (λ l, VArray (map (to_value c) l)) (λ v, as_array v ≫= mapM (of_value c)) (Forall (valid c)).

(** A unit-only enum, by the spelling of its variants: the name alone, or an
    object whose one member has the name and is null. *)
Definition variant_name (v : Value) : option string :=
  match v with
  | VString s | VObject [(s, VNull)] => Some s
  | _ => None
  end.

Definition variants {A} (name : A → string) (all : list A) : Codec A :=
  mkCodec (λ x, VString (name x))
    (λ v, s ← variant_name v; List.find (λ x, bool_decide (name x = s)) all) (λ x, x ∈ all).

(** Members collected into a map: the last of a repeated name. *)
Definition collect (e : Map) : Members := foldl (λ m kv, <[kv.1 := canon kv.2]> m) ∅ e.

(** A map's entries have distinct keys, so inserting them is independent of
    the order they come in. *)
Definition members_of (m : Members) : list (string * Value) := map_to_list m.

Definition string_map : Codec Members :=
  mkCodec (λ m, VObject (insert_all (members_of m) [])) (λ v, collect <$> as_object v)
    (map_Forall (λ _, canonical)).

(** ** Members of a record *)

(** How a field is written, [None] when it is skipped; how it is read from
    the member's value, [None] when there is no such member; and whether it
    has [#[serde(default)]]. *)
Record Member (A : Type) := mkMember {
  put : A → option Value;
  take : option Value → option A;
  has_default : bool;
  holds : A → Prop;
}.
Arguments mkMember {A} _ _ _ _.
Arguments put {A} _ _.
Arguments take {A} _ _.
Arguments has_default {A} _.
Arguments holds {A} _ _.

Class LawfulMember {A} (m : Member A) : Prop := {
  take_put x : holds m x → take m (put m x) = Some x;
  take_holds o x : take m o = Some x → holds m x;
}.

Definition required {A} (c : Codec A) : Member A :=
  mkMember (λ x, Some (to_value c x)) (λ o, o ≫= of_value c) false (valid c).

(** [#[serde(default)]]. *)
Definition defaulted {A} (d : A) (c : Codec A) : Member A :=
  mkMember (λ x, Some (to_value c x)) (λ o, from_option (of_value c) (Some d) o) true
    (λ x, valid c x).

(** An [Option] field is [None] when it is missing or null. *)
Definition take_option {A} (c : Codec A) (o : option Value) : option (option A) :=
  match o with
  | None | Some VNull => Some None
  | Some v => Some <$> of_value c v
  end.

Definition holds_option {A} (c : Codec A) (o : option A) : Prop :=
  match o with Some x => valid c x ∧ to_value c x ≠ VNull | None => True end.

(** [#[serde(default)]] on an [Option]: [None] is written as null. *)
Definition optional {A} (c : Codec A) : Member (option A) :=
  mkMember (λ o, Some (from_option (to_value c) VNull o)) (take_option c) true (holds_option c).

(** [skip_serializing_if = "Option::is_none"]. *)
Definition skip_none {A} (c : Codec A) : Member (option A) :=
  mkMember (λ o, to_value c <$> o) (take_option c) false (holds_option c).

(** [default, skip_serializing_if = "Vec::is_empty"]. *)
Definition skip_empty {A} (c : Codec A) : Member (list A) :=
  mkMember (λ l, match l with [] => None | _ => Some (to_value (vec c) l) end)
    (λ o, from_option (of_value (vec c)) (Some []) o) true (Forall (valid c)).

(** [default, skip_serializing_if = "BTreeMap::is_empty"]. *)
Definition skip_empty_map : Member Members :=
  mkMember (λ m, if decide (m = ∅) then None else Some (to_value string_map m))
    (λ o, from_option (of_value string_map) (Some ∅) o) true (valid string_map).

(** ** Records *)

(** The value of a member of an object, [None] when it is repeated. *)
Definition field (name : string) (e : Map) : option (option Value) :=
  match List.filter (λ kv, bool_decide (kv.1 = name)) e with
  | [] => Some None
  | [kv] => Some (Some kv.2)
  | _ => None
  end.

(** A record [R] under construction: the fields so far, in order, and what is
    left to construct from the rest. *)
Record Shape (R A : Type) := mkShape {
  names : list string;
  defaults : list bool;
  fields : R → list (string * option Value);
  read : Map → option A;
  view : R → A;
  fits : R → Prop;
}.
Arguments mkShape {R A} _ _ _ _ _ _.
Arguments names {R A} _.
Arguments defaults {R A} _.
Arguments fields {R A} _ _.
Arguments read {R A} _ _.
Arguments view {R A} _ _.
Arguments fits {R A} _ _.

Definition construct {R A} (make : A) : Shape R A :=
  mkShape [] [] (λ _, []) (λ _, Some make) (λ _, make) (λ _, True).

Definition member {R A B} (s : Shape R (B → A)) (d : string * (R → B) * Member B) : Shape R A :=
  let '(name, proj, m) := d in
  mkShape (names s ++ [name]) (defaults s ++ [has_default m])
    (λ r, fields s r ++ [(name, put m (proj r))])
    (λ e, f ← read s e; o ← field name e; x ← take m o; Some (f x))
    (λ r, view s r (proj r))
    (λ r, fits s r ∧ holds m (proj r)).

Notation "s ⊕ d" := (member s d) (at level 50, left associativity).

Definition present (fields : list (string * option Value)) : list (string * Value) :=
  omap (λ f, (λ v, (f.1, v)) <$> f.2) fields.

(** What is written: the fields, then the flattened members. *)
Definition entries (fields : list (string * option Value)) (extra : Members) : Map :=
  insert_all (members_of extra) (insert_all (present fields) []).

(** The members no field has. *)
Definition rest (names : list string) (e : Map) : Members :=
  collect (List.filter (λ kv, negb (bool_decide (kv.1 ∈ names))) e).

(** A record with [#[serde(flatten)] extra: BTreeMap<String, Value>]. *)
Definition flatten {R} (s : Shape R (Members → R)) (extra : R → Members) : Codec R :=
  mkCodec (λ r, VObject (entries (fields s r) (extra r)))
    (λ v, e ← as_object v; f ← read s e; Some (f (rest (names s) e)))
    (λ r, fits s r ∧ valid string_map (extra r) ∧ ∀ name, name ∈ names s → extra r !! name = None).

(** The members of a record without a flattened field: it is also read from a
    sequence, whose elements are the fields in order; the elements that are
    missing are of defaulted fields. *)
Definition struct_members {R} (s : Shape R R) (v : Value) : option Map :=
  match v with
  | VObject e => Some e
  | VArray l =>
      if (length l <=? length (names s))%nat && forallb id (drop (length l) (defaults s))
      then Some (zip (names s) l) else None
  | _ => None
  end.

(** A record without a flattened field, which ignores other members. *)
Definition struct {R} (s : Shape R R) : Codec R :=
  mkCodec (λ r, VObject (entries (fields s r) ∅)) (λ v, e ← struct_members s v; read s e) (fits s).

(** ** Maps in key order *)

(** Whether keys are strictly increasing: every key before the rest. *)
Definition ordered (m : Map) : Prop := StronglySorted (λ a b, String.compare a.1 b.1 = Lt) m.

Lemma compare_refl s : String.compare s s = Eq.
Proof. pose proof (String.compare_antisym s s). by destruct (String.compare s s). Qed.

Lemma compare_trans a b c :
  String.compare a b = Lt → String.compare b c = Lt → String.compare a c = Lt.
Proof. apply (StrictOrder_Transitive (R := OrdersEx.String_as_OT.lt)). Qed.

Lemma map_insert_elem {V} k (v : V) m kv :
  kv ∈ map_insert k v m → kv = (k, v) ∨ kv ∈ m.
Proof.
  induction m as [|[k' w] m IH]; cbn; [set_solver|]. destruct (String.compare k k') eqn:E; [|set_solver|].
  - apply String.compare_eq_iff in E as ->. set_solver.
  - set_solver.
Qed.

Lemma map_insert_ordered k v m : ordered m → ordered (map_insert k v m).
Proof.
  unfold ordered. induction 1 as [|[k' w] m Hs IH Hall]; cbn; [by repeat constructor|].
  destruct (String.compare k k') eqn:E.
  - apply String.compare_eq_iff in E as ->. by constructor.
  - constructor; [by constructor|]. constructor; [done|]. eapply Forall_impl; [exact Hall|].
    intros kv. cbn. by apply compare_trans.
  - constructor; [done|]. apply Forall_forall. intros kv [->|Hin]%map_insert_elem; cbn.
    + rewrite String.compare_antisym, E. done.
    + rewrite Forall_forall in Hall. by apply (Hall kv).
Qed.

Lemma insert_all_ordered l m : ordered m → ordered (insert_all l m).
Proof.
  unfold insert_all. revert m. induction l as [|kv l IH]; intros m Hm; cbn; [done|].
  by apply IH, map_insert_ordered.
Qed.

Lemma map_get_insert k v m k' :
  map_get k' (map_insert k v m) = if decide (k = k') then Some v else map_get k' m.
Proof.
  induction m as [|[k1 w] m IH]; cbn; [by case_decide; case_bool_decide|].
  destruct (String.compare k k1) eqn:E; cbn.
  - apply String.compare_eq_iff in E as ->. by case_decide; case_bool_decide.
  - by case_decide; case_bool_decide.
  - rewrite IH. case_decide as Hd; [subst|done]. case_bool_decide; [subst|done].
    by rewrite compare_refl in E.
Qed.

(** The last of the members written under a name. *)
Definition written (l : list (string * Value)) (k : string) : option Value :=
  foldl (λ o kv, if decide (kv.1 = k) then Some kv.2 else o) None l.

Lemma map_get_insert_all l m k :
  map_get k (insert_all l m)
  = foldl (λ o kv, if decide (kv.1 = k) then Some kv.2 else o) (map_get k m) l.
Proof.
  unfold insert_all. revert m. induction l as [|kv l IH]; intros m; cbn; [done|].
  by rewrite IH, map_get_insert.
Qed.

Lemma written_absent (l : list (string * Value)) k (o : option Value) :
  k ∉ l.*1 → foldl (λ o kv, if decide (kv.1 = k) then Some kv.2 else o) o l = o.
Proof.
  revert o. induction l as [|[k' v] l IH]; intros o Hk; cbn; [done|]. cbn in Hk.
  rewrite decide_False by set_solver. apply IH. set_solver.
Qed.

Lemma written_here (l : list (string * Value)) k v (o : option Value) :
  NoDup l.*1 → (k, v) ∈ l →
  foldl (λ o kv, if decide (kv.1 = k) then Some kv.2 else o) o l = Some v.
Proof.
  revert o. induction l as [|[k' w] l IH]; intros o Hn Hin; [by apply not_elem_of_nil in Hin|].
  cbn in Hn |- *. apply NoDup_cons in Hn as [Hk Hn]. apply elem_of_cons in Hin as [[= -> ->]|Hin].
  - rewrite decide_True by done. by apply written_absent.
  - by apply IH.
Qed.

Lemma present_elem (fields : list (string * option Value)) k v : (k, v) ∈ present fields ↔ (k, Some v) ∈ fields.
Proof.
  unfold present. rewrite list_elem_of_omap. split.
  - intros ([k' [w|]]&Hin&Hov); cbn in Hov; [|done]. by injection Hov as -> ->.
  - intros Hin. by exists (k, Some v).
Qed.

Lemma present_names (fields : list (string * option Value)) k : k ∈ (present fields).*1 → ∃ v, (k, Some v) ∈ fields.
Proof. intros ([k' v]&->&Hin%present_elem)%list_elem_of_fmap. by exists v. Qed.

Lemma present_NoDup (fields : list (string * option Value)) : NoDup fields.*1 → NoDup (present fields).*1.
Proof.
  induction fields as [|[k [v|]] fields IH]; cbn; intros Hn; [constructor| |];
    apply NoDup_cons in Hn as [Hk Hn]; [|by apply IH].
  constructor; [|by apply IH]. intros (w&Hin)%present_names. apply Hk, list_elem_of_fmap.
  by eexists (_, _).
Qed.

Lemma names_unique (fields : list (string * option Value)) name (ov ow : option Value) :
  NoDup fields.*1 → (name, ov) ∈ fields → (name, ow) ∈ fields → ov = ow.
Proof.
  intros Hn H1 H2. apply list_elem_of_lookup in H1 as [i H1], H2 as [j H2].
  assert (i = j) as ->; [|congruence].
  apply (NoDup_lookup fields.*1 i j name); [done|by rewrite list_lookup_fmap, ?H1, ?H2..].
Qed.

Lemma written_present (fields : list (string * option Value)) name ov :
  NoDup fields.*1 → (name, ov) ∈ fields → map_get name (insert_all (present fields) []) = ov.
Proof.
  intros Hn Hin. rewrite map_get_insert_all. destruct ov as [v|].
  - apply written_here; [by apply present_NoDup|by apply present_elem].
  - apply written_absent. intros (w&Hw)%present_names. by discriminate (names_unique _ _ _ _ Hn Hin Hw).
Qed.

Lemma members_get (m : Members) k o :
  foldl (λ o kv, if decide (kv.1 = k) then Some kv.2 else o) o (members_of m)
  = match m !! k with Some v => Some v | None => o end.
Proof.
  unfold members_of. destruct (m !! k) as [v|] eqn:E.
  - apply written_here; [apply NoDup_fst_map_to_list|by apply elem_of_map_to_list].
  - apply written_absent. intros ([k' v]&->&Hin%elem_of_map_to_list)%list_elem_of_fmap. cbn in E.
    congruence.
Qed.

(** What a written record holds: the flattened members win over a field of
    the same name. *)
Lemma map_get_entries (fields : list (string * option Value)) extra name ov :
  NoDup fields.*1 → (name, ov) ∈ fields →
  map_get name (entries fields extra) = match extra !! name with Some v => Some v | None => ov end.
Proof. intros Hn Hin. unfold entries. by rewrite map_get_insert_all, members_get, (written_present _ _ ov). Qed.

Lemma map_get_entries_other (fields : list (string * option Value)) extra name :
  name ∉ fields.*1 → map_get name (entries fields extra) = extra !! name.
Proof.
  intros Hn. unfold entries. rewrite !map_get_insert_all, members_get, written_absent.
  - by destruct (extra !! name).
  - intros (v&Hin)%present_names. apply Hn, list_elem_of_fmap. by eexists (_, _).
Qed.

(** The value a record declares for a name. *)
Definition declared (fields : list (string * option Value)) (name : string) : option Value :=
  match List.find (λ f, bool_decide (f.1 = name)) fields with Some f => f.2 | None => None end.

Lemma entries_get (fields : list (string * option Value)) extra name :
  NoDup fields.*1 →
  map_get name (entries fields extra)
  = match extra !! name with Some v => Some v | None => declared fields name end.
Proof.
  intros Hn. unfold declared. destruct (List.find _ fields) as [[k o]|] eqn:E.
  - apply find_some in E as [Hin%list_elem_of_In Hk]. cbn in Hk. reflect. subst. by apply map_get_entries.
  - rewrite map_get_entries_other; [by destruct (extra !! name)|].
    intros ([k o]&->&Hin%list_elem_of_In)%list_elem_of_fmap.
    apply (find_none _ _ E) in Hin. cbn in Hin. by rewrite bool_decide_eq_true_2 in Hin.
Qed.

Lemma entries_ordered fields extra : ordered (entries fields extra).
Proof. apply insert_all_ordered, insert_all_ordered. constructor. Qed.

Lemma ordered_NoDup m : ordered m → NoDup m.*1.
Proof.
  induction 1 as [|kv m Hs IH Hall]; cbn; constructor; [|done].
  intros (kw&Heq&Hin)%list_elem_of_fmap. rewrite Forall_forall in Hall. apply Hall in Hin.
  rewrite Heq, compare_refl in Hin. done.
Qed.

(** In an ordered map a member is there once. *)
Lemma field_ordered m name : ordered m → field name m = Some (map_get name m).
Proof.
  intros Hn%ordered_NoDup. unfold field. induction m as [|[k v] m IH]; cbn; [done|].
  cbn in Hn. apply NoDup_cons in Hn as [Hk Hn]. case_bool_decide; [subst|by apply IH].
  replace (List.filter _ m) with (@nil (string * Value)); [done|].
  symmetry. clear IH Hn. induction m as [|[k w] m IH]; cbn; [done|]. cbn in Hk.
  rewrite bool_decide_eq_false_2 by set_solver. apply IH. set_solver.
Qed.


Lemma map_get_absent (m : Map) k : k ∉ m.*1 → map_get k m = None.
Proof.
  induction m as [|[k' v] m IH]; cbn; intros Hk; [done|].
  rewrite bool_decide_eq_false_2 by set_solver. apply IH. set_solver.
Qed.

Lemma collect_lookup (m : Map) k : NoDup m.*1 → collect m !! k = canon <$> map_get k m.
Proof.
  intros Hn. unfold collect.
  assert (∀ acc : Members, foldl (λ m kv, <[kv.1 := canon kv.2]> m) acc m !! k
    = match map_get k m with Some v => Some (canon v) | None => acc !! k end) as H.
  { induction m as [|[k' v] m IH]; intros acc; cbn; [done|]. cbn in Hn.
    apply NoDup_cons in Hn as [Hk Hn]. rewrite (IH Hn). case_bool_decide as Hd.
    - subst. by rewrite (map_get_absent _ _ Hk), lookup_insert_eq.
    - by rewrite lookup_insert_ne. }
  rewrite H. by destruct (map_get k m).
Qed.

Lemma rest_lookup names m k :
  NoDup m.*1 → rest names m !! k = if decide (k ∈ names) then None else canon <$> map_get k m.
Proof.
  intros Hn. unfold rest. rewrite collect_lookup.
  - assert (map_get k (List.filter (λ kv, negb (bool_decide (kv.1 ∈ names))) m)
      = if decide (k ∈ names) then None else map_get k m) as ->; [|by case_decide].
    clear Hn. induction m as [|[k' v] m IH]; cbn; [by case_decide|].
    case_bool_decide; cbn; rewrite IH; [|by case_bool_decide; subst; [rewrite decide_False|]].
    case_bool_decide; [subst; by rewrite !decide_True|done].
  - induction m as [|[k' v] m IH]; cbn; [constructor|]. cbn in Hn. apply NoDup_cons in Hn as [Hk Hn].
    case_bool_decide; cbn; [by apply IH|]. constructor; [|by apply IH].
    intros (kv&->&Hin)%list_elem_of_fmap. apply Hk, list_elem_of_fmap. exists kv. split; [done|].
    apply list_elem_of_In. apply list_elem_of_In in Hin. by apply filter_In in Hin as [? _].
Qed.

Lemma rest_named names m k : k ∈ names → rest names m !! k = None.
Proof.
  intros Hk. unfold rest, collect. generalize (∅ : Members) (lookup_empty k : (∅ : Members) !! k = None).
  induction m as [|[k' v] m IH]; intros acc Hacc; cbn; [done|].
  case_bool_decide; cbn; apply IH; [done|]. rewrite lookup_insert_ne; [done|set_solver].
Qed.

(** ** Canonical values *)

(** Induction on a value, through its arrays and objects. *)
Lemma Value_deep (P : Value → Prop) :
  P VNull → (∀ b, P (VBool b)) → (∀ n, P (VNumber n)) → (∀ s, P (VString s)) →
  (∀ l, Forall P l → P (VArray l)) → (∀ e, Forall (λ kv, P kv.2) e → P (VObject e)) → ∀ v, P v.
Proof.
  intros Hnull Hbool Hnum Hstr Harr Hobj. fix IH 1. intros [| | | |l|e]; [done..| |].
  - apply Harr. induction l; constructor; auto.
  - apply Hobj. induction e as [|[]]; constructor; auto.
Qed.

Lemma map_insert_last k (v : Value) m :
  Forall (λ kv, String.compare kv.1 k = Lt) m → map_insert k v m = m ++ [(k, v)].
Proof.
  induction 1 as [|[k' w] m Hk _ IH]; cbn in *; [done|].
  by rewrite String.compare_antisym, Hk, IH.
Qed.

(** A map in key order is what inserting its entries makes. *)
Lemma insert_all_id m : ordered m → insert_all m [] = m.
Proof.
  intros Hm. enough (∀ acc, ordered (acc ++ m) → insert_all m acc = acc ++ m) as H by by apply (H []).
  clear Hm. induction m as [|[k v] m IH]; intros acc Ha; [by rewrite app_nil_r|].
  unfold insert_all in *. cbn. rewrite map_insert_last.
  - rewrite IH; by rewrite <-app_assoc.
  - clear IH. induction acc as [|kv acc IH]; constructor.
    + apply StronglySorted_inv in Ha as [_ Ha]. rewrite Forall_forall in Ha.
      apply (Ha (k, v)). set_solver.
    + apply IH. by apply StronglySorted_inv in Ha as [Ha _].
Qed.

Lemma insert_all_elem l m kv : kv ∈ insert_all l m → kv ∈ l ∨ kv ∈ m.
Proof.
  unfold insert_all. revert m. induction l as [|[k v] l IH]; intros m; cbn; [auto|].
  intros [?|[->|?]%map_insert_elem]%IH; set_solver.
Qed.

Lemma canon_object e : canon (VObject e) = VObject (insert_all (map (λ kv, (kv.1, canon kv.2)) e) []).
Proof. done. Qed.

Lemma canon_canonical v : canonical (canon v).
Proof.
  unfold canonical. induction v as [| | | |l Hl|e He] using Value_deep; [done..| |].
  - cbn. f_equal. rewrite map_map. apply map_ext_in. intros x Hx%list_elem_of_In.
    by apply (proj1 (Forall_forall _ _) Hl).
  - rewrite (canon_object e), canon_object. f_equal.
    set (m := insert_all (map (λ kv, (kv.1, canon kv.2)) e) []).
    assert (map (λ kv, (kv.1, canon kv.2)) m = m) as ->.
    { rewrite <-(map_id m) at 2. apply map_ext_in. intros kv Hin%list_elem_of_In. subst m.
      apply insert_all_elem in Hin as [(kw&->&Hin)%list_elem_of_fmap|[]%not_elem_of_nil]. cbn. f_equal.
      by apply (proj1 (Forall_forall _ _) He). }
    apply insert_all_id, insert_all_ordered. constructor.
Qed.

Lemma collect_canonical e : valid string_map (collect e).
Proof.
  unfold collect. generalize (∅ : Members) (map_Forall_empty (λ _ : string, canonical)).
  induction e as [|kv e IH]; intros acc Hacc; cbn; [done|].
  apply IH, map_Forall_insert_2; [apply canon_canonical|done].
Qed.

Lemma canonical_member (m : Members) k : valid string_map m → canon <$> m !! k = m !! k.
Proof. intros Hm. destruct (m !! k) as [v|] eqn:E; [|done]. cbn. f_equal. by apply (Hm k). Qed.

(** ** The laws of the codecs *)

#[export] Instance str_lawful : LawfulCodec str.
Proof. by split. Qed.
#[export] Instance boolean_lawful : LawfulCodec boolean.
Proof. by split. Qed.
#[export] Instance json_lawful : LawfulCodec json.
Proof.
  split; cbn; [by intros x ->|intros v x <-%(inj Some); apply canon_canonical|].
  intros v x <-%(inj Some) Hv. by destruct v.
Qed.

#[export] Instance uint_lawful bits : LawfulCodec (uint bits).
Proof.
  split.
  - intros n Hn. apply opt_filter_Some. split; [done|]. by apply N.ltb_lt.
  - intros v n [_ Hn]%opt_filter_Some. by apply N.ltb_lt in Hn.
  - done.
Qed.

#[export] Instance i64_lawful : LawfulCodec i64.
Proof.
  split.
  - intros z Hz. apply opt_filter_Some. split; [|done]. cbn in *. unfold in_i64 in Hz.
    unfold number_from_i64. destruct (z <? 0)%Z eqn:E; cbn; [done|]. reflect.
    rewrite Z2N.id by lia. by rewrite (proj2 (Z.ltb_lt _ _)) by lia.
  - by intros v z [_ Hz]%opt_filter_Some.
  - done.
Qed.

#[export] Instance double_lawful : LawfulCodec double.
Proof.
  split.
  - intros f Hf. cbn in *. unfold number_from_f64. by rewrite Hf; cbn; rewrite Hf.
  - by intros v f [_ Hf]%opt_filter_Some.
  - intros v f [_ Hf]%opt_filter_Some _. cbn. unfold number_from_f64. by rewrite Hf.
Qed.

#[export] Instance vec_lawful {A} (c : Codec A) : LawfulCodec c → LawfulCodec (vec c).
Proof.
  intros Hc. split; [|intros v l|done].
  - intros l Hl. cbn. apply mapM_Some. apply Forall2_fmap_l, Forall_Forall2_diag.
    eapply Forall_impl; [exact Hl|]. apply of_to.
  - cbn. intros (vs&_&Hm%mapM_Some)%bind_Some. eapply Forall2_Forall_r; [exact Hm|].
    apply Forall_forall. intros w _ x. apply of_valid.
Qed.

#[export] Instance string_map_lawful : LawfulCodec string_map.
Proof.
  split; [intros m Hm; cbn| |done].
  - f_equal. apply map_eq. intros k.
    rewrite collect_lookup by (apply ordered_NoDup, insert_all_ordered; constructor).
    rewrite map_get_insert_all, members_get. cbn. rewrite <-(canonical_member _ k Hm) at 2.
    by destruct (m !! k).
  - cbn. intros v m (e&_&->)%fmap_Some. apply collect_canonical.
Qed.

(** A unit-only enum whose variants have different spellings. *)
Lemma variants_lawful {A} (name : A → string) (all : list A) :
  NoDup (map name all) → LawfulCodec (variants name all).
Proof.
  intros Hn. split; [| |done].
  - intros x Hx. cbn. cbn in Hx. induction all as [|y all IH]; cbn in *; [set_solver|].
    apply NoDup_cons in Hn as [Hy Hn]. case_bool_decide as Heq.
    + apply elem_of_cons in Hx as [->|Hx]; [done|]. rewrite Heq in Hy.
      by apply (list_elem_of_fmap_2 name) in Hx.
    + apply elem_of_cons in Hx as [->|Hx]; [done|]. by apply IH.
  - cbn. intros v x (s&_&[Hin _]%find_some)%bind_Some. by apply list_elem_of_In.
Qed.

(** ** The laws of the members *)

Section members.
Context {A : Type} (c : Codec A) `{!LawfulCodec c}.

#[export] Instance required_lawful : LawfulMember (required c).
Proof. split; cbn; [apply of_to|]. intros o x (v&_&Hv)%bind_Some. by eapply of_valid. Qed.

Lemma defaulted_lawful d : valid c d → LawfulMember (defaulted d c).
Proof.
  intros Hd. split; cbn; [apply of_to|]. intros [v|] x; cbn; [apply of_valid|by intros ->%(inj Some)].
Qed.

Lemma take_option_value v : v ≠ VNull → take_option c (Some v) = Some <$> of_value c v.
Proof. by destruct v. Qed.

Lemma take_option_holds o x : take_option c o = Some x → holds_option c x.
Proof.
  destruct o as [v|]; [|by intros <-%(inj Some)]. assert (v = VNull ∨ v ≠ VNull) as [->|Hv] by (destruct v; auto).
  - by intros <-%(inj Some).
  - rewrite take_option_value by done. intros (y&Hy&->)%fmap_Some. cbn.
    split; [by eapply of_valid|by eapply of_nonnull].
Qed.

Lemma take_option_written x :
  holds_option c (Some x) → take_option c (Some (to_value c x)) = Some (Some x).
Proof. intros [Hx Hn]. by rewrite take_option_value, of_to. Qed.

#[export] Instance optional_lawful : LawfulMember (optional c).
Proof.
  split; [|apply take_option_holds]. intros [x|] Hx; [by apply take_option_written|done].
Qed.

#[export] Instance skip_none_lawful : LawfulMember (skip_none c).
Proof.
  split; [|apply take_option_holds]. intros [x|] Hx; [by apply take_option_written|done].
Qed.

#[export] Instance skip_empty_lawful : LawfulMember (skip_empty c).
Proof.
  split.
  - intros [|x l] Hl; [done|]. by apply (of_to (c := vec c)).
  - intros [v|] l; cbn; [apply (of_valid (c := vec c))|by intros <-%(inj Some)].
Qed.
End members.

#[export] Instance skip_empty_map_lawful : LawfulMember skip_empty_map.
Proof.
  split.
  - intros m Hv. cbn. case_decide as Hm; [by rewrite Hm|]. by apply (of_to (c := string_map)).
  - intros [v|] m; cbn -[of_value valid]; [apply (of_valid (c := string_map))|].
    intros <-%(inj Some). apply map_Forall_empty.
Qed.

(** ** The laws of records *)

(** A written record reads back: what every combinator keeps. *)
Class LawfulShape {R A} (s : Shape R A) : Prop := {
  fields_names r : (fields s r).*1 = names s;
  read_fields r e :
    fits s r → (∀ name o, (name, o) ∈ fields s r → field name e = Some o) →
    read s e = Some (view s r);
  read_cong e e' : (∀ name, name ∈ names s → field name e = field name e') → read s e = read s e';
}.

#[export] Instance construct_lawful {R A} (make : A) : LawfulShape (construct (R := R) make).
Proof. by split. Qed.

#[export] Instance member_lawful {R A B} (s : Shape R (B → A)) name proj (m : Member B) :
  LawfulShape s → LawfulMember m → LawfulShape (s ⊕ (name, proj, m)).
Proof.
  intros Hs Hm. split; cbn.
  - intros r. by rewrite fmap_app, fields_names.
  - intros r e [Hf Hh] He. rewrite (read_fields r e Hf) by set_solver. cbn.
    rewrite (He name (put m (proj r))) by set_solver. cbn. by rewrite take_put.
  - intros e e' He. rewrite (read_cong e e'), (He name) by set_solver. done.
Qed.

(** A record with a flattened field: its names are distinct, [make] is the
    record's constructor, and what is read fits. *)
Class Flattened {R} (s : Shape R (Members → R)) (extra : R → Members) : Prop := {
  flat_shape :: LawfulShape s;
  flat_names : NoDup (names s);
  flat_eta r : view s r (extra r) = r;
  flat_read e f x : read s e = Some f → fits s (f x) ∧ extra (f x) = x;
  flat_fields e f x y : read s e = Some f → fields s (f x) = fields s (f y);
}.

Class Plain {R} (s : Shape R R) : Prop := {
  plain_shape :: LawfulShape s;
  plain_names : NoDup (names s);
  plain_eta r : view s r = r;
  plain_read e r : read s e = Some r → fits s r;
}.

Section flattened.
Context {R : Type} (s : Shape R (Members → R)) (extra : R → Members) `{!Flattened s extra}.

Lemma fields_NoDup r : NoDup (fields s r).*1.
Proof. rewrite fields_names. apply flat_names. Qed.

Lemma flatten_read_back r :
  valid (flatten s extra) r → of_value (flatten s extra) (to_value (flatten s extra) r) = Some r.
Proof.
  intros (Hf&Hx&Hd). cbn -[entries]. pose proof (entries_ordered (fields s r) (extra r)) as Ho.
  rewrite (read_fields r _ Hf).
  - assert (rest (names s) (entries (fields s r) (extra r)) = extra r) as Hr.
    { apply map_eq. intros k. rewrite rest_lookup by (by apply ordered_NoDup).
      case_decide as Hk; [by rewrite Hd|].
      rewrite map_get_entries_other by (by rewrite fields_names). by apply canonical_member. }
    cbn -[entries]. by rewrite Hr, flat_eta.
  - intros name o Hin. rewrite field_ordered by done. f_equal.
    rewrite (map_get_entries _ _ _ o); [|apply fields_NoDup|done]. rewrite Hd; [done|].
    rewrite <-(fields_names r). apply list_elem_of_fmap. by exists (name, o).
Qed.

#[export] Instance flatten_lawful : LawfulCodec (flatten s extra).
Proof.
  split; [apply flatten_read_back| |done]. cbn.
  intros v r (e&_&(f&Hf&<-%(inj Some))%bind_Some)%bind_Some.
  destruct (flat_read e f (rest (names s) e) Hf) as [Hfit ->].
  split_and!; [done|apply collect_canonical|intros name; apply rest_named].
Qed.

(** Members no field has come out with the value they came in with. *)
Lemma flatten_keeps e r name :
  NoDup e.*1 → of_value (flatten s extra) (VObject e) = Some r → name ∉ names s →
  get name (to_value (flatten s extra) r) = canon <$> map_get name e.
Proof.
  intros He Hr Hn. cbn -[entries] in Hr |- *.
  apply bind_Some in Hr as (f&Hf&<-%(inj Some)).
  rewrite map_get_entries_other by (by rewrite fields_names).
  destruct (flat_read e f (rest (names s) e) Hf) as [_ ->]. rewrite rest_lookup by done.
  by rewrite decide_False.
Qed.

(** A member no field has, wherever it stands in the object, does not change
    what the fields read. *)
Lemma flatten_extends e1 e2 r name v :
  of_value (flatten s extra) (VObject (e1 ++ e2)) = Some r → name ∉ names s →
  ∃ r', of_value (flatten s extra) (VObject (e1 ++ (name, v) :: e2)) = Some r'
    ∧ fields s r' = fields s r.
Proof.
  intros Hr Hn. cbn -[entries] in Hr |- *. apply bind_Some in Hr as (f&Hf&<-%(inj Some)).
  rewrite <-(read_cong (e1 ++ e2)), Hf.
  - eexists. split; [done|]. by eapply flat_fields.
  - intros k Hk. unfold field. rewrite !List.filter_app. cbn. rewrite bool_decide_eq_false_2; [done|].
    set_solver.
Qed.
End flattened.

#[export] Instance struct_lawful {R} (s : Shape R R) : Plain s → LawfulCodec (struct s).
Proof.
  intros Hp. split; [| |done].
  - intros r Hf. cbn -[entries]. pose proof (entries_ordered (fields s r) ∅) as Ho.
    rewrite (read_fields r _ Hf); [by rewrite plain_eta|]. intros name o Hin.
    rewrite field_ordered by done. f_equal.
    rewrite (map_get_entries _ _ _ o); [done| |done]. rewrite fields_names. apply plain_names.
  - cbn. intros v r (e&_&He)%bind_Some. by eapply plain_read.
Qed.

(** ** Automation *)

(** Distinct names are a computation. *)
Ltac distinct_names := refine (bool_decide_unpack _ _); vm_compute; exact I.

Lemma member_read_inv {R A B} (s : Shape R (B → A)) name proj (m : Member B) `{!LawfulMember m} e a :
  read (s ⊕ (name, proj, m)) e = Some a → ∃ f x, read s e = Some f ∧ holds m x ∧ a = f x.
Proof.
  intros (f&Hf&(o&_&(x&Hx&Ha)%bind_Some)%bind_Some)%bind_Some. exists f, x.
  apply take_holds in Hx. apply (inj Some) in Ha. by subst.
Qed.

(** What a shape reads fits: the members' laws, one by one. *)
Ltac invert_read H :=
  lazymatch type of H with
  | read (member _ _) _ = Some _ =>
      let f := fresh "f" in let x := fresh "x" in let Hx := fresh "Hx" in
      apply member_read_inv in H as (f&x&H&Hx&->); [|apply _]; invert_read H
  | read (construct _) _ = Some _ => apply (inj Some) in H; subst
  end.

Ltac fits_read := cbn [fits member construct]; repeat (split; [|assumption]); exact I.

Create HintDb defaults.

(** A default value is valid. *)
Ltac valid_default := first [solve [auto with defaults nocore] | exact I | exact eq_refl | apply Forall_nil_2 | vm_compute; reflexivity].

#[export] Hint Extern 1 (LawfulMember (defaulted _ _)) =>
  apply defaulted_lawful; [apply _ | valid_default] : typeclass_instances.

Ltac flattened_record :=
  lazymatch goal with |- Flattened ?s _ => unfold s end; split;
    [ apply _
    | distinct_names
    | by intros []
    | let H := fresh "H" in intros ? ? ? H; invert_read H; split; [fits_read | reflexivity]
    | let H := fresh "H" in intros ? ? ? ? H; invert_read H; reflexivity ].

Ltac plain_record :=
  lazymatch goal with |- Plain ?s => unfold s end; split;
    [ apply _
    | distinct_names
    | by intros []
    | let H := fresh "H" in intros ? ? H; invert_read H; fits_read ].
