(* ===== verification/Http.v ===== *)
(** * The libraries underneath the SDK: HTTP types, URLs, transport errors

    [http::HeaderMap] and [url::Url] are third-party code.  They are the
    type classes [HttpLib] and [UrlLib]: the operations the SDK calls, with
    the documented behaviour the theorems rely on as separate law classes.
    [Concrete] gives instances, which is what the witnesses run on. *)
From S2P Require Import Prelude Text.

(** [http::Method]. *)
Inductive Method : Type :=
| GET | POST | HEAD | OPTIONS | TRACE | PUT | DELETE | PATCH | CONNECT
| Extension (name : string).

#[global] Instance Method_eq_dec : EqDecision Method.
Proof. solve_decision. Defined.

(** ** Header maps

    A header name is its canonical lower-case text and a header value is
    its bytes; parsing either can fail. *)
Class HttpLib := {
  HeaderMap : Type;
  name_from_bytes : string → result string string;
  value_from_str : string → result string string;
  value_to_str : string → option string;
  hm_new : HeaderMap;
  hm_get : HeaderMap → string → option string;
  hm_append : HeaderMap → string → string → HeaderMap;
  hm_insert : HeaderMap → string → string → HeaderMap;
  hm_remove : HeaderMap → string → HeaderMap;
  hm_extend : HeaderMap → HeaderMap → HeaderMap;
}.

(** Documented behaviour: names compare case-insensitively, [append] keeps
    the first value in front, [insert] replaces, [extend] replaces each name
    of its argument, and [to_str] returns the text of the value. *)
Class HttpLaws (H : HttpLib) : Prop := {
  name_from_bytes_lower s n : name_from_bytes s = Ok n → n = to_ascii_lowercase s;
  value_from_str_text s v : value_from_str s = Ok v → v = s;
  value_to_str_text v s : value_to_str v = Some s → s = v;
  get_new n : hm_get hm_new n = None;
  get_append m n v n' :
    hm_get (hm_append m n v) n' =
    if decide (n = n') then opt_or (hm_get m n) (Some v) else hm_get m n';
  get_insert m n v n' :
    hm_get (hm_insert m n v) n' = if decide (n = n') then Some v else hm_get m n';
  get_remove m n n' :
    hm_get (hm_remove m n) n' = if decide (n = n') then None else hm_get m n';
  get_extend m p n : hm_get (hm_extend m p) n = opt_or (hm_get p n) (hm_get m n);
}.

(** [headers.get(name).and_then(|v| v.to_str().ok())]. *)
Definition header_text `{HttpLib} (headers : HeaderMap) (name : string) : option string :=
  hm_get headers name >>? value_to_str.

(** ** URLs *)
Class UrlLib := {
  Url : Type;
  Url_eq_dec :: EqDecision Url;
  url_parse : string → result string Url;
  url_join : Url → string → result string Url;
  url_scheme : Url → string;
  url_host_str : Url → option string;
  url_path : Url → string;
  url_set_path : Url → string → Url;
  url_same_origin : Url → Url → bool;
}.

(** ** Transport errors

    What the SDK can observe of a [reqwest::Error]: two flags and the
    [std::error::Error::source] chain, outermost link first.  A link is its
    [io::ErrorKind], when it is an [io::Error], and its [Display] text. *)
Inductive IoKind : Type :=
| ConnectionRefused | ConnectionReset | ConnectionAborted | BrokenPipe
| TimedOut | InvalidData | OtherKind.

Record ErrorLink := mkErrorLink { io_kind : option IoKind; link_text : string }.

Record ReqwestError := mkReqwestError {
  is_timeout : bool;
  is_connect : bool;
  top_link : ErrorLink;
  source_links : list ErrorLink;
}.

(** ** Futures and deadlines

    A pending operation completes after some time with some value. *)
Record Fut (A : Type) := mkFut { ready_after : Duration; outcome_of : A }.
Arguments mkFut {A} _ _.
Arguments ready_after {A} _.
Arguments outcome_of {A} _.

(** [tokio::time::timeout]: the value, or [None] when the deadline elapses
    first, with the time that passed. *)
Definition run_timeout {A} (deadline : Duration) (f : Fut A) : option A * Duration :=
  if (ready_after f <=? deadline)%N then (Some (outcome_of f), ready_after f)
  else (None, deadline).

(** ** Responses: status line, headers, final URL and the undrained body *)
Record Response `{HttpLib} `{UrlLib} := mkResponse {
  status : N;
  headers_of : HeaderMap;
  response_url : Url;
  body_bytes : Fut (result ReqwestError string);
}.

(** [StatusCode::is_success]. *)
Definition is_success (s : N) : bool := in_range 200 299 s.

(** ** Concrete instances *)
Module Concrete.

Definition visible (c : ascii) : bool := in_range 32 126 (byte_of c) || (byte_of c =? 9)%N.
Definition token (c : ascii) : bool :=
  is_ascii_alphanumeric c || contains_byte "!#$%&'*+-.^_`|~" c.

Definition parse_name (s : string) : result string string :=
  if negb (is_empty s) && all_bytes token s then Ok (to_ascii_lowercase s)
  else Err "invalid HTTP header name".
Definition parse_value (s : string) : result string string :=
  if all_bytes visible s then Ok s else Err "failed to parse header value".

(** Every present name has a first value and the ones appended after it. *)
Definition lookup_first (m : gmap string (string * list string)) (n : string) : option string :=
  fst <$> m !! n.
Definition append_value (m : gmap string (string * list string)) (n v : string)
    : gmap string (string * list string) :=
  match m !! n with
  | Some (w, l) => <[n := (w, l ++ [v])]> m
  | None => <[n := (v, [])]> m
  end.

#[global] Instance http : HttpLib := {|
  HeaderMap := gmap string (string * list string);
  name_from_bytes := parse_name;
  value_from_str := parse_value;
  value_to_str v := if all_bytes visible v then Some v else None;
  hm_new := ∅;
  hm_get := lookup_first;
  hm_append := append_value;
  hm_insert m n v := <[n := (v, [])]> m;
  hm_remove m n := delete n m;
  hm_extend m p := p ∪ m;
|}.

#[global] Instance http_laws : HttpLaws http.
Proof.
  split; simpl; unfold lookup_first.
  - unfold parse_name. intros s n. destruct (_ && _); naive_solver.
  - unfold parse_value. intros s v. destruct (all_bytes _ _); naive_solver.
  - intros v s. destruct (all_bytes _ _); naive_solver.
  - done.
  - intros m n v n'. unfold append_value.
    destruct (m !! n) as [[w l]|]; simpl; rewrite lookup_insert; by case_decide.
  - intros m n v n'. rewrite lookup_insert. by case_decide.
  - intros m n n'. rewrite lookup_delete. by case_decide.
  - intros m p n. rewrite lookup_union. by destruct (p !! n), (m !! n).
Qed.

(** A URL reduced to scheme, host and path; [join] replaces the last path
    segment and resolves dot segments. *)
Record url := mkUrl { u_scheme : string; u_host : string; u_path : string }.
#[global] Instance url_eq_dec : EqDecision url.
Proof. solve_decision. Defined.

Definition parse_url (s : string) : result string url :=
  match strip_prefix "https://" s, strip_prefix "http://" s with
  | Some rest, _ | None, Some rest =>
      let scheme := if starts_with "https" s then "https" else "http" in
      match split_once "/" rest with
      | Some (host, path) => Ok (mkUrl scheme (to_ascii_lowercase host) ("/" +:+ path))
      | None => Ok (mkUrl scheme (to_ascii_lowercase rest) "/")
      end
  | None, None => Err "relative URL without a base"
  end.

Definition segments (s : string) : list string := split_by (λ c, bool_decide (c = "/"%char)) s.

Fixpoint resolve (seen : list string) (l : list string) : list string :=
  match l with
  | [] => reverse seen
  | ".." :: l => resolve (tail seen) l
  | "." :: l => resolve seen l
  | s :: l => resolve (s :: seen) l
  end.

Definition join_url (base : url) (rel : string) : result string url :=
  let dir := removelast (segments (u_path base)) in
  Ok (mkUrl (u_scheme base) (u_host base)
        ("/" +:+ join "/" (resolve [] (tail dir ++ segments rel)))).

#[global] Instance urls : UrlLib := {|
  Url := url;
  url_parse := parse_url;
  url_join := join_url;
  url_scheme := u_scheme;
  url_host_str u := Some (u_host u);
  url_path := u_path;
  url_set_path u p := mkUrl (u_scheme u) (u_host u) p;
  url_same_origin a b := bool_decide (u_scheme a = u_scheme b) && bool_decide (u_host a = u_host b);
|}.

End Concrete.
