(* ===== verification/UrlParts.v ===== *)
(** * More of the url crate: hosts, ports, credentials and query pairs

    What the receipt issuer check and the OAuth flow use of [url::Url] beyond
    [UrlLib], with the laws they rely on and an instance. *)
From S2P Require Import Prelude Text Http.

(** [url::Host] with its text; an IPv6 address without its brackets. *)
Inductive UrlHost := Domain (text : string) | Ipv4 (text : string) | Ipv6 (text : string).

Class UrlParts `(U : UrlLib) := {
  url_host : Url → option UrlHost;
  url_username : Url → string;
  url_password : Url → option string;
  url_port : Url → option N;
  url_query : Url → option string;
  url_fragment : Url → option string;
  url_as_str : Url → string;
  url_query_pairs : Url → list (string * string);
  url_append_pair : Url → string → string → Url;
}.

(** [query_pairs_mut().append_pair] adds one decoded pair at the end and
    leaves the path alone. *)
Class UrlPartsLaws `(P : UrlParts) : Prop := {
  query_pairs_append u k v : url_query_pairs (url_append_pair u k v) = url_query_pairs u ++ [(k, v)];
  path_append u k v : url_path (url_append_pair u k v) = url_path u;
}.

Module FullUrl.

(** A URL of scheme, host, port, path and decoded query pairs. *)
Record url := mkUrl {
  u_scheme : string;
  u_host : string;
  u_port : option N;
  u_path : string;
  u_pairs : list (string * string);
}.
#[global] Instance url_eq_dec : EqDecision url.
Proof. solve_decision. Defined.

Definition at_char (c : ascii) (d : ascii) : bool := bool_decide (d = c).

Definition parse_pairs (query : string) : list (string * string) :=
  if is_empty query then []
  else map (λ pair, default (pair, "") (split_once "=" pair)) (split_by (at_char "&") query).

Definition parse_authority (s : string) : string * option N :=
  match split_once ":" s with
  | Some (host, port) => (to_ascii_lowercase host, parse_u64 port)
  | None => (to_ascii_lowercase s, None)
  end.

Definition parse (s : string) : result string url :=
  match split_once ":" s with
  | Some (scheme, rest) =>
      match strip_prefix "//" rest with
      | Some rest =>
          let '(before, query) := default (rest, "") (split_once "?" rest) in
          let '(authority, path) := default (before, "") (split_once "/" before) in
          let '(host, port) := parse_authority authority in
          let port := opt_filter (λ p, negb (p =? 443)%N) port in
          Ok (mkUrl (to_ascii_lowercase scheme) host port ("/" +:+ path) (parse_pairs query))
      | None => Err "relative URL without a base"
      end
  | None => Err "relative URL without a base"
  end.

Definition show_pairs (pairs : list (string * string)) : string :=
  join "&" (map (λ kv, kv.1 +:+ "=" +:+ kv.2) pairs).

Definition as_str (u : url) : string :=
  u_scheme u +:+ "://" +:+ u_host u +:+ from_option (λ p, ":" +:+ show_N p) "" (u_port u) +:+ u_path u
  +:+ match u_pairs u with [] => "" | pairs => "?" +:+ show_pairs pairs end.

#[local] Instance urls : UrlLib := {|
  Url := url;
  url_parse := parse;
  url_join u rel := Ok (mkUrl (u_scheme u) (u_host u) (u_port u) (u_path u +:+ rel) []);
  url_scheme := u_scheme;
  url_host_str u := Some (u_host u);
  url_path := u_path;
  url_set_path u p := mkUrl (u_scheme u) (u_host u) (u_port u) p (u_pairs u);
  url_same_origin a b :=
    bool_decide (u_scheme a = u_scheme b) && bool_decide (u_host a = u_host b)
    && bool_decide (u_port a = u_port b);
|}.

#[local] Instance parts : UrlParts urls := {|
  url_host u := Some (Domain (u_host (u : url)));
  url_username _ := "";
  url_password _ := None;
  url_port u := u_port (u : url);
  url_query u := match u_pairs (u : url) with [] => None | pairs => Some (show_pairs pairs) end;
  url_fragment _ := None;
  url_as_str u := as_str u;
  url_query_pairs u := u_pairs (u : url);
  url_append_pair u k v :=
    let u : url := u in
    mkUrl (u_scheme u) (u_host u) (u_port u) (u_path u) (u_pairs u ++ [(k, v)]);
|}.

#[local] Instance parts_laws : UrlPartsLaws parts.
Proof. by split. Qed.

End FullUrl.
