(* ===== verification/Error.v ===== *)
(** * Typed SDK errors ([error.rs]) *)
From S2P Require Import Prelude Text Json.

Module ErrorKind.
Inductive t : Type :=
| BadRequest | Authentication | PermissionDenied | NotFound | RateLimit
| EndpointNotSupported | Internal | Transport | Timeout | Serialization
| InvalidConfiguration | Attestation | OAuth.
#[global] Instance eq_dec : EqDecision t.
Proof. solve_decision. Defined.
End ErrorKind.

Record ApiError := mkApiError {
  status_code_of : N;
  message : string;
  payload_of : option Value;
  retry_after_of : option Duration;
  layer : option string;
  source : option string;
  provider : option string;
  request_id_of : option string;
}.

Inductive Error : Type :=
| Api (kind : ErrorKind.t) (error : ApiError)
| Transport (text : string)
| Timeout (text : string)
| Serialization (text : string)
| InvalidConfiguration (text : string)
| Attestation (text : string)
| OAuth (text : string).

(** [crate::Result]. *)
Definition Result := result Error.

Definition kind (e : Error) : ErrorKind.t :=
  match e with
  | Api kind _ => kind
  | Transport _ => ErrorKind.Transport
  | Timeout _ => ErrorKind.Timeout
  | Serialization _ => ErrorKind.Serialization
  | InvalidConfiguration _ => ErrorKind.InvalidConfiguration
  | Attestation _ => ErrorKind.Attestation
  | OAuth _ => ErrorKind.OAuth
  end.

Definition status_code (e : Error) : option N :=
  match e with Api _ error => Some (status_code_of error) | _ => None end.

Definition api_error (e : Error) : option ApiError :=
  match e with Api _ error => Some error | _ => None end.

(** [Debug] of the kind and [Display] of an error. *)
Definition kind_name (k : ErrorKind.t) : string :=
  match k with
  | ErrorKind.BadRequest => "BadRequest"
  | ErrorKind.Authentication => "Authentication"
  | ErrorKind.PermissionDenied => "PermissionDenied"
  | ErrorKind.NotFound => "NotFound"
  | ErrorKind.RateLimit => "RateLimit"
  | ErrorKind.EndpointNotSupported => "EndpointNotSupported"
  | ErrorKind.Internal => "Internal"
  | ErrorKind.Transport => "Transport"
  | ErrorKind.Timeout => "Timeout"
  | ErrorKind.Serialization => "Serialization"
  | ErrorKind.InvalidConfiguration => "InvalidConfiguration"
  | ErrorKind.Attestation => "Attestation"
  | ErrorKind.OAuth => "OAuth"
  end.

Definition error_text (e : Error) : string :=
  match e with
  | Api kind error => kind_name kind +:+ ": " +:+ message error
  | Transport text => "TrustedRouter endpoint unavailable: " +:+ text
  | Timeout text => "TrustedRouter request timed out: " +:+ text
  | Serialization text => "TrustedRouter JSON error: " +:+ text
  | InvalidConfiguration text => "Invalid TrustedRouter configuration: " +:+ text
  | Attestation text => "TrustedRouter attestation verification failed: " +:+ text
  | OAuth text => "TrustedRouter OAuth error: " +:+ text
  end.

Definition error_object (payload : Value) : option Map := get "error" payload >>? as_object.

(** The [match status_code] of [classify_api_error]. *)
Definition kind_of_status (code : N) : ErrorKind.t :=
  if (code =? 401)%N then ErrorKind.Authentication
  else if (code =? 403)%N then ErrorKind.PermissionDenied
  else if (code =? 404)%N then ErrorKind.NotFound
  else if (code =? 429)%N then ErrorKind.RateLimit
  else if (code =? 501)%N then ErrorKind.EndpointNotSupported
  else if in_range 400 499 code then ErrorKind.BadRequest
  else ErrorKind.Internal.

Definition error_message (payload : option Value) : string :=
  default "TrustedRouter error"
    (opt_or (payload >>? error_object >>? map_get "message" >>? as_str)
            (payload >>? get "message" >>? as_str)).

(** The closure [string_field] of [classify_api_error]. *)
Definition string_field (payload : option Value) (name : string) : option string :=
  opt_or (payload >>? error_object >>? map_get name) (payload >>? get name) >>? as_str.

Definition classify_api_error (code : N) (payload : option Value)
    (retry_after : option Duration) : Error :=
  Api (kind_of_status code)
    {| status_code_of := code;
       message := error_message payload;
       payload_of := payload;
       retry_after_of := retry_after;
       layer := string_field payload "layer";
       source := string_field payload "source";
       provider := string_field payload "provider";
       request_id_of := string_field payload "request_id" |}.

(** ** Lemmas *)

Lemma kind_classify code payload ra :
  kind (classify_api_error code payload ra) = kind_of_status code.
Proof. done. Qed.

Lemma kind_of_status_server code : (500 <= code)%N → code ≠ 501%N →
  kind_of_status code = ErrorKind.Internal.
Proof.
  intros. unfold kind_of_status.
  repeat (destruct (_ =? _)%N eqn:?; reflect; [lia|]).
  destruct (in_range _ _ _) eqn:E; [apply in_range_true in E; lia|done].
Qed.

(** The top level of the payload is consulted only when the [error] object
    has no such member, whatever the type of that member. *)
Lemma string_field_error_object p obj name v :
  error_object p = Some obj → map_get name obj = Some v →
  string_field (Some p) name = as_str v.
Proof. intros Ho Hv. unfold string_field. simpl. rewrite Ho. simpl. by rewrite Hv. Qed.
