(* ===== verification/Crypto.v ===== *)
(** * Cryptographic libraries and base64

    [sha2], [ed25519_dalek], [constant_time_eq] and the URL-safe unpadded
    engine of [base64] are third-party code: the class [CryptoLib], with the
    documented behaviour the theorems use in [CryptoLaws].  [ConcreteCrypto]
    is an instance, with a real base64url codec and stand-ins of the right
    shape for the hash and the signature; the witnesses run on it. *)
From S2P Require Import Prelude Text Bytes.

Class CryptoLib := {
  sha256 : string → string;
  b64_encode : string → string;
  b64_decode : string → option string;
  ct_eq : string → string → bool;
  EdKey : Type;
  EdSignature : Type;
  key_from_bytes : string → result string EdKey;
  signature_from_slice : string → option EdSignature;
  verify_strict : EdKey → string → EdSignature → bool;
}.

Class CryptoLaws (C : CryptoLib) : Prop := {
  sha256_length s : String.length (sha256 s) = 32;
  b64_roundtrip s : b64_decode (b64_encode s) = Some s;
  ct_eq_spec a b : String.length a = String.length b → ct_eq a b = bool_decide (a = b);
}.

(** [safe_equal] and [safe_eq]: equality in time independent of the bytes. *)
Definition safe_equal `{CryptoLib} (left right : string) : bool :=
  (String.length left =? String.length right)%nat && ct_eq left right.

Lemma safe_equal_spec `{C : CryptoLib} `{!CryptoLaws C} a b :
  safe_equal a b = bool_decide (a = b).
Proof.
  unfold safe_equal. destruct (String.length a =? String.length b)%nat eqn:E; simpl.
  - apply ct_eq_spec. by apply Nat.eqb_eq.
  - apply Nat.eqb_neq in E. symmetry. apply bool_decide_eq_false. congruence.
Qed.

Module ConcreteCrypto.

(** ** base64url without padding

    A sextet is six bits, most significant first; an [ascii] lists its bits
    least significant first. *)
Definition sextet : Type := bool * bool * bool * bool * bool * bool.

Definition sextet_value (x : sextet) : N :=
  let '(a, b, c, d, e, f) := x in N_of_ascii (Ascii f e d c b a false false).

Definition sextet_char (x : sextet) : ascii :=
  let n := sextet_value x in
  ascii_of_N (if n <? 26 then 65 + n else if n <? 52 then 71 + n else if n <? 62 then n - 4
              else if n =? 62 then 45 else 95)%N.

Definition char_value (c : ascii) : option N :=
  let b := byte_of c in
  if in_range 65 90 b then Some (b - 65)%N
  else if in_range 97 122 b then Some (b - 71)%N
  else if in_range 48 57 b then Some (b + 4)%N
  else if (b =? 45)%N then Some 62%N
  else if (b =? 95)%N then Some 63%N
  else None.

Definition char_sextet (c : ascii) : option sextet :=
  match ascii_of_N <$> char_value c with
  | Some (Ascii f e d c b a _ _) => Some (a, b, c, d, e, f)
  | None => None
  end.

Lemma char_sextet_char x : char_sextet (sextet_char x) = Some x.
Proof. by destruct x as [[[[[[] []] []] []] []] []]. Qed.

Fixpoint encode (s : string) : string :=
  match s with
  | EmptyString => EmptyString
  | String (Ascii a0 a1 a2 a3 a4 a5 a6 a7) EmptyString =>
      String (sextet_char (a7, a6, a5, a4, a3, a2))
        (String (sextet_char (a1, a0, false, false, false, false)) EmptyString)
  | String (Ascii a0 a1 a2 a3 a4 a5 a6 a7) (String (Ascii b0 b1 b2 b3 b4 b5 b6 b7) EmptyString) =>
      String (sextet_char (a7, a6, a5, a4, a3, a2))
        (String (sextet_char (a1, a0, b7, b6, b5, b4))
           (String (sextet_char (b3, b2, b1, b0, false, false)) EmptyString))
  | String (Ascii a0 a1 a2 a3 a4 a5 a6 a7)
      (String (Ascii b0 b1 b2 b3 b4 b5 b6 b7) (String (Ascii c0 c1 c2 c3 c4 c5 c6 c7) s)) =>
      String (sextet_char (a7, a6, a5, a4, a3, a2))
        (String (sextet_char (a1, a0, b7, b6, b5, b4))
           (String (sextet_char (b3, b2, b1, b0, c7, c6))
              (String (sextet_char (c5, c4, c3, c2, c1, c0)) (encode s))))
  end.

(** Trailing bits must be zero. *)
Fixpoint decode (s : string) : option string :=
  match s with
  | EmptyString => Some EmptyString
  | String x (String y EmptyString) =>
      '(a7, a6, a5, a4, a3, a2) ← char_sextet x; '(a1, a0, z0, z1, z2, z3) ← char_sextet y;
      if z0 || z1 || z2 || z3 then None
      else Some (String (Ascii a0 a1 a2 a3 a4 a5 a6 a7) EmptyString)
  | String x (String y (String z EmptyString)) =>
      '(a7, a6, a5, a4, a3, a2) ← char_sextet x; '(a1, a0, b7, b6, b5, b4) ← char_sextet y;
      '(b3, b2, b1, b0, z0, z1) ← char_sextet z;
      if z0 || z1 then None
      else Some (String (Ascii a0 a1 a2 a3 a4 a5 a6 a7)
                   (String (Ascii b0 b1 b2 b3 b4 b5 b6 b7) EmptyString))
  | String x (String y (String z (String w s))) =>
      '(a7, a6, a5, a4, a3, a2) ← char_sextet x; '(a1, a0, b7, b6, b5, b4) ← char_sextet y;
      '(b3, b2, b1, b0, c7, c6) ← char_sextet z; '(c5, c4, c3, c2, c1, c0) ← char_sextet w;
      rest ← decode s;
      Some (String (Ascii a0 a1 a2 a3 a4 a5 a6 a7) (String (Ascii b0 b1 b2 b3 b4 b5 b6 b7)
              (String (Ascii c0 c1 c2 c3 c4 c5 c6 c7) rest)))
  | _ => None
  end.

#[local] Arguments sextet_char : simpl never.
#[local] Arguments char_sextet : simpl never.

Lemma decode_encode s : decode (encode s) = Some s.
Proof.
  assert (∀ n s, String.length s <= n → decode (encode s) = Some s) as H; [|by eapply H].
  clear s. induction n as [|n IH]; intros s Hn; [by destruct s; simpl in *; [|lia]|].
  destruct s as [|[] [|[] [|[] s]]]; simpl in *; rewrite ?char_sextet_char; simpl; try done.
  rewrite IH by lia. done.
Qed.

(** ** A hash and a signature of the right lengths *)

Fixpoint pad (n : nat) (s : string) : string :=
  match n with
  | O => EmptyString
  | S n =>
      match s with
      | EmptyString => String "0" (pad n EmptyString)
      | String c s => String c (pad n s)
      end
  end.

Lemma length_pad n s : String.length (pad n s) = n.
Proof. revert s. induction n as [|n IH]; intros []; simpl; congruence. Qed.

#[global] Instance crypto : CryptoLib := {|
  sha256 := pad 32;
  b64_encode := encode;
  b64_decode := decode;
  ct_eq a b := bool_decide (a = b);
  EdKey := string;
  EdSignature := string;
  key_from_bytes k := Ok k;
  signature_from_slice s := if (String.length s =? 64)%nat then Some s else None;
  verify_strict k message sig := bool_decide (sig = k +:+ pad 32 message);
|}.

#[global] Instance crypto_laws : CryptoLaws crypto.
Proof. split; [apply length_pad|apply decode_encode|done]. Qed.

End ConcreteCrypto.
