(* ===== verification/Policy.v ===== *)
(** * L1, the policy kernel ([transport/policy.rs])

    Pure retry and failover decisions over a status line and headers.
    [httpdate::parse_http_date] is third-party code and the wall clock and
    the random draw are the environment: all three are parameters. *)
From S2P Require Import Prelude Text Json Http Error.

(** [httpdate::parse_http_date]: seconds-resolution time since the epoch. *)
Class HttpDateLib := parse_http_date : string → option Duration.

(** [rng.gen_range(0..=ceiling)] stays in its range. *)
Definition gen_range_ok (gen_range : N → N) : Prop := ∀ ceiling, (gen_range ceiling <= ceiling)%N.

Definition MAX_RETRY_AFTER : Duration := from_secs 60.

Section policy.
Context `{HL : HttpLib} `{DL : HttpDateLib}.

Definition should_retry_verdict (headers : HeaderMap) : option bool :=
  match (λ v, to_ascii_lowercase (trim v)) <$> header_text headers "x-should-retry" with
  | Some "true" => Some true
  | Some "false" => Some false
  | _ => None
  end.

Definition retryable_status (status : N) (headers : HeaderMap) : bool :=
  match should_retry_verdict headers with
  | Some verdict => verdict
  | None => (status =? 429)%N || (500 <=? status)%N
  end.

Definition retryable_transport (error : Error) : bool :=
  match error with Transport _ | Timeout _ => true | _ => false end.

Definition retry_delay (gen_range : N → N) (attempt : nat) (retry_after : option Duration)
    : Duration :=
  let exponent := N.min (N.of_nat attempt) 6 in
  let ceiling_ms := N.min (N.min (500 * 2 ^ exponent) u64_max) 30000 in
  let jitter_ms := gen_range ceiling_ms in
  N.max (N.min (default 0%N retry_after) MAX_RETRY_AFTER) (from_millis jitter_ms).

(** The [retry-after] header: seconds, else an HTTP date after [wall_now]. *)
Definition parse_retry_after_seconds (wall_now : Duration) (headers : HeaderMap)
    : option Duration :=
  value ← header_text headers "retry-after";
  match parse_u64 (trim value) with
  | Some seconds => Some (N.min (from_secs seconds) MAX_RETRY_AFTER)
  | None =>
      timestamp ← parse_http_date value;
      if (wall_now <=? timestamp)%N then Some (N.min (timestamp - wall_now) MAX_RETRY_AFTER)
      else None
  end.

Definition parse_retry_after (wall_now : Duration) (headers : HeaderMap) : option Duration :=
  match header_text headers "retry-after-ms" >>? (λ raw, parse_u64 (trim raw)) with
  | Some millis => Some (N.min (from_millis millis) MAX_RETRY_AFTER)
  | None => parse_retry_after_seconds wall_now headers
  end.

Definition map_reqwest_error (error : ReqwestError) : Error :=
  if is_timeout error then Timeout (link_text (top_link error))
  else Transport (link_text (top_link error)).

Definition failoverable_status (status : N) (headers : HeaderMap) : bool :=
  if bool_decide (should_retry_verdict headers = Some false) then false
  else in_range 502 504 status.

Record FailureDisposition := mkFailureDisposition {
  error : Error;
  retry : bool;
  failover : bool;
  retry_after : option Duration;
}.

Definition from_http (wall_now : Duration) (status : N) (headers : HeaderMap)
    (payload : option Value) : FailureDisposition :=
  let retry_after := parse_retry_after wall_now headers in
  {| error := classify_api_error status payload retry_after;
     retry := retryable_status status headers;
     failover := failoverable_status status headers;
     retry_after := retry_after |}.

Definition from_transport (error : Error) : FailureDisposition :=
  {| error := error; retry := retryable_transport error; failover := true; retry_after := None |}.

(** ** The decision the kernel promises

    One verdict header and one status determine what may happen next. *)
Inductive Decision := Stop | RetryHere | RetryElsewhere.

Definition http_decision (verdict : option bool) (status : N) : Decision :=
  match verdict with
  | Some false => Stop
  | Some true => if in_range 502 504 status then RetryElsewhere else RetryHere
  | None =>
      if in_range 502 504 status then RetryElsewhere
      else if bool_decide (status = 429%N) || (500 <=? status)%N then RetryHere else Stop
  end.

(** How the engine reads a disposition: WHETHER first, then WHERE. *)
Definition decision_of (d : FailureDisposition) : Decision :=
  if retry d then if failover d then RetryElsewhere else RetryHere else Stop.

(** ** Theorems *)

Lemma parse_retry_after_le wall_now headers d :
  parse_retry_after wall_now headers = Some d → (d <= MAX_RETRY_AFTER)%N.
Proof.
  unfold parse_retry_after, parse_retry_after_seconds. intros H.
  destruct (_ >>? _); simplify_eq; [lia|].
  destruct (header_text headers "retry-after") as [v|]; simplify_eq/=.
  destruct (parse_u64 _); simplify_eq/=; [lia|].
  destruct (parse_http_date _); simplify_eq/=. destruct (_ <=? _)%N; simplify_eq. lia.
Qed.

Lemma retry_delay_le gen_range attempt hint :
  gen_range_ok gen_range → (retry_delay gen_range attempt hint <= MAX_RETRY_AFTER)%N.
Proof.
  intros Hr. unfold retry_delay.
  specialize (Hr (N.min (N.min (500 * 2 ^ N.min (N.of_nat attempt) 6) u64_max) 30000)).
  assert (from_millis 30000 <= MAX_RETRY_AFTER)%N by done.
  assert (∀ a, (a <= 30000)%N → (from_millis a <= from_millis 30000)%N)
    by (unfold from_millis; intros; nia).
  apply N.max_lub; [lia|]. etrans; [|done]. auto with lia.
Qed.

(** C35. Whatever the peer sends in [retry-after-ms] or [retry-after]
    (numbers, dates, junk), the parsed hint is absent or at most
    [MAX_RETRY_AFTER]; and whatever hint reaches it, the sleep is at most
    [MAX_RETRY_AFTER] and at least the (clamped) hint, on every attempt. *)
Theorem retry_delay_bounded gen_range attempt hint :
  gen_range_ok gen_range →
  (N.min (default 0%N hint) MAX_RETRY_AFTER <= retry_delay gen_range attempt hint
   <= MAX_RETRY_AFTER)%N
  ∧ ∀ wall_now headers d,
      parse_retry_after wall_now headers = Some d → (d <= MAX_RETRY_AFTER)%N.
Proof.
  intros Hr. split; [|by apply parse_retry_after_le].
  split; [|by apply retry_delay_le]. unfold retry_delay. lia.
Qed.

(** C20. The disposition of an HTTP failure is exactly the decision table:
    an explicit [x-should-retry: false] forbids both a retry and a move, an
    explicit [true] forces the retry, and only 502, 503 and 504 ever move
    to another host; so the failover set is contained in the retry set. *)
Theorem from_http_decides wall_now status headers payload :
  decision_of (from_http wall_now status headers payload)
    = http_decision (should_retry_verdict headers) status
  ∧ (failover (from_http wall_now status headers payload) = true →
     retry (from_http wall_now status headers payload) = true).
Proof.
  unfold decision_of, from_http, http_decision; simpl.
  unfold retryable_status, failoverable_status.
  destruct (should_retry_verdict headers) as [[]|]; simpl; try done.
  destruct (in_range 502 504 status) eqn:E; simpl.
  - apply in_range_true in E. rewrite (proj2 (N.leb_le 500 status)) by lia.
    by rewrite orb_true_r.
  - replace (bool_decide (status = 429%N)) with (status =? 429)%N; [by destruct (_ || _)|].
    case_bool_decide; [by apply N.eqb_eq|by apply N.eqb_neq].
Qed.

End policy.
