(* ===== verification/Config.v ===== *)
(** * Constants, planes, call options and the client state
      ([constants.rs], [client.rs])

    [TelemetrySink] handles and [reqwest::Client]s are opaque: the model
    keeps which one a client holds. *)
From S2P Require Import Prelude Text F64 Http.

Definition DEFAULT_API_BASE_URL : string := "https://api.trustedrouter.com/v1".
Definition ALIAS_API_BASE_URLS : list string :=
  ["https://api.allyrouter.com/v1"; "https://api.uptimerouter.com/v1"].
Definition DEFAULT_CONTROL_BASE_URL : string := "https://trustedrouter.com/v1".
Definition DEFAULT_TRUST_RELEASE_URL : string := "https://trust.trustedrouter.com/trust/gcp-release.json".
Definition DEFAULT_STATUS_URL : string := "https://status.trustedrouter.com/status.json".
Definition DEFAULT_REQUEST_TIMEOUT : Duration := from_secs 120.
Definition DEFAULT_MAX_RETRIES : nat := 2.

Definition TELEMETRY_SCHEMA_VERSION : N := 1.
Definition DEFAULT_TELEMETRY_PATH : string := "/client-events".
Definition TELEMETRY_FLUSH_SECONDS : f64 := f64_of_Z 30.
Definition TELEMETRY_MAX_EVENTS : nat := 1000.
Definition TELEMETRY_MAX_BATCH_EVENTS : nat := 100.
Definition TELEMETRY_MAX_BATCH_COUNTERS : nat := 200.
Definition TELEMETRY_MAX_WINDOW_KEYS : nat := 256.
Definition TELEMETRY_RETENTION_SECONDS : N := 86400.
Definition TELEMETRY_RETENTION_BYTES : N := 524288.
Definition TELEMETRY_BACKOFF_MIN_SECONDS : f64 := f64_of_Z 60.
Definition TELEMETRY_BACKOFF_MAX_SECONDS : f64 := f64_of_Z 600.

Definition TELEMETRY_HOSTS : list string :=
  ["apex"; "ally"; "uptime"; "us_central1"; "us_east4"; "europe_west4"; "control"; "custom"].
Definition TELEMETRY_ENDPOINTS : list string :=
  ["chat_completions"; "messages"; "responses"; "embeddings"; "images"; "videos"; "models";
   "fusion"; "control_other"; "inference_other"].
Definition TELEMETRY_OUTCOMES : list string :=
  ["ok"; "http_error"; "transport_error"; "timeout"; "stream_broken"; "aborted"].
Definition TELEMETRY_FINAL_OUTCOMES : list string :=
  ["ok"; "http_error"; "transport_error"; "timeout"; "stream_broken"; "aborted"; "exhausted"].
Definition TELEMETRY_ERROR_CLASSES : list string :=
  ["dns"; "tls"; "connect_refused"; "connect_timeout"; "connect_error"; "read_timeout";
   "write_timeout"; "pool_timeout"; "protocol_error"; "reset"; "io_error"; "proxy_error";
   "stream_stalled"; "unknown"].
Definition TELEMETRY_TIMEOUT_PHASES : list string :=
  ["none"; "connect"; "first_byte"; "idle"; "total"].
Definition TELEMETRY_LATENCY_BUCKETS : list string :=
  ["lt100"; "lt200"; "lt400"; "lt800"; "lt1600"; "lt3200"; "lt6400"; "lt12800"; "lt25600";
   "lt51200"; "lt102400"; "ge102400"].

Inductive Plane := Inference | Control.
#[global] Instance Plane_eq_dec : EqDecision Plane.
Proof. solve_decision. Defined.

(** A [BTreeMap<String, String>] is its entries in key order. *)
Definition Headers := list (string * string).

Module CallOptions.
Record t := mk {
  api_key : option string;
  workspace_id : option string;
  idempotency_key : option string;
  timeout : option Duration;
  headers : Headers;
}.
#[global] Instance settable : Settable t :=
  λ o, mk (api_key o) (workspace_id o) (idempotency_key o) (timeout o) (headers o).
(** [CallOptions::default()]. *)
Definition default : t := mk None None None None [].
End CallOptions.

(** Which transport carries general API traffic. *)
Inductive Transport := OwnedTransport | InjectedTransport.

Module Client.
Record t `{UrlLib} := mk {
  api_key : option string;
  api_base_url : Url;
  api_base_urls : list Url;
  control_base_url : Url;
  workspace_id : option string;
  timeout : option Duration;
  max_retries : nat;
  telemetry : bool;
  has_sink : bool;
  headers : Headers;
  http : Transport;
}.
#[global] Instance settable `{UrlLib} : Settable t :=
  λ c, mk _ (api_key c) (api_base_url c) (api_base_urls c) (control_base_url c)
          (workspace_id c) (timeout c) (max_retries c) (telemetry c) (has_sink c)
          (headers c) (http c).
End Client.
