(* ===== verification/Routing.v ===== *)
(** * L2, the plane router ([transport/routing.rs])

    The ordered candidate set of one logical call, and the semantic route
    classifier shared by telemetry and strict stream validation. *)
From S2P Require Import Prelude Text Http Error Config.

Section routing.
Context `{UL : UrlLib}.

Definition root_relative (path : string) : bool :=
  starts_with "/" path && negb (starts_with "//" path) && negb (contains_byte path "\").

Definition path_error : Error := InvalidConfiguration "API path must be a root-relative path".

Definition relative_url (c : Client.t) (plane : Plane) (path : string) : Result Url :=
  if negb (root_relative path) then Err path_error
  else
    let base := match plane with
                | Inference => Client.api_base_url c
                | Control => Client.control_base_url c
                end in
    map_err InvalidConfiguration (url_join base (trim_start_matches "/" path)).

Fixpoint join_all (bases : list Url) (trimmed : string) : Result (list Url) :=
  match bases with
  | [] => Ok []
  | base :: bases =>
      url ← map_err InvalidConfiguration (url_join base trimmed);
      out ← join_all bases trimmed;
      Ok (url :: out)
  end.

Definition plane_urls (c : Client.t) (plane : Plane) (path : string) : Result (list Url) :=
  match plane with
  | Control => url ← relative_url c plane path; Ok [url]
  | Inference =>
      let trimmed := trim_start_matches "/" path in
      if negb (root_relative path) then Err path_error
      else join_all (Client.api_base_urls c) trimmed
  end.

Definition parse_base_url (value name : string) : Result Url :=
  url ← map_err (λ e, InvalidConfiguration ("invalid " +:+ name +:+ " base URL: " +:+ e))
          (url_parse value);
  if negb (bool_decide (url_scheme url = "http") || bool_decide (url_scheme url = "https"))
     || negb (bool_decide (is_Some (url_host_str url)))
  then Err (InvalidConfiguration (name +:+ " base URL must be an HTTP(S) origin"))
  else if negb (ends_with "/" (url_path url)) then Ok (url_set_path url (url_path url +:+ "/"))
  else Ok url.

Definition inference_base_urls (primary : Url) : list Url :=
  let default := ok (parse_base_url DEFAULT_API_BASE_URL "inference") in
  if negb (bool_decide (default = Some primary)) then [primary]
  else primary :: omap (λ alias, ok (parse_base_url alias "inference")) ALIAS_API_BASE_URLS.

(** ** Semantic routes *)

(** [char::to_digit(16)]. *)
Definition hex_digit (c : ascii) : option N :=
  let b := byte_of c in
  if in_range 48 57 b then Some (b - 48)%N
  else if in_range 97 102 b then Some (b - 87)%N
  else if in_range 65 70 b then Some (b - 55)%N
  else None.

(** [String::push] of a code point below 256, as UTF-8. *)
Definition push_char (code : N) (s : string) : string :=
  if (code <? 128)%N then String (ascii_of_N code) s
  else String (ascii_of_N (192 + code / 64)) (String (ascii_of_N (128 + code mod 64)) s).

Fixpoint percent_decode_ascii (path : string) : string :=
  match path with
  | EmptyString => EmptyString
  | String "%" ((String h (String l rest)) as tail) =>
      match hex_digit h, hex_digit l with
      | Some high, Some low => push_char (high * 16 + low) (percent_decode_ascii rest)
      | _, _ => push_char 37 (percent_decode_ascii tail)
      end
  | String c rest => push_char (byte_of c) (percent_decode_ascii rest)
  end.

(** The character loop: fold ASCII case, skip a separator that follows a
    separator.  Bytes of multi-byte characters are never [/] or upper case,
    so the loop runs on bytes.  [after_slash] is [route.ends_with('/')]. *)
Fixpoint fold_route (after_slash : bool) (decoded : string) : string :=
  match decoded with
  | EmptyString => EmptyString
  | String c rest =>
      let c := lower_byte c in
      if bool_decide (c = "/"%char) && after_slash then fold_route after_slash rest
      else String c (fold_route (bool_decide (c = "/"%char)) rest)
  end.

Fixpoint pop_slashes (fuel : nat) (route : string) : string :=
  match fuel with
  | O => route
  | S fuel =>
      if (1 <? String.length route)%nat && ends_with "/" route
      then pop_slashes fuel (String.substring 0 (String.length route - 1) route)
      else route
  end.

Definition semantic_route (path : string) : string :=
  let route := fold_route false (percent_decode_ascii path) in
  pop_slashes (String.length route) route.

Definition semantic_request_route (path : string) : string :=
  match url_parse "https://sdk.invalid/" with
  | Err _ => semantic_route path
  | Ok root =>
      match url_join root (trim_start_matches "/" path) with
      | Err _ => semantic_route path
      | Ok resolved => semantic_route (url_path resolved)
      end
  end.

Definition semantic_route_relative_to_base (base response : Url) : option string :=
  if negb (url_same_origin base response) then None
  else
    let base_path := semantic_route (url_path base) in
    let response_path := semantic_route (url_path response) in
    if bool_decide (base_path = "/") then Some response_path
    else if bool_decide (response_path = base_path) then Some "/"
    else (λ relative, "/" +:+ relative) <$> strip_prefix (base_path +:+ "/") response_path.

(** ** The candidate list *)

Lemma join_all_spec bases trimmed urls :
  join_all bases trimmed = Ok urls →
  Forall2 (λ base url, url_join base trimmed = Ok url) bases urls.
Proof.
  revert urls. induction bases as [|base bases IH]; intros urls; simpl; [naive_solver|].
  unfold mbind, result_bind. destruct (url_join base trimmed) eqn:?; simpl; [|done].
  destruct (join_all bases trimmed) eqn:?; [|done]. intros [= <-]. auto.
Qed.

Lemma plane_urls_length c plane path urls :
  plane_urls c plane path = Ok urls →
  length urls = match plane with Control => 1 | Inference => length (Client.api_base_urls c) end.
Proof.
  unfold plane_urls, mbind, result_bind. destruct plane.
  - destruct (negb _); [done|]. intros H%join_all_spec. symmetry. by eapply Forall2_length.
  - destruct (relative_url _ _ _); [|done]. by intros [= <-].
Qed.

Lemma inference_base_urls_head primary : head (inference_base_urls primary) = Some primary.
Proof. unfold inference_base_urls. by destruct (negb _). Qed.

Lemma inference_base_urls_tail primary :
  Forall (λ url, ∃ alias, alias ∈ ALIAS_API_BASE_URLS ∧ parse_base_url alias "inference" = Ok url)
    (tail (inference_base_urls primary)).
Proof.
  unfold inference_base_urls. destruct (negb _); [constructor|]. cbn [tail].
  apply Forall_forall. intros url (alias&Ha&Hp)%list_elem_of_omap. exists alias. split; [done|].
  by destruct (parse_base_url alias _); simplify_eq/=.
Qed.

Lemma inference_base_urls_pinned primary :
  Ok primary ≠ parse_base_url DEFAULT_API_BASE_URL "inference" →
  inference_base_urls primary = [primary].
Proof.
  intros Hne. unfold inference_base_urls. rewrite bool_decide_eq_false_2; [done|].
  destruct (parse_base_url _ _); simpl; congruence.
Qed.

(** The candidate list is the structural failover gate: the control
    plane resolves to one candidate, the inference plane to exactly one per
    configured base in order, each the join of its base with the path, and
    a path that is not root-relative is refused before anything is sent. *)
Theorem plane_urls_candidates c plane path :
  match plane_urls c plane path with
  | Ok urls =>
      root_relative path = true
      ∧ Forall2 (λ base url, url_join base (trim_start_matches "/" path) = Ok url)
          (match plane with
           | Control => [Client.control_base_url c]
           | Inference => Client.api_base_urls c
           end) urls
  | Err e => ∃ text, e = InvalidConfiguration text
  end.
Proof.
  unfold plane_urls, relative_url. destruct plane.
  - destruct (root_relative path) eqn:E; simpl; [|by eexists].
    destruct (join_all _ _) as [urls|e] eqn:J; [by apply join_all_spec in J|].
    revert J. generalize (Client.api_base_urls c). intros bases. revert e.
    induction bases as [|base bases IH]; simpl; intros e; [done|].
    unfold mbind, result_bind. destruct (url_join _ _); simpl; [|naive_solver].
    destruct (join_all bases _); [done|]. intros [= <-]. by apply IH.
  - destruct (root_relative path) eqn:E; simpl; [|by eexists].
    unfold mbind, result_bind. destruct (url_join _ _) eqn:?; simpl; [|by eexists].
    repeat constructor; auto.
Qed.

(** ** Canonical form of a semantic route *)

Definition no_upper (c : ascii) : bool := negb (is_ascii_uppercase c).

Fixpoint no_double_slash (s : string) : bool :=
  match s with
  | String a ((String b _) as rest) =>
      negb (bool_decide (a = "/"%char) && bool_decide (b = "/"%char)) && no_double_slash rest
  | _ => true
  end.

Definition canonical_route (s : string) : bool :=
  all_bytes no_upper s && no_double_slash s
  && ((String.length s <=? 1)%nat || negb (ends_with "/" s)).

Lemma lower_byte_no_upper c : no_upper (lower_byte c) = true.
Proof. by destruct c as [[][][][][][][][]]. Qed.

Lemma fold_route_lower b s : all_bytes no_upper (fold_route b s) = true.
Proof.
  revert b. induction s as [|c s IH]; intros b; simpl; [done|].
  destruct (_ && _); [apply IH|]. simpl. by rewrite lower_byte_no_upper, IH.
Qed.

Lemma fold_route_head s : starts_with "/" (fold_route true s) = false.
Proof.
  induction s as [|c s IH]; simpl; [done|].
  case_bool_decide; simpl; [done|]. unfold starts_with. simpl.
  rewrite (bool_decide_eq_false_2 ("/"%char = lower_byte c)) by congruence. done.
Qed.

Lemma fold_route_no_double b s : no_double_slash (fold_route b s) = true.
Proof.
  revert b. induction s as [|c s IH]; intros b; simpl; [done|].
  destruct (bool_decide (lower_byte c = "/"%char)) eqn:Hc; simpl.
  - destruct b; [apply IH|]. apply bool_decide_eq_true in Hc. rewrite Hc.
    pose proof (fold_route_head s) as Hh. specialize (IH true).
    destruct (fold_route true s) as [|d t]; [done|]. simpl in *. rewrite IH, andb_true_r.
    by destruct (decide (d = "/"%char)) as [->|]; [|rewrite bool_decide_eq_false_2].
  - specialize (IH false). destruct (fold_route false s) as [|d t]; [done|]. simpl in *.
    by rewrite IH, Hc.
Qed.

Lemma no_double_slash_prefix s t : no_double_slash (s +:+ t) = true → no_double_slash s = true.
Proof.
  induction s as [|a s IH]; [done|]. intros H. destruct s as [|b s]; [done|].
  simpl in *. apply andb_true_iff in H as [-> H]. by apply IH.
Qed.

Lemma pop_slashes_prefix fuel s : ∃ t, s = pop_slashes fuel s +:+ t.
Proof.
  revert s. induction fuel as [|fuel IH]; intros s; simpl; [exists ""; by rewrite append_nil_r|].
  destruct (_ && _); [|exists ""; by rewrite append_nil_r].
  destruct (IH (String.substring 0 (String.length s - 1) s)) as [t Ht].
  eexists. rewrite append_assoc, <-Ht. apply string_drop_split. lia.
Qed.

Lemma substring_0_length n s : (n <= String.length s)%nat →
  String.length (String.substring 0 n s) = n.
Proof.
  revert n. induction s as [|c s IH]; intros [|n] Hn; simpl in *; try lia. f_equal. apply IH. lia.
Qed.

Lemma pop_slashes_end fuel s :
  (String.length s <= fuel)%nat →
  ((String.length (pop_slashes fuel s) <=? 1)%nat || negb (ends_with "/" (pop_slashes fuel s)))
  = true.
Proof.
  revert s. induction fuel as [|fuel IH]; intros s Hl; simpl; [destruct s; [done|simpl in *; lia]|].
  destruct (1 <? String.length s)%nat eqn:E1, (ends_with "/" s) eqn:E2; simpl.
  - apply IH. reflect. rewrite substring_0_length; lia.
  - by rewrite E2, orb_true_r.
  - reflect. rewrite (proj2 (Nat.leb_le _ 1)) by lia. done.
  - by rewrite E2, orb_true_r.
Qed.

(** ** Respellings

    [respells p q]: [q] spells the escape-free path [p] another way, by
    percent-escaping bytes, changing ASCII case or repeating separators. *)
Inductive respells : string → string → Prop :=
| respell_end : respells "" ""
| respell_byte c d p q :
    lower_byte c = lower_byte d → c ≠ "%"%char → d ≠ "%"%char →
    respells p q → respells (String c p) (String d q)
| respell_escape c h l high low p q :
    c ≠ "%"%char → hex_digit h = Some high → hex_digit l = Some low →
    byte_of c = (high * 16 + low)%N →
    respells p q → respells (String c p) (String "%" (String h (String l q)))
| respell_slash p q :
    respells (String "/" p) (String "/" q) →
    respells (String "/" p) (String "/" (String "/" q)).

Lemma decode_byte c s :
  c ≠ "%"%char →
  percent_decode_ascii (String c s) = push_char (byte_of c) (percent_decode_ascii s).
Proof. intros Hc. destruct c as [[][][][][][][][]]; try done. Qed.

Lemma fold_route_push b code s :
  (code < 256)%N →
  fold_route b (push_char code s) =
  if (code =? 47)%N && b then fold_route b s
  else push_char (byte_of (lower_byte (ascii_of_N code))) (fold_route (code =? 47)%N s).
Proof.
  intros Hc. rewrite <-(N_ascii_embedding code) by done.
  destruct (ascii_of_N code) as [[][][][][][][][]]; by destruct b.
Qed.

Lemma byte_of_lt c : (byte_of c < 256)%N.
Proof. by destruct c as [[][][][][][][][]]. Qed.

Lemma lower_byte_slash c d :
  lower_byte c = lower_byte d → (byte_of c =? 47)%N = (byte_of d =? 47)%N.
Proof.
  assert (∀ a, (byte_of a =? 47)%N = (byte_of (lower_byte a) =? 47)%N) as Hl
    by (by intros [[][][][][][][][]]).
  intros H. rewrite (Hl c), (Hl d). by rewrite H.
Qed.

Lemma fold_route_respells p q b :
  respells p q → fold_route b (percent_decode_ascii p) = fold_route b (percent_decode_ascii q).
Proof.
  intros H. revert b. induction H as
    [|c d p q Hl Hc Hd _ IH|c h l high low p q Hc Hh Hlo Hb _ IH|p q _ IH]; intros b; [done|..].
  - rewrite !decode_byte by done. rewrite !fold_route_push by apply byte_of_lt.
    unfold byte_of at 3 6. rewrite !ascii_N_embedding, Hl, (lower_byte_slash _ _ Hl).
    by rewrite !IH.
  - rewrite decode_byte by done. cbn [percent_decode_ascii]. rewrite Hh, Hlo, <-Hb.
    rewrite !fold_route_push by apply byte_of_lt. by rewrite !IH.
  - rewrite IH. rewrite !(decode_byte "/") by done.
    rewrite !(fold_route_push _ (byte_of "/")) by done. simpl. by destruct b.
Qed.

Lemma semantic_route_respells p q : respells p q → semantic_route q = semantic_route p.
Proof. intros H. unfold semantic_route. by rewrite (fold_route_respells p q false H). Qed.

(** Every spelling of a path that escapes bytes, changes case or
    repeats separators has the same semantic route, and that route is in
    canonical form: lower case, no repeated separator, no trailing one. *)
Theorem semantic_route_respelled p q :
  respells p q →
  semantic_route q = semantic_route p ∧ canonical_route (semantic_route p) = true.
Proof.
  intros H. split; [by apply semantic_route_respells|].
  unfold semantic_route, canonical_route.
  set (r := fold_route false (percent_decode_ascii p)).
  rewrite pop_slashes_end by done. rewrite andb_true_r.
  destruct (pop_slashes_prefix (String.length r) r) as [t Ht].
  pose proof (fold_route_lower false (percent_decode_ascii p)) as Hlow.
  pose proof (fold_route_no_double false (percent_decode_ascii p)) as Hdbl.
  fold r in Hlow, Hdbl. rewrite Ht in Hlow, Hdbl.
  rewrite all_bytes_app in Hlow. apply andb_true_iff in Hlow as [-> _].
  by apply no_double_slash_prefix in Hdbl as ->.
Qed.

End routing.
