(* ===== verification/Vocab.v ===== *)
(** * Telemetry vocabularies and classifiers ([telemetry.rs], first half)

    One module per closed enum of the contract, and the total functions
    that reduce URLs, routes, latencies, statuses and transport errors to
    them.  [Url::parse] and the accessors of a URL come from [UrlLib]. *)
From S2P Require Import Prelude Text Json Http Error Config Routing.

Module Host.
Inductive t : Type :=
| Apex | Ally | Uptime | UsCentral1 | UsEast4 | EuropeWest4 | Control | Custom.
#[global] Instance eq_dec : EqDecision t.
Proof. solve_decision. Defined.
Definition as_str (x : t) : string :=
  match x with
  | Apex => "apex"
  | Ally => "ally"
  | Uptime => "uptime"
  | UsCentral1 => "us_central1"
  | UsEast4 => "us_east4"
  | EuropeWest4 => "europe_west4"
  | Control => "control"
  | Custom => "custom"
  end.
End Host.

Module AttemptOutcome.
Inductive t : Type :=
| Ok | HttpError | TransportError | Timeout | StreamBroken | Aborted.
#[global] Instance eq_dec : EqDecision t.
Proof. solve_decision. Defined.
Definition as_str (x : t) : string :=
  match x with
  | Ok => "ok"
  | HttpError => "http_error"
  | TransportError => "transport_error"
  | Timeout => "timeout"
  | StreamBroken => "stream_broken"
  | Aborted => "aborted"
  end.
End AttemptOutcome.

Module FinalOutcome.
Inductive t : Type :=
| Outcome (o : AttemptOutcome.t) | Exhausted.
#[global] Instance eq_dec : EqDecision t.
Proof. solve_decision. Defined.
Definition as_str (x : t) : string :=
  match x with Outcome o => AttemptOutcome.as_str o | Exhausted => "exhausted" end.
Definition is_ok (x : t) : bool := bool_decide (x = Outcome AttemptOutcome.Ok).
End FinalOutcome.

Module ErrorClass.
Inductive t : Type :=
| Dns | Tls | ConnectRefused | ConnectTimeout | ConnectError | ReadTimeout | WriteTimeout |
PoolTimeout | ProtocolError | Reset | IoError | ProxyError | StreamStalled | Unknown.
#[global] Instance eq_dec : EqDecision t.
Proof. solve_decision. Defined.
Definition as_str (x : t) : string :=
  match x with
  | Dns => "dns"
  | Tls => "tls"
  | ConnectRefused => "connect_refused"
  | ConnectTimeout => "connect_timeout"
  | ConnectError => "connect_error"
  | ReadTimeout => "read_timeout"
  | WriteTimeout => "write_timeout"
  | PoolTimeout => "pool_timeout"
  | ProtocolError => "protocol_error"
  | Reset => "reset"
  | IoError => "io_error"
  | ProxyError => "proxy_error"
  | StreamStalled => "stream_stalled"
  | Unknown => "unknown"
  end.
End ErrorClass.

Module Endpoint.
Inductive t : Type :=
| ChatCompletions | Messages | Responses | Embeddings | Images | Videos | Models | Fusion |
ControlOther | InferenceOther.
#[global] Instance eq_dec : EqDecision t.
Proof. solve_decision. Defined.
Definition as_str (x : t) : string :=
  match x with
  | ChatCompletions => "chat_completions"
  | Messages => "messages"
  | Responses => "responses"
  | Embeddings => "embeddings"
  | Images => "images"
  | Videos => "videos"
  | Models => "models"
  | Fusion => "fusion"
  | ControlOther => "control_other"
  | InferenceOther => "inference_other"
  end.
End Endpoint.

Module TimeoutPhase.
Inductive t : Type :=
| NoPhase | Connect | FirstByte | Idle | Total.
#[global] Instance eq_dec : EqDecision t.
Proof. solve_decision. Defined.
Definition as_str (x : t) : string :=
  match x with
  | NoPhase => "none"
  | Connect => "connect"
  | FirstByte => "first_byte"
  | Idle => "idle"
  | Total => "total"
  end.
End TimeoutPhase.

Module HttpStatusClass.
Inductive t : Type :=
| NoClass | Success | ClientError | RateLimited | ServerError.
#[global] Instance eq_dec : EqDecision t.
Proof. solve_decision. Defined.
Definition as_str (x : t) : string :=
  match x with
  | NoClass => "none"
  | Success => "2xx"
  | ClientError => "4xx"
  | RateLimited => "429"
  | ServerError => "5xx"
  end.
End HttpStatusClass.

Module LatencyBucket.
Inductive t : Type :=
| Lt100 | Lt200 | Lt400 | Lt800 | Lt1600 | Lt3200 | Lt6400 | Lt12800 | Lt25600 | Lt51200 |
Lt102400 | Ge102400.
#[global] Instance eq_dec : EqDecision t.
Proof. solve_decision. Defined.
Definition as_str (x : t) : string :=
  match x with
  | Lt100 => "lt100"
  | Lt200 => "lt200"
  | Lt400 => "lt400"
  | Lt800 => "lt800"
  | Lt1600 => "lt1600"
  | Lt3200 => "lt3200"
  | Lt6400 => "lt6400"
  | Lt12800 => "lt12800"
  | Lt25600 => "lt25600"
  | Lt51200 => "lt51200"
  | Lt102400 => "lt102400"
  | Ge102400 => "ge102400"
  end.
End LatencyBucket.

Module ErrorSource.
Inductive t : Type :=
| Router | Provider | Unknown.
#[global] Instance eq_dec : EqDecision t.
Proof. solve_decision. Defined.
Definition as_str (x : t) : string :=
  match x with
  | Router => "router"
  | Provider => "provider"
  | Unknown => "unknown"
  end.
Definition parse (value : option string) : option t :=
  match value with
  | Some "router" => Some Router
  | Some "provider" => Some Provider
  | Some "unknown" => Some Unknown
  | _ => None
  end.
End ErrorSource.

Module ShouldRetry.
Inductive t : Type :=
| True | False | Absent.
#[global] Instance eq_dec : EqDecision t.
Proof. solve_decision. Defined.
End ShouldRetry.

Module Level.
Inductive t : Type :=
| Attempt | Request.
#[global] Instance eq_dec : EqDecision t.
Proof. solve_decision. Defined.
Definition as_str (x : t) : string :=
  match x with
  | Attempt => "attempt"
  | Request => "request"
  end.
End Level.

(** ** Hosts *)

Section hosts.
Context `{UL : UrlLib}.

Definition REGION_HOSTS : list (string * Host.t) :=
  [ ("api-us-central1.quillrouter.com", Host.UsCentral1);
    ("api-us-east4.quillrouter.com", Host.UsEast4);
    ("api-europe-west4.quillrouter.com", Host.EuropeWest4) ].

Definition constant_host (constant : string) : option string :=
  ok (url_parse constant) >>? url_host_str >>? (λ h, Some (to_ascii_lowercase h)).

Definition trustedrouter_domain (host : string) : bool :=
  bool_decide (host = "trustedrouter.com") || ends_with ".trustedrouter.com" host.

Definition host_enum (url : Url) : Host.t :=
  match url_host_str url with
  | None => Host.Custom
  | Some host =>
      let host := to_ascii_lowercase host in
      if bool_decide (Some host = constant_host DEFAULT_API_BASE_URL) then Host.Apex
      else if bool_decide (Some host = (ALIAS_API_BASE_URLS !! 0) >>? constant_host) then Host.Ally
      else if bool_decide (Some host = (ALIAS_API_BASE_URLS !! 1) >>? constant_host) then Host.Uptime
      else match find_map (λ r, if bool_decide (host = r.1) then Some r.2 else None) REGION_HOSTS with
           | Some region => region
           | None =>
               if bool_decide (url_scheme url = "https") && trustedrouter_domain host
               then Host.Control else Host.Custom
           end
  end.

Definition host_enum_str (base_url : string) : Host.t :=
  match url_parse base_url with Ok url => host_enum url | Err _ => Host.Custom end.

Definition control_host (url : string) : bool :=
  match url_parse url with
  | Err _ => false
  | Ok parsed =>
      bool_decide (url_scheme parsed = "https")
      && is_some_and (λ host, trustedrouter_domain (to_ascii_lowercase host)) (url_host_str parsed)
  end.

Definition resolve_telemetry_enabled (explicit : option bool)
    (base_url control_base_url : string) (env : string → option string) : bool :=
  match explicit with
  | Some explicit => explicit
  | None =>
      let configured := to_ascii_lowercase (trim (default "" (env "TRUSTEDROUTER_TELEMETRY"))) in
      if bool_decide (configured ∈ ["0"; "false"; "off"; "no"]) then false
      else if bool_decide (configured ∈ ["1"; "true"; "on"; "yes"]) then true
      else if bool_decide (trim (default "" (env "DO_NOT_TRACK")) = "1") then false
      else bool_decide (host_enum_str base_url ≠ Host.Custom) && control_host control_base_url
  end.

(** ** Routes *)

(** [path.split(['?', '#']).next()]. *)
Definition clean_path (path : string) : string :=
  default path (head (split_by (λ c, bool_decide (c = "?"%char) || bool_decide (c = "#"%char)) path)).

Definition tracked_inference_path (path : string) : bool :=
  let route := semantic_route (clean_path path) in
  let excluded name := ends_with name route || contains (name +:+ "/") route in
  negb (excluded "/attestation") && negb (excluded "/internal/gateway/authorize").

Definition grouped_endpoint (route : string) : Endpoint.t :=
  default Endpoint.InferenceOther
    (find_map (λ p, if bool_decide (route = p.1) || starts_with (p.1 +:+ "/") route
                    then Some p.2 else None)
       [ ("/images", Endpoint.Images); ("/videos", Endpoint.Videos);
         ("/models", Endpoint.Models); ("/fusion", Endpoint.Fusion) ]).

Definition endpoint_enum (path : string) : Endpoint.t :=
  let route := semantic_request_route (clean_path path) in
  if bool_decide (route = "/chat/completions") then Endpoint.ChatCompletions
  else if bool_decide (route = "/messages") then Endpoint.Messages
  else if bool_decide (route = "/responses") then Endpoint.Responses
  else if bool_decide (route = "/embeddings") then Endpoint.Embeddings
  else grouped_endpoint route.

End hosts.

(** ** Transport errors *)

Definition MAX_DEPTH : nat := 8.

Definition timeout_class (connect : bool) : ErrorClass.t :=
  if connect then ErrorClass.ConnectTimeout else ErrorClass.ReadTimeout.

(** Pass one, on one typed link: a decided class, or whether an [io::Error]
    was seen. *)
Definition io_class (connect : bool) (kind : IoKind) : option ErrorClass.t :=
  match kind with
  | ConnectionRefused => Some ErrorClass.ConnectRefused
  | ConnectionReset | ConnectionAborted | BrokenPipe => Some ErrorClass.Reset
  | TimedOut => Some (timeout_class connect)
  | InvalidData => if connect then Some ErrorClass.Tls else None
  | OtherKind => None
  end.

(** Pass two, on the text of one link. *)
Definition probe_class (link : ErrorLink) : option ErrorClass.t :=
  let text := to_ascii_lowercase (link_text link) in
  if contains "dns error" text || contains "failed to lookup address" text
  then Some ErrorClass.Dns
  else if contains "certificate" text || contains "handshake" text
          || contains "tls" text || contains "corrupt message" text
  then Some ErrorClass.Tls
  else if contains "proxy" text then Some ErrorClass.ProxyError
  else if contains "connection closed before" text || contains "parse" text
  then Some ErrorClass.ProtocolError
  else None.

Definition classify_chain (top : ErrorLink) (sources : list ErrorLink) (connect : bool)
    : ErrorClass.t :=
  let typed := take MAX_DEPTH (top :: sources) in
  match find_map (λ link, io_kind link >>? io_class connect) typed with
  | Some class => class
  | None =>
      let saw_io := existsb (λ link, bool_decide (is_Some (io_kind link))) typed in
      match find_map probe_class (take MAX_DEPTH sources) with
      | Some class => class
      | None =>
          if connect then ErrorClass.ConnectError
          else if saw_io then ErrorClass.IoError
          else ErrorClass.Unknown
      end
  end.

Definition classify_transport_error (error : ReqwestError) : ErrorClass.t :=
  let connect := is_connect error in
  if is_timeout error then timeout_class connect
  else classify_chain (top_link error) (source_links error) connect.

(** ** Latencies, statuses, deadlines, grammars *)

Definition LATENCY_BOUNDS : list (N * LatencyBucket.t) :=
  [ (100, LatencyBucket.Lt100); (200, LatencyBucket.Lt200); (400, LatencyBucket.Lt400);
    (800, LatencyBucket.Lt800); (1600, LatencyBucket.Lt1600); (3200, LatencyBucket.Lt3200);
    (6400, LatencyBucket.Lt6400); (12800, LatencyBucket.Lt12800);
    (25600, LatencyBucket.Lt25600); (51200, LatencyBucket.Lt51200);
    (102400, LatencyBucket.Lt102400) ]%N.

Definition latency_bucket (ms : N) : LatencyBucket.t :=
  default LatencyBucket.Ge102400
    (find_map (λ b, if (ms <? b.1)%N then Some b.2 else None) LATENCY_BOUNDS).

Definition status_class (status : option N) : HttpStatusClass.t :=
  match status with
  | None => HttpStatusClass.NoClass
  | Some s =>
      if in_range 200 299 s then HttpStatusClass.Success
      else if (s =? 429)%N then HttpStatusClass.RateLimited
      else if in_range 400 499 s then HttpStatusClass.ClientError
      else if in_range 500 599 s then HttpStatusClass.ServerError
      else HttpStatusClass.NoClass
  end.

Definition timeout_floor_met (phase : TimeoutPhase.t) (configured_ms : option N) : bool :=
  match configured_ms with
  | None => false
  | Some configured_ms =>
      match phase with
      | TimeoutPhase.Connect => (10000 <=? configured_ms)%N
      | TimeoutPhase.FirstByte => (60000 <=? configured_ms)%N
      | TimeoutPhase.Idle => (30000 <=? configured_ms)%N
      | TimeoutPhase.NoPhase | TimeoutPhase.Total => false
      end
  end.

Definition phase_for_class (class : ErrorClass.t) : TimeoutPhase.t :=
  match class with
  | ErrorClass.ConnectTimeout => TimeoutPhase.Connect
  | ErrorClass.ReadTimeout | ErrorClass.WriteTimeout => TimeoutPhase.FirstByte
  | _ => TimeoutPhase.NoPhase
  end.

Definition valid_model (model : string) : bool :=
  negb (is_empty model) && (String.length model <=? 128)%nat
  && all_bytes (λ b, is_ascii_alphanumeric b || contains_byte "._:/~@-" b) model.

Definition valid_request_id (value : string) : bool :=
  is_some_and (λ hex, (String.length hex =? 32)%nat
      && all_bytes (λ b, is_ascii_digit b || in_range 97 102 (byte_of b)) hex)
    (strip_prefix "rlog_" value).

(** ** Theorems *)

(** Every wire spelling is in the closed vocabulary of the contract,
    and the spellings are distinct, so a reader recovers the value. *)
Theorem vocabulary_closed :
  (∀ h, Host.as_str h ∈ TELEMETRY_HOSTS)
  ∧ (∀ e, Endpoint.as_str e ∈ TELEMETRY_ENDPOINTS)
  ∧ (∀ o, AttemptOutcome.as_str o ∈ TELEMETRY_OUTCOMES)
  ∧ (∀ o, FinalOutcome.as_str o ∈ TELEMETRY_FINAL_OUTCOMES)
  ∧ (∀ c, ErrorClass.as_str c ∈ TELEMETRY_ERROR_CLASSES)
  ∧ (∀ p, TimeoutPhase.as_str p ∈ TELEMETRY_TIMEOUT_PHASES)
  ∧ (∀ b, LatencyBucket.as_str b ∈ TELEMETRY_LATENCY_BUCKETS)
  ∧ Inj (=) (=) Host.as_str ∧ Inj (=) (=) Endpoint.as_str ∧ Inj (=) (=) FinalOutcome.as_str
  ∧ Inj (=) (=) ErrorClass.as_str ∧ Inj (=) (=) LatencyBucket.as_str
  ∧ (∀ s, ErrorSource.parse (Some (ErrorSource.as_str s)) = Some s).
Proof.
  split_and!; try (intros x; destruct x as [[]|] || destruct x; by vm_compute; set_solver);
    intros x y; try (by destruct x, y).
  by destruct x as [[]|], y as [[]|].
Qed.

Definition bucket_range (b : LatencyBucket.t) : N * option N :=
  match b with
  | LatencyBucket.Lt100 => (0, Some 100) | LatencyBucket.Lt200 => (100, Some 200)
  | LatencyBucket.Lt400 => (200, Some 400) | LatencyBucket.Lt800 => (400, Some 800)
  | LatencyBucket.Lt1600 => (800, Some 1600) | LatencyBucket.Lt3200 => (1600, Some 3200)
  | LatencyBucket.Lt6400 => (3200, Some 6400) | LatencyBucket.Lt12800 => (6400, Some 12800)
  | LatencyBucket.Lt25600 => (12800, Some 25600) | LatencyBucket.Lt51200 => (25600, Some 51200)
  | LatencyBucket.Lt102400 => (51200, Some 102400) | LatencyBucket.Ge102400 => (102400, None)
  end%N.

Definition in_bucket (ms : N) (b : LatencyBucket.t) : Prop :=
  ((bucket_range b).1 <= ms)%N
  ∧ match (bucket_range b).2 with Some upper => (ms < upper)%N | None => True end.

(** The buckets partition the latencies: a latency lies in the range of
    its bucket and of no other. *)
Theorem latency_bucket_partition ms b : latency_bucket ms = b ↔ in_bucket ms b.
Proof.
  unfold latency_bucket, LATENCY_BOUNDS. cbn [find_map fst snd]. split.
  - intros <-. repeat match goal with
      | |- context [(ms <? ?k)%N] => destruct (N.ltb_spec ms k); cbn [default from_option]
      end; split; cbn; (done || lia).
  - intros [Hlo Hhi]. destruct b; cbn in Hlo, Hhi;
      repeat match goal with
      | |- context [(ms <? ?k)%N] =>
          (rewrite (proj2 (N.ltb_lt ms k)) by lia) || (rewrite (proj2 (N.ltb_ge ms k)) by lia)
      end; done.
Qed.

(** ** Exclusions fail closed *)

Definition delimiter (c : ascii) : bool := bool_decide (c = "?"%char) || bool_decide (c = "#"%char).
Definition no_delimiter (s : string) : bool := all_bytes (λ c, negb (delimiter c)) s.

Lemma respells_no_delimiter p q : respells p q → no_delimiter p = true → no_delimiter q = true.
Proof.
  assert (∀ c d, lower_byte c = lower_byte d → delimiter c = delimiter d) as Hlow.
  { assert (∀ a, delimiter a = delimiter (lower_byte a)) as Hl by (by intros [[][][][][][][][]]).
    intros c d H. rewrite (Hl c), (Hl d). by rewrite H. }
  assert (∀ h v, hex_digit h = Some v → delimiter h = false) as Hhex
    by (by intros [[][][][][][][][]]).
  unfold no_delimiter. induction 1; simpl; [done|..].
  - intros [Hc Hp]%andb_true_iff. rewrite <-(Hlow c d) by done. rewrite Hc. auto.
  - intros [Hc Hp]%andb_true_iff. rewrite (Hhex h high), (Hhex l low) by done. auto.
  - auto.
Qed.

Lemma push_char_app code s : push_char code s = push_char code "" +:+ s.
Proof. unfold push_char. by destruct (_ <? _)%N. Qed.

Definition escape_free (s : string) : bool := all_bytes (λ c, bool_decide (c ≠ "%"%char)) s.

Lemma respells_escape_free p q : respells p q → escape_free p = true.
Proof.
  unfold escape_free. induction 1; simpl in *; [done|..].
  - by rewrite bool_decide_eq_true_2.
  - by rewrite bool_decide_eq_true_2.
  - done.
Qed.

(** Folding distributes over a prefix; a separator is only dropped right
    after one that was kept. *)
Lemma fold_route_prefix p x b :
  escape_free p = true →
  ∃ r b', fold_route b (percent_decode_ascii (p +:+ x)) = r +:+ fold_route b' (percent_decode_ascii x)
    ∧ (b' = true → (b = true ∧ r = "") ∨ ∃ r', r = r' +:+ "/").
Proof.
  revert b. induction p as [|c p IH]; intros b Hp; simpl in Hp; [by exists "", b; auto|].
  apply andb_true_iff in Hp as [Hc Hp]. apply bool_decide_eq_true in Hc.
  change (String c p +:+ x) with (String c (p +:+ x)).
  rewrite decode_byte, fold_route_push by (done || apply byte_of_lt).
  destruct ((byte_of c =? 47)%N && b) eqn:E; [by apply IH|].
  destruct (IH (byte_of c =? 47)%N Hp) as (r&b'&->&Hb).
  eexists _, b'. rewrite push_char_app, append_assoc. split; [done|].
  intros [[H47 ->]|[r' ->]]%Hb; right.
  - apply N.eqb_eq in H47. unfold byte_of at 1. rewrite ascii_N_embedding.
    assert (c = "/"%char) as -> by (rewrite <-(ascii_N_embedding c); unfold byte_of in H47; by rewrite H47).
    by exists "".
  - eexists. by rewrite append_assoc.
Qed.

Lemma pop_slashes_id fuel s : ends_with "/" s = false → pop_slashes fuel s = s.
Proof. intros H. destruct fuel; simpl; [done|]. by rewrite H, andb_false_r. Qed.

(** A route name: escape free, already folded, and not ending in [/]. *)
Definition route_name (x : string) : bool :=
  bool_decide (fold_route true (percent_decode_ascii x) = x) && negb (ends_with "/" x)
  && negb (is_empty x).

Lemma semantic_route_suffix p x :
  escape_free p = true → route_name x = true →
  ends_with ("/" +:+ x) (semantic_route (p +:+ "/" +:+ x)) = true.
Proof.
  unfold route_name. intros Hp [[Hx Hend]%andb_true_iff Hne]%andb_true_iff.
  apply bool_decide_eq_true in Hx. apply negb_true_iff in Hend.
  assert (1 <= String.length x)%nat by (destruct x; [done|simpl; lia]).
  destruct (fold_route_prefix p ("/" +:+ x) false Hp) as (r&b'&Hr&Hb).
  assert (∃ r', fold_route false (percent_decode_ascii (p +:+ "/" +:+ x)) = r' +:+ "/" +:+ x)
    as [r' Hr'].
  { change ("/" +:+ x) with (String "/" x) in *. rewrite Hr, decode_byte, fold_route_push by done.
    destruct b'; simpl; rewrite Hx; [|by exists r].
    destruct (Hb eq_refl) as [[]|[r' ->]]; [done|]. exists r'. by rewrite <-append_assoc. }
  unfold semantic_route. rewrite Hr'. rewrite pop_slashes_id.
  - rewrite ends_with_app by done. by apply ends_with_spec; exists "".
  - rewrite !ends_with_app by (simpl; lia). done.
Qed.

(** C34. The excluded routes stay untracked however they are reached: under
    any prefix without a query or fragment delimiter, in any respelling
    (percent escapes, case, repeated separators). *)
Theorem excluded_routes_untracked prefix x q :
  x ∈ ["attestation"; "internal/gateway/authorize"] →
  no_delimiter prefix = true →
  respells (prefix +:+ "/" +:+ x) q →
  tracked_inference_path q = false.
Proof.
  intros Hx Hd Hq.
  assert (no_delimiter x = true ∧ route_name x = true) as [Hdx Hn]
    by (rewrite !elem_of_cons in Hx; by destruct Hx as [->|[->|[]%elem_of_nil]]).
  assert (no_delimiter q = true) as Hdq.
  { eapply respells_no_delimiter; [done|]. unfold no_delimiter in *.
    by rewrite !all_bytes_app, Hd, Hdx. }
  assert (escape_free prefix = true) as He.
  { apply respells_escape_free in Hq. unfold escape_free in *. rewrite all_bytes_app in Hq.
    by apply andb_true_iff in Hq as [? _]. }
  unfold tracked_inference_path, clean_path. rewrite split_by_none by done. simpl.
  rewrite (semantic_route_respells _ _ Hq).
  pose proof (semantic_route_suffix prefix x He Hn) as Hs.
  rewrite !elem_of_cons in Hx. destruct Hx as [->|[->|[]%elem_of_nil]]; simpl in Hs |- *;
    rewrite Hs; by rewrite ?andb_false_r.
Qed.
