(* ===== verification/Recorder.v ===== *)
(** * The per-call recorder ([telemetry.rs], second half)

    [RequestRecorder] observes every attempt of one logical call.  Its
    [Arc<dyn TelemetrySink>] is the list of [on_request] calls made through
    it; [Instant::now()] is an argument of each method. *)
From S2P Require Import Prelude Text Http Config Policy Vocab.

Definition MAX_DURATION_MS : N := 3600000.
Definition MAX_HEADER_BYTES : nat := 160.

Definition bucket_of_str (s : string) : LatencyBucket.t :=
  default LatencyBucket.Ge102400
    (find_map (λ b, if bool_decide (LatencyBucket.as_str b = s) then Some b else None)
       (map snd LATENCY_BOUNDS)).
#[global] Instance LatencyBucket_countable : Countable LatencyBucket.t.
Proof. refine (inj_countable' LatencyBucket.as_str bucket_of_str _). by intros []. Defined.

Record AttemptRecord := mkAttemptRecord {
  ar_index : nat;
  ar_host : Host.t;
  ar_outcome : AttemptOutcome.t;
  ar_http_status : option N;
  ar_error_class : option ErrorClass.t;
  ar_error_source : option ErrorSource.t;
  ar_should_retry : ShouldRetry.t;
  ar_retry_after_ms : option N;
  ar_elapsed_ms : N;
  ar_ttfb_ms : option N;
  ar_request_id : option string;
  ar_moved : bool;
  ar_phase : TimeoutPhase.t;
}.
#[global] Instance AttemptRecord_settable : Settable AttemptRecord := λ a,
  mkAttemptRecord (ar_index a) (ar_host a) (ar_outcome a) (ar_http_status a) (ar_error_class a)
    (ar_error_source a) (ar_should_retry a) (ar_retry_after_ms a) (ar_elapsed_ms a)
    (ar_ttfb_ms a) (ar_request_id a) (ar_moved a) (ar_phase a).

Record RequestEvent := mkRequestEvent {
  ev_endpoint : Endpoint.t;
  ev_method : Method;
  ev_streaming : bool;
  ev_provider_pinned : bool;
  ev_model : option string;
  ev_attempts : list AttemptRecord;
  ev_final_outcome : FinalOutcome.t;
  ev_final_http_status : option N;
  ev_total_ms : N;
  ev_ttft_ms : option N;
  ev_failover_used : bool;
  ev_timeout_phase : TimeoutPhase.t;
  ev_configured_timeout_ms : option N;
}.

Record CounterKey := mkCounterKey {
  ck_level : Level.t;
  ck_endpoint : Endpoint.t;
  ck_streaming : bool;
  ck_host : Host.t;
  ck_outcome : AttemptOutcome.t;
  ck_error_class : option ErrorClass.t;
  ck_http_status_class : HttpStatusClass.t;
  ck_timeout_phase : TimeoutPhase.t;
  ck_timeout_floor_met : bool;
  ck_provider_pinned : bool;
}.
#[global] Instance CounterKey_eq_dec : EqDecision CounterKey.
Proof. solve_decision. Defined.
#[global] Instance CounterKey_settable : Settable CounterKey := λ k,
  mkCounterKey (ck_level k) (ck_endpoint k) (ck_streaming k) (ck_host k) (ck_outcome k)
    (ck_error_class k) (ck_http_status_class k) (ck_timeout_phase k) (ck_timeout_floor_met k)
    (ck_provider_pinned k).

Abbreviation Histogram := (gmap LatencyBucket.t N).

Record CounterRow := mkCounterRow {
  cr_requests : N;
  cr_attempts : N;
  cr_failover_used : N;
  cr_first_attempt_success : N;
  cr_total_ms_hist : Histogram;
  cr_first_event_ms_hist : Histogram;
}.
(** [CounterRow::default()]. *)
Definition CounterRow_default : CounterRow := mkCounterRow 0 0 0 0 ∅ ∅.

(** One call of [TelemetrySink::on_request]. *)
Definition Emission : Type := RequestEvent * list (CounterKey * CounterRow).

Record RecorderSpec := mkRecorderSpec {
  spec_endpoint : Endpoint.t;
  spec_method : Method;
  spec_streaming : bool;
  spec_provider_pinned : bool;
  spec_model : option string;
  spec_configured_timeout : option Duration;
}.

Record RequestRecorder := mkRequestRecorder {
  sink : list Emission;
  endpoint : Endpoint.t;
  method : Method;
  recordable : bool;
  streaming : bool;
  provider_pinned : bool;
  model : option string;
  configured_timeout : option Duration;
  attempts : list AttemptRecord;
  failover_used : bool;
  ttft_ms : option N;
  first_started : option Instant;
  attempt_started : option Instant;
  current_host : option Host.t;
  current_index : option nat;
  finished : bool;
}.
#[global] Instance RequestRecorder_settable : Settable RequestRecorder := λ r,
  mkRequestRecorder (sink r) (endpoint r) (method r) (recordable r) (streaming r)
    (provider_pinned r) (model r) (configured_timeout r) (attempts r) (failover_used r)
    (ttft_ms r) (first_started r) (attempt_started r) (current_host r) (current_index r)
    (finished r).

Definition duration_ms (start finish : Instant) : N :=
  N.min (as_millis (sat_sub finish start)) MAX_DURATION_MS.

Definition valid_value (value : string) : bool :=
  negb (is_empty value) && (String.length value <=? 24)%nat
  && all_bytes (λ b, is_ascii_lowercase b || is_ascii_digit b || bool_decide (b = "_"%char)) value.

Definition finalize_header (values : list (string * string)) : option string :=
  if negb (forallb (λ kv, valid_value kv.2) values) then None
  else
    let header := join ";" (map (λ kv, kv.1 +:+ "=" +:+ kv.2) values) in
    if (MAX_HEADER_BYTES <? String.length header)%nat then None else Some header.

(** [RequestRecorder::new]. *)
Definition new_recorder (spec : RecorderSpec) : RequestRecorder :=
  {| sink := [];
     endpoint := spec_endpoint spec;
     method := spec_method spec;
     recordable := match spec_method spec with GET | POST => true | _ => false end;
     streaming := spec_streaming spec;
     provider_pinned := spec_provider_pinned spec;
     model := opt_filter valid_model (spec_model spec);
     configured_timeout := opt_filter (λ d, negb (d =? 0)%N) (spec_configured_timeout spec);
     attempts := [];
     failover_used := false;
     ttft_ms := None;
     first_started := None;
     attempt_started := None;
     current_host := None;
     current_index := None;
     finished := false |}.

Definition begin_attempt `{UrlLib} (now : Instant) (url : Url) (r : RequestRecorder)
    : RequestRecorder :=
  r <| first_started := Some (default now (first_started r)) |>
    <| attempt_started := Some now |>
    <| current_host := Some (host_enum url) |>
    <| current_index := Some (length (attempts r)) |>.

Definition bit (b : bool) : string := if b then "1" else "0".

(** The [(po, pc)] pair of the previous attempt. *)
Definition previous_facts (previous : AttemptRecord) : string * string :=
  match ar_outcome previous with
  | AttemptOutcome.Ok | AttemptOutcome.Aborted => ("none", "none")
  | outcome =>
      (AttemptOutcome.as_str outcome,
       match ar_error_class previous with Some c => ErrorClass.as_str c | None => "none" end)
  end.

Definition retry_values (r : RequestRecorder) (index : nat) : option (list (string * string)) :=
  if (0 <? index)%nat then
    previous ← last (attempts r);
    started ← attempt_started r;
    let first := default started (first_started r) in
    let '(po, pc) := previous_facts previous in
    Some [("po", po); ("pc", pc); ("ph", Host.as_str (ar_host previous));
          ("pm", show_N (ar_elapsed_ms previous)); ("sm", show_N (duration_ms first started))]
  else Some [].

Definition header_value (r : RequestRecorder) : option string :=
  index ← current_index r;
  if (99 <? index)%nat then None
  else
    host ← current_host r;
    if bool_decide (host = Host.Custom) then None
    else
      previous ← retry_values r index;
      finalize_header
        ([("v", "1"); ("a", show_N (N.of_nat index))] ++ previous
         ++ [("s", bit (streaming r))]
         ++ (if (0 <? index)%nat then [("fo", bit (failover_used r))] else [])).

Definition store_attempt (record : AttemptRecord) (r : RequestRecorder) : RequestRecorder :=
  if (ar_index record <? length (attempts r))%nat
  then r <| attempts := <[ar_index record := record]> (attempts r) |>
  else r <| attempts := attempts r ++ [record] |>.

Definition in_flight (r : RequestRecorder) : option (Instant * Host.t * nat) :=
  started ← attempt_started r; host ← current_host r; index ← current_index r;
  Some (started, host, index).

Section recorder.
Context `{HL : HttpLib} `{DL : HttpDateLib}.

Definition observed_should_retry (headers : HeaderMap) : ShouldRetry.t :=
  match (λ v, to_ascii_lowercase (trim v)) <$> header_text headers "x-should-retry" with
  | Some "true" => ShouldRetry.True
  | Some "false" => ShouldRetry.False
  | _ => ShouldRetry.Absent
  end.

Definition on_response (now : Instant) (wall_now : Duration) (status : N) (headers : HeaderMap)
    (error_source : option ErrorSource.t) (r : RequestRecorder) : RequestRecorder :=
  match in_flight r with
  | None => r
  | Some (started, host, index) =>
      let elapsed_ms := duration_ms started now in
      store_attempt
        {| ar_index := index;
           ar_host := host;
           ar_outcome := if (status <? 400)%N then AttemptOutcome.Ok else AttemptOutcome.HttpError;
           ar_http_status := Some status;
           ar_error_class := None;
           ar_error_source := error_source;
           ar_should_retry := observed_should_retry headers;
           ar_retry_after_ms :=
             (λ delay, N.min (as_millis delay) MAX_DURATION_MS) <$> parse_retry_after wall_now headers;
           ar_elapsed_ms := elapsed_ms;
           ar_ttfb_ms := Some elapsed_ms;
           ar_request_id := opt_filter valid_request_id (header_text headers "x-request-id");
           ar_moved := false;
           ar_phase := TimeoutPhase.NoPhase |} r
  end.

End recorder.

Definition on_response_body_complete (now : Instant) (error_source : option ErrorSource.t)
    (r : RequestRecorder) : RequestRecorder :=
  match in_flight r with
  | None => r
  | Some (started, _, index) =>
      match attempts r !! index with
      | None => r
      | Some record =>
          r <| attempts := <[index := record <| ar_elapsed_ms := duration_ms started now |>
                                             <| ar_error_source := error_source |>]> (attempts r) |>
      end
  end.

(** The outcome, class and phase of a transport failure. *)
Definition failure_facts (class : ErrorClass.t) (timed_out body_started : bool)
    : AttemptOutcome.t * ErrorClass.t * TimeoutPhase.t :=
  if timed_out then
    if body_started then
      (AttemptOutcome.Timeout,
       (if bool_decide (class = ErrorClass.ReadTimeout) then ErrorClass.StreamStalled else class),
       TimeoutPhase.Idle)
    else (AttemptOutcome.Timeout, class, phase_for_class class)
  else if body_started then (AttemptOutcome.StreamBroken, class, phase_for_class class)
  else (AttemptOutcome.TransportError, class, phase_for_class class).

Definition on_transport_error (now : Instant) (class : ErrorClass.t)
    (timed_out response_opened body_started : bool) (r : RequestRecorder) : RequestRecorder :=
  match in_flight r with
  | None => r
  | Some (started, host, index) =>
      let '(outcome, class, phase) := failure_facts class timed_out body_started in
      let previous := attempts r !! index in
      let opened := if response_opened then previous else None in
      store_attempt
        {| ar_index := index;
           ar_host := host;
           ar_outcome := outcome;
           ar_http_status := opened >>? ar_http_status;
           ar_error_class := Some class;
           ar_error_source := previous >>? ar_error_source;
           ar_should_retry := from_option ar_should_retry ShouldRetry.Absent previous;
           ar_retry_after_ms := previous >>? ar_retry_after_ms;
           ar_elapsed_ms := duration_ms started now;
           ar_ttfb_ms := opened >>? ar_ttfb_ms;
           ar_request_id := previous >>? ar_request_id;
           ar_moved := false;
           ar_phase := phase |} r
  end.

Definition on_moved (r : RequestRecorder) : RequestRecorder :=
  match last (attempts r) with
  | None => r
  | Some record =>
      r <| attempts := <[pred (length (attempts r)) := record <| ar_moved := true |>]> (attempts r) |>
        <| failover_used := true |>
  end.

Definition on_first_event (now : Instant) (r : RequestRecorder) : RequestRecorder :=
  match ttft_ms r, first_started r with
  | None, Some first => r <| ttft_ms := Some (duration_ms first now) |>
  | _, _ => r
  end.

Definition on_aborted (now : Instant) (r : RequestRecorder) : RequestRecorder :=
  match in_flight r with
  | None => r
  | Some (started, host, index) =>
      let previous := attempts r !! index in
      store_attempt
        {| ar_index := index;
           ar_host := host;
           ar_outcome := AttemptOutcome.Aborted;
           ar_http_status := previous >>? ar_http_status;
           ar_error_class := previous >>? ar_error_class;
           ar_error_source := previous >>? ar_error_source;
           ar_should_retry := from_option ar_should_retry ShouldRetry.Absent previous;
           ar_retry_after_ms := previous >>? ar_retry_after_ms;
           ar_elapsed_ms := duration_ms started now;
           ar_ttfb_ms := previous >>? ar_ttfb_ms;
           ar_request_id := previous >>? ar_request_id;
           ar_moved := from_option ar_moved false previous;
           ar_phase := from_option ar_phase TimeoutPhase.NoPhase previous |} r
  end.

Definition configured_timeout_ms (r : RequestRecorder) (phase : TimeoutPhase.t) : option N :=
  match phase with
  | TimeoutPhase.Connect | TimeoutPhase.FirstByte | TimeoutPhase.Idle =>
      (λ deadline, clamp (as_millis deadline) 1 MAX_DURATION_MS) <$> configured_timeout r
  | TimeoutPhase.NoPhase | TimeoutPhase.Total => None
  end.

(** ** [RequestRecorder::finish] *)

Definition final_outcome (r : RequestRecorder) (last : AttemptRecord) (exhausted : bool)
    : FinalOutcome.t :=
  if exhausted && (1 <? length (attempts r))%nat
     && negb (bool_decide (ar_outcome last = AttemptOutcome.Ok))
  then FinalOutcome.Exhausted else FinalOutcome.Outcome (ar_outcome last).

Definition finish_event (now first : Instant) (r : RequestRecorder) (last : AttemptRecord)
    (exhausted : bool) : RequestEvent :=
  {| ev_endpoint := endpoint r;
     ev_method := method r;
     ev_streaming := streaming r;
     ev_provider_pinned := provider_pinned r;
     ev_model := model r;
     ev_attempts := attempts r;
     ev_final_outcome := final_outcome r last exhausted;
     ev_final_http_status := ar_http_status last;
     ev_total_ms := duration_ms first now;
     ev_ttft_ms := ttft_ms r;
     ev_failover_used := failover_used r;
     ev_timeout_phase := ar_phase last;
     ev_configured_timeout_ms := configured_timeout_ms r (ar_phase last) |}.

Definition request_key (r : RequestRecorder) (last : AttemptRecord) : CounterKey :=
  {| ck_level := Level.Request;
     ck_endpoint := endpoint r;
     ck_streaming := streaming r;
     ck_host := ar_host last;
     ck_outcome := ar_outcome last;
     ck_error_class := find_map ar_error_class (attempts r);
     ck_http_status_class := status_class (ar_http_status last);
     ck_timeout_phase := ar_phase last;
     ck_timeout_floor_met :=
       timeout_floor_met (ar_phase last) (configured_timeout_ms r (ar_phase last));
     ck_provider_pinned := provider_pinned r |}.

Definition request_row (now first : Instant) (r : RequestRecorder) (last : AttemptRecord)
    : CounterRow :=
  {| cr_requests := 1;
     cr_attempts := N.of_nat (length (attempts r));
     cr_failover_used := if failover_used r then 1 else 0;
     cr_first_attempt_success :=
       if is_some_and (λ a, bool_decide (ar_outcome a = AttemptOutcome.Ok)) (head (attempts r))
       then 1 else 0;
     cr_total_ms_hist := {[ latency_bucket (duration_ms first now) := 1%N ]};
     cr_first_event_ms_hist :=
       match opt_or (ttft_ms r) (ar_ttfb_ms last) with
       | Some first_event_ms => {[ latency_bucket first_event_ms := 1%N ]}
       | None => ∅
       end |}.

Definition attempt_counter (r : RequestRecorder) (attempt : AttemptRecord)
    : CounterKey * CounterRow :=
  ({| ck_level := Level.Attempt;
      ck_endpoint := endpoint r;
      ck_streaming := streaming r;
      ck_host := ar_host attempt;
      ck_outcome := ar_outcome attempt;
      ck_error_class := ar_error_class attempt;
      ck_http_status_class := status_class (ar_http_status attempt);
      ck_timeout_phase := ar_phase attempt;
      ck_timeout_floor_met :=
        timeout_floor_met (ar_phase attempt) (configured_timeout_ms r (ar_phase attempt));
      ck_provider_pinned := provider_pinned r |},
   {| cr_requests := 1;
      cr_attempts := 1;
      cr_failover_used := if ar_moved attempt then 1 else 0;
      cr_first_attempt_success := 0;
      cr_total_ms_hist := ∅;
      cr_first_event_ms_hist := ∅ |}).

Definition emission (now first : Instant) (r : RequestRecorder) (last : AttemptRecord)
    (exhausted : bool) : Emission :=
  (finish_event now first r last exhausted,
   (request_key r last, request_row now first r last) :: map (attempt_counter r) (attempts r)).

Definition finish (now : Instant) (exhausted : bool) (r : RequestRecorder) : RequestRecorder :=
  if finished r then r
  else
    let r := r <| finished := true |> in
    match first_started r, last (attempts r) with
    | Some first, Some last =>
        if negb (recordable r) then r
        else r <| sink := sink r ++ [emission now first r last exhausted] |>
    | _, _ => r
    end.

(** [Drop for RequestRecorder]. *)
Definition drop_recorder (now : Instant) (r : RequestRecorder) : RequestRecorder :=
  if finished r then r else finish now false (on_aborted now r).

(** ** [StreamRecorder]: the recorder of an open stream, behind a mutex *)

Record StreamState := mkStreamState { stream_recorder : RequestRecorder; body_started : bool }.

Definition new_stream (r : RequestRecorder) : StreamState := mkStreamState r false.

Definition on_event (now : Instant) (s : StreamState) : StreamState :=
  if body_started s then s
  else mkStreamState (on_first_event now (stream_recorder s)) true.

Definition on_wire_failure (now : Instant) (class : ErrorClass.t) (timed_out : bool)
    (s : StreamState) : StreamState :=
  mkStreamState
    (finish now false
       (on_transport_error now class timed_out true (body_started s) (stream_recorder s)))
    (body_started s).

Definition on_complete (now : Instant) (s : StreamState) : StreamState :=
  mkStreamState (finish now false (stream_recorder s)) (body_started s).
