(* ===== verification/RecorderFacts.v ===== *)
(** * Correctness of the recorder

    The recorder's invariant over every sequence of its methods, the bounds
    of the [x-tr-client] header, and the exactness of what [finish] reports. *)
From S2P Require Import Prelude Text Http Config Policy Vocab Recorder.

(** ** The invariant *)

Definition wf_attempt (i : nat) (a : AttemptRecord) : Prop :=
  ar_index a = i ∧ (ar_elapsed_ms a <= MAX_DURATION_MS)%N
  ∧ (default 0%N (ar_ttfb_ms a) <= MAX_DURATION_MS)%N.

(** Either no attempt has begun, or the one in flight has an index that is
    the next or the last slot of [attempts]. *)
Definition wf_flight (r : RequestRecorder) : Prop :=
  match first_started r, attempt_started r, current_host r, current_index r with
  | None, None, None, None => attempts r = []
  | Some _, Some _, Some _, Some i => i ≤ length (attempts r) ≤ S i
  | _, _, _, _ => False
  end.

Record wf_recorder (r : RequestRecorder) : Prop := mk_wf_recorder {
  wf_attempts : ∀ i a, attempts r !! i = Some a → wf_attempt i a;
  wf_in_flight : wf_flight r;
  wf_moved : Forall (λ a, ar_moved a = true → failover_used r = true) (attempts r);
  wf_sink : length (sink r) ≤ 1;
  wf_unfinished : finished r = false → sink r = [];
}.

Section facts.
Context `{HL : HttpLib} `{DL : HttpDateLib} `{UL : UrlLib}.

(** One method call on the recorder. *)
Inductive rec_step : RequestRecorder → RequestRecorder → Prop :=
| step_begin now url r : rec_step r (begin_attempt now url r)
| step_response now wall code hs src r : rec_step r (on_response now wall code hs src r)
| step_body now src r : rec_step r (on_response_body_complete now src r)
| step_error now class t o b r : rec_step r (on_transport_error now class t o b r)
| step_moved r : rec_step r (on_moved r)
| step_first_event now r : rec_step r (on_first_event now r)
| step_aborted now r : rec_step r (on_aborted now r)
| step_finish now e r : rec_step r (finish now e r)
| step_drop now r : rec_step r (drop_recorder now r).

Lemma duration_ms_bound a b : (duration_ms a b <= MAX_DURATION_MS)%N.
Proof. unfold duration_ms. lia. Qed.

Lemma wf_new spec : wf_recorder (new_recorder spec).
Proof. by split; cbn; auto. Qed.

Lemma in_flight_wf r started host i :
  wf_recorder r → in_flight r = Some (started, host, i) →
  current_index r = Some i ∧ is_Some (first_started r) ∧ i ≤ length (attempts r) ≤ S i.
Proof.
  intros [_ Hf _ _ _]. unfold in_flight, wf_flight in *.
  destruct (first_started r), (attempt_started r), (current_host r), (current_index r);
    simpl; try done. intros [= <- <- <-]. eauto.
Qed.

(** Writing the slot of the attempt in flight keeps the invariant. *)
Lemma store_attempt_wf r a started host i :
  wf_recorder r → in_flight r = Some (started, host, i) → wf_attempt i a →
  (ar_moved a = true → failover_used r = true) →
  wf_recorder (store_attempt a r).
Proof.
  intros Hr Hfl Ha Hm. destruct (in_flight_wf _ _ _ _ Hr Hfl) as (Hci&[f Hfs]&Hlen).
  pose proof Ha as [Hai _]. destruct Hr as [Hat Hf Hmv Hs Hu].
  assert (∃ l, store_attempt a r = r <| attempts := l |> ∧ i ≤ length l ≤ S i
    ∧ (∀ j b, l !! j = Some b → wf_attempt j b)
    ∧ Forall (λ a, ar_moved a = true → failover_used r = true) l) as (l&->&Hl&Hat'&Hmv').
  { unfold store_attempt. rewrite Hai. destruct (i <? length (attempts r))%nat eqn:E; reflect.
    - eexists. split; [done|]. rewrite length_insert. split; [lia|]. split.
      + intros j b. rewrite list_lookup_insert. case_decide; naive_solver.
      + by apply Forall_insert.
    - eexists. split; [done|]. rewrite length_app. simpl. split; [lia|]. split.
      + intros j b [Hj|[Hj Hb]]%lookup_app_Some; [by apply Hat|].
        apply list_lookup_singleton_Some in Hb as [? <-]. by replace j with i by lia.
      + apply Forall_app; auto. }
  split; cbn; auto. unfold wf_flight in *. cbn.
  destruct (first_started r), (attempt_started r), (current_host r), (current_index r); try done.
  by injection Hci as ->.
Qed.

Lemma store_attempt_lookup r a i :
  ar_index a = i → i ≤ length (attempts r) ≤ S i →
  last (attempts (store_attempt a r)) = Some a ∧ attempts (store_attempt a r) !! i = Some a.
Proof.
  intros Hi Hlen.
  assert (attempts (store_attempt a r) =
    if (i <? length (attempts r))%nat then <[i := a]> (attempts r) else attempts r ++ [a]) as ->
    by (unfold store_attempt; rewrite Hi; by destruct (_ <? _)%nat).
  destruct (i <? length (attempts r))%nat eqn:E; reflect.
  - rewrite last_lookup, length_insert. replace (pred (length (attempts r))) with i by lia.
    by rewrite list_lookup_insert_eq by lia.
  - rewrite last_snoc. split; [done|]. rewrite lookup_app_r by lia.
    by replace (i - length (attempts r)) with 0 by lia.
Qed.

Lemma wf_attempt_previous r i a :
  wf_recorder r → attempts r !! i = Some a → (default 0%N (ar_ttfb_ms a) <= MAX_DURATION_MS)%N.
Proof. intros [Hat _ _ _ _] H. by apply Hat in H as (_&_&?). Qed.

Lemma begin_attempt_wf now url r : wf_recorder r → wf_recorder (begin_attempt now url r).
Proof. intros [Hat Hf Hm Hs Hu]. by split; cbn; auto. Qed.

Lemma on_response_wf now wall code hs src r :
  wf_recorder r → wf_recorder (on_response now wall code hs src r).
Proof.
  intros Hr. unfold on_response. destruct (in_flight r) as [[[started host] i]|] eqn:Hf; [|done].
  eapply store_attempt_wf; [done..| |done]. repeat split; cbn; apply duration_ms_bound.
Qed.

Lemma on_transport_error_wf now class t o b r :
  wf_recorder r → wf_recorder (on_transport_error now class t o b r).
Proof.
  intros Hr. unfold on_transport_error.
  destruct (in_flight r) as [[[started host] i]|] eqn:Hf; [|done].
  destruct (failure_facts class t b) as [[outcome class'] phase].
  eapply store_attempt_wf; [done..| |done]. repeat split; cbn; [apply duration_ms_bound|].
  destruct o; cbn; [|done]. destruct (attempts r !! i) eqn:Ha; cbn; [|done].
  by eapply wf_attempt_previous.
Qed.

Lemma on_aborted_wf now r : wf_recorder r → wf_recorder (on_aborted now r).
Proof.
  intros Hr. unfold on_aborted.
  destruct (in_flight r) as [[[started host] i]|] eqn:Hf; [|done].
  eapply store_attempt_wf; [done..| |]; cbn.
  - repeat split; cbn; [apply duration_ms_bound|].
    destruct (attempts r !! i) eqn:Ha; cbn; [|done]. by eapply wf_attempt_previous.
  - destruct (attempts r !! i) eqn:Ha; cbn; [|done]. destruct Hr as [_ _ Hm _ _].
    by apply (Forall_lookup_1 _ _ _ _ Hm Ha).
Qed.

(** Rewriting one recorded attempt in place keeps the invariant. *)
Lemma update_attempt_wf r i a b fo :
  wf_recorder r → attempts r !! i = Some a → wf_attempt i b →
  (failover_used r = true → fo = true) → (ar_moved b = true → fo = true) →
  wf_recorder (r <| attempts := <[i := b]> (attempts r) |> <| failover_used := fo |>).
Proof.
  intros [Hat Hf Hm Hs Hu] Ha Hb Hfo Hbm. split; cbn; auto.
  - intros j c. rewrite list_lookup_insert. case_decide; naive_solver.
  - unfold wf_flight in *. cbn. rewrite length_insert.
    destruct (first_started r), (attempt_started r), (current_host r), (current_index r); try done.
    by rewrite Hf in Ha.
  - apply Forall_insert; [|done]. eapply Forall_impl; [done|]. naive_solver.
Qed.

Lemma on_response_body_complete_wf now src r :
  wf_recorder r → wf_recorder (on_response_body_complete now src r).
Proof.
  intros Hr. unfold on_response_body_complete.
  destruct (in_flight r) as [[[started host] i]|]; [|done].
  destruct (attempts r !! i) as [a|] eqn:Ha; [|done].
  pose proof (wf_attempts _ Hr _ _ Ha) as (?&?&?).
  pose proof (proj1 (Forall_lookup _ _) (wf_moved _ Hr) _ _ Ha).
  eapply (update_attempt_wf r i a _ (failover_used r)); [done..| |done|done].
  repeat split; cbn; [done|apply duration_ms_bound|done].
Qed.

Lemma on_moved_wf r : wf_recorder r → wf_recorder (on_moved r).
Proof.
  intros Hr. unfold on_moved. rewrite last_lookup.
  destruct (attempts r !! pred (length (attempts r))) as [a|] eqn:Ha; [|done].
  eapply update_attempt_wf; [done..| |done|done]. by destruct (wf_attempts _ Hr _ _ Ha) as (?&?&?).
Qed.

Lemma on_first_event_wf now r : wf_recorder r → wf_recorder (on_first_event now r).
Proof.
  intros [Hat Hf Hm Hs Hu]. unfold on_first_event.
  by destruct (ttft_ms r), (first_started r).
Qed.

(** [finish] only sets the flag and appends at most one report. *)
Lemma finish_shape now e r : finished r = false →
  ∃ l, length l ≤ 1 ∧ finish now e r = r <| finished := true |> <| sink := sink r ++ l |>.
Proof.
  intros Hf. unfold finish. rewrite Hf. cbv zeta.
  assert (r <| finished := true |> = r <| finished := true |> <| sink := sink r ++ [] |>) as Hnil
    by (by rewrite app_nil_r).
  assert (∃ l, length l ≤ 1 ∧ r <| finished := true |> = r <| finished := true |> <| sink := sink r ++ l |>)
    as Hsame by (exists []; split; [simpl; lia|exact Hnil]).
  destruct (first_started (r <| finished := true |>)); [|done].
  destruct (last (attempts (r <| finished := true |>))); [|done].
  destruct (negb (recordable (r <| finished := true |>))); [done|].
  eexists [_]. split; [simpl; lia|reflexivity].
Qed.

Lemma finish_finished now e r : finished (finish now e r) = true.
Proof.
  destruct (finished r) eqn:E; [unfold finish; by rewrite E|].
  by destruct (finish_shape now e r E) as (l&_&->).
Qed.

Lemma finish_attempts now e r : attempts (finish now e r) = attempts r.
Proof.
  destruct (finished r) eqn:E; [unfold finish; by rewrite E|].
  by destruct (finish_shape now e r E) as (l&_&->).
Qed.

Lemma finish_wf now e r : wf_recorder r → wf_recorder (finish now e r).
Proof.
  intros Hr. destruct (finished r) eqn:Efin; [unfold finish; by rewrite Efin|].
  destruct (finish_shape now e r Efin) as (l&Hl&->). destruct Hr as [Hat Hf Hm Hs Hu].
  rewrite Hu by done. by split.
Qed.

Lemma drop_recorder_wf now r : wf_recorder r → wf_recorder (drop_recorder now r).
Proof.
  intros Hr. unfold drop_recorder. destruct (finished r); [done|]. by apply finish_wf, on_aborted_wf.
Qed.

#[local] Hint Resolve begin_attempt_wf on_response_wf on_response_body_complete_wf
  on_transport_error_wf on_moved_wf on_first_event_wf on_aborted_wf finish_wf drop_recorder_wf : sdk.

Lemma rec_step_wf r r' : rec_step r r' → wf_recorder r → wf_recorder r'.
Proof. destruct 1; auto with sdk. Qed.

Lemma rec_steps_wf r r' : rtc rec_step r r' → wf_recorder r → wf_recorder r'.
Proof. induction 1; eauto using rec_step_wf. Qed.

(** C10. Over every sequence of method calls from a fresh recorder: the
    attempts are stored at their own index with durations clamped to an
    hour, the attempt in flight is the last or the next slot, and the sink
    is called at most once, whatever mixture of [finish] and [drop] ends
    the call; once finished, no further [finish] or [drop] reports again. *)
Theorem recorder_reports_at_most_once spec r :
  rtc rec_step (new_recorder spec) r →
  wf_recorder r ∧ length (sink r) ≤ 1
  ∧ (finished r = true → ∀ now e, finish now e r = r ∧ drop_recorder now r = r).
Proof.
  intros H. assert (wf_recorder r) as Hr by eauto using rec_steps_wf, wf_new.
  split_and!; [done|by destruct Hr|].
  intros Hf now e. unfold drop_recorder, finish. by rewrite Hf.
Qed.

(** ** What [finish] reports *)

(** The statuses of a class. *)
Definition in_status_class (status : option N) (class : HttpStatusClass.t) : Prop :=
  match class with
  | HttpStatusClass.Success => ∃ s, status = Some s ∧ (200 <= s < 300)%N
  | HttpStatusClass.RateLimited => status = Some 429%N
  | HttpStatusClass.ClientError => ∃ s, status = Some s ∧ (400 <= s < 500)%N ∧ s ≠ 429%N
  | HttpStatusClass.ServerError => ∃ s, status = Some s ∧ (500 <= s < 600)%N
  | HttpStatusClass.NoClass =>
      ∀ s, status = Some s → (s < 200)%N ∨ (300 <= s < 400)%N ∨ (600 <= s)%N
  end.

(** The least deadline, in milliseconds, at which a timeout of the phase
    counts against the service; the phases without one carry no deadline. *)
Definition floor_ms (phase : TimeoutPhase.t) : option N :=
  match phase with
  | TimeoutPhase.Connect => Some 10000%N
  | TimeoutPhase.FirstByte => Some 60000%N
  | TimeoutPhase.Idle => Some 30000%N
  | TimeoutPhase.NoPhase | TimeoutPhase.Total => None
  end.

(** The configured deadline as reported: between a millisecond and an hour. *)
Definition deadline_ms (timeout : option Duration) (phase : TimeoutPhase.t) : option N :=
  _ ← floor_ms phase; (λ d, N.min (N.max 1 (as_millis d)) MAX_DURATION_MS) <$> timeout.

(** The key of a counter row says of attempt [a] of the event what the
    attempt says. *)
Definition exact_key (level : Level.t) (timeout : option Duration) (ev : RequestEvent)
    (a : AttemptRecord) (error : option ErrorClass.t) (key : CounterKey) : Prop :=
  ck_level key = level ∧ ck_endpoint key = ev_endpoint ev ∧ ck_streaming key = ev_streaming ev
  ∧ ck_provider_pinned key = ev_provider_pinned ev
  ∧ ck_host key = ar_host a ∧ ck_outcome key = ar_outcome a ∧ ck_error_class key = error
  ∧ in_status_class (ar_http_status a) (ck_http_status_class key)
  ∧ ck_timeout_phase key = ar_phase a
  ∧ (ck_timeout_floor_met key = true ↔
       ∃ ms floor, deadline_ms timeout (ar_phase a) = Some ms ∧ floor_ms (ar_phase a) = Some floor
         ∧ (floor <= ms)%N).

(** A histogram with one observation, or with none. *)
Definition observes (ms : option N) (h : Histogram) : Prop :=
  match ms with
  | Some ms => ∃ b, in_bucket ms b ∧ h = {[ b := 1%N ]}
  | None => h = ∅
  end.

(** The counters of one report say what its event says: one request-level
    row, keyed by the final attempt and by the first error class any attempt
    had, and one attempt-level row per attempt. *)
Definition exact_counters (timeout : option Duration) (ev : RequestEvent)
    (counters : list (CounterKey * CounterRow)) : Prop :=
  ∃ final key row rest, counters = (key, row) :: rest ∧ last (ev_attempts ev) = Some final
  ∧ exact_key Level.Request timeout ev final (head (omap ar_error_class (ev_attempts ev))) key
  ∧ cr_requests row = 1%N ∧ cr_attempts row = N.of_nat (length (ev_attempts ev))
  ∧ cr_failover_used row = N.b2n (ev_failover_used ev)
  ∧ cr_first_attempt_success row
    = N.b2n (bool_decide (ar_outcome <$> head (ev_attempts ev) = Some AttemptOutcome.Ok))
  ∧ observes (Some (ev_total_ms ev)) (cr_total_ms_hist row)
  ∧ observes (opt_or (ev_ttft_ms ev) (ar_ttfb_ms final)) (cr_first_event_ms_hist row)
  ∧ Forall2 (λ a kr,
      exact_key Level.Attempt timeout ev a (ar_error_class a) kr.1
      ∧ kr.2 = mkCounterRow 1 1 (N.b2n (ar_moved a)) 0 ∅ ∅) (ev_attempts ev) rest.

Lemma in_range_spec lo hi x : in_range lo hi x = true ↔ (lo <= x <= hi)%N.
Proof. unfold in_range. by rewrite andb_true_iff, !N.leb_le. Qed.

Lemma status_class_exact status : in_status_class status (status_class status).
Proof.
  unfold status_class. destruct status as [s|]; [|done].
  pose proof (in_range_spec 200 299 s). pose proof (in_range_spec 400 499 s).
  pose proof (in_range_spec 500 599 s). pose proof (N.eqb_eq s 429).
  destruct (in_range 200 299 s), (s =? 429)%N, (in_range 400 499 s), (in_range 500 599 s); cbn;
    try (eexists; split; [reflexivity|]); try intros ? [= <-]; try (f_equal; intuition congruence);
    intuition (try congruence; lia).
Qed.

Lemma configured_timeout_exact r phase :
  configured_timeout_ms r phase = deadline_ms (configured_timeout r) phase.
Proof.
  unfold configured_timeout_ms, deadline_ms, clamp.
  destruct phase, (configured_timeout r); cbn; try done; f_equal; lia.
Qed.

Lemma timeout_floor_exact timeout phase :
  timeout_floor_met phase (deadline_ms timeout phase) = true ↔
  ∃ ms floor, deadline_ms timeout phase = Some ms ∧ floor_ms phase = Some floor ∧ (floor <= ms)%N.
Proof.
  unfold timeout_floor_met, deadline_ms.
  destruct phase, timeout as [d|]; cbn; rewrite ?N.leb_le; naive_solver.
Qed.

Lemma find_map_head {A B} (f : A → option B) l : find_map f l = head (omap f l).
Proof. induction l as [|x l IH]; cbn; [done|]. by destruct (f x). Qed.

Lemma observes_bucket ms : observes (Some ms) {[ latency_bucket ms := 1%N ]}.
Proof. eexists. split; [by apply latency_bucket_partition|done]. Qed.

Lemma emission_exact now first r final e :
  last (attempts r) = Some final →
  exact_counters (configured_timeout r) (emission now first r final e).1
    (emission now first r final e).2.
Proof.
  intros Hl. exists final, (request_key r final), (request_row now first r final),
    (map (attempt_counter r) (attempts r)).
  assert (∀ level a error, exact_key level (configured_timeout r) (emission now first r final e).1 a error
    (mkCounterKey level (endpoint r) (streaming r) (ar_host a) (ar_outcome a) error
       (status_class (ar_http_status a)) (ar_phase a)
       (timeout_floor_met (ar_phase a) (configured_timeout_ms r (ar_phase a))) (provider_pinned r))) as Hkey.
  { intros. unfold exact_key. cbn. rewrite configured_timeout_exact.
    auto 12 using status_class_exact, timeout_floor_exact. }
  cbn [fst snd emission finish_event ev_attempts]. rewrite <-find_map_head.
  split_and!; cbn; try done; try apply Hkey.
  - destruct (attempts r) as [|a l]; cbn; [done|]. by destruct (ar_outcome a).
  - apply observes_bucket.
  - destruct (opt_or _ _); [apply observes_bucket|done].
  - clear Hl. induction (attempts r) as [|a l IH]; constructor; [|done].
    split; [apply Hkey|]. cbn. by destruct (ar_moved a).
Qed.

Lemma final_outcome_exhausted r final e :
  final_outcome r final e = FinalOutcome.Exhausted ↔
  e = true ∧ 1 < length (attempts r) ∧ ar_outcome final ≠ AttemptOutcome.Ok.
Proof.
  unfold final_outcome. split.
  - destruct (_ && _) eqn:E; [|done]. by reflect.
  - intros (->&Hl&Ho). rewrite (proj2 (Nat.ltb_lt _ _) Hl).
    by rewrite bool_decide_eq_false_2.
Qed.

(** The one report of an unfinished recordable call. *)
Lemma finish_emits now e r first final :
  wf_recorder r → finished r = false → recordable r = true →
  first_started r = Some first → last (attempts r) = Some final →
  finish now e r = r <| finished := true |>
                     <| sink := [emission now first (r <| finished := true |>) final e] |>.
Proof.
  intros Hr Hfin Hrec Hfirst Hlast. unfold finish. rewrite Hfin. cbv zeta.
  change (first_started (r <| finished := true |>)) with (first_started r).
  change (attempts (r <| finished := true |>)) with (attempts r).
  change (recordable (r <| finished := true |>)) with (recordable r).
  change (sink (r <| finished := true |>)) with (sink r).
  by rewrite Hfirst, Hlast, Hrec, (wf_unfinished _ Hr Hfin).
Qed.

(** C14. Finishing an unfinished, recordable call with at least one recorded
    attempt reports exactly once.  The event carries the call's identity and
    every attempt, the time since the first attempt began (at most an hour),
    the final attempt's status, phase and reported deadline, and whether the
    call moved; its outcome is [exhausted] exactly when retries ran out on a
    failure after more than one attempt, else the final attempt's own.  The
    counters say the same: every field of the request row and of one row per
    attempt is determined by the event. *)
Theorem finish_reports_exactly now exhausted r final :
  wf_recorder r → finished r = false → recordable r = true →
  last (attempts r) = Some final →
  ∃ ev counters first,
    sink (finish now exhausted r) = [(ev, counters)]
    ∧ (ev_endpoint ev, ev_method ev, ev_streaming ev) = (endpoint r, method r, streaming r)
    ∧ (ev_provider_pinned ev, ev_model ev) = (provider_pinned r, model r)
    ∧ ev_attempts ev = attempts r
    ∧ (ev_final_outcome ev = FinalOutcome.Exhausted ↔
         exhausted = true ∧ 1 < length (attempts r) ∧ ar_outcome final ≠ AttemptOutcome.Ok)
    ∧ (ev_final_outcome ev ≠ FinalOutcome.Exhausted →
         ev_final_outcome ev = FinalOutcome.Outcome (ar_outcome final))
    ∧ ev_final_http_status ev = ar_http_status final
    ∧ first_started r = Some first
    ∧ ev_total_ms ev = N.min (as_millis (sat_sub now first)) 3600000
    ∧ ev_ttft_ms ev = ttft_ms r
    ∧ ev_failover_used ev = failover_used r
    ∧ ev_timeout_phase ev = ar_phase final
    ∧ ev_configured_timeout_ms ev = deadline_ms (configured_timeout r) (ar_phase final)
    ∧ exact_counters (configured_timeout r) ev counters.
Proof.
  intros Hr Hfin Hrec Hlast.
  assert (is_Some (first_started r)) as [first Hfirst].
  { pose proof (wf_in_flight _ Hr) as Hf. unfold wf_flight in Hf.
    destruct (first_started r); [by eexists|].
    destruct (attempt_started r), (current_host r), (current_index r); try done.
    by rewrite Hf in Hlast. }
  rewrite (finish_emits now exhausted r first final) by done.
  set (r' := r <| finished := true |>).
  exists (finish_event now first r' final exhausted), (emission now first r' final exhausted).2, first.
  split_and!; try done.
  - apply (final_outcome_exhausted r').
  - cbn [finish_event ev_final_outcome]. unfold final_outcome. by destruct (_ && _).
  - apply (configured_timeout_exact r').
  - by apply (emission_exact now first r').
Qed.

Lemma drop_reports_aborted now r i :
  wf_recorder r → finished r = false → recordable r = true → current_index r = Some i →
  ∃ ev counters,
    sink (drop_recorder now r) = [(ev, counters)]
    ∧ ev_final_outcome ev = FinalOutcome.Outcome AttemptOutcome.Aborted
    ∧ (∃ a, ev_attempts ev !! i = Some a ∧ ar_outcome a = AttemptOutcome.Aborted)
    ∧ exact_counters (configured_timeout r) ev counters.
Proof.
  intros Hr Hfin Hrec Hi. unfold drop_recorder. rewrite Hfin.
  pose proof (on_aborted_wf now r Hr) as Hr'.
  assert (∃ started host, in_flight r = Some (started, host, i)) as (started&host&Hfl).
  { pose proof (wf_in_flight _ Hr) as Hf. unfold wf_flight, in_flight in *. rewrite Hi in *.
    destruct (first_started r), (attempt_started r), (current_host r); try done. by eexists _, _. }
  destruct (in_flight_wf _ _ _ _ Hr Hfl) as (_&[first Hfirst]&Hlen).
  unfold on_aborted in *. rewrite Hfl in *.
  set (a := mkAttemptRecord i _ _ _ _ _ _ _ _ _ _ _ _) in *.
  assert (last (attempts (store_attempt a r)) = Some a
          ∧ attempts (store_attempt a r) !! i = Some a) as [Hlast Hat].
  { by apply store_attempt_lookup. }
  assert (finished (store_attempt a r) = false ∧ recordable (store_attempt a r) = true
    ∧ first_started (store_attempt a r) = Some first
    ∧ configured_timeout (store_attempt a r) = configured_timeout r) as (Hfin'&Hrec'&Hfirst'& <-)
    by (unfold store_attempt; by destruct (_ <? _)%nat).
  rewrite (finish_emits now false _ first a) by done.
  set (r' := store_attempt a r <| finished := true |>).
  exists (finish_event now first r' a false), (emission now first r' a false).2.
  split_and!; [done|done|by exists a|by apply (emission_exact now first r')].
Qed.

(** A call abandoned in flight is never lost: dropping an unfinished
    recordable recorder whose attempt has begun reports once, with final
    outcome [aborted] for the attempt in flight. *)
Theorem abandoned_call_reports_aborted now r i :
  wf_recorder r → finished r = false → recordable r = true → current_index r = Some i →
  ∃ ev counters,
    sink (drop_recorder now r) = [(ev, counters)]
    ∧ ev_final_outcome ev = FinalOutcome.Outcome AttemptOutcome.Aborted
    ∧ (∃ a, ev_attempts ev !! i = Some a ∧ ar_outcome a = AttemptOutcome.Aborted)
    ∧ exact_counters (configured_timeout r) ev counters.
Proof. apply drop_reports_aborted. Qed.

(** ** Bounds of the [x-tr-client] header *)

Definition sum_lengths (l : list string) : nat := fold_right (λ s n, S (String.length s) + n) 0 l.

Lemma length_join_le l : String.length (join ";" l) ≤ sum_lengths l.
Proof.
  induction l as [|s l IH]; simpl; [lia|]. destruct l as [|t l]; simpl in *; [lia|].
  rewrite !length_append. simpl. lia.
Qed.

Lemma valid_value_number n : (n <= MAX_DURATION_MS)%N →
  valid_value (show_N n) = true ∧ String.length (show_N n) ≤ 7.
Proof.
  intros Hn. assert (String.length (show_N n) ≤ 7) as Hl.
  { pose proof (show_N_length n 7). assert (n < 10 ^ 7)%N by (unfold MAX_DURATION_MS in Hn; lia). lia. }
  split; [|done]. unfold valid_value.
  assert (is_empty (show_N n) = false) as ->
    by (pose proof (show_N_nonempty n); by destruct (show_N n)).
  rewrite (proj2 (Nat.leb_le _ 24)) by lia. simpl.
  pose proof (show_N_digits n) as Hd. revert Hd. generalize (show_N n). intros s.
  induction s as [|c s IH]; simpl; [done|]. intros [Hc Hs]%andb_true_iff.
  rewrite Hc, orb_true_r. simpl. auto.
Qed.

Lemma valid_value_previous a :
  let '(po, pc) := previous_facts a in
  valid_value po = true ∧ valid_value pc = true
  ∧ String.length po ≤ 15 ∧ String.length pc ≤ 15.
Proof.
  unfold previous_facts. destruct (ar_outcome a), (ar_error_class a) as [[]|];
    vm_compute; split_and!; done || lia.
Qed.

Lemma valid_value_host h : valid_value (Host.as_str h) = true ∧ String.length (Host.as_str h) ≤ 12.
Proof. destruct h; vm_compute; split; done || lia. Qed.

Lemma valid_value_bit b : valid_value (bit b) = true ∧ String.length (bit b) = 1.
Proof. by destruct b. Qed.

(** Enough for [finalize_header] to accept: every value in the grammar and
    the lengths within the budget. *)
Lemma finalize_header_accepts values :
  Forall (λ kv, valid_value kv.2 = true) values →
  sum_lengths (map (λ kv, kv.1 +:+ "=" +:+ kv.2) values) ≤ MAX_HEADER_BYTES →
  ∃ header, finalize_header values = Some header ∧ String.length header ≤ MAX_HEADER_BYTES.
Proof.
  intros Hv Hl. unfold finalize_header.
  rewrite (proj2 (forallb_forall _ _)) by (by apply List.Forall_forall). cbn [negb]. cbv zeta.
  pose proof (length_join_le (map (λ kv, kv.1 +:+ "=" +:+ kv.2) values)) as Hj.
  destruct (_ <? _)%nat eqn:E; apply Nat.ltb_lt in E || apply Nat.ltb_ge in E; [lia|by eexists].
Qed.

(** The header is bounded by construction: on a reachable recorder, an
    attempt of index at most 99 against a known host always has a header
    value, it is at most 160 bytes, and a custom host or a higher index
    never has one. *)
Theorem header_value_bounded r host i :
  wf_recorder r → current_host r = Some host → current_index r = Some i →
  match header_value r with
  | Some header => host ≠ Host.Custom ∧ i ≤ 99 ∧ String.length header ≤ MAX_HEADER_BYTES
  | None => host = Host.Custom ∨ 99 < i
  end.
Proof.
  intros Hr Hh Hi. unfold header_value, retry_values. rewrite Hi, Hh. unfold mbind, option_bind.
  destruct (99 <? i)%nat eqn:E99; reflect; [by right|].
  case_bool_decide as Hc; [by left|].
  destruct (valid_value_number (N.of_nat i)) as [Hiv Hil]; [unfold MAX_DURATION_MS; lia|].
  destruct (valid_value_bit (streaming r)) as [Hsv Hsl].
  destruct (valid_value_bit (failover_used r)) as [Hfv Hfl].
  destruct (0 <? i)%nat eqn:E0; reflect.
  - pose proof (wf_in_flight _ Hr) as Hf. unfold wf_flight in Hf. rewrite Hh, Hi in Hf.
    destruct (first_started r) as [first|], (attempt_started r) as [started|]; try done.
    destruct (last (attempts r)) as [prev|] eqn:Hlast.
    2:{ apply last_None in Hlast. rewrite Hlast in Hf. simpl in Hf. lia. }
    rewrite last_lookup in Hlast. destruct (wf_attempts _ Hr _ _ Hlast) as (_&He&_).
    pose proof (valid_value_previous prev) as Hp. destruct (previous_facts prev) as [po pc].
    destruct Hp as (Hpo&Hpc&Hpol&Hpcl), (valid_value_host (ar_host prev)) as [Hhv Hhl].
    destruct (valid_value_number _ He) as [Hev Hel].
    destruct (valid_value_number _ (duration_ms_bound first started)) as [Hdv Hdl].
    cbv zeta. cbn [app from_option].
    edestruct finalize_header_accepts as (h&->&Hlen); [| |by split_and!].
    + repeat (apply Forall_cons; split; [done|]). by apply Forall_nil.
    + cbn -[show_N Nat.add duration_ms]. unfold MAX_HEADER_BYTES. lia.
  - cbn [app].
    edestruct finalize_header_accepts as (h&->&Hlen); [| |by split_and!].
    + repeat (apply Forall_cons; split; [done|]). by apply Forall_nil.
    + cbn -[show_N Nat.add]. unfold MAX_HEADER_BYTES. lia.
Qed.

(** ** Streams *)

(** A body failure after the first event is [stream_broken] or an idle
    timeout, never a plain transport error, and before it never
    [stream_broken]; either way it finishes the record, so neither a later
    completion nor the final drop changes what was reported. *)
Theorem wire_failure_outcome now now' class timed_out s started host i :
  in_flight (stream_recorder s) = Some (started, host, i) →
  wf_recorder (stream_recorder s) →
  let s' := on_wire_failure now class timed_out s in
  (∃ a, attempts (stream_recorder s') !! i = Some a
    ∧ ar_outcome a = (if timed_out then AttemptOutcome.Timeout
                      else if body_started s then AttemptOutcome.StreamBroken
                      else AttemptOutcome.TransportError)
    ∧ (timed_out = true ∧ body_started s = true → ar_phase a = TimeoutPhase.Idle))
  ∧ stream_recorder (on_complete now' s') = stream_recorder s'
  ∧ drop_recorder now' (stream_recorder s') = stream_recorder s'.
Proof.
  intros Hfl Hr s'.
  split; [|split].
  - subst s'. unfold on_wire_failure. cbn. rewrite finish_attempts. unfold on_transport_error. rewrite Hfl.
    destruct (failure_facts class timed_out (body_started s)) as [[o c] ph] eqn:Hff.
    destruct (in_flight_wf _ _ _ _ Hr Hfl) as (_&_&Hlen).
    set (a := mkAttemptRecord i _ _ _ _ _ _ _ _ _ _ _ _). exists a. split.
    + by apply store_attempt_lookup.
    + subst a. cbn. unfold failure_facts in Hff.
      destruct timed_out, (body_started s); injection Hff as <- <- <-; naive_solver.
  - subst s'. unfold on_complete, on_wire_failure. cbn. unfold finish at 1. by rewrite finish_finished.
  - subst s'. unfold drop_recorder, on_wire_failure. cbn. by rewrite finish_finished.
Qed.

End facts.
