(* ===== verification/Identity.v ===== *)
(** * The SDK identity and the [User-Agent] ([telemetry/wire.rs])

    Compile-time facts ([CARGO_PKG_VERSION], the compiler release captured
    by [build.rs], the target) are the fields of [BuildEnv]. *)
From S2P Require Import Prelude Text.

Class BuildEnv := {
  CARGO_PKG_VERSION : string;
  TRUSTED_ROUTER_RUSTC_RELEASE : option string;
  target_os : string;
  target_arch : string;
}.

Definition is_char (c : ascii) (d : ascii) : bool := bool_decide (d = c).

(** The closure [valid_identifiers]. *)
Definition valid_identifiers (part : string) : bool :=
  negb (is_empty part)
  && forallb (λ identifier, negb (is_empty identifier)
        && all_bytes (λ b, is_ascii_alphanumeric b || bool_decide (b = "-"%char)) identifier)
       (split_by (is_char ".") part).

Definition valid_release_number (part : string) : bool :=
  negb (is_empty part) && all_bytes is_ascii_digit part
  && (bool_decide (part = "0") || negb (starts_with "0" part)).

(** [core.splitn(2, '-')]. *)
Definition split_prerelease (core : string) : string * option string :=
  match split_once "-" core with
  | Some (release, prerelease) => (release, Some prerelease)
  | None => (core, None)
  end.

Definition valid_semver (value : string) : bool :=
  if is_empty value || (32 <? String.length value)%nat then false
  else
    match split_by (is_char "+") value with
    | [] => false
    | core :: builds =>
        match builds with
        | _ :: _ :: _ => false
        | _ =>
            let build := head builds in
            let '(release, prerelease) := split_prerelease core in
            let parts := split_by (is_char ".") release in
            (length parts =? 3)%nat && forallb valid_release_number parts
            && is_none_or valid_identifiers prerelease && is_none_or valid_identifiers build
        end
    end.

Definition valid_runtime (value : string) : bool :=
  match split_once "/" value with
  | None => false
  | Some (name, version) =>
      negb (is_empty name) && (String.length name <=? 10)%nat && all_bytes is_ascii_lowercase name
      && negb (is_empty version) && (String.length version <=? 24)%nat
      && all_bytes (λ b, is_ascii_alphanumeric b || contains_byte ".+-" b) version
  end.

Definition runtime_token_from_release (release : option string) : string :=
  let release := default "unknown" (opt_filter (λ v, negb (is_empty v)) release) in
  let runtime := "rustc/" +:+ release in
  if valid_runtime runtime then runtime else "rustc/unknown".

Definition runtime_token `{BuildEnv} : string :=
  runtime_token_from_release TRUSTED_ROUTER_RUSTC_RELEASE.

Definition sdk_user_agent `{BuildEnv} : string :=
  "trusted-router-rust/" +:+ CARGO_PKG_VERSION +:+ " " +:+ runtime_token.

Definition os_enum (os : string) : string :=
  if bool_decide (os ∈ ["linux"; "macos"; "windows"; "ios"; "android"; "freebsd"]) then os
  else "other".

Definition arch_enum (arch : string) : string :=
  if bool_decide (arch = "x86_64") then "x64"
  else if bool_decide (arch = "x86") then "x32"
  else if bool_decide (arch = "aarch64") then "arm64"
  else if bool_decide (arch = "arm") then "arm"
  else if bool_decide (arch ∈ ["wasm32"; "wasm64"]) then "wasm"
  else "other".

Record SdkIdentity := mkSdkIdentity {
  sdk_name : string;
  sdk_version : string;
  sdk_lang : string;
  sdk_runtime : string;
  sdk_os : string;
  sdk_arch : string;
}.

Definition sdk_identity `{BuildEnv} : SdkIdentity :=
  {| sdk_name := "tr-rust";
     sdk_version := if valid_semver CARGO_PKG_VERSION then CARGO_PKG_VERSION else "0.0.0";
     sdk_lang := "rust";
     sdk_runtime := runtime_token;
     sdk_os := os_enum target_os;
     sdk_arch := arch_enum target_arch |}.

Lemma runtime_token_valid release : valid_runtime (runtime_token_from_release release) = true.
Proof. unfold runtime_token_from_release. by destruct (valid_runtime ("rustc/" +:+ _)) eqn:E. Qed.

(** Whatever the compiler release and the target, every field of the
    identity is in its grammar or closed vocabulary, so a batch is never
    refused for its identity. *)
Theorem sdk_identity_in_grammar `{BuildEnv} :
  valid_semver (sdk_version sdk_identity) = true
  ∧ valid_runtime (sdk_runtime sdk_identity) = true
  ∧ sdk_os sdk_identity ∈ ["linux"; "macos"; "windows"; "ios"; "android"; "freebsd"; "other"]
  ∧ sdk_arch sdk_identity ∈ ["x64"; "x32"; "arm64"; "arm"; "wasm"; "other"].
Proof.
  split_and!; simpl.
  - destruct (valid_semver CARGO_PKG_VERSION) eqn:E; [done|reflexivity].
  - apply runtime_token_valid.
  - unfold os_enum. case_bool_decide; set_solver.
  - unfold arch_enum. repeat case_bool_decide; set_solver.
Qed.
