(* ===== verification/Release.v ===== *)
(** * What a release fixes ([constants.rs], [build.rs])

    The published model names and panels, and the compiler release that the
    build script reads from [rustc -vV] for the SDK identity.  Running the
    compiler is an argument. *)
From S2P Require Import Prelude Text Bytes F64 Http Config Vocab Identity.

(** ** Constants *)

Definition VERSION `{BuildEnv} : string := CARGO_PKG_VERSION.
Definition DEFAULT_ORCHESTRATION_TIMEOUT : Duration := from_secs 600.

Definition AUTO_MODEL : string := "trustedrouter/auto".
Definition FAST_MODEL : string := "trustedrouter/fast".
Definition ZDR_MODEL : string := "trustedrouter/zdr".
Definition E2E_MODEL : string := "trustedrouter/e2e".
Definition CONFIDENTIAL_MODEL : string := "trustedrouter/confidential".
Definition EU_MODEL : string := "trustedrouter/eu".
Definition US_MODEL : string := "trustedrouter/us".
Definition SYNTH_MODEL : string := "trustedrouter/synth".
Definition FUSION_MODEL : string := "trustedrouter/fusion".
Definition ADVISOR_MODEL : string := "trustedrouter/advisor".
Definition SELECTOR_MODEL : string := "trustedrouter/selector".
Definition MAP_REDUCE_MODEL : string := "trustedrouter/mapreduce".
Definition SUBAGENT_MODEL : string := "trustedrouter/subagent".
Definition SOCRATES_MODEL : string := "trustedrouter/socrates-1.1".
Definition PROMETHEUS_MODEL : string := "trustedrouter/prometheus-2.0".
Definition ZEUS_MODEL : string := "trustedrouter/zeus-1.0".
Definition ATHENA_MODEL : string := "trustedrouter/athena".

Definition SYNTH_FREEDOM_PANEL : list string :=
  ["minimax/minimax-m3"; "~kimi/latest"; "~zai/glm-latest"; "google/gemma-4-31b-it";
   "deepseek/deepseek-v4-flash"].
Definition SYNTH_FREEDOM_FALLBACK_JUDGES : list string :=
  ["minimax/minimax-m3"; "~zai/glm-latest"; "~kimi/latest"; "deepseek/deepseek-v4-flash";
   "google/gemma-4-31b-it"].
Definition SYNTH_FREEDOM_FALLBACK_FINALS : list string := SYNTH_FREEDOM_FALLBACK_JUDGES.

Definition published_models : list string :=
  [AUTO_MODEL; FAST_MODEL; ZDR_MODEL; E2E_MODEL; CONFIDENTIAL_MODEL; EU_MODEL; US_MODEL; SYNTH_MODEL;
   FUSION_MODEL; ADVISOR_MODEL; SELECTOR_MODEL; MAP_REDUCE_MODEL; SUBAGENT_MODEL; SOCRATES_MODEL;
   PROMETHEUS_MODEL; ZEUS_MODEL; ATHENA_MODEL].

(** The published names are distinct and, like the panel, in the grammar of
    the telemetry, so calls that use them are reported under their model; a
    fallback chain is a rearrangement of the panel. *)
Lemma published_models_reported :
  NoDup published_models
  ∧ Forall (λ m, valid_model m = true) (published_models ++ SYNTH_FREEDOM_PANEL)
  ∧ SYNTH_FREEDOM_FALLBACK_JUDGES ≡ₚ SYNTH_FREEDOM_PANEL.
Proof. split_and!; refine (bool_decide_unpack _ _); vm_compute; exact I. Qed.

(** ** The build script *)

(** [str::lines]: a line feed ends a line, a carriage return before it is
    dropped, and there is no line after the last line feed. *)
Fixpoint end_lines (pieces : list string) : list string :=
  match pieces with
  | [] => []
  | [piece] => if is_empty piece then [] else [piece]
  | piece :: pieces => default piece (strip_suffix carriage_return piece) :: end_lines pieces
  end.
Definition lines (text : string) : list string :=
  end_lines (split_by (λ b, bool_decide (b = ascii_of_N 10)) text).

(** What running the compiler gave: whether it succeeded, and its output
    when that is UTF-8. *)
Record CompilerRun := mkRun { run_success : bool; run_stdout : option string }.

(** The value [main] passes on as [TRUSTED_ROUTER_RUSTC_RELEASE]. *)
Definition rustc_release (rustc : option string) (run : string → option CompilerRun) : string :=
  default ""
    (output ← opt_filter run_success (rustc ≫= run);
     text ← run_stdout output;
     trim <$> find_map (strip_prefix "release: ") (lines text)).

Lemma find_map_first {A B} (f : A → option B) before x after b :
  Forall (λ y, f y = None) before → f x = Some b → find_map f (before ++ x :: after) = Some b.
Proof. intros Hb Hx. induction Hb as [|y l Hy _ IH]; cbn; [by rewrite Hx|by rewrite Hy]. Qed.

(** The runtime of the identity is the compiler's own release when it names
    one the grammar admits, and a grammatical placeholder whatever else the
    compiler does. *)
Lemma built_runtime rustc run :
  let runtime := runtime_token_from_release (Some (rustc_release rustc run)) in
  valid_runtime runtime = true
  ∧ ∀ path text before line after release,
      rustc = Some path → run path = Some (mkRun true (Some text)) →
      lines text = before ++ line :: after →
      Forall (λ l, strip_prefix "release: " l = None) before →
      strip_prefix "release: " line = Some release →
      trim release ≠ "" → valid_runtime ("rustc/" +:+ trim release) = true →
      runtime = "rustc/" +:+ trim release.
Proof.
  split; [apply runtime_token_valid|].
  intros path text before line after release -> Hrun Hl Hb Hp Hne Hv.
  assert (rustc_release (Some path) run = trim release) as ->.
  { unfold rustc_release. cbn [mbind option_bind]. rewrite Hrun. cbn -[trim lines find_map].
    by rewrite Hl, (find_map_first _ _ _ _ release). }
  unfold runtime_token_from_release.
  assert (opt_filter (λ v, negb (is_empty v)) (Some (trim release)) = Some (trim release)) as ->
    by (apply opt_filter_Some; by destruct (trim release)).
  change (default "unknown" (Some (trim release))) with (trim release). cbv zeta. by rewrite Hv.
Qed.

Example built_runtime_1_80 :
  runtime_token_from_release (Some (rustc_release (Some "rustc") (λ _, Some (mkRun true (Some
    ("rustc 1.80.0" +:+ newline +:+ "binary: rustc" +:+ newline +:+ "release: 1.80.0" +:+ newline
     +:+ "LLVM version: 18.1.7" +:+ newline)))))) = "rustc/1.80.0".
Proof. vm_compute. reflexivity. Qed.
