(* ===== verification/Attestation.v ===== *)
(** * Confidential Space attestation ([attestation.rs])

    Policies, trust releases and the verification of a gateway attestation
    token.  The JWT library and the fetch of Google's keys are parameters. *)
From S2P Require Import Prelude Text Bytes Json Http Error Crypto Identity.

Definition GCP_ISSUER : string := "https://confidentialcomputing.googleapis.com".
Definition GCP_JWKS_URL : string :=
  "https://www.googleapis.com/service_accounts/v1/metadata/jwk/signer@confidentialspace-sign.iam.gserviceaccount.com".
Definition EXPORTER_LABEL : string := "EXPORTER-Channel-Binding".
Definition EXPORTER_LENGTH : nat := 32.

Module AttestationBinding.
Inductive t := NoBinding | TlsCert | TlsExporter.
#[global] Instance eq_dec : EqDecision t.
Proof. solve_decision. Defined.
Definition default : t := NoBinding.
End AttestationBinding.

(** ** Policies *)

Record AttestationPolicy := mkAttestationPolicy {
  audience : string;
  expected_cert_sha256 : option string;
  expected_image_digest : option string;
  expected_image_digests : list string;
  expected_image_reference : option string;
  expected_image_references : list string;
  allow_debug : bool;
}.

Definition policy_default : AttestationPolicy := mkAttestationPolicy "quill-cloud" None None [] None [] false.

(** The closure [has_pin]. *)
Definition has_pin (single : option string) (set : list string) : bool :=
  match set with
  | [] => is_some_and (λ value, negb (is_empty value)) single
  | _ => existsb (λ value, negb (is_empty value)) set
  end.

Definition pins_image_identity (policy : AttestationPolicy) : bool :=
  has_pin (expected_image_digest policy) (expected_image_digests policy)
  || has_pin (expected_image_reference policy) (expected_image_references policy).

Record TrustReleaseTls := mkTrustReleaseTls {
  tls_mode : string;
  tls_hostname : string;
  tls_extra : gmap string Value;
}.

Record TrustReleaseDataPolicy := mkTrustReleaseDataPolicy {
  prompt_output_storage : bool;
  control_plane_prompt_access : bool;
  data_policy_extra : gmap string Value;
}.

Record TrustRelease := mkTrustRelease {
  platform : string;
  source_repo : string;
  source_repositories : gmap string string;
  source_commit : string;
  image_reference_of : string;
  accepted_image_references : list string;
  image_digest_of : string;
  accepted_image_digests : list string;
  attestation_issuer : string;
  attestation_audience : string;
  release_api_base_url : string;
  release_tls : option TrustReleaseTls;
  release_data_policy : option TrustReleaseDataPolicy;
  release_extra : gmap string Value;
}.

Definition nonempty (value : string) : option string :=
  if is_empty value then None else Some value.

(** [nonempty(value).into_iter().collect()] when the set is empty. *)
Definition accepted_or (set : list string) (single : string) : list string :=
  match set with [] => option_list (nonempty single) | _ => set end.

Definition no_image_pin : string :=
  "trust release pins no image identity (none of image_digest, accepted_image_digests, image_reference, accepted_image_references); refusing to build a policy that would accept any Confidential Space workload".

Definition policy_from_trust_release (release : TrustRelease) (cert_sha256 : option string)
    : Result AttestationPolicy :=
  let policy :=
    {| audience := if is_empty (attestation_audience release) then "quill-cloud"
                   else attestation_audience release;
       expected_cert_sha256 := cert_sha256;
       expected_image_digest := nonempty (image_digest_of release);
       expected_image_digests := accepted_or (accepted_image_digests release) (image_digest_of release);
       expected_image_reference := nonempty (image_reference_of release);
       expected_image_references :=
         accepted_or (accepted_image_references release) (image_reference_of release);
       allow_debug := false |} in
  if negb (pins_image_identity policy) then Err (Attestation no_image_pin) else Ok policy.

(** ** Options and results *)

Record AttestationVerificationOptions := mkAttestationOptions {
  opt_policy : AttestationPolicy;
  opt_nonce_hex : option string;
  opt_tls_certificate_der : option string;
  opt_tls_exporter : option string;
  opt_jwks : option Value;
  opt_jwks_url : option string;
  opt_http_client : bool;
}.

Record GatewayAttestation := mkGatewayAttestation {
  ga_binding : AttestationBinding.t;
  ga_cert_sha256 : string;
  ga_image_digest : string;
  ga_image_reference : string;
  ga_nonce : option string;
  ga_expires_at : Z;
  ga_issuer : string;
  ga_audience : string;
  ga_raw_claims : Value;
}.

Record DocumentVerificationOptions := mkDocumentOptions {
  doc_policy : AttestationPolicy;
  doc_nonce_hex : string;
  doc_jwks : option Value;
  doc_jwks_url : option string;
  doc_http_client : bool;
}.

Record GatewayAttestationDocument := mkGatewayAttestationDocument {
  gd_binding : AttestationBinding.t;
  gd_cert_sha256_candidates : list string;
  gd_image_digest : string;
  gd_image_reference : string;
  gd_nonce : string;
  gd_expires_at : Z;
  gd_issuer : string;
  gd_audience : string;
  gd_raw_claims : Value;
}.

Inductive AttestationBindingMode := LiveChannel | Document.
#[global] Instance AttestationBindingMode_eq_dec : EqDecision AttestationBindingMode.
Proof. solve_decision. Defined.

(** ** The JWT library and the key fetch *)

Inductive Algorithm := RS256 | OtherAlgorithm (name : string).
#[global] Instance Algorithm_eq_dec : EqDecision Algorithm.
Proof. solve_decision. Defined.

Record JwtHeader := mkJwtHeader { jwt_alg : Algorithm; jwt_kid : option string }.

(** [jsonwebtoken::Validation] as the code configures it. *)
Record Validation := mkValidation {
  val_algorithm : Algorithm;
  val_issuers : list string;
  val_audiences : list string;
  val_required : list string;
}.

Class JwtLib := {
  decode_header : string → result string JwtHeader;
  DecodingKey : Type;
  from_rsa_components : string → string → result string DecodingKey;
  jwt_decode : string → DecodingKey → Validation → result string Value;
}.

(** What a successful [decode] promises: the signature of the token by the
    key over these claims, every required claim present, and a textual
    issuer among the configured ones. *)
Class JwtLaws (J : JwtLib) (signed : string → DecodingKey → Value → Prop) : Prop := {
  jwt_decode_signed token key v claims : jwt_decode token key v = Ok claims → signed token key claims;
  jwt_decode_required token key v claims name :
    jwt_decode token key v = Ok claims → name ∈ val_required v → is_Some (get name claims);
  jwt_decode_issuer token key v claims issuer :
    jwt_decode token key v = Ok claims → get "iss" claims = Some (VString issuer) →
    issuer ∈ val_issuers v;
}.

(** A fetched response: its status with its text, and its body read as
    JSON. *)
Record Fetched A := mkFetched { f_status : N; f_status_text : string; f_json : result string A }.
Arguments mkFetched {A} _ _ _.
Arguments f_status {A} _.
Arguments f_status_text {A} _.
Arguments f_json {A} _.

(** Building the SDK-owned client, and one [GET] with that client or with
    the caller's. *)
Class KeyFetch := {
  owned_client : result string unit;
  get_jwks : bool → string → result string (Fetched Value);
}.

(** ** Helpers *)

(** [Value::pointer] with tokens that name object members. *)
Definition pointer (tokens : list string) (v : Value) : option Value :=
  fold_left (λ v token, v >>? get token) tokens (Some v).

(** [16..=64] bytes as hexadecimal. *)
Definition is_fresh_nonce_hex (nonce : string) : bool :=
  in_range 32 128 (N.of_nat (String.length nonce))
  && (N.of_nat (String.length nonce) mod 2 =? 0)%N && all_bytes is_ascii_hexdigit nonce.

Definition is_sha256_hex (value : string) : bool :=
  (String.length value =? 64)%nat && all_bytes is_ascii_hexdigit value.

Definition optional_claim_string (claims : Value) (tokens : list string) : Result string :=
  match pointer tokens claims with
  | None => Ok ""
  | Some (VString value) => Ok value
  | Some _ => Err (Attestation ("/" +:+ join "/" tokens +:+ " must be a string"))
  end.

Fixpoint string_elements (values : list Value) : Result (list string) :=
  match values with
  | [] => Ok []
  | value :: values =>
      text ← ok_or (Attestation "nonce must be a string") (as_str value);
      rest ← string_elements values;
      Ok (text :: rest)
  end.

Definition string_list (value : Value) : Result (list string) :=
  match value with
  | VNull => Ok []
  | VString value => Ok [value]
  | VArray values => string_elements values
  | _ => Err (Attestation "nonces must be a string or string array")
  end.

(** The values a document commits to, in order and without repeats. *)
Definition candidate_values (claims : Value) : list Value :=
  option_list (get "tls_cert_sha256" claims) ++ option_list (get "workload_tls_cert_sha256" claims)
  ++ match get "eat_nonce" claims with
     | Some (VArray values) => values
     | Some value => [value]
     | None => []
     end.

Definition cert_sha256_candidates (claims : Value) (nonce_hex : string) : list string :=
  let nonce := to_ascii_lowercase nonce_hex in
  fold_left (λ candidates value,
    match opt_filter is_sha256_hex (as_str value) with
    | None => candidates
    | Some text =>
        let hex := to_ascii_lowercase text in
        if negb (bool_decide (hex = nonce)) && negb (bool_decide (hex ∈ candidates))
        then candidates ++ [hex] else candidates
    end) (candidate_values claims) [].

Section verify.
Context `{CL : CryptoLib}.

Definition require_equal (field actual : string) (expected : option string) : Result unit :=
  match opt_filter (λ value, negb (is_empty value)) expected with
  | Some expected =>
      if safe_equal actual expected then Ok () else Err (Attestation (field +:+ " pin mismatch"))
  | None => Ok ()
  end.

Definition require_one_of (field actual : string) (expected : list string) : Result unit :=
  if negb (bool_decide (expected = []))
     && negb (existsb (λ value, negb (is_empty value) && safe_equal actual value) expected)
  then Err (Attestation (field +:+ " pin mismatch"))
  else Ok ().

Definition refuse (text : string) (bad : bool) : Result unit :=
  if bad then Err (Attestation text) else Ok ().

(** ** [verify_claims], check by check *)

(** Production Confidential Space: debug state, software, secure boot and
    hardware. *)
Definition check_platform (claims : Value) (policy : AttestationPolicy) : Result unit :=
  _ ← refuse "debug state must be disabled-since-boot"
        (negb (allow_debug policy)
         && negb (is_some_and (λ value, eq_ignore_ascii_case value "disabled-since-boot")
                    (get "dbgstat" claims >>? as_str)));
  _ ← refuse "workload is not Confidential Space"
        (negb (bool_decide (get "swname" claims >>? as_str = Some "CONFIDENTIAL_SPACE")));
  _ ← refuse "Secure Boot is not attested"
        (negb (bool_decide (get "secboot" claims >>? as_bool = Some true)));
  let hardware := default "" (get "hwmodel" claims >>? as_str) in
  refuse ("unsupported confidential hardware: " +:+ hardware)
    (negb (bool_decide (hardware ∈ ["GCP_AMD_SEV"; "GCP_AMD_SEV_ES"; "GCP_INTEL_TDX"]))).

(** The set a pin accepts. *)
Definition accepted (set : list string) (single : option string) : list string :=
  match set with [] => option_list single | _ => set end.

Definition check_images (policy : AttestationPolicy) (image_digest image_reference : string)
    : Result unit :=
  _ ← refuse
        "attestation policy pins no image identity; refusing to verify against a policy that cannot distinguish the gateway from any other workload"
        (negb (pins_image_identity policy));
  _ ← require_one_of "image digest" image_digest
        (accepted (expected_image_digests policy) (expected_image_digest policy));
  require_one_of "image reference" image_reference
    (accepted (expected_image_references policy) (expected_image_reference policy)).

Definition check_nonce (claims : Value) (nonces : list string) (nonce_hex : option string)
    (mode : AttestationBindingMode) : Result unit :=
  match nonce_hex with
  | None => Ok ()
  | Some nonce =>
      nonce_present ←
        match mode with
        | LiveChannel => Ok (existsb (λ value, safe_equal value nonce) nonces)
        | Document =>
            values ← string_list (default VNull (get "eat_nonce" claims));
            Ok (existsb (λ value, safe_equal (to_ascii_lowercase value) (to_ascii_lowercase nonce))
                  values)
        end;
      refuse "nonce is not bound in JWT" (negb nonce_present)
  end.

(** The TLS exporter of the caller's own session, when supplied. *)
Definition check_exporter (nonces : list string) (options : AttestationVerificationOptions)
    : Result unit :=
  match opt_tls_exporter options with
  | None => Ok ()
  | Some exporter =>
      _ ← refuse ("TLS exporter must be " +:+ show_N (N.of_nat EXPORTER_LENGTH) +:+ " bytes")
            (negb (String.length exporter =? EXPORTER_LENGTH)%nat);
      nonce ← ok_or (Attestation "fresh nonce required with exporter") (opt_nonce_hex options);
      let exporter_hex := hex exporter in
      _ ← refuse "fresh nonce must differ from TLS exporter"
            (safe_equal (to_ascii_lowercase nonce) exporter_hex);
      refuse "TLS exporter is not bound in JWT"
        (negb (existsb (λ value, safe_equal (to_ascii_lowercase value) exporter_hex) nonces))
  end.

(** [hex(&Sha256::digest(certificate))] of the caller's certificate. *)
Definition actual_cert_of (options : AttestationVerificationOptions) : option string :=
  (λ certificate, hex (sha256 certificate)) <$> opt_tls_certificate_der options.

(** The certificate the token commits to: labelled, or found among its
    nonces. *)
Definition committed_cert (claims : Value) (nonces : list string) (actual_cert : option string)
    : option string :=
  opt_or
    (to_ascii_lowercase <$>
       (opt_or (get "tls_cert_sha256" claims) (get "workload_tls_cert_sha256" claims) >>? as_str))
    (opt_filter (λ actual, existsb (λ nonce, safe_equal (to_ascii_lowercase nonce) actual) nonces)
       actual_cert).

Definition check_certificate (claims : Value) (nonces : list string)
    (options : AttestationVerificationOptions) : Result string :=
  let actual_cert := actual_cert_of options in
  cert_sha256 ←
    ok_or (Attestation (match opt_tls_certificate_der options with
             | Some _ => "JWT does not bind a TLS certificate"
             | None => "JWT does not bind a TLS certificate; pass tls_certificate_der from this connection, or use verify_gateway_attestation_document for document-only verification"
             end))
      (committed_cert claims nonces actual_cert);
  _ ← refuse "invalid TLS certificate commitment" (negb (is_sha256_hex cert_sha256));
  _ ← refuse "TLS certificate does not match JWT"
        (is_some_and (λ actual, negb (safe_equal actual cert_sha256)) actual_cert);
  _ ← require_equal "TLS certificate" cert_sha256 (expected_cert_sha256 (opt_policy options));
  Ok cert_sha256.

Definition binding_of (options : AttestationVerificationOptions) : AttestationBinding.t :=
  match opt_tls_exporter options, actual_cert_of options with
  | Some _, _ => AttestationBinding.TlsExporter
  | None, Some _ => AttestationBinding.TlsCert
  | None, None => AttestationBinding.NoBinding
  end.

Definition verify_claims (claims : Value) (options : AttestationVerificationOptions)
    (binding_mode : AttestationBindingMode) : Result GatewayAttestation :=
  let policy := opt_policy options in
  _ ← check_platform claims policy;
  image_digest ← optional_claim_string claims ["submods"; "container"; "image_digest"];
  image_reference ← optional_claim_string claims ["submods"; "container"; "image_reference"];
  expires_at ← ok_or (Attestation "exp must be an integer") (get "exp" claims >>? as_i64);
  issuer ← ok_or (Attestation "iss must be a string") (get "iss" claims >>? as_str);
  _ ← check_images policy image_digest image_reference;
  nonces ← string_list (default VNull (opt_or (get "eat_nonce" claims) (get "nonces" claims)));
  _ ← check_nonce claims nonces (opt_nonce_hex options) binding_mode;
  match binding_mode with
  | Document =>
      Ok (mkGatewayAttestation AttestationBinding.NoBinding "" image_digest image_reference
            (opt_nonce_hex options) expires_at issuer (audience policy) claims)
  | LiveChannel =>
      _ ← check_exporter nonces options;
      cert_sha256 ← check_certificate claims nonces options;
      Ok (mkGatewayAttestation (binding_of options) cert_sha256 image_digest image_reference
            (opt_nonce_hex options) expires_at issuer (audience policy) claims)
  end.

(** ** The token *)

Context `{JL : JwtLib} `{KF : KeyFetch} `{BE : BuildEnv}.

Definition fetch_jwks (options : AttestationVerificationOptions) : Result Value :=
  _ ← (if opt_http_client options then Ok ()
       else map_err (λ e, Attestation ("cannot build JWKS HTTP client: " +:+ e)) owned_client);
  response ← map_err (λ e, Attestation ("JWKS fetch failed: " +:+ e))
    (get_jwks (opt_http_client options) (default GCP_JWKS_URL (opt_jwks_url options)));
  _ ← refuse ("JWKS fetch returned HTTP " +:+ f_status_text response)
        (negb (is_success (f_status response)));
  map_err (λ e, Attestation ("invalid JWKS JSON: " +:+ e)) (f_json response).

(** The first key of the set with this identifier. *)
Definition find_jwk (jwks : Value) (kid : string) : option Value :=
  get "keys" jwks >>? as_array
    >>? List.find (λ key, bool_decide (get "kid" key >>? as_str = Some kid)).

Definition attestation_validation (policy : AttestationPolicy) : Validation :=
  mkValidation RS256 [GCP_ISSUER] [audience policy] ["exp"; "iss"; "aud"].

Definition verified_jwt_claims (document : string) (options : AttestationVerificationOptions)
    : Result Value :=
  text ← map_err (λ e, Attestation ("attestation is not ASCII JWT: " +:+ e)) (from_utf8 document);
  let token := trim text in
  _ ← refuse "expected three JWT segments"
        (negb (length (split_by (λ c, bool_decide (c = "."%char)) token) =? 3)%nat);
  header ← map_err (λ e, Attestation ("invalid JWT header: " +:+ e)) (decode_header token);
  _ ← refuse "expected RS256 JWT" (negb (bool_decide (jwt_alg header = RS256)));
  kid ← ok_or (Attestation "JWT header is missing kid") (jwt_kid header);
  jwks ← match opt_jwks options with Some value => Ok value | None => fetch_jwks options end;
  key ← ok_or (Attestation "no JWK matches JWT kid") (find_jwk jwks kid);
  _ ← refuse "attestation JWK is not RSA" (negb (bool_decide (get "kty" key >>? as_str = Some "RSA")));
  modulus ← ok_or (Attestation "JWK is missing modulus") (get "n" key >>? as_str);
  exponent ← ok_or (Attestation "JWK is missing exponent") (get "e" key >>? as_str);
  decoding_key ← map_err (λ e, Attestation ("malformed RSA JWK: " +:+ e))
    (from_rsa_components modulus exponent);
  map_err (λ e, Attestation ("JWT verification failed: " +:+ e))
    (jwt_decode token decoding_key (attestation_validation (opt_policy options))).

Definition verify_gateway_attestation (document : string) (options : AttestationVerificationOptions)
    : Result GatewayAttestation :=
  claims ← verified_jwt_claims document options;
  verify_claims claims options LiveChannel.

(** [verify_gateway_attestation_document]. *)
Definition verify_document (document : string) (options : DocumentVerificationOptions)
    : Result GatewayAttestationDocument :=
  _ ← refuse "document verification requires a fresh nonce of 16 to 64 random bytes as hex"
        (negb (is_fresh_nonce_hex (doc_nonce_hex options)));
  let options :=
    mkAttestationOptions (doc_policy options) (Some (doc_nonce_hex options)) None None
      (doc_jwks options) (doc_jwks_url options) (doc_http_client options) in
  claims ← verified_jwt_claims document options;
  verified ← verify_claims claims options Document;
  let nonce := default "" (ga_nonce verified) in
  Ok (mkGatewayAttestationDocument AttestationBinding.NoBinding
        (cert_sha256_candidates (ga_raw_claims verified) nonce) (ga_image_digest verified)
        (ga_image_reference verified) nonce (ga_expires_at verified) (ga_issuer verified)
        (ga_audience verified) (ga_raw_claims verified)).

Definition verify_receipt_key_attestation (document : string)
    (options : AttestationVerificationOptions) : Result unit :=
  _ ← refuse "receipt key commitment is required" (bool_decide (opt_nonce_hex options = None));
  claims ← verified_jwt_claims document options;
  _ ← verify_claims claims options Document;
  Ok ().

End verify.
