(* ===== verification/AttestationFacts.v ===== *)
(** * What a verified attestation establishes

    A policy built from a trust release always pins an image; an accepted
    token is signed, production, pinned and bound to the challenge; and the
    reported binding is evidence that was really compared. *)
From S2P Require Import Prelude Text Bytes Json Http Error Crypto Identity Attestation.

(** ** Policies *)

(** The values a release names: those of its set, or its single value when
    the set is empty; an empty single value names nothing. *)
Definition names (set : list string) (single v : string) : Prop :=
  v ∈ set ∨ set = [] ∧ v = single ∧ v ≠ "".

(** Some named value is not empty. *)
Definition publishes (set : list string) (single : string) : Prop := ∃ v, names set single v ∧ v ≠ "".

(** What the policy pins is what the release names: as a single value, as a
    set, and as the set a verification accepts. *)
Definition pins_published (set : list string) (single : string) (pins : list string)
    (pin : option string) : Prop :=
  (∀ v, pin = Some v ↔ v = single ∧ v ≠ "")
  ∧ (set ≠ [] → pins = set) ∧ (∀ v, v ∈ pins ↔ names set single v)
  ∧ (∀ v, v ∈ accepted pins pin ↔ names set single v).

Lemma existsb_elem {A} (p : A → bool) l : existsb p l = true ↔ ∃ x, x ∈ l ∧ p x = true.
Proof. rewrite existsb_exists. by setoid_rewrite list_elem_of_In. Qed.

Lemma nonempty_Some value v : nonempty value = Some v ↔ v = value ∧ v ≠ "".
Proof. unfold nonempty. destruct value; cbn; naive_solver. Qed.

Lemma elem_of_accepted_or set single v : v ∈ accepted_or set single ↔ names set single v.
Proof.
  unfold names, accepted_or. destruct set as [|x set]; [|naive_solver].
  rewrite <-nonempty_Some. destruct (nonempty single); cbn; set_solver.
Qed.

Lemma has_pin_publishes set single :
  has_pin (nonempty single) (accepted_or set single) = true ↔ publishes set single.
Proof.
  unfold publishes. setoid_rewrite <-elem_of_accepted_or.
  unfold accepted_or, nonempty. destruct set as [|x set]; cbn [has_pin].
  - destruct single; cbn; [|set_solver by eauto].
    split; [done|]. intros (v&Hv&_). by apply not_elem_of_nil in Hv.
  - rewrite existsb_elem. setoid_rewrite negb_true_iff. by setoid_rewrite is_empty_false.
Qed.

Lemma accepted_or_pins set single :
  pins_published set single (accepted_or set single) (nonempty single).
Proof.
  split_and!; intros; [apply nonempty_Some|by destruct set|apply elem_of_accepted_or|].
  rewrite <-elem_of_accepted_or. destruct set; [|done]. cbn. by destruct (nonempty single).
Qed.

(** C38. A trust release yields a policy exactly when it publishes a
    non-empty image digest or reference, and is refused otherwise.  The
    policy's digests and references are those published and no others, in
    every field a verification reads; it requires the published audience
    (the default one when none is published) and the caller's certificate,
    and never allows a debug workload. *)
Theorem trust_release_policy_pins release cert :
  let digests := accepted_image_digests release in
  let references := accepted_image_references release in
  match policy_from_trust_release release cert with
  | Ok policy =>
      (publishes digests (image_digest_of release) ∨ publishes references (image_reference_of release))
      ∧ pins_published digests (image_digest_of release)
          (expected_image_digests policy) (expected_image_digest policy)
      ∧ pins_published references (image_reference_of release)
          (expected_image_references policy) (expected_image_reference policy)
      ∧ audience policy = (if bool_decide (attestation_audience release = "") then "quill-cloud"
                           else attestation_audience release)
      ∧ expected_cert_sha256 policy = cert ∧ allow_debug policy = false
  | Err e =>
      e = Attestation no_image_pin
      ∧ ¬ publishes digests (image_digest_of release)
      ∧ ¬ publishes references (image_reference_of release)
  end.
Proof.
  cbv zeta. unfold policy_from_trust_release. cbv zeta.
  match goal with |- context [pins_image_identity ?p] => set (policy := p) end.
  destruct (pins_image_identity policy) eqn:Hp; cbn [negb]; unfold pins_image_identity in Hp.
  - apply orb_true_iff in Hp. cbn in Hp. rewrite !has_pin_publishes in Hp.
    split_and!; [done|apply accepted_or_pins..| |done|done]. cbn. by destruct (attestation_audience release).
  - apply orb_false_iff in Hp as [H1 H2]. cbn in H1, H2.
    rewrite <-!has_pin_publishes. split; [done|]. split; congruence.
Qed.

(** ** Verified claims *)

Section facts.
Context `{CL : CryptoLib} `{CLaws : !CryptoLaws CL}.

Definition production (claims : Value) (policy : AttestationPolicy) : Prop :=
  (allow_debug policy = true
   ∨ ∃ s, get "dbgstat" claims = Some (VString s) ∧ to_ascii_lowercase s = "disabled-since-boot")
  ∧ get "swname" claims = Some (VString "CONFIDENTIAL_SPACE")
  ∧ get "secboot" claims = Some (VBool true)
  ∧ ∃ hw, get "hwmodel" claims = Some (VString hw)
      ∧ hw ∈ ["GCP_AMD_SEV"; "GCP_AMD_SEV_ES"; "GCP_INTEL_TDX"].

(** An image is among the accepted ones whenever any are pinned. *)
Definition pinned (set : list string) (single : option string) (actual : string) : Prop :=
  accepted set single ≠ [] → actual ≠ "" ∧ actual ∈ accepted set single.

(** The workload is one the policy names: pinned by digest or by
    reference, and by both when both are. *)
Definition image_accepted (policy : AttestationPolicy) (digest reference : string) : Prop :=
  pinned (expected_image_digests policy) (expected_image_digest policy) digest
  ∧ pinned (expected_image_references policy) (expected_image_reference policy) reference
  ∧ (accepted (expected_image_digests policy) (expected_image_digest policy) ≠ []
     ∨ accepted (expected_image_references policy) (expected_image_reference policy) ≠ []).

(** The image the token attests. *)
Definition attests_image (claims : Value) (digest reference : string) : Prop :=
  optional_claim_string claims ["submods"; "container"; "image_digest"] = Ok digest
  ∧ optional_claim_string claims ["submods"; "container"; "image_reference"] = Ok reference.

(** The challenge is in the token: in [eat_nonce] itself for a document. *)
Definition nonce_bound (claims : Value) (nonce : string) (mode : AttestationBindingMode) : Prop :=
  match mode with
  | LiveChannel =>
      ∃ nonces, string_list (default VNull (opt_or (get "eat_nonce" claims) (get "nonces" claims)))
                = Ok nonces ∧ nonce ∈ nonces
  | Document =>
      ∃ nonces value, string_list (default VNull (get "eat_nonce" claims)) = Ok nonces
        ∧ value ∈ nonces ∧ to_ascii_lowercase value = to_ascii_lowercase nonce
  end.

Lemma refuse_Ok text bad u : refuse text bad = Ok u ↔ bad = false.
Proof. destruct u. unfold refuse. destruct bad; naive_solver. Qed.

Lemma as_str_Some o s : o >>? as_str = Some s ↔ o = Some (VString s).
Proof. destruct o as [[]|]; cbn; naive_solver. Qed.

Lemma as_bool_Some o b : o >>? as_bool = Some b ↔ o = Some (VBool b).
Proof. destruct o as [[]|]; cbn; naive_solver. Qed.

(** Inverts the checks that passed. *)
Ltac inv_checks :=
  inv_ok; repeat match goal with H : refuse _ _ = Ok _ |- _ => apply refuse_Ok in H end; reflect.

Lemma check_platform_ok claims policy u :
  check_platform claims policy = Ok u → production claims policy.
Proof.
  unfold check_platform. intros H. inv_checks. cbv zeta in *. inv_checks.
  unfold production. rewrite <-as_bool_Some. rewrite <-(as_str_Some _ "CONFIDENTIAL_SPACE").
  split_and!; [|done|done|].
  - destruct (allow_debug policy); [by left|right]. cbn in *.
    destruct (get "dbgstat" claims >>? as_str) as [s|] eqn:E; cbn in *; [|done].
    apply as_str_Some in E. exists s. split; [done|]. unfold eq_ignore_ascii_case in *.
    reflect. done.
  - destruct (get "hwmodel" claims >>? as_str) as [hw|] eqn:E; cbn in *; [|set_solver].
    apply as_str_Some in E. by exists hw.
Qed.

Lemma require_one_of_ok field actual set u :
  require_one_of field actual set = Ok u → set ≠ [] → actual ≠ "" ∧ actual ∈ set.
Proof.
  unfold require_one_of. intros H Hne. rewrite bool_decide_eq_false_2 in H by done. cbn in H.
  destruct (existsb _ set) eqn:E; [|done]. apply existsb_elem in E as (v&Hv&Hp).
  reflect. rewrite safe_equal_spec in *. reflect. subst. by rewrite <-is_empty_false.
Qed.

Lemma has_pin_accepted single set : has_pin single set = true → accepted set single ≠ [].
Proof. unfold has_pin, accepted. destruct set; [|done]. by destruct single. Qed.

Lemma check_images_ok policy digest reference u :
  check_images policy digest reference = Ok u → image_accepted policy digest reference.
Proof.
  unfold check_images. intros H. inv_checks. unfold image_accepted, pinned.
  split_and!; [by eapply require_one_of_ok..|].
  unfold pins_image_identity in *.
  destruct (has_pin (expected_image_digest policy) _) eqn:E; [left|right]; by apply has_pin_accepted.
Qed.

Lemma check_nonce_ok claims nonces nonce mode u :
  string_list (default VNull (opt_or (get "eat_nonce" claims) (get "nonces" claims))) = Ok nonces →
  check_nonce claims nonces (Some nonce) mode = Ok u → nonce_bound claims nonce mode.
Proof.
  intros Hn H. unfold check_nonce in H. destruct mode; inv_checks; subst;
    match goal with H : existsb _ _ = true |- _ => apply existsb_elem in H as (v&Hv&Hp) end;
    rewrite safe_equal_spec in Hp; reflect.
  - exists nonces. by subst.
  - by eexists _, v.
Qed.

(** The evidence of the caller's own connection. *)
Definition binding_earned (claims : Value) (options : AttestationVerificationOptions)
    (binding : AttestationBinding.t) (cert_sha256 : string) : Prop :=
  let committed value :=
    ∃ nonces nonce, string_list (default VNull (opt_or (get "eat_nonce" claims) (get "nonces" claims)))
                    = Ok nonces ∧ nonce ∈ nonces ∧ to_ascii_lowercase nonce = value in
  match binding with
  | AttestationBinding.TlsExporter =>
      ∃ exporter nonce, opt_tls_exporter options = Some exporter
        ∧ String.length exporter = EXPORTER_LENGTH ∧ committed (hex exporter)
        ∧ opt_nonce_hex options = Some nonce ∧ to_ascii_lowercase nonce ≠ hex exporter
  | AttestationBinding.TlsCert =>
      opt_tls_exporter options = None
      ∧ ∃ der, opt_tls_certificate_der options = Some der ∧ cert_sha256 = hex (sha256 der)
  | AttestationBinding.NoBinding =>
      opt_tls_exporter options = None ∧ opt_tls_certificate_der options = None
  end
  ∧ (∀ der, opt_tls_certificate_der options = Some der → cert_sha256 = hex (sha256 der))
  ∧ (committed cert_sha256
     ∨ ∃ label, label ∈ ["tls_cert_sha256"; "workload_tls_cert_sha256"]
         ∧ to_ascii_lowercase <$> (get label claims >>? as_str) = Some cert_sha256)
  ∧ (∀ pin, expected_cert_sha256 (opt_policy options) = Some pin → pin ≠ "" → pin = cert_sha256).

Lemma check_exporter_ok nonces options u exporter :
  check_exporter nonces options = Ok u → opt_tls_exporter options = Some exporter →
  String.length exporter = EXPORTER_LENGTH
  ∧ (∃ value, value ∈ nonces ∧ to_ascii_lowercase value = hex exporter)
  ∧ ∃ nonce, opt_nonce_hex options = Some nonce ∧ to_ascii_lowercase nonce ≠ hex exporter.
Proof.
  unfold check_exporter. intros H He. rewrite He in H. inv_checks. cbv zeta in *. inv_checks.
  rewrite safe_equal_spec in *. reflect.
  match goal with H : existsb _ _ = true |- _ => apply existsb_elem in H as (v&Hv&Hp) end.
  rewrite safe_equal_spec in Hp. reflect.
  split_and!; [by apply Nat.eqb_eq|by exists v|by eexists].
Qed.

Lemma committed_cert_ok claims nonces actual cert :
  committed_cert claims nonces actual = Some cert →
  (∃ nonce, nonce ∈ nonces ∧ to_ascii_lowercase nonce = cert ∧ actual = Some cert)
  ∨ ∃ label, label ∈ ["tls_cert_sha256"; "workload_tls_cert_sha256"]
      ∧ to_ascii_lowercase <$> (get label claims >>? as_str) = Some cert.
Proof.
  unfold committed_cert. intros H.
  destruct (to_ascii_lowercase <$> _) as [c|] eqn:E; cbn in H.
  - injection H as ->. right. destruct (get "tls_cert_sha256" claims) as [v|] eqn:E1; cbn in E.
    + exists "tls_cert_sha256". rewrite E1. split; [set_solver|done].
    + exists "workload_tls_cert_sha256". split; [set_solver|done].
  - left. apply opt_filter_Some in H as [-> H]. apply existsb_elem in H as (v&Hv&Hp).
    rewrite safe_equal_spec in Hp. reflect. by exists v.
Qed.

Lemma check_certificate_ok claims nonces options cert :
  check_certificate claims nonces options = Ok cert →
  committed_cert claims nonces (actual_cert_of options) = Some cert
  ∧ (∀ der, opt_tls_certificate_der options = Some der → cert = hex (sha256 der))
  ∧ (∀ pin, expected_cert_sha256 (opt_policy options) = Some pin → pin ≠ "" → pin = cert).
Proof.
  unfold check_certificate, actual_cert_of. cbv zeta. intros H. inv_checks. subst.
  split_and!; [done| |].
  - intros der Hd. rewrite Hd in *. cbn in *. reflect. rewrite safe_equal_spec in *. by reflect.
  - intros pin Hp Hne. unfold require_equal in *. rewrite Hp in *. cbn in *.
    rewrite (proj2 (is_empty_false pin) Hne) in *. cbn in *. rewrite safe_equal_spec in *.
    case_bool_decide; [done|]. by inv_ok.
Qed.

Lemma verify_claims_ok claims options mode ga :
  verify_claims claims options mode = Ok ga →
  ga_raw_claims ga = claims
  ∧ production claims (opt_policy options)
  ∧ attests_image claims (ga_image_digest ga) (ga_image_reference ga)
  ∧ image_accepted (opt_policy options) (ga_image_digest ga) (ga_image_reference ga)
  ∧ get "iss" claims = Some (VString (ga_issuer ga))
  ∧ ga_nonce ga = opt_nonce_hex options
  ∧ (∀ nonce, opt_nonce_hex options = Some nonce → nonce_bound claims nonce mode)
  ∧ match mode with
    | LiveChannel => binding_earned claims options (ga_binding ga) (ga_cert_sha256 ga)
    | Document => ga_binding ga = AttestationBinding.NoBinding
    end.
Proof.
  unfold verify_claims. cbv zeta. intros H. inv_ok.
  assert (∀ nonce, opt_nonce_hex options = Some nonce → nonce_bound claims nonce mode) as Hnonce.
  { intros nonce Hn. rewrite Hn in *. by eapply check_nonce_ok. }
  repeat match goal with
  | H : check_platform _ _ = Ok _ |- _ => apply check_platform_ok in H
  | H : check_images _ _ _ = Ok _ |- _ => apply check_images_ok in H
  | H : _ >>? as_str = Some _ |- _ => apply as_str_Some in H
  end.
  destruct mode; inv_ok; subst; cbn; split_and!; try done.
  match goal with H : check_certificate _ _ _ = Ok _ |- _ =>
    apply check_certificate_ok in H as (Hc&Hder&Hpin) end.
  apply committed_cert_ok in Hc. unfold binding_earned. cbv zeta. split_and!; [|done| |done].
  - unfold binding_of, actual_cert_of. destruct (opt_tls_exporter options) as [e|] eqn:He.
    + edestruct check_exporter_ok as (?&(v&?&?)&n&?&?); [done..|].
      exists e, n. split_and!; [done..|by eexists _, v|done|done].
    + destruct (opt_tls_certificate_der options) as [der|]; cbn; [|done]. split; [done|].
      exists der. auto.
  - destruct Hc as [(v&?&?&_)|Hl]; [left; by eexists _, v|by right].
Qed.

(** ** The token *)

Context `{JL : JwtLib} `{KF : KeyFetch} (signed : string → DecodingKey → Value → Prop).
Context `{JLaws : !JwtLaws JL signed}.

(** The document is a token whose claims were signed by a key of the key
    set in use, supplied by the caller or fetched. *)
Definition google_signed (document : string) (options : AttestationVerificationOptions)
    (claims : Value) : Prop :=
  ∃ jwks kid jwk n e key,
    match opt_jwks options with Some set => jwks = set | None => fetch_jwks options = Ok jwks end
    ∧ find_jwk jwks kid = Some jwk ∧ get "kid" jwk = Some (VString kid)
    ∧ get "n" jwk = Some (VString n) ∧ get "e" jwk = Some (VString e)
    ∧ from_rsa_components n e = Ok key ∧ signed (trim document) key claims.

Lemma find_jwk_kid jwks kid jwk : find_jwk jwks kid = Some jwk → get "kid" jwk = Some (VString kid).
Proof.
  unfold find_jwk. destruct (_ >>? as_array) as [keys|]; cbn; [|done].
  intros [_ H]%find_some. reflect. by apply as_str_Some.
Qed.

Lemma verified_jwt_claims_ok document options claims :
  verified_jwt_claims document options = Ok claims →
  google_signed document options claims
  ∧ (∀ issuer, get "iss" claims = Some (VString issuer) → issuer = GCP_ISSUER).
Proof using CLaws JLaws.
  unfold verified_jwt_claims. cbv zeta. intros H. inv_checks.
  match goal with H : from_utf8 _ = Ok _ |- _ => apply from_utf8_id in H as -> end.
  split.
  - eexists _, _, _, _, _, _. split_and!; [..|by eapply jwt_decode_signed]; try done.
    + by destruct (opt_jwks options); simplify_eq.
    + by eapply find_jwk_kid.
    + by apply as_str_Some.
    + by apply as_str_Some.
  - intros issuer Hi. eapply jwt_decode_issuer in Hi; [|done].
    cbn in Hi. set_solver.
Qed.

(** C4. An accepted live attestation is a token signed by a key of the key
    set in use and issued by Google, of a Confidential Space workload (a
    production one, unless the policy itself allows debugging) whose image
    the policy names, that carries the caller's nonce; and the binding it reports was earned: an exporter or a certificate is
    claimed only when the caller's own was compared with the token. *)
Theorem gateway_attestation_sound document options ga :
  verify_gateway_attestation document options = Ok ga →
  let claims := ga_raw_claims ga in
  google_signed document options claims ∧ ga_issuer ga = GCP_ISSUER
  ∧ production claims (opt_policy options)
  ∧ attests_image claims (ga_image_digest ga) (ga_image_reference ga)
  ∧ image_accepted (opt_policy options) (ga_image_digest ga) (ga_image_reference ga)
  ∧ (∀ nonce, opt_nonce_hex options = Some nonce → nonce_bound claims nonce LiveChannel)
  ∧ binding_earned claims options (ga_binding ga) (ga_cert_sha256 ga).
Proof using CLaws JLaws.
  unfold verify_gateway_attestation. intros (claims&Hj&Hv)%bind_Ok. cbv zeta.
  apply verified_jwt_claims_ok in Hj as [Hg Hi].
  apply verify_claims_ok in Hv as (->&?&?&?&Hiss&?&?&?). auto 9.
Qed.

(** What a document commits to other than the nonce. *)
Definition commits (claims : Value) (nonce c : string) : Prop :=
  ∃ text, VString text ∈ candidate_values claims ∧ is_sha256_hex text = true
    ∧ c = to_ascii_lowercase text ∧ c ≠ to_ascii_lowercase nonce.

Lemma candidates_ok claims nonce :
  NoDup (cert_sha256_candidates claims nonce)
  ∧ ∀ c, c ∈ cert_sha256_candidates claims nonce ↔ commits claims nonce c.
Proof.
  unfold cert_sha256_candidates, commits. cbv zeta.
  assert (∀ values acc, NoDup acc →
    let out := fold_left (λ candidates value,
      match opt_filter is_sha256_hex (as_str value) with
      | None => candidates
      | Some text =>
          let hex := to_ascii_lowercase text in
          if negb (bool_decide (hex = to_ascii_lowercase nonce)) && negb (bool_decide (hex ∈ candidates))
          then candidates ++ [hex] else candidates
      end) values acc in
    NoDup out ∧ ∀ c, c ∈ out ↔ c ∈ acc ∨ ∃ text, VString text ∈ values ∧ is_sha256_hex text = true
      ∧ c = to_ascii_lowercase text ∧ c ≠ to_ascii_lowercase nonce) as H.
  { induction values as [|v values IH]; intros acc Hacc; cbn [fold_left]; [set_solver|].
    destruct (opt_filter is_sha256_hex (as_str v)) as [text|] eqn:E.
    - apply opt_filter_Some in E as [E Ht]. destruct v as [| | |s| |]; try done. injection E as ->.
      cbv zeta. destruct (_ && _) eqn:Ek.
      + reflect. destruct (IH (acc ++ [to_ascii_lowercase text])) as [Hn Hc].
        { apply NoDup_app. split_and!; [done|set_solver|apply NoDup_singleton]. }
        split; [done|]. intros c. rewrite Hc. set_solver.
      + destruct (IH acc Hacc) as [Hn Hc]. split; [done|]. intros c. rewrite Hc.
        apply andb_false_iff in Ek. rewrite !negb_false_iff, !bool_decide_eq_true in Ek.
        set_solver.
    - destruct (IH acc Hacc) as [Hn Hc]. split; [done|]. intros c. rewrite Hc.
      assert (∀ text, v = VString text → is_sha256_hex text = false) as Hv.
      { intros text ->. cbn in E. by destruct (is_sha256_hex text). }
      split; [set_solver|]. intros [?|(text&[<-|?]%elem_of_cons&Hh&?&?)]; [by left| |set_solver].
      by rewrite Hv in Hh. }
  destruct (H (candidate_values claims) [] (NoDup_nil_2)) as [Hn Hc]. split; [done|].
  intros c. rewrite Hc. set_solver.
Qed.

(** An accepted document proves everything about the workload and
    nothing about the connection: the binding is none, the fresh nonce is in
    [eat_nonce] itself, and the certificate candidates are exactly the other
    SHA-256-shaped values the token commits to, lowercased and without
    repeats. *)
Theorem document_attestation_unbound document options d :
  verify_document document options = Ok d →
  let claims := gd_raw_claims d in
  gd_binding d = AttestationBinding.NoBinding
  ∧ gd_nonce d = doc_nonce_hex options ∧ is_fresh_nonce_hex (gd_nonce d) = true
  ∧ nonce_bound claims (gd_nonce d) Document
  ∧ gd_issuer d = GCP_ISSUER ∧ production claims (doc_policy options)
  ∧ attests_image claims (gd_image_digest d) (gd_image_reference d)
  ∧ image_accepted (doc_policy options) (gd_image_digest d) (gd_image_reference d)
  ∧ NoDup (gd_cert_sha256_candidates d)
  ∧ ∀ c, c ∈ gd_cert_sha256_candidates d ↔ commits claims (gd_nonce d) c.
Proof using CLaws JLaws.
  unfold verify_document. intros H. inv_checks. cbv zeta in *. inv_checks. subst. cbn.
  match goal with H : verified_jwt_claims _ _ = Ok _ |- _ =>
    apply verified_jwt_claims_ok in H as [_ Hi] end.
  match goal with H : verify_claims _ _ _ = Ok _ |- _ =>
    apply verify_claims_ok in H as (->&?&?&?&Hiss&->&Hn&_) end.
  cbn in *. split_and!; auto; apply candidates_ok.
Qed.

(** The receipt-key variant: the commitment is in [eat_nonce]. *)
Lemma receipt_key_attested document options u :
  verify_receipt_key_attestation document options = Ok u →
  ∃ claims commitment, google_signed document options claims
    ∧ opt_nonce_hex options = Some commitment ∧ nonce_bound claims commitment Document
    ∧ get "iss" claims = Some (VString GCP_ISSUER)
    ∧ production claims (opt_policy options)
    ∧ ∃ digest reference, attests_image claims digest reference
        ∧ image_accepted (opt_policy options) digest reference.
Proof using CLaws JLaws.
  unfold verify_receipt_key_attestation. intros H. inv_checks.
  destruct (opt_nonce_hex options) as [commitment|] eqn:Ho; [|done].
  match goal with H : verified_jwt_claims _ _ = Ok ?c |- _ =>
    apply verified_jwt_claims_ok in H as [Hg Hi]; exists c, commitment end.
  match goal with H : verify_claims _ _ _ = Ok _ |- _ =>
    apply verify_claims_ok in H as (?&?&?&?&Hiss&?&Hn&_) end.
  split_and!; auto; [|by eexists _, _]. rewrite Hiss. by rewrite (Hi _ Hiss).
Qed.

End facts.
