(* ===== verification/ReceiptStream.v ===== *)
(** * Receipt streams ([receipts.rs]): framing, digests and capture

    The error taxonomy of receipts, the server-sent-event framing of a
    captured response, the digest of a stream, and [ReceiptCapture]. *)
From S2P Require Import Prelude Text Bytes Json StrictJson Crypto F64.

Module ReceiptError.
Inductive t :=
| Structure (text : string)
| Header (text : string)
| Signature (text : string)
| Claims (text : string)
| MissingBinding (text : string)
| Issuer (text : string)
| Time (text : string)
| Nonce (text : string)
| Upstream (text : string)
| Hash (text : string)
| Attestation (text : string)
| MissingAttestation (text : string)
| UnsupportedAttestation (text : string).

(** [Display], derived by [thiserror]. *)
Definition to_string (e : t) : string :=
  match e with
  | Structure text => "receipt structure verification failed: " +:+ text
  | Header text => "receipt header verification failed: " +:+ text
  | Signature text => "receipt signature verification failed: " +:+ text
  | Claims text => "receipt claims verification failed: " +:+ text
  | MissingBinding text => "receipt binding verification failed: " +:+ text
  | Issuer text => "receipt issuer verification failed: " +:+ text
  | Time text => "receipt time verification failed: " +:+ text
  | Nonce text => "receipt nonce verification failed: " +:+ text
  | Upstream text => "receipt upstream verification failed: " +:+ text
  | Hash text => "receipt hash verification failed: " +:+ text
  | Attestation text | MissingAttestation text | UnsupportedAttestation text =>
      "receipt attestation verification failed: " +:+ text
  end.
End ReceiptError.

Definition ReceiptResult := result ReceiptError.t.

(** ** Equality of JSON values: [Value]'s [PartialEq] *)

Definition number_eqb (a b : Number) : bool :=
  match a, b with
  | PosInt n, PosInt m => (n =? m)%N
  | NegInt z, NegInt w => (z =? w)%Z
  | Float f, Float g => SpecFloat.SFeqb f g
  | _, _ => false
  end.

Fixpoint value_eqb (a b : Value) : bool :=
  match a, b with
  | VNull, VNull => true
  | VBool x, VBool y => Bool.eqb x y
  | VNumber n, VNumber m => number_eqb n m
  | VString s, VString t => bool_decide (s = t)
  | VArray l, VArray k =>
      (fix go (l k : list Value) : bool :=
         match l, k with
         | [], [] => true
         | x :: l, y :: k => value_eqb x y && go l k
         | _, _ => false
         end) l k
  | VObject l, VObject k =>
      (fix go (l k : list (string * Value)) : bool :=
         match l, k with
         | [], [] => true
         | (a, x) :: l, (b, y) :: k => bool_decide (a = b) && value_eqb x y && go l k
         | _, _ => false
         end) l k
  | _, _ => false
  end.

(** ** Framing *)

(** The event of the receipts module: name, payload, and whether it is
    [[DONE]]. *)
Record FramedEvent := mkFramedEvent {
  fe_name : string;
  fe_payload : string;
  fe_done : bool;
}.

Definition lf_end : string := newline +:+ newline.
Definition crlf_end : string := carriage_return +:+ newline +:+ carriage_return +:+ newline.

(** The bytes of the event that starts at [offset], and where it ends. *)
Definition next_sse_event (stream : string) (offset : nat) : option (string * nat) :=
  let rest := string_drop offset stream in
  let lf := (λ index, offset + index + 2) <$> find_subslice rest lf_end in
  let crlf := (λ index, offset + index + 4) <$> find_subslice rest crlf_end in
  match lf, crlf with
  | Some first, Some second =>
      Some (slice stream offset (first `min` second), first `min` second)
  | Some stop, None | None, Some stop => Some (slice stream offset stop, stop)
  | None, None => None
  end.

(** One line of an event: its fields so far and the fields after it. *)
Definition framing_error (text : string) : ReceiptError.t :=
  ReceiptError.Hash ("response stream framing check failed: " +:+ text).

Definition sse_line (raw_line : string) (fields : option string * option string)
    : ReceiptResult (option string * option string) :=
  let '(name, payload) := fields in
  let line := default raw_line (strip_suffix carriage_return raw_line) in
  match strip_prefix "data:" line with
  | Some value =>
      match payload with
      | Some _ => Err (framing_error "SSE event has multiple data fields")
      | None => Ok (name, Some (default value (strip_prefix " " value)))
      end
  | None =>
      match strip_prefix "event:" line with
      | Some value =>
          match name with
          | Some _ => Err (framing_error "SSE event has multiple event fields")
          | None => Ok (Some (default value (strip_prefix " " value)), payload)
          end
      | None => Err (framing_error "SSE event contains an unsupported field")
      end
  end.

Fixpoint sse_lines (lines : list string) (fields : option string * option string)
    : ReceiptResult (option string * option string) :=
  match lines with
  | [] => Ok fields
  | line :: lines => fields ← sse_line line fields; sse_lines lines fields
  end.

Definition is_newline (c : ascii) : bool := bool_decide (c = ascii_of_N 10).

Definition decode_sse_event (raw : string) : ReceiptResult FramedEvent :=
  body ← ok_or (framing_error "incomplete SSE event")
           (opt_or (strip_suffix crlf_end raw) (strip_suffix lf_end raw));
  fields ← sse_lines (split_by is_newline body) (None, None);
  payload ← ok_or (framing_error "SSE event has no data field") (snd fields);
  Ok (mkFramedEvent (default "" (fst fields)) payload (bool_decide (payload = "[DONE]"))).

(** A poll that brings a chunk, an error of the source, or nothing. *)
Inductive CapturePoll (E : Type) :=
| Chunk (bytes : string)
| SourceError (error : E)
| SourceEnd
| SourcePending.
Arguments Chunk {E} _.
Arguments SourceError {E} _.
Arguments SourceEnd {E}.
Arguments SourcePending {E}.

Section stream.
Context `{JT : JsonText} `{CL : CryptoLib}.
(** [Debug] of a string, which needs the Unicode tables. *)
Context (debug_str : string → string).

Definition position_error (text : string) : ReceiptError.t :=
  ReceiptError.Hash ("response stream receipt position check failed: " +:+ text).

Definition embedded_receipt (payload : string) : ReceiptResult (option Value) :=
  match load_json payload "response stream event JSON" with
  | Err _ => Ok None
  | Ok value =>
      match as_object value with
      | None => Ok None
      | Some object =>
          match map_get "inference_receipt" object with
          | None => Ok None
          | Some receipt =>
              if negb (is_object receipt)
              then Err (position_error "inference_receipt must be a flattened JWS object")
              else Ok (Some receipt)
          end
      end
  end.

(** What the loop of [stream_digest] carries: the bytes hashed so far, the
    events counted, and what it has seen. *)
Record DigestState := mkDigestState {
  ds_hashed : string;
  ds_events : N;
  ds_done : bool;
  ds_receipt : bool;
}.

(** What an ordinary event adds to the digest. *)
Definition hash_input (domain : string) (event : FramedEvent) : ReceiptResult string :=
  if bool_decide (domain = "sse-data-v1") then
    if negb (is_empty (fe_name event))
    then Err (ReceiptError.Hash
                "response stream hash check failed: sse-data-v1 events must be unnamed")
    else Ok (fe_payload event +:+ newline)
  else if bool_decide (domain = "sse-events-v1") then
    Ok (fe_name event +:+ newline +:+ fe_payload event +:+ newline)
  else Err (ReceiptError.Hash
              ("response stream hash check failed: unsupported domain " +:+ debug_str domain)).

(** One round of the loop. *)
Definition digest_event (domain : string) (expected_receipt : option Value) (raw : string)
    (s : DigestState) : ReceiptResult DigestState :=
  event ← decode_sse_event raw;
  if ds_done s then Err (position_error "data event follows [DONE]")
  else if fe_done event then Ok (mkDigestState (ds_hashed s) (ds_events s) true (ds_receipt s))
  else
    embedded ← embedded_receipt (fe_payload event);
    match embedded with
    | Some embedded =>
        if ds_receipt s then Err (position_error "multiple receipt events")
        else if is_none_or (λ expected, negb (value_eqb expected embedded)) expected_receipt
        then Err (position_error "embedded receipt does not match the verified flattened JWS")
        else Ok (mkDigestState (ds_hashed s) (ds_events s) (ds_done s) true)
    | None =>
        if ds_receipt s
        then Err (position_error "receipt is not the last data event before [DONE]")
        else
          input ← hash_input domain event;
          Ok (mkDigestState (ds_hashed s +:+ input) (ds_events s + 1) (ds_done s) (ds_receipt s))
    end.

(** The [while offset < stream.len()] loop; [None] is out of fuel. *)
Fixpoint digest_loop (fuel : nat) (domain : string) (expected_receipt : option Value)
    (stream : string) (offset : nat) (s : DigestState) : option (ReceiptResult DigestState) :=
  if negb (offset <? String.length stream)%nat then Some (Ok s)
  else
    match fuel with
    | O => None
    | S fuel =>
        match next_sse_event stream offset with
        | None => Some (Err (framing_error "stream has an incomplete SSE tail"))
        | Some (raw, next) =>
            match digest_event domain expected_receipt raw s with
            | Err e => Some (Err e)
            | Ok s => digest_loop fuel domain expected_receipt stream next s
            end
        end
    end.

Definition finish_digest (s : DigestState) : ReceiptResult (string * N) :=
  if negb (ds_receipt s) then Err (position_error "receipt event is missing")
  else if negb (ds_done s) then Err (position_error "receipt is not followed by [DONE]")
  else Ok (sha256 (ds_hashed s), ds_events s).

Definition stream_digest (stream domain : string) (expected_receipt : option Value)
    : option (ReceiptResult (string * N)) :=
  (λ r : ReceiptResult DigestState, s ← r; finish_digest s)
  <$> digest_loop (String.length stream) domain expected_receipt stream 0
        (mkDigestState "" 0 false false).

(** ** [ReceiptCapture] *)

Record ReceiptCapture := mkReceiptCapture {
  cap_wire : string;
  cap_receipt : option Value;
}.

Definition capture_new : ReceiptCapture := mkReceiptCapture "" None.

(** The receipt of one complete event, if it holds one. *)
Definition event_receipt (raw : string) : option Value :=
  match decode_sse_event raw with
  | Ok event => match embedded_receipt (fe_payload event) with Ok found => found | Err _ => None end
  | Err _ => None
  end.

(** The scan of [refresh_receipt]; the last receipt found stays. *)
Fixpoint refresh_loop (fuel : nat) (wire : string) (offset : nat) (receipt : option Value)
    : option (option Value) :=
  if negb (offset <? String.length wire)%nat then Some receipt
  else
    match fuel with
    | O => None
    | S fuel =>
        match next_sse_event wire offset with
        | None => Some receipt
        | Some (raw, next) => refresh_loop fuel wire next (opt_or (event_receipt raw) receipt)
        end
    end.

Definition refresh_receipt (c : ReceiptCapture) : option ReceiptCapture :=
  mkReceiptCapture (cap_wire c)
  <$> refresh_loop (String.length (cap_wire c)) (cap_wire c) 0 (cap_receipt c).

Definition capture_poll {E} (p : CapturePoll E) (c : ReceiptCapture)
    : option (CapturePoll E * ReceiptCapture) :=
  match p with
  | Chunk chunk =>
      c' ← refresh_receipt (mkReceiptCapture (cap_wire c +:+ chunk) (cap_receipt c));
      Some (Chunk chunk, c')
  | _ => Some (p, c)
  end.

End stream.
