(* ===== verification/ReceiptStreamFacts.v ===== *)
(** * Receipt streams: framing is a partition, digests have a reference
      reading, and capture does not depend on chunking *)
From S2P Require Import Prelude Text Bytes Json StrictJson Crypto ReceiptStream.

(** ** Framing *)

Lemma slice_shift pre rest stop :
  slice (pre +:+ rest) (String.length pre) (String.length pre + stop) = slice rest 0 stop.
Proof.
  unfold slice. rewrite string_drop_app, string_drop_0. by replace (_ + _ - _) with (stop - 0) by lia.
Qed.

(** An event is found by what follows its offset alone. *)
Lemma next_sse_event_shift pre rest :
  next_sse_event (pre +:+ rest) (String.length pre)
  = prod_map id (λ n, String.length pre + n) <$> next_sse_event rest 0.
Proof.
  unfold next_sse_event. cbv zeta. rewrite string_drop_app, string_drop_0.
  destruct (find_subslice rest lf_end) as [i|], (find_subslice rest crlf_end) as [j|]; cbn;
    rewrite <-?Nat.add_assoc, ?Nat.add_min_distr_l, ?slice_shift; done.
Qed.

Lemma next_sse_event_prefix rest raw next :
  next_sse_event rest 0 = Some (raw, next) →
  2 <= String.length raw ∧ next = String.length raw ∧ ∃ tail, rest = raw +:+ tail.
Proof.
  unfold next_sse_event. cbv zeta. rewrite string_drop_0. intros H.
  assert (∃ stop, 2 <= stop <= String.length rest ∧ raw = slice rest 0 stop ∧ next = stop)
    as (stop&Hle&->&->).
  { destruct (find_subslice rest lf_end) as [i|] eqn:Ei, (find_subslice rest crlf_end) as [j|] eqn:Ej;
      cbn in H; try (apply find_subslice_Some in Ei as (a&b&Hr&<-));
      try (apply find_subslice_Some in Ej as (a'&b'&Hr'&<-)); try done;
      injection H as <- <-; eexists; (split; [|done]);
      try (apply (f_equal String.length) in Hr; rewrite !length_append in Hr; cbn in Hr);
      try (apply (f_equal String.length) in Hr'; rewrite !length_append in Hr'; cbn in Hr'); lia. }
  assert (rest = slice rest 0 stop +:+ string_drop stop rest) as Hr.
  { unfold slice. rewrite string_drop_0, Nat.sub_0_r. apply string_drop_split. lia. }
  assert (String.length (slice rest 0 stop) = stop) as Hl.
  { apply (f_equal String.length) in Hr. rewrite length_append, length_string_drop in Hr. lia. }
  rewrite Hl. split_and!; [lia|done|by eexists].
Qed.

(** A complete event stays the next one when more bytes arrive. *)
Lemma next_sse_event_app rest t raw next :
  next_sse_event rest 0 = Some (raw, next) → next_sse_event (rest +:+ t) 0 = Some (raw, next).
Proof.
  intros H. pose proof (next_sse_event_prefix _ _ _ H) as (_&->&tail&Hr).
  assert (slice (rest +:+ t) 0 (String.length raw) = raw) as Hs.
  { unfold slice. rewrite string_drop_0, Nat.sub_0_r, Hr, <-append_assoc. apply substring_app. }
  assert (String.length raw <= String.length rest) as Hle.
  { rewrite Hr, length_append. lia. }
  unfold next_sse_event in *. cbv zeta in *. rewrite string_drop_0 in *.
  assert (∀ n k, find_subslice rest n = None → find_subslice (rest +:+ t) n = Some k →
    String.length n <> 0 → String.length rest < k + String.length n) as Hlate.
  { intros n k Hn Hk Hne. apply find_subslice_Some in Hk as (a&b&Hk&<-).
    destruct (decide (String.length rest < String.length a + String.length n)); [done|].
    rewrite append_assoc in Hk. destruct (append_cut (a +:+ n) b rest t) as (z&Hz&_);
      [done|rewrite length_append; lia|]. rewrite <-append_assoc in Hz.
    by destruct (find_subslice_None _ _ a z Hn). }
  destruct (find_subslice rest lf_end) as [i|] eqn:Ei, (find_subslice rest crlf_end) as [j|] eqn:Ej;
    cbn [fmap option_fmap option_map] in H; try done.
  - rewrite (find_subslice_app _ _ _ _ Ei), (find_subslice_app _ _ _ _ Ej). cbn [fmap option_fmap option_map]. rewrite ?Nat.add_0_l.
    injection H as _ H. by rewrite H, Hs.
  - rewrite (find_subslice_app _ _ _ _ Ei). injection H as _ H.
    cbn [fmap option_fmap option_map]. rewrite ?Nat.add_0_l.
    destruct (find_subslice (rest +:+ t) crlf_end) as [k|] eqn:Ek; [|by rewrite H, Hs].
    pose proof (Hlate _ _ Ej Ek ltac:(done)) as Hk. cbn in Hk.
    cbn [fmap option_fmap option_map]. rewrite ?Nat.add_0_l, Nat.min_l by lia. by rewrite H, Hs.
  - rewrite (find_subslice_app _ _ _ _ Ej). injection H as _ H.
    cbn [fmap option_fmap option_map]. rewrite ?Nat.add_0_l.
    destruct (find_subslice (rest +:+ t) lf_end) as [k|] eqn:Ek; [|by rewrite H, Hs].
    pose proof (Hlate _ _ Ei Ek ltac:(done)) as Hk. cbn in Hk.
    cbn [fmap option_fmap option_map]. rewrite ?Nat.add_0_l, Nat.min_r by lia. by rewrite H, Hs.
Qed.

(** The events of a stream and the bytes after the last complete one. *)
Inductive framed : string → list string → string → Prop :=
| framed_end rest : next_sse_event rest 0 = None → framed rest [] rest
| framed_event raw rest raws tail :
    next_sse_event (raw +:+ rest) 0 = Some (raw, String.length raw) →
    framed rest raws tail → framed (raw +:+ rest) (raw :: raws) tail.

Lemma framed_total stream : ∃ raws tail, framed stream raws tail.
Proof.
  assert (∀ n s, String.length s <= n → ∃ raws tail, framed s raws tail) as H; [|by eapply H].
  induction n as [|n IH]; intros s Hs.
  - exists [], s. constructor. by destruct s; [|simpl in Hs; lia].
  - destruct (next_sse_event s 0) as [[raw next]|] eqn:E; [|by exists [], s; constructor].
    destruct (next_sse_event_prefix _ _ _ E) as (Hl&->&tail&->). rewrite length_append in Hs.
    destruct (IH tail) as (raws&t&Hf); [lia|]. exists (raw :: raws), t. by constructor.
Qed.

Lemma framed_concat stream raws tail : framed stream raws tail → stream = concat_strings raws +:+ tail.
Proof. induction 1; [done|]. cbn [concat_strings]. rewrite <-append_assoc. by f_equal. Qed.

Lemma framed_det stream raws tail :
  framed stream raws tail → ∀ raws' tail', framed stream raws' tail' → raws' = raws ∧ tail' = tail.
Proof.
  induction 1 as [rest Hn|raw rest raws tail Hn _ IH]; intros raws' tail' H'.
  - inversion H' as [|raw rest' ?? Hn']; subst; [done|congruence].
  - inversion H' as [? Hn'|raw' rest' raws'' ? Hn' Hf Heq]; subst; [congruence|].
    rewrite Heq in Hn'. rewrite Hn in Hn'. injection Hn' as ->.
    apply append_cut_eq in Heq as [_ ->]; [|done]. by destruct (IH _ _ Hf) as [-> ->].
Qed.

(** More bytes only add events. *)
Lemma framed_app stream raws tail t :
  framed stream raws tail → ∃ raws' tail', framed (stream +:+ t) (raws ++ raws') tail'.
Proof.
  induction 1 as [rest Hn|raw rest raws tail Hn _ (raws'&tail'&IH)].
  - apply framed_total.
  - exists raws', tail'. rewrite <-append_assoc. cbn. constructor; [|done].
    rewrite append_assoc. by apply next_sse_event_app.
Qed.

(** ** Running a loop over the events *)

Section loops.
Context `{JT : JsonText} `{CL : CryptoLib} (debug_str : string → string).

Fixpoint digest_events (domain : string) (expected : option Value) (raws : list string)
    (s : DigestState) : ReceiptResult DigestState :=
  match raws with
  | [] => Ok s
  | raw :: raws => s ← digest_event debug_str domain expected raw s; digest_events domain expected raws s
  end.

Lemma digest_loop_framed domain expected rest raws tail :
  framed rest raws tail → ∀ fuel pre s, String.length rest <= fuel →
  digest_loop debug_str fuel domain expected (pre +:+ rest) (String.length pre) s
  = Some (s ← digest_events domain expected raws s;
          if is_empty tail then Ok s else Err (framing_error "stream has an incomplete SSE tail")).
Proof.
  induction 1 as [rest Hn|raw rest raws tail Hn _ IH]; intros fuel pre s Hf.
  - destruct rest as [|c rest].
    + destruct fuel; cbn [digest_loop]; rewrite append_nil_r, Nat.ltb_irrefl; done.
    + destruct fuel as [|fuel]; [cbn in Hf; lia|]. cbn [digest_loop].
      rewrite length_append. rewrite (proj2 (Nat.ltb_lt _ _)) by (cbn; lia). cbn [negb].
      by rewrite next_sse_event_shift, Hn.
  - destruct (next_sse_event_prefix _ _ _ Hn) as (Hl&_&_). rewrite length_append in Hf.
    destruct fuel as [|fuel]; [lia|]. cbn [digest_loop].
    rewrite !length_append. rewrite (proj2 (Nat.ltb_lt _ _)) by lia. cbn [negb].
    rewrite next_sse_event_shift, Hn. cbn [fmap option_fmap option_map prod_map id fst snd].
    cbn [digest_events]. destruct (digest_event _ _ _ raw s) as [s'|e]; [|done].
    cbn [mbind result_bind].
    rewrite append_assoc, <-length_append. apply IH. lia.
Qed.

Lemma refresh_loop_framed rest raws tail :
  framed rest raws tail → ∀ fuel pre receipt, String.length rest <= fuel →
  refresh_loop fuel (pre +:+ rest) (String.length pre) receipt
  = Some (fold_left (λ receipt raw, opt_or (event_receipt raw) receipt) raws receipt).
Proof.
  induction 1 as [rest Hn|raw rest raws tail Hn _ IH]; intros fuel pre receipt Hf.
  - destruct rest as [|c rest].
    + destruct fuel; cbn [refresh_loop]; rewrite append_nil_r, Nat.ltb_irrefl; done.
    + destruct fuel as [|fuel]; [cbn in Hf; lia|]. cbn [refresh_loop].
      rewrite length_append. rewrite (proj2 (Nat.ltb_lt _ _)) by (cbn; lia). cbn [negb].
      by rewrite next_sse_event_shift, Hn.
  - destruct (next_sse_event_prefix _ _ _ Hn) as (Hl&_&_). rewrite length_append in Hf.
    destruct fuel as [|fuel]; [lia|]. cbn [refresh_loop].
    rewrite !length_append. rewrite (proj2 (Nat.ltb_lt _ _)) by lia. cbn [negb].
    rewrite next_sse_event_shift, Hn. cbn [fmap option_fmap option_map prod_map id fst snd].
    rewrite append_assoc, <-length_append. cbn [fold_left]. apply IH. lia.
Qed.

(** ** The digest of a stream *)

(** The three kinds of event of an accepted stream. *)
Definition ordinary (domain raw input : string) : Prop :=
  ∃ event, decode_sse_event raw = Ok event ∧ fe_done event = false
    ∧ embedded_receipt (fe_payload event) = Ok None ∧ hash_input debug_str domain event = Ok input.

Definition carries_receipt (expected : option Value) (raw : string) : Prop :=
  ∃ event receipt value, decode_sse_event raw = Ok event ∧ fe_done event = false
    ∧ embedded_receipt (fe_payload event) = Ok (Some receipt)
    ∧ expected = Some value ∧ value_eqb value receipt = true.

Definition is_done_event (raw : string) : Prop :=
  ∃ event, decode_sse_event raw = Ok event ∧ fe_done event = true.

Lemma digest_after_done domain expected raws s s' :
  ds_done s = true → digest_events domain expected raws s = Ok s' → raws = [] ∧ s' = s.
Proof.
  intros Hd. destruct raws as [|raw raws]; cbn; [naive_solver|].
  unfold digest_event. rewrite Hd. by destruct (decode_sse_event raw).
Qed.

(** Reads a case of the step backwards, against what was observed. *)
Ltac step_back :=
  intros [[(?&?&?) ?]|[[(?&?&?&?&?&?&?&?) [? ?]]|(?&(?&?&?&?&?)&?&?)]]; simplify_eq; first [done|congruence].

Lemma digest_event_step domain expected raw s s' :
  ds_done s = false → digest_event debug_str domain expected raw s = Ok s' ↔
  (is_done_event raw ∧ s' = mkDigestState (ds_hashed s) (ds_events s) true (ds_receipt s))
  ∨ (carries_receipt expected raw ∧ ds_receipt s = false
     ∧ s' = mkDigestState (ds_hashed s) (ds_events s) false true)
  ∨ (∃ input, ordinary domain raw input ∧ ds_receipt s = false
     ∧ s' = mkDigestState (ds_hashed s +:+ input) (ds_events s + 1) false false).
Proof.
  intros Hd. unfold digest_event, is_done_event, carries_receipt, ordinary. rewrite Hd.
  destruct (decode_sse_event raw) as [event|e]; cbn; [|split; [done|step_back]].
  destruct (fe_done event) eqn:Ed.
  { split; [intros [= <-]; left; by eauto|step_back]. }
  destruct (embedded_receipt (fe_payload event)) as [[receipt|]|e] eqn:Ee; cbn;
    [| |split; [done|step_back]]; (destruct (ds_receipt s) eqn:Er; [split; [done|step_back]|]).
  - destruct expected as [value|]; cbn; [|split; [done|step_back]].
    destruct (value_eqb value receipt) eqn:Ev; cbn; (split; [|step_back]); [|done].
    intros [= <-]. right; left. split; [|done]. by exists event, receipt, value.
  - destruct (hash_input debug_str domain event) as [input|] eqn:Ei; cbn; (split; [|step_back]); [|done].
    intros [= <-]. right; right. exists input. split; [|done]. by exists event.
Qed.

(** An accepted stream: ordinary events, then the receipt, then [[DONE]]. *)
Definition accepted_events (domain : string) (expected : option Value) (raws inputs : list string)
    : Prop :=
  ∃ body receipt done, raws = body ++ [receipt; done] ∧ Forall2 (ordinary domain) body inputs
    ∧ carries_receipt expected receipt ∧ is_done_event done.

Lemma digest_events_sound domain expected raws h n s' :
  digest_events domain expected raws (mkDigestState h n false false) = Ok s' →
  ds_receipt s' = true → ds_done s' = true →
  ∃ inputs, accepted_events domain expected raws inputs
    ∧ ds_hashed s' = h +:+ concat_strings inputs ∧ ds_events s' = (n + N.of_nat (length inputs))%N.
Proof.
  revert h n. induction raws as [|raw raws IH]; intros h n H Hr Hd; cbn in H; [by simplify_eq|].
  apply bind_Ok in H as (s1&H1&H). apply digest_event_step in H1; [|done].
  destruct H1 as [[_ ->]|[(Hc&_&->)|(input&Ho&_&->)]].
  - apply digest_after_done in H as [-> ->]; [|done]. done.
  - destruct raws as [|done raws]; cbn in H; [by simplify_eq|].
    apply bind_Ok in H as (s2&H2&H). apply digest_event_step in H2; [|done].
    destruct H2 as [[Hdone ->]|[(_&?&_)|(?&_&?&_)]]; [|done..].
    apply digest_after_done in H as [-> ->]; [|done]. exists []. cbn.
    rewrite append_nil_r, N.add_0_r. split; [|done]. exists [], raw, done. auto using Forall2_nil_2.
  - destruct (IH _ _ H Hr Hd) as (inputs&(body&r&d&->&Hb&?&?)&Hh&Hn).
    exists (input :: inputs). cbn. split_and!.
    + exists (raw :: body), r, d. auto using Forall2_cons_2.
    + cbn in Hh. by rewrite Hh, append_assoc.
    + cbn in Hn. rewrite Hn. lia.
Qed.

Lemma digest_events_complete domain expected raws inputs h n :
  accepted_events domain expected raws inputs →
  digest_events domain expected raws (mkDigestState h n false false)
  = Ok (mkDigestState (h +:+ concat_strings inputs) (n + N.of_nat (length inputs)) true true).
Proof.
  intros (body&r&d&->&Hb&Hr&Hd). revert h n.
  induction Hb as [|raw input body inputs Ho _ IH]; intros h n; cbn.
  - rewrite (proj2 (digest_event_step domain expected r (mkDigestState h n false false)
      (mkDigestState h n false true) eq_refl)); [|right; left; auto]. cbn.
    rewrite (proj2 (digest_event_step domain expected d (mkDigestState h n false true)
      (mkDigestState h n true true) eq_refl)); [|left; auto]. cbn.
    by rewrite append_nil_r, N.add_0_r.
  - rewrite (proj2 (digest_event_step domain expected raw (mkDigestState h n false false)
      (mkDigestState (h +:+ input) (n + 1) false false) eq_refl)); [|right; right; by exists input].
    cbn. rewrite IH, append_assoc. do 2 f_equal. lia.
Qed.

(** What [stream_digest] returns on the events of a stream. *)
Lemma stream_digest_framed stream domain expected raws tail :
  framed stream raws tail →
  ∃ r, stream_digest debug_str stream domain expected = Some r
    ∧ ∀ digest n, r = Ok (digest, n) ↔
      tail = "" ∧ ∃ inputs, accepted_events domain expected raws inputs
        ∧ digest = sha256 (concat_strings inputs) ∧ n = N.of_nat (length inputs).
Proof.
  intros Hf. unfold stream_digest.
  rewrite (digest_loop_framed domain expected stream raws tail Hf _ "") by done.
  eexists. split; [done|]. intros digest n. cbv beta. split.
  - intros (s&(s1&Hs1&Hs)%bind_Ok&Hfin)%bind_Ok. destruct tail; [|done]. injection Hs as ->.
    unfold finish_digest in Hfin. destruct (ds_receipt s) eqn:Hr; [|done].
    destruct (ds_done s) eqn:Hd; [|done]. injection Hfin as <- <-. split; [done|].
    destruct (digest_events_sound _ _ _ _ _ _ Hs1 Hr Hd) as (inputs&Ha&->&->).
    by exists inputs.
  - intros (->&inputs&Ha&->&->).
    by rewrite (digest_events_complete _ _ _ _ "" 0 Ha).
Qed.

(** C11. The digest of a response stream always terminates and agrees with a
    reference reading: the stream is cut into events that account for every
    byte, and it is accepted exactly when these are ordinary events, then the
    event carrying the verified receipt, then [[DONE]], with nothing left
    over; the digest is the hash of what the ordinary events contribute, in
    order, and the count is their number. *)
Theorem stream_digest_reference stream domain expected :
  ∃ raws tail r, framed stream raws tail ∧ stream = concat_strings raws +:+ tail
    ∧ stream_digest debug_str stream domain expected = Some r
    ∧ ∀ digest n, r = Ok (digest, n) ↔
      tail = "" ∧ ∃ inputs, accepted_events domain expected raws inputs
        ∧ digest = sha256 (concat_strings inputs) ∧ n = N.of_nat (length inputs).
Proof.
  destruct (framed_total stream) as (raws&tail&Hf).
  destruct (stream_digest_framed stream domain expected raws tail Hf) as (r&Hr&Hiff).
  exists raws, tail, r. auto using framed_concat.
Qed.

(** ** Capture *)

(** Polling a source through the capture: what the client is handed, poll by
    poll, and the capture afterwards. *)
Fixpoint capture {E} (polls : list (CapturePoll E)) (c : ReceiptCapture)
    : option (list (CapturePoll E) * ReceiptCapture) :=
  match polls with
  | [] => Some ([], c)
  | poll :: polls =>
      '(item, c) ← capture_poll poll c;
      '(items, c) ← capture polls c;
      Some (item :: items, c)
  end.

(** The bytes a source delivered. *)
Definition delivered {E} (polls : list (CapturePoll E)) : string :=
  concat_strings (omap (λ p, match p with Chunk chunk => Some chunk | _ => None end) polls).

(** The receipt a complete scan of the events finds. *)
Definition scan (raws : list string) (receipt : option Value) : option Value :=
  fold_left (λ receipt raw, opt_or (event_receipt raw) receipt) raws receipt.

Lemma scan_app raws raws' : scan (raws ++ raws') (scan raws None) = scan (raws ++ raws') None.
Proof.
  unfold scan. rewrite !fold_left_app. f_equal.
  assert (∀ l r, fold_left (λ receipt raw, opt_or (event_receipt raw) receipt) l r
    = opt_or (fold_left (λ receipt raw, opt_or (event_receipt raw) receipt) l None) r) as H.
  { induction l as [|x l IH]; intros r; cbn; [done|]. rewrite IH, (IH (opt_or _ None)).
    by destruct (fold_left _ l None), (event_receipt x). }
  rewrite H. by destruct (fold_left _ raws None).
Qed.

Lemma capture_scan {E} (polls : list (CapturePoll E)) wire raws tail :
  framed wire raws tail →
  ∃ raws' tail', framed (wire +:+ delivered polls) raws' tail'
    ∧ capture polls (mkReceiptCapture wire (scan raws None))
      = Some (polls, mkReceiptCapture (wire +:+ delivered polls) (scan raws' None)).
Proof.
  revert wire raws tail. induction polls as [|poll polls IH]; intros wire raws tail Hf; cbn [capture].
  { exists raws, tail. cbn. by rewrite append_nil_r. }
  destruct poll as [chunk|e| |].
  2-4: (destruct (IH _ _ _ Hf) as (raws'&tail'&Hf'&Hc); exists raws', tail'; split; [exact Hf'|];
        cbn; by rewrite Hc).
  destruct (framed_app _ _ _ chunk Hf) as (more&tail1&Hf1).
  destruct (IH _ _ _ Hf1) as (raws'&tail'&Hf'&Hc).
  exists raws', tail'. unfold delivered. cbn [omap list_omap concat_strings]. fold (delivered polls).
  rewrite append_assoc. split; [done|].
  cbn [capture_poll cap_wire cap_receipt]. unfold refresh_receipt. cbn [cap_wire cap_receipt].
  rewrite (refresh_loop_framed _ _ _ Hf1 _ "") by done. fold (scan (raws ++ more) (scan raws None)).
  cbn. rewrite scan_app. by rewrite Hc.
Qed.

(** An event whose payload is a strict JSON object with a receipt object. *)
Definition holds_receipt (raw : string) (receipt : Value) : Prop :=
  ∃ event members, decode_sse_event raw = Ok event
    ∧ load_json (fe_payload event) "response stream event JSON" = Ok (VObject members)
    ∧ map_get "inference_receipt" members = Some receipt ∧ is_object receipt = true.

(** The receipt of the last event that has one. *)
Definition last_receipt (raws : list string) (receipt : Value) : Prop :=
  ∃ before raw after, raws = before ++ raw :: after ∧ holds_receipt raw receipt
    ∧ Forall (λ raw, ∀ other, ¬ holds_receipt raw other) after.

Lemma event_receipt_holds raw receipt : event_receipt raw = Some receipt ↔ holds_receipt raw receipt.
Proof.
  unfold event_receipt, holds_receipt, embedded_receipt. split.
  - destruct (decode_sse_event raw) as [event|]; [|done].
    destruct (load_json _ _) as [v|] eqn:Hv; [|done]. destruct v as [| | | | |members]; cbn; try done.
    destruct (map_get _ members) as [r|] eqn:Hr; [|done]. destruct (is_object r) eqn:Ho; cbn; [|done].
    intros [= ->]. by exists event, members.
  - intros (event&members& -> &Hv&Hr&Ho). rewrite Hv. cbn. by rewrite Hr, Ho.
Qed.

Lemma scan_last raws receipt : scan raws None = Some receipt ↔ last_receipt raws receipt.
Proof.
  unfold last_receipt. revert receipt. induction raws as [|raw raws IH] using rev_ind; intros receipt.
  { split; [done|]. by intros ([]&?&?&?&_). }
  unfold scan in *. rewrite fold_left_app. cbn. setoid_rewrite <-event_receipt_holds.
  setoid_rewrite <-event_receipt_holds in IH. destruct (event_receipt raw) as [r|] eqn:Er; cbn.
  - split.
    + intros [= ->]. by exists raws, raw, [].
    + intros (before&raw'&after&Heq&Hr&Hnone). destruct after as [|x after _] using rev_ind.
      * apply app_inj_tail in Heq as [_ <-]. congruence.
      * rewrite app_comm_cons, app_assoc in Heq. apply app_inj_tail in Heq as [_ <-].
        apply Forall_app in Hnone as [_ Hx]. by destruct (proj1 (Forall_singleton _ _) Hx r).
  - rewrite IH. split.
    + intros (before&raw'&after&->&Hr&Hnone). exists before, raw', (after ++ [raw]).
      split_and!; [by rewrite <-app_assoc|done|]. apply Forall_app. split; [done|].
      apply Forall_singleton. congruence.
    + intros (before&raw'&after&Heq&Hr&Hnone). destruct after as [|x after _] using rev_ind.
      * apply app_inj_tail in Heq as [_ <-]. congruence.
      * rewrite app_comm_cons, app_assoc in Heq. apply app_inj_tail in Heq as [-> _].
        apply Forall_app in Hnone as [Hnone _]. by exists before, raw', after.
Qed.

(** C12. Capture is transparent, keeps every byte and does not depend on how
    the transport cut the stream: for any sequence of polls (chunks, source
    errors, pending and end) the client is handed exactly those polls, in
    order; the wire kept is the concatenation of the chunks; and the receipt
    found is that of the last complete event that carries one, which is what
    a single chunk with all the bytes would give. *)
Theorem capture_chunking_irrelevant {E} (polls : list (CapturePoll E)) :
  ∃ raws tail c, framed (delivered polls) raws tail
    ∧ cap_wire c = delivered polls
    ∧ (∀ receipt, cap_receipt c = Some receipt ↔ last_receipt raws receipt)
    ∧ capture polls capture_new = Some (polls, c)
    ∧ capture [Chunk (E := E) (delivered polls)] capture_new = Some ([Chunk (delivered polls)], c).
Proof.
  assert (framed "" [] "") as H0 by (by constructor).
  destruct (capture_scan polls "" [] "" H0) as (raws&tail&Hf&Hc).
  destruct (capture_scan [Chunk (E := E) (delivered polls)] "" [] "" H0) as (raws'&tail'&Hf'&Hc').
  exists raws, tail, (mkReceiptCapture (delivered polls) (scan raws None)).
  split_and!; [done|done|exact (scan_last raws)|exact Hc|]. etrans; [exact Hc'|].
  assert (delivered [Chunk (E := E) (delivered polls)] = delivered polls) as Hd
    by (unfold delivered at 1; cbn; apply append_nil_r).
  change ("" +:+ ?x) with x in *. rewrite Hd in *. by destruct (framed_det _ _ _ Hf _ _ Hf') as [-> ->].
Qed.

End loops.
