(* ===== verification/ReceiptRoundtrip.v ===== *)
(** * Writing a response stream and reading it back

    Events rendered as the gateway writes them are framed and decoded to the
    same events, so the digest of a written stream is the digest of what was
    written. *)
From S2P Require Import Prelude Text Bytes Json StrictJson Crypto ReceiptStream ReceiptStreamFacts.

(** An event as it is written: an optional name line and one data line. *)
Definition event_body (e : string * string) : string :=
  (if is_empty e.1 then "" else "event: " +:+ e.1 +:+ newline) +:+ "data: " +:+ e.2.
Definition render (e : string * string) : string := event_body e +:+ lf_end.

(** Text that fits on one line. *)
Definition one_line (s : string) : Prop :=
  all_bytes (λ c, negb (is_newline c)) s = true ∧ ends_with carriage_return s = false.

(** ** Lines *)

Definition lines (s : string) : list string := split_by is_newline s.

Lemma split_by_nonempty p s : split_by p s ≠ [].
Proof. destruct s as [|c s]; cbn; [done|]. destruct (p c); [done|]. by destruct (split_by p s). Qed.

Lemma lines_join a b : lines (a +:+ newline +:+ b) = lines a ++ lines b.
Proof.
  unfold lines. induction a as [|c a IH]; [done|].
  change (split_by is_newline (String c a +:+ newline +:+ b))
    with (split_by is_newline (String c (a +:+ newline +:+ b))).
  cbn [split_by]. rewrite IH. destruct (is_newline c); [done|].
  pose proof (split_by_nonempty is_newline a). by destruct (split_by is_newline a).
Qed.

Lemma one_line_lines s : one_line s → lines s = [s].
Proof. intros [H _]. by apply split_by_none. Qed.

(** A line that a terminator would leave inside [body ++ newline] is one of
    the lines of [body]. *)
Lemma inner_line a mid b body :
  lines mid = [mid] → a +:+ newline +:+ mid +:+ newline +:+ b = body +:+ newline →
  mid ∈ lines body.
Proof.
  intros Hm H. apply (f_equal lines) in H.
  assert (lines (body +:+ newline) = lines body ++ [""]) as Hb.
  { rewrite <-(append_nil_r newline) at 1. by rewrite lines_join. }
  rewrite Hb, !lines_join, Hm in H.
  destruct (exists_last (split_by_nonempty is_newline b)) as (init&x&Hx).
  fold (lines b) in Hx. rewrite Hx in H.
  replace (lines a ++ [mid] ++ init ++ [x]) with ((lines a ++ [mid] ++ init) ++ [x]) in H
    by (by rewrite <-!app_assoc).
  apply app_inj_tail in H as [<- _]. set_solver.
Qed.

(** The first event of a body without empty lines, then a blank line. *)
Lemma next_event_of_body body rest :
  "" ∉ lines body → carriage_return ∉ lines body →
  next_sse_event ((body +:+ lf_end) +:+ rest) 0 = Some (body +:+ lf_end, String.length (body +:+ lf_end)).
Proof.
  intros He Hc. unfold next_sse_event. cbv zeta. rewrite string_drop_0.
  assert (∀ needle i, find_subslice ((body +:+ lf_end) +:+ rest) needle = Some i →
    i + String.length needle <= String.length body + 1 →
    ∃ a b, a +:+ needle +:+ b = body +:+ newline) as Hin.
  { intros needle i Hi Hle. apply find_subslice_Some in Hi as (a&b&Hab&<-).
    rewrite append_assoc in Hab. change lf_end with (newline +:+ newline) in Hab.
    rewrite (append_assoc body), <-(append_assoc (body +:+ newline)) in Hab.
    destruct (append_cut (a +:+ needle) b (body +:+ newline) (newline +:+ rest)) as (z&Hz&_);
      [done|rewrite !length_append; cbn; lia|]. exists a, z. by rewrite append_assoc. }
  assert (find_subslice ((body +:+ lf_end) +:+ rest) lf_end = Some (String.length body)) as Hl.
  { destruct (find_subslice_first body lf_end rest) as (i&Hi&Hle). rewrite append_assoc in Hi.
    destruct (decide (i = String.length body)) as [->|]; [done|]. exfalso. apply He.
    destruct (Hin _ _ Hi) as (a&b&Hab); [cbn; lia|].
    by apply (inner_line a "" b). }
  rewrite Hl. cbn [fmap option_fmap option_map]. rewrite Nat.add_0_l.
  assert (slice ((body +:+ lf_end) +:+ rest) 0 (String.length body + 2) = body +:+ lf_end) as Hs.
  { unfold slice. rewrite string_drop_0, Nat.sub_0_r.
    replace (String.length body + 2) with (String.length (body +:+ lf_end))
      by (rewrite length_append; cbn; lia). apply substring_app. }
  assert (String.length (body +:+ lf_end) = String.length body + 2) as ->
    by (rewrite length_append; cbn; lia).
  destruct (find_subslice ((body +:+ lf_end) +:+ rest) crlf_end) as [j|] eqn:Ej; cbn [fmap option_fmap option_map];
    [|by rewrite Hs].
  rewrite Nat.min_l; [by rewrite Hs|]. rewrite Nat.add_0_l.
  destruct (decide (String.length body + 2 <= j + 4)); [done|]. exfalso. apply Hc.
  destruct (Hin _ _ Ej) as (a&b&Hab); [cbn; lia|].
  apply (inner_line (a +:+ carriage_return) carriage_return b body); [done|].
  rewrite <-Hab, <-!append_assoc. done.
Qed.

(** ** Events *)

Lemma prefixed_line p s :
  all_bytes (λ c, negb (is_newline c)) p = true → ends_with carriage_return p = false → p ≠ "" →
  one_line s → one_line (p +:+ s).
Proof.
  intros Hp Hpe Hne [Hs Hse]. split; [by rewrite all_bytes_app, Hp, Hs|].
  destruct s as [|c s]; [by rewrite append_nil_r|]. rewrite ends_with_app; [done|]. cbn. lia.
Qed.

Lemma event_line s : one_line s → one_line ("event: " +:+ s).
Proof. by apply prefixed_line. Qed.
Lemma data_line s : one_line s → one_line ("data: " +:+ s).
Proof. by apply prefixed_line. Qed.

Lemma event_body_lines e :
  one_line e.1 → one_line e.2 →
  lines (event_body e) = (if is_empty e.1 then [] else ["event: " +:+ e.1]) ++ ["data: " +:+ e.2].
Proof.
  intros Hn Hp. unfold event_body. destruct (is_empty e.1); cbn [app].
  - cbn [String.append]. apply one_line_lines, data_line, Hp.
  - rewrite (append_assoc "event: "), <-(append_assoc ("event: " +:+ e.1)), lines_join.
    rewrite !one_line_lines; auto using event_line, data_line.
Qed.

Lemma no_return s : one_line s → strip_suffix carriage_return s = None.
Proof. intros [_ H]. unfold strip_suffix. by rewrite H. Qed.

(** The fields of the lines of a written event. *)
Lemma event_fields e :
  one_line e.1 → one_line e.2 →
  ∃ name, sse_lines (lines (event_body e)) (None, None) = Ok (name, Some e.2) ∧ default "" name = e.1.
Proof.
  intros Hn Hp. rewrite event_body_lines by done.
  assert (∀ name, sse_line ("data: " +:+ e.2) (name, None) = Ok (name, Some e.2)) as Hd.
  { intros name. unfold sse_line. rewrite no_return by (by apply data_line). done. }
  destruct (is_empty e.1) eqn:Ee; cbn [app sse_lines].
  - exists None. rewrite Hd. split; [done|]. by destruct e.1.
  - exists (Some e.1). split; [|done].
    assert (sse_line ("event: " +:+ e.1) (None, None) = Ok (Some e.1, None)) as ->.
    { unfold sse_line. rewrite no_return by (by apply event_line). done. }
    cbn [mbind result_bind]. by rewrite Hd.
Qed.

Lemma render_next e rest :
  one_line e.1 → one_line e.2 →
  next_sse_event (render e +:+ rest) 0 = Some (render e, String.length (render e)).
Proof.
  intros Hn Hp. apply next_event_of_body; rewrite event_body_lines by done;
    destruct (is_empty e.1); set_solver.
Qed.

Lemma render_decode e :
  one_line e.1 → one_line e.2 →
  decode_sse_event (render e) = Ok (mkFramedEvent e.1 e.2 (bool_decide (e.2 = "[DONE]"))).
Proof.
  intros Hn Hp. unfold decode_sse_event, render.
  assert (strip_suffix crlf_end (event_body e +:+ lf_end) = None) as ->.
  { destruct (strip_suffix crlf_end _) as [t|] eqn:E; [|done]. apply strip_suffix_Some in E.
    change crlf_end with ((carriage_return +:+ newline) +:+ (carriage_return +:+ newline)) in E.
    rewrite append_assoc in E. pose proof (f_equal String.length E) as Hlen.
    rewrite !length_append in Hlen. cbn in Hlen.
    apply append_cut_eq in E as [_ E]; [done|]. rewrite !length_append. cbn. lia. }
  rewrite strip_suffix_app. cbn [opt_or ok_or mbind result_bind].
  destruct (event_fields e Hn Hp) as (name&Hl&<-). unfold lines in Hl. rewrite Hl. done.
Qed.

(** An event written on the wire is read back: followed by anything, the
    first event framed is exactly what was written, and it decodes to the
    name and payload that were written. *)
Theorem event_roundtrip e rest :
  one_line e.1 → one_line e.2 →
  next_sse_event (render e +:+ rest) 0 = Some (render e, String.length (render e))
  ∧ decode_sse_event (render e) = Ok (mkFramedEvent e.1 e.2 (bool_decide (e.2 = "[DONE]"))).
Proof. auto using render_next, render_decode. Qed.

(** ** Streams *)

Section streams.
Context `{JT : JsonText} `{CL : CryptoLib} (debug_str : string → string).

(** An event that is neither the receipt nor [[DONE]]; a data stream has
    unnamed events. *)
Definition writable (domain : string) (e : string * string) : Prop :=
  one_line e.1 ∧ one_line e.2 ∧ e.2 ≠ "[DONE]" ∧ embedded_receipt e.2 = Ok None
  ∧ (domain = "sse-data-v1" ∧ e.1 = "" ∨ domain = "sse-events-v1").

(** What an event contributes to the digest. *)
Definition contribution (domain : string) (e : string * string) : string :=
  if bool_decide (domain = "sse-data-v1") then e.2 +:+ newline
  else e.1 +:+ newline +:+ e.2 +:+ newline.

Lemma writable_ordinary domain e :
  writable domain e → ordinary debug_str domain (render e) (contribution domain e).
Proof.
  intros (Hn&Hp&Hd&He&Hdom). eexists. split; [by apply render_decode|]. cbn.
  split_and!; [by apply bool_decide_eq_false|done|].
  unfold hash_input, contribution. destruct Hdom as [[-> Hname]| ->]; cbn; [|done].
  by rewrite Hname.
Qed.

Lemma framed_render events rest raws tail :
  Forall (λ e, one_line e.1 ∧ one_line e.2) events → framed rest raws tail →
  framed (concat_strings (map render events) +:+ rest) (map render events ++ raws) tail.
Proof.
  intros Hall Hr. induction Hall as [|e events [Hn Hp] _ IH]; [done|].
  cbn [map concat_strings app]. rewrite <-append_assoc. constructor; [|done].
  by apply render_next.
Qed.

(** C28. Writing and reading back a whole response: ordinary events, then the
    receipt, then [[DONE]], give the digest of exactly what was written and
    the number of ordinary events. *)
Theorem stream_roundtrip domain events receipt expected value :
  Forall (writable domain) events →
  one_line receipt → receipt ≠ "[DONE]" → embedded_receipt receipt = Ok (Some value) →
  value_eqb expected value = true →
  stream_digest debug_str
    (concat_strings (map render (events ++ [("", receipt); ("", "[DONE]")]))) domain (Some expected)
  = Some (Ok (sha256 (concat_strings (map (contribution domain) events)), N.of_nat (length events))).
Proof.
  intros Hall Hr Hne He Hv. assert (one_line "") as H0 by done.
  assert (one_line "[DONE]") as Hdone by done.
  set (stream := concat_strings (map render (events ++ [("", receipt); ("", "[DONE]")]))).
  assert (framed stream (map render (events ++ [("", receipt); ("", "[DONE]")])) "") as Hf.
  { rewrite <-(app_nil_r (map render _)). unfold stream. rewrite <-(append_nil_r (concat_strings _)).
    apply framed_render; [|by constructor]. apply Forall_app. split; [|by repeat first [apply Forall_nil_2|apply Forall_cons_2]].
    eapply Forall_impl; [exact Hall|]. by intros e (?&?&_). }
  destruct (stream_digest_framed debug_str stream domain (Some expected) _ _ Hf) as (r&->&Hiff).
  f_equal. apply Hiff. split; [done|]. exists (map (contribution domain) events).
  rewrite length_map. split; [|done]. exists (map render events), (render ("", receipt)), (render ("", "[DONE]")).
  split_and!.
  - by rewrite map_app.
  - clear -Hall. induction Hall; constructor; [by apply writable_ordinary|done].
  - exists (mkFramedEvent "" receipt false), value, expected.
    split_and!; try done. rewrite render_decode by done. cbn [fst snd].
    by rewrite bool_decide_eq_false_2.
  - exists (mkFramedEvent "" "[DONE]" true). split; [|done]. by rewrite render_decode.
Qed.

End streams.
