(* ===== verification/Receipts.v ===== *)
(** * Signed inference receipts ([receipts.rs])

    Verification of a compact or flattened receipt, in the order of the
    source.  JSON text, cryptography, URLs, the text forms of values and the
    system clock are parameters; the attestation verifier is an argument, as
    in [verify_receipt_with], and [verify_gcp_attestation] is the real one. *)
From S2P Require Import Prelude Text Bytes Json StrictJson Crypto Http UrlParts Error Identity.
From S2P Require Import Config Attestation ReceiptStream.

Definition RECEIPT_TYPE : string := "inference-receipt+jws".
Definition KEY_COMMITMENT_DOMAIN : string := "inference-receipt-key-v1" +:+ String (ascii_of_N 0) "".

(** ** Options and claims *)

Record ReceiptVerificationOptions := mkReceiptOptions {
  request_body : option string;
  response_body : option string;
  response_stream : option string;
  expected_nonce : option string;
  max_age_seconds : option N;
  now_seconds : option Z;
  supplied_attestation : option string;
  require_attestation : bool;
  require_bindings : bool;
}.
#[global] Instance ReceiptVerificationOptions_settable : Settable ReceiptVerificationOptions := λ o,
  mkReceiptOptions (request_body o) (response_body o) (response_stream o) (expected_nonce o)
    (max_age_seconds o) (now_seconds o) (supplied_attestation o) (require_attestation o)
    (require_bindings o).

Definition receipt_options_default : ReceiptVerificationOptions :=
  mkReceiptOptions None None None None None None None true true.

Record ReceiptHashClaims := mkReceiptHashClaims {
  hc_alg : string;
  hc_hash : string;
  hc_of : string;
  hc_events : option N;
}.

Record ReceiptModelClaims := mkReceiptModelClaims {
  mc_requested : string;
  mc_selected : string;
  mc_provider : string;
  mc_endpoint : string;
}.

Record ReceiptUpstreamClaims := mkReceiptUpstreamClaims {
  uc_tier : string;
  uc_policy : option string;
  uc_verified_at : option Z;
  uc_verification_expires_at : option Z;
  uc_cert_sha256 : option string;
}.

Inductive ReceiptAttestationStatus := Verified | UnverifiedByThisSdk.

Record ReceiptClaims := mkReceiptClaims {
  rc_rv : Z;
  rc_iss : string;
  rc_iat : Z;
  rc_jti : string;
  rc_gen : option string;
  rc_nonce : option string;
  rc_route : string;
  rc_req : ReceiptHashClaims;
  rc_resp : ReceiptHashClaims;
  rc_model : ReceiptModelClaims;
  rc_upstream : ReceiptUpstreamClaims;
  rc_att_sha256 : option string;
  rc_attestation_status : ReceiptAttestationStatus;
}.

Record JwsEnvelope := mkJwsEnvelope {
  protected : string;
  payload : string;
  signature : string;
  flattened : bool;
  flattened_value : option Value;
}.

Record ParsedHeader := mkParsedHeader { ph_value : Map; ph_public_key : string }.

Section receipts.
Context `{JT : JsonText} `{CL : CryptoLib} `{UL : UrlLib} `{UP : !UrlParts UL}.
(** [Debug] of a string and [Display] of a JSON value. *)
Context (debug_str : string → string) (value_text : Value → string).

(** ** Readers *)

Definition load (data check : string) : ReceiptResult Value :=
  map_err ReceiptError.Structure (load_json data check).

Definition b64url_char (c : ascii) : bool :=
  is_ascii_alphanumeric c || bool_decide (c = "_"%char) || bool_decide (c = "-"%char).

Definition decode_b64 (value check : string) : ReceiptResult string :=
  let error := ReceiptError.Structure (check +:+ " check failed: invalid base64url encoding") in
  if is_empty value || (N.of_nat (String.length value) mod 4 =? 1)%N
     || negb (all_bytes b64url_char value)
  then Err error
  else ok_or error (b64_decode value).

Definition hash_bytes (value check : string) : ReceiptResult string :=
  map_err (λ e, ReceiptError.Hash (ReceiptError.to_string e)) (decode_b64 value check).

Definition required_object (object : Map) (name : string) (error : string → ReceiptError.t)
    : ReceiptResult Map :=
  ok_or (error (name +:+ " claim check failed: required object is missing or invalid"))
    (map_get name object >>? as_object).

Definition required_string (object : Map) (name family : string) : ReceiptResult string :=
  ok_or (ReceiptError.Claims
           (family +:+ " " +:+ name +:+ " check failed: required string is missing or empty"))
    (opt_filter (λ value, negb (is_empty value)) (map_get name object >>? as_str)).

Definition optional_string (object : Map) (name family : string) : ReceiptResult (option string) :=
  let error := ReceiptError.Claims
    (family +:+ " " +:+ name +:+ " check failed: value must be a non-empty string") in
  match map_get name object with
  | None => Ok None
  | Some (VString value) => if negb (is_empty value) then Ok (Some value) else Err error
  | Some _ => Err error
  end.

Definition optional_nonce (object : Map) : ReceiptResult (option string) :=
  let error := ReceiptError.Nonce
    "nonce claim check failed: nonce must contain 1-88 base64url characters" in
  match map_get "nonce" object with
  | None => Ok None
  | Some (VString value) =>
      if in_range 1 88 (N.of_nat (String.length value)) && all_bytes b64url_char value
      then Ok (Some value) else Err error
  | Some _ => Err error
  end.

Definition integer (value : option Value) (check : string) (error : string → ReceiptError.t)
    : ReceiptResult Z :=
  ok_or (error (check +:+ " check failed: expected an integer")) (value >>? as_i64).

Definition display_value (value : option Value) : string := from_option value_text "missing" value.

(** ** Envelope, header, signature *)

Definition structure_error (text : string) : ReceiptError.t :=
  ReceiptError.Structure ("JWS structure check failed: " +:+ text).

Definition flattened_envelope (value : Value) : ReceiptResult JwsEnvelope :=
  object ← ok_or (structure_error "flattened JWS must be a JSON object") (as_object value);
  if contains_key object "header"
  then Err (structure_error "unprotected flattened headers are not allowed")
  else
    let field name := opt_filter (λ v, negb (is_empty v)) (map_get name object >>? as_str) in
    match field "protected", field "payload", field "signature" with
    | Some protected, Some payload, Some signature =>
        Ok (mkJwsEnvelope protected payload signature true (Some value))
    | _, _, _ =>
        Err (structure_error
          "flattened JWS requires non-empty string protected, payload, and signature members")
    end.

Definition is_dot (c : ascii) : bool := bool_decide (c = "."%char).

Definition parse_envelope (receipt : string) : ReceiptResult JwsEnvelope :=
  if negb (is_ascii receipt) then Err (structure_error "receipt bytes must be ASCII")
  else
    let text := trim receipt in
    if starts_with "{" text then
      value ← load text "JWS structure"; flattened_envelope value
    else
      let parts := split_by is_dot text in
      match parts with
      | [protected; payload; signature] =>
          if existsb is_empty parts
          then Err (structure_error
                 ("compact JWS must have 3 non-empty segments, got " +:+ show_N (N.of_nat (length parts))))
          else Ok (mkJwsEnvelope protected payload signature false None)
      | _ =>
          Err (structure_error
            ("compact JWS must have 3 non-empty segments, got " +:+ show_N (N.of_nat (length parts))))
      end.

Definition header_error (text : string) : ReceiptError.t :=
  ReceiptError.Header ("protected header " +:+ text).

(** [value.get(name).and_then(Value::as_str) == Some(expected)]. *)
Definition member_is (object : Map) (name expected : string) : bool :=
  bool_decide (map_get name object >>? as_str = Some expected).

Definition parse_header (envelope : JwsEnvelope) : ReceiptResult ParsedHeader :=
  raw ← decode_b64 (protected envelope) "protected header";
  value ← load raw "protected header";
  header ← ok_or (header_error "check failed: header must be a JSON object") (as_object value);
  if negb (member_is header "alg" "EdDSA")
  then Err (header_error ("alg check failed: expected 'EdDSA', got "
              +:+ display_value (map_get "alg" header)))
  else if negb (member_is header "typ" RECEIPT_TYPE)
  then Err (header_error ("typ check failed: expected " +:+ debug_str RECEIPT_TYPE +:+ ", got "
              +:+ display_value (map_get "typ" header)))
  else
    jwk ← ok_or (header_error "jwk check failed: jwk must be an object")
            (map_get "jwk" header >>? as_object);
    if negb (member_is jwk "kty" "OKP") || negb (member_is jwk "crv" "Ed25519") || contains_key jwk "d"
    then Err (header_error "jwk check failed: expected a public OKP/Ed25519 JWK")
    else
      x ← ok_or (header_error "jwk.x check failed: x must be a string") (map_get "x" jwk >>? as_str);
      decoded ← map_err (λ e, ReceiptError.Header (ReceiptError.to_string e))
                  (decode_b64 x "protected header jwk.x");
      if negb (String.length decoded =? 32)%nat
      then Err (header_error ("jwk.x check failed: Ed25519 public key is "
                  +:+ show_N (N.of_nat (String.length decoded)) +:+ " bytes, expected 32"))
      else
        let expected_kid := b64_encode (sha256 decoded) in
        if is_none_or (λ value, negb (safe_equal value expected_kid)) (map_get "kid" header >>? as_str)
        then Err (header_error "kid check failed: kid does not equal b64url(sha256(jwk.x))")
        else Ok (mkParsedHeader header decoded).

Definition signing_input (envelope : JwsEnvelope) : string :=
  protected envelope +:+ "." +:+ payload envelope.

Definition verify_signature (envelope : JwsEnvelope) (public_key : string) : ReceiptResult string :=
  body ← decode_b64 (payload envelope) "JWS payload";
  signature_bytes ← map_err (λ e, ReceiptError.Signature (ReceiptError.to_string e))
                      (decode_b64 (signature envelope) "JWS signature");
  sig ← ok_or (ReceiptError.Signature "Ed25519 signature check failed: signature must be 64 bytes")
          (signature_from_slice signature_bytes);
  key ← map_err (λ e, ReceiptError.Signature
                   ("Ed25519 signature check failed: invalid public key: " +:+ e))
          (key_from_bytes public_key);
  if verify_strict key (signing_input envelope) sig then Ok body
  else Err (ReceiptError.Signature "Ed25519 signature check failed").

(** ** Issuer *)

Definition host_text (host : UrlHost) : string :=
  match host with
  | Domain text | Ipv4 text => text
  | Ipv6 text => "[" +:+ text +:+ "]"
  end.

Definition canonical_https_origin (value check : string) : ReceiptResult string :=
  let error text := ReceiptError.Issuer (check +:+ " check failed: " +:+ text) in
  if is_empty value then Err (error "required HTTPS origin is missing")
  else
    parsed ← map_err (λ _, error "invalid HTTPS origin") (url_parse value);
    if negb (bool_decide (url_scheme parsed = "https"))
    then Err (error "issuer origin must use https")
    else
      match url_host parsed with
      | Some host =>
          if negb (is_empty (url_username parsed)) || bool_decide (is_Some (url_password parsed))
             || negb (bool_decide (url_path parsed = "/")) || bool_decide (is_Some (url_query parsed))
             || bool_decide (is_Some (url_fragment parsed))
          then Err (error "expected an origin with no path, query, or fragment")
          else
            let canonical :=
              match url_port parsed with
              | None => "https://" +:+ host_text host
              | Some port => "https://" +:+ host_text host +:+ ":" +:+ show_N port
              end in
            let normalized_input := to_ascii_lowercase (default value (strip_suffix "/" value)) in
            let canonical_input := to_ascii_lowercase canonical in
            let explicit_default_port := canonical_input +:+ ":443" in
            if negb (bool_decide (normalized_input = canonical_input))
               && (bool_decide (is_Some (url_port parsed))
                   || negb (bool_decide (normalized_input = explicit_default_port)))
            then Err (error "invalid HTTPS origin")
            else Ok canonical
      | None => Err (error "expected an origin with no path, query, or fragment")
      end.

(** ** Bindings and time *)

Definition require_traffic_bindings (options : ReceiptVerificationOptions) : ReceiptResult unit :=
  let error text := ReceiptError.MissingBinding ("receipt binding check failed: missing " +:+ text) in
  if negb (require_bindings options) then Ok ()
  else
    let missing_request := bool_decide (request_body options = None) in
    let missing_response :=
      bool_decide (response_body options = None) && bool_decide (response_stream options = None) in
    if missing_request && missing_response
    then Err (error "request_body and response_body or response_stream")
    else if missing_request then Err (error "request_body")
    else if missing_response then Err (error "response_body or response_stream")
    else Ok ().

Definition i64_min : Z := - 2 ^ 63.
Definition i64_max : Z := 2 ^ 63 - 1.

(** [saturating_add] and [checked_sub] on [i64]. *)
Definition i64_saturating_add (a b : Z) : Z := Z.max i64_min (Z.min i64_max (a + b)).
Definition i64_checked_sub (a b : Z) : option Z :=
  if (i64_min <=? a - b)%Z && (a - b <=? i64_max)%Z then Some (a - b)%Z else None.

Definition show_Z (z : Z) : string :=
  if (z <? 0)%Z then "-" +:+ show_N (Z.to_N (- z)) else show_N (Z.to_N z).

(** The clock: [SystemTime::now()] since the epoch in seconds. *)
Definition current_time (clock : result string N) (options : ReceiptVerificationOptions)
    : ReceiptResult Z :=
  match now_seconds options with
  | Some value => Ok value
  | None =>
      secs ← map_err ReceiptError.Time clock;
      if (Z.of_N secs <=? i64_max)%Z then Ok (Z.of_N secs)
      else Err (ReceiptError.Time "current Unix time does not fit in i64")
  end.

Definition check_time (iat now : Z) (max_age : option N) : ReceiptResult unit :=
  if (i64_saturating_add now 60 <? iat)%Z
  then Err (ReceiptError.Time ("iat future-skew check failed: iat=" +:+ show_Z iat
              +:+ " is more than 60 seconds after now=" +:+ show_Z now))
  else
    match max_age with
    | None => Ok ()
    | Some max_age =>
        let age := Z.to_N <$> opt_filter (λ value, (0 <=? value)%Z) (i64_checked_sub now iat) in
        if is_some_and (λ value, (max_age <? value)%N) age
        then Err (ReceiptError.Time ("iat max-age check failed: receipt age "
                    +:+ show_N (default 0%N age) +:+ "s exceeds " +:+ show_N max_age +:+ "s"))
        else Ok ()
    end.

(** ** Claims *)

Definition check_version (claims : Map) : ReceiptResult Z :=
  let rv := map_get "rv" claims >>? as_i64 in
  if negb (bool_decide (rv = Some 1%Z))
  then Err (ReceiptError.Claims ("rv claim check failed: expected integer 1, got "
              +:+ display_value (map_get "rv" claims)))
  else Ok (default 0%Z rv).

Definition check_issuer (claims : Map) (canonical_expected : string) : ReceiptResult string :=
  iss ← required_string claims "iss" "claims";
  canonical_issuer ← canonical_https_origin iss "iss claim";
  if negb (safe_equal canonical_issuer canonical_expected)
  then Err (ReceiptError.Issuer ("iss claim check failed: expected " +:+ debug_str canonical_expected
              +:+ ", got " +:+ debug_str canonical_issuer))
  else Ok iss.

Definition check_route (claims : Map) : ReceiptResult string :=
  route ← required_string claims "route" "claims";
  if negb (bool_decide (route ∈ ["chat.completions"; "responses"]))
  then Err (ReceiptError.Claims ("route claim check failed: unsupported route " +:+ debug_str route))
  else Ok route.

Definition model_claims (claims : Map) : ReceiptResult ReceiptModelClaims :=
  model ← required_object claims "model" ReceiptError.Claims;
  requested ← required_string model "requested" "model";
  selected ← required_string model "selected" "model";
  provider ← required_string model "provider" "model";
  endpoint ← required_string model "endpoint" "model";
  Ok (mkReceiptModelClaims requested selected provider endpoint).

(** The pin of the attestation document, which a compact receipt must
    have. *)
Definition check_pin (claims : Map) (is_flattened : bool) : ReceiptResult (option string) :=
  att_sha256 ← optional_string claims "att_sha256" "claims";
  _ ← match att_sha256 with
      | None => Ok ()
      | Some encoded =>
          decoded ← map_err (λ e, ReceiptError.Claims (ReceiptError.to_string e))
                      (decode_b64 encoded "att_sha256 claim");
          if negb (String.length decoded =? 32)%nat
          then Err (ReceiptError.Claims "att_sha256 claim check failed: SHA-256 digest must be 32 bytes")
          else Ok ()
      end;
  if negb is_flattened && bool_decide (att_sha256 = None)
  then Err (ReceiptError.Claims
         "att_sha256 claim check failed: compact receipts must pin an attestation document")
  else Ok att_sha256.

Definition debug_option (o : option string) : string :=
  match o with Some s => "Some(" +:+ debug_str s +:+ ")" | None => "None" end.

Definition check_expected_nonce (claims : Map) (expected : option string)
    : ReceiptResult (option string) :=
  nonce ← optional_nonce claims;
  match expected with
  | None => Ok nonce
  | Some expected =>
      if is_none_or (λ actual, negb (safe_equal actual expected)) nonce
      then Err (ReceiptError.Nonce ("nonce match check failed: expected " +:+ debug_str expected
                  +:+ ", got " +:+ debug_option nonce))
      else Ok nonce
  end.

Definition upstream_window (upstream : Map) (tier : option string) (iat : Z)
    : ReceiptResult (option Z * option Z) :=
  if bool_decide (tier = Some "tee-verified") then
    verified_at ← integer (map_get "verified_at" upstream) "upstream.verified_at"
                    ReceiptError.Upstream;
    expires_at ← integer (map_get "verification_expires_at" upstream)
                   "upstream.verification_expires_at" ReceiptError.Upstream;
    if negb ((verified_at <=? iat)%Z && (iat <? expires_at)%Z)
    then Err (ReceiptError.Upstream
           "tee-verified window check failed: expected verified_at <= iat < verification_expires_at")
    else Ok (Some verified_at, Some expires_at)
  else if bool_decide (tier = Some "tls-webpki") then Ok (None, None)
  else Err (ReceiptError.Upstream ("upstream.tier check failed: unsupported tier "
              +:+ display_value (map_get "tier" upstream))).

Definition upstream_claims (claims : Map) (iat : Z) : ReceiptResult ReceiptUpstreamClaims :=
  upstream ← required_object claims "upstream" ReceiptError.Upstream;
  let tier := map_get "tier" upstream >>? as_str in
  window ← upstream_window upstream tier iat;
  policy ← optional_string upstream "policy" "upstream";
  if bool_decide (tier = Some "tee-verified") && bool_decide (policy = None)
  then Err (ReceiptError.Upstream
         "upstream.policy check failed: tee-verified receipts require a policy")
  else
    cert_sha256 ← optional_string upstream "cert_sha256" "upstream";
    Ok (mkReceiptUpstreamClaims (default "" tier) policy (fst window) (snd window) cert_sha256).

(** ** Digests *)

Definition digest_events_claim (record : Map) (name domain : string) (response : bool)
    : ReceiptResult (option N) :=
  let body := bool_decide (domain = "body") in
  let omit := ReceiptError.Hash (name +:+ ".events check failed: body receipts must omit events") in
  match map_get "events" record with
  | None => if body || response then Ok None else Err omit
  | Some value =>
      if body && is_null value then Ok None
      else if response && negb body then
        events ← ok_or (ReceiptError.Hash
                   (name +:+ ".events check failed: value must be a non-negative integer"))
                   (as_u64 value);
        Ok (Some events)
      else Err omit
  end.

Definition digest_claim (record : Map) (name : string) (response : bool)
    : ReceiptResult ReceiptHashClaims :=
  if negb (member_is record "alg" "sha256")
  then Err (ReceiptError.Hash (name +:+ ".alg check failed: expected 'sha256', got "
              +:+ display_value (map_get "alg" record)))
  else
    encoded ← ok_or (ReceiptError.Hash (name +:+ ".hash check failed: required string is missing"))
                (map_get "hash" record >>? as_str);
    digest ← hash_bytes encoded (name +:+ ".hash");
    if negb (String.length digest =? 32)%nat
    then Err (ReceiptError.Hash (name +:+ ".hash check failed: SHA-256 digest must be 32 bytes"))
    else
      let domain := default "" (map_get "of" record >>? as_str) in
      if negb (bool_decide (domain = "body")
               || response && bool_decide (domain ∈ ["sse-data-v1"; "sse-events-v1"]))
      then Err (ReceiptError.Hash (name +:+ ".of check failed: unsupported hash domain "
                  +:+ display_value (map_get "of" record)))
      else
        events ← digest_events_claim record name domain response;
        Ok (mkReceiptHashClaims "sha256" encoded domain events).

Definition check_request (claims : Map) (options : ReceiptVerificationOptions)
    : ReceiptResult ReceiptHashClaims :=
  record ← required_object claims "req" ReceiptError.Hash;
  req ← digest_claim record "req" false;
  _ ← match request_body options with
      | None => Ok ()
      | Some body =>
          expected ← hash_bytes (hc_hash req) "req.hash";
          if negb (safe_equal (sha256 body) expected)
          then Err (ReceiptError.Hash "request body hash check failed: req.hash does not match")
          else Ok ()
      end;
  Ok req.

(** A response body or a response stream against its digest; [None] is a
    stream whose digest does not terminate. *)
Definition check_body (resp : ReceiptHashClaims) (body expected : string) : ReceiptResult unit :=
  if negb (bool_decide (hc_of resp = "body"))
  then Err (ReceiptError.Hash ("response body hash check failed: resp.of is "
              +:+ debug_str (hc_of resp) +:+ ", expected 'body'"))
  else if negb (safe_equal (sha256 body) expected)
  then Err (ReceiptError.Hash "response body hash check failed: resp.hash does not match")
  else Ok ().

Definition check_stream (resp : ReceiptHashClaims) (stream expected : string)
    (envelope : JwsEnvelope) : option (ReceiptResult unit) :=
  if negb (bool_decide (hc_of resp ∈ ["sse-data-v1"; "sse-events-v1"]))
  then Some (Err (ReceiptError.Hash ("response stream hash check failed: resp.of is "
              +:+ debug_str (hc_of resp) +:+ ", expected an SSE domain")))
  else
    (λ r : ReceiptResult (string * N),
      '(actual, events) ← r;
      if negb (safe_equal actual expected)
      then Err (ReceiptError.Hash "response stream hash check failed: resp.hash does not match")
      else if is_some_and (λ claimed, negb (claimed =? events)%N) (hc_events resp)
      then Err (ReceiptError.Hash ("response stream events check failed: counted "
                  +:+ show_N events +:+ ", receipt claims " +:+ show_N (default 0%N (hc_events resp))))
      else Ok ())
    <$> stream_digest debug_str stream (hc_of resp) (flattened_value envelope).

Definition check_response (claims : Map) (envelope : JwsEnvelope)
    (options : ReceiptVerificationOptions) : option (ReceiptResult ReceiptHashClaims) :=
  let checked :=
    record ← required_object claims "resp" ReceiptError.Hash;
    resp ← digest_claim record "resp" true;
    if bool_decide (is_Some (response_body options)) && bool_decide (is_Some (response_stream options))
    then Err (ReceiptError.Hash
           "response hash check failed: provide response_body or response_stream, not both")
    else expected ← hash_bytes (hc_hash resp) "resp.hash"; Ok (resp, expected) in
  match checked with
  | Err e => Some (Err e)
  | Ok (resp, expected) =>
      let verdict :=
        match response_body options, response_stream options with
        | Some body, _ => Some (check_body resp body expected)
        | None, Some stream => check_stream resp stream expected envelope
        | None, None => Some (Ok ())
        end in
      (λ v : ReceiptResult unit, _ ← v; Ok resp) <$> verdict
  end.

(** ** Attestation *)

Definition key_commitment (public_key : string) : string :=
  sha256 (KEY_COMMITMENT_DOMAIN +:+ public_key).

Definition check_kind (header : ParsedHeader) : ReceiptResult unit :=
  let kind := map_get "att_kind" (ph_value header) in
  match kind >>? as_str with
  | None => Err (ReceiptError.MissingAttestation
              "attestation check failed: flattened receipt has no att_kind")
  | Some name =>
      if bool_decide (name ∈ ["aws-nitro-cose"; "azure-maa-jwt"])
      then Err (ReceiptError.UnsupportedAttestation ("attestation kind check failed: "
                  +:+ display_value kind +:+ " is not supported by this SDK"))
      else if bool_decide (name = "gcp-cs-jwt") then Ok ()
      else Err (ReceiptError.UnsupportedAttestation
                  ("attestation kind check failed: unsupported att_kind " +:+ display_value kind))
  end.

Definition attestation_status (envelope : JwsEnvelope) (header : ParsedHeader)
    (supplied att_sha256 : option string) (required : bool)
    (verify_gcp : string → ReceiptResult unit) : ReceiptResult ReceiptAttestationStatus :=
  if negb (flattened envelope) then
    match supplied with
    | None =>
        if negb required then Ok UnverifiedByThisSdk
        else Err (ReceiptError.MissingAttestation
               "attestation check failed: compact receipts omit attestation evidence; obtain the pinned document or explicitly set require_attestation to false")
    | Some attestation =>
        encoded_digest ← ok_or (ReceiptError.MissingAttestation
          "attestation check failed: compact receipt has no att_sha256 claim") att_sha256;
        expected_digest ← decode_b64 encoded_digest "att_sha256 claim";
        if negb (safe_equal (sha256 attestation) expected_digest)
        then Err (ReceiptError.Attestation
               "att_sha256 check failed: supplied attestation does not match the compact receipt")
        else _ ← verify_gcp attestation; Ok Verified
    end
  else
    _ ← check_kind header;
    embedded ← ok_or (ReceiptError.MissingAttestation
                  "attestation check failed: flattened receipt has no embedded att")
                 (opt_filter (λ value, negb (is_empty value))
                    (map_get "att" (ph_value header) >>? as_str));
    if is_some_and (λ supplied, negb (safe_equal supplied embedded)) supplied
    then Err (ReceiptError.Attestation
           "attestation check failed: supplied attestation does not match the flattened receipt's embedded attestation")
    else _ ← verify_gcp embedded; Ok Verified.

(** ** The whole verification *)

(** Everything the signature covers, before the traffic is compared. *)
Definition open_receipt (receipt expected_issuer : string) (options : ReceiptVerificationOptions)
    : ReceiptResult (string * JwsEnvelope * ParsedHeader * Map) :=
  _ ← require_traffic_bindings options;
  canonical_expected ← canonical_https_origin expected_issuer "expected_issuer";
  envelope ← parse_envelope receipt;
  header ← parse_header envelope;
  payload_bytes ← verify_signature envelope (ph_public_key header);
  body ← load payload_bytes "receipt claims";
  claims ← ok_or (ReceiptError.Claims
             "rv claim check failed: receipt claims must be a JSON object") (as_object body);
  Ok (canonical_expected, envelope, header, claims).

(** [verify_receipt_with]; [None] would be a call that does not return. *)
Definition verify_receipt_with (clock : result string N) (receipt expected_issuer : string)
    (options : ReceiptVerificationOptions)
    (verify_gcp : string → string → ReceiptResult unit) : option (ReceiptResult ReceiptClaims) :=
  let before :=
    opened ← open_receipt receipt expected_issuer options;
    let '(canonical_expected, envelope, header, claims) := opened in
    rv ← check_version claims;
    iss ← check_issuer claims canonical_expected;
    iat ← integer (map_get "iat" claims) "iat claim" ReceiptError.Time;
    now ← current_time clock options;
    _ ← check_time iat now (max_age_seconds options);
    jti ← required_string claims "jti" "claims";
    gen ← optional_string claims "gen" "claims";
    route ← check_route claims;
    model ← model_claims claims;
    att_sha256 ← check_pin claims (flattened envelope);
    nonce ← check_expected_nonce claims (expected_nonce options);
    upstream ← upstream_claims claims iat;
    req ← check_request claims options;
    Ok (envelope, header, claims,
        λ resp status,
          mkReceiptClaims rv iss iat jti gen nonce route req resp model upstream att_sha256 status) in
  match before with
  | Err e => Some (Err e)
  | Ok (envelope, header, claims, result) =>
      (λ r : ReceiptResult ReceiptHashClaims,
        resp ← r;
        status ← attestation_status envelope header (supplied_attestation options)
          (rc_att_sha256 (result resp UnverifiedByThisSdk)) (require_attestation options)
          (λ attestation, verify_gcp attestation (key_commitment (ph_public_key header)));
        Ok (result resp status))
      <$> check_response claims envelope options
  end.

(** [ReceiptCapture::verify_with]; [to_vec] is serde_json's. *)
Definition capture_verify_with (to_vec : Value → result string string) (clock : result string N)
    (c : ReceiptCapture) (expected_issuer : string) (options : ReceiptVerificationOptions)
    (verify_gcp : string → string → ReceiptResult unit) : option (ReceiptResult ReceiptClaims) :=
  match cap_receipt c with
  | None => Some (Err (ReceiptError.Structure
              "receipt capture check failed: no flattened receipt event has been captured"))
  | Some receipt =>
      if bool_decide (is_Some (response_stream options))
      then Some (Err (ReceiptError.Structure
             "ReceiptCapture::verify supplies response_stream from captured bytes"))
      else
        match to_vec receipt with
        | Err e => Some (Err (ReceiptError.Structure ("receipt capture serialization failed: " +:+ e)))
        | Ok encoded =>
            verify_receipt_with clock encoded expected_issuer
              (options <| response_stream := Some (cap_wire c) |>) verify_gcp
        end
  end.

(** ** The attestation verifier of the SDK *)

Context `{JL : JwtLib} `{KF : KeyFetch} (get_release : string → result string (Fetched TrustRelease)).

Definition verify_gcp_attestation (attestation commitment : string) : ReceiptResult unit :=
  _ ← map_err ReceiptError.Attestation owned_client;
  response ← map_err (λ e, ReceiptError.Attestation ("trust release fetch failed: " +:+ e))
               (get_release DEFAULT_TRUST_RELEASE_URL);
  if negb (is_success (f_status response))
  then Err (ReceiptError.Attestation ("trust release fetch returned HTTP " +:+ f_status_text response))
  else
    release ← map_err (λ e, ReceiptError.Attestation ("invalid trust release JSON: " +:+ e))
                (f_json response);
    policy ← map_err (λ e, ReceiptError.Attestation (error_text e))
               (policy_from_trust_release release None);
    map_err (λ e, ReceiptError.Attestation ("GCP attestation check failed: " +:+ error_text e))
      (verify_receipt_key_attestation attestation
         (mkAttestationOptions policy (Some (hex commitment)) None None None (Some GCP_JWKS_URL) true)).

Definition verify_receipt (clock : result string N) (receipt expected_issuer : string)
    (options : ReceiptVerificationOptions) : option (ReceiptResult ReceiptClaims) :=
  verify_receipt_with clock receipt expected_issuer options verify_gcp_attestation.

Definition capture_verify (to_vec : Value → result string string) (clock : result string N)
    (c : ReceiptCapture) (expected_issuer : string) (options : ReceiptVerificationOptions)
    : option (ReceiptResult ReceiptClaims) :=
  capture_verify_with to_vec clock c expected_issuer options verify_gcp_attestation.

End receipts.
