(* ===== verification/ReceiptFacts.v ===== *)
(** * What a verified receipt establishes

    A verification that succeeds has checked a signature over the exact
    receipt, pinned the issuer and the time, compared the caller's traffic
    with the signed digests, and verified, or been told not to verify, the
    attestation of the signing key. *)
From S2P Require Import Prelude Text Bytes Json StrictJson Crypto Http UrlParts Error Identity Config.
From S2P Require Import Attestation AttestationFacts ReceiptStream ReceiptStreamFacts Receipts.

Section facts.
Context `{JT : JsonText} `{CL : CryptoLib} `{CLaws : !CryptoLaws CL}.
Context `{UL : UrlLib} `{UP : !UrlParts UL}.
Context (debug_str : string → string) (value_text : Value → string).

(** ** Termination *)

Lemma stream_digest_total stream domain expected :
  ∃ r, stream_digest debug_str stream domain expected = Some r.
Proof.
  destruct (framed_total stream) as (raws&tail&Hf).
  destruct (stream_digest_framed debug_str stream domain expected raws tail Hf) as (r&Hr&_).
  by exists r.
Qed.

Lemma check_response_total claims envelope options :
  ∃ r, check_response debug_str value_text claims envelope options = Some r.
Proof.
  unfold check_response. cbv zeta.
  match goal with |- context [match ?c with Ok _ => _ | Err _ => _ end] =>
    destruct c as [[resp expected]|e] end; [|by eexists].
  destruct (response_body options); [by eexists|].
  destruct (response_stream options) as [stream|]; [|by eexists].
  unfold check_stream. destruct (negb _); [by eexists|].
  destruct (stream_digest_total stream (hc_of resp) (flattened_value envelope)) as [r ->].
  by eexists.
Qed.

(** ** The parts of a success *)

(** The protected header: it names the receipt type and EdDSA, and its key
    identifier is the digest of the public key it carries. *)
Definition header_of (envelope : JwsEnvelope) (header : ParsedHeader) : Prop :=
  let object := ph_value header in
  (∃ raw, b64_decode (protected envelope) = Some raw
     ∧ load raw "protected header" = Ok (VObject object))
  ∧ map_get "alg" object = Some (VString "EdDSA")
  ∧ map_get "typ" object = Some (VString RECEIPT_TYPE)
  ∧ (∃ jwk x, map_get "jwk" object = Some (VObject jwk) ∧ map_get "x" jwk = Some (VString x)
       ∧ b64_decode x = Some (ph_public_key header) ∧ contains_key jwk "d" = false)
  ∧ String.length (ph_public_key header) = 32
  ∧ map_get "kid" object = Some (VString (b64_encode (sha256 (ph_public_key header)))).

(** The signature of the key in the header, over the exact encoded header
    and payload, and the claims that payload holds. *)
Definition authentic (envelope : JwsEnvelope) (header : ParsedHeader) (claims : Map) : Prop :=
  header_of envelope header
  ∧ ∃ key sig bytes,
      key_from_bytes (ph_public_key header) = Ok key
      ∧ (b64_decode (signature envelope) ≫= signature_from_slice) = Some sig
      ∧ verify_strict key (signing_input envelope) sig = true
      ∧ b64_decode (payload envelope) = Some bytes
      ∧ load bytes "receipt claims" = Ok (VObject claims).

Lemma decode_b64_ok value check bytes :
  decode_b64 value check = Ok bytes → b64_decode value = Some bytes.
Proof. unfold decode_b64. destruct (_ || _); [done|]. apply ok_or_Ok. Qed.

Lemma verify_signature_ok envelope pk bytes :
  verify_signature envelope pk = Ok bytes →
  ∃ key sig, key_from_bytes pk = Ok key
    ∧ (b64_decode (signature envelope) ≫= signature_from_slice) = Some sig
    ∧ verify_strict key (signing_input envelope) sig = true ∧ b64_decode (payload envelope) = Some bytes.
Proof.
  unfold verify_signature. intros H. inv_ok.
  repeat match goal with H : decode_b64 _ _ = Ok _ |- _ => apply decode_b64_ok in H end.
  destruct (verify_strict _ _ _) eqn:E; inv_ok. subst.
  eexists _, _. split_and!; [done| |done|done].
  match goal with H : b64_decode (signature envelope) = _ |- _ => by rewrite H end.
Qed.

Lemma as_object_Some v m : as_object v = Some m ↔ v = VObject m.
Proof. destruct v; cbn; naive_solver. Qed.

Lemma get_object_Some o m : o >>? as_object = Some m ↔ o = Some (VObject m).
Proof. destruct o as [v|]; cbn; [|done]. rewrite as_object_Some. naive_solver. Qed.

Lemma member_is_true object name s :
  member_is object name s = true ↔ map_get name object = Some (VString s).
Proof. unfold member_is. by rewrite bool_decide_eq_true, as_str_Some. Qed.

Lemma parse_header_ok envelope header :
  parse_header debug_str value_text envelope = Ok header → header_of envelope header.
Proof.
  unfold parse_header. intros (raw&Hraw%decode_b64_ok&H)%bind_Ok.
  apply bind_Ok in H as (value&Hload&H). apply bind_Ok in H as (object&Ho%ok_or_Ok&H).
  apply as_object_Some in Ho as ->.
  destruct (member_is object "alg" _) eqn:Halg; [|done].
  destruct (member_is object "typ" _) eqn:Htyp; [|done]. cbn [negb] in H.
  apply bind_Ok in H as (jwk&Hjwk%ok_or_Ok&H). apply get_object_Some in Hjwk.
  destruct (_ || contains_key jwk "d") eqn:Hd; [done|]. apply orb_false_iff in Hd as [_ Hd].
  apply bind_Ok in H as (x&Hx%ok_or_Ok%as_str_Some&H).
  apply bind_Ok in H as (decoded&Hdec%map_err_Ok%decode_b64_ok&H).
  destruct (String.length decoded =? 32)%nat eqn:Hlen; [|done]. cbn [negb] in H.
  destruct (map_get "kid" object >>? as_str) as [kid|] eqn:Hkid; cbn [is_none_or] in H; [|done].
  rewrite safe_equal_spec in H. case_bool_decide; [|done]. cbn [negb] in H.
  assert (header = mkParsedHeader object decoded) as -> by congruence.
  unfold header_of. cbn [ph_value ph_public_key].
  rewrite !member_is_true in *. apply as_str_Some in Hkid. apply Nat.eqb_eq in Hlen. subst kid.
  split_and!; [by exists raw|done|done|by exists jwk, x|done|done].
Qed.

(** A spelling of an origin: letter case, one trailing slash and an explicit
    default port are immaterial. *)
Definition spells_origin (canonical value : string) : Prop :=
  let spelled := to_ascii_lowercase (default value (strip_suffix "/" value)) in
  starts_with "https://" canonical = true
  ∧ (spelled = to_ascii_lowercase canonical ∨ spelled = to_ascii_lowercase canonical +:+ ":443").

Lemma canonical_https_origin_ok value check canonical :
  canonical_https_origin value check = Ok canonical → spells_origin canonical value.
Proof.
  unfold canonical_https_origin, spells_origin. cbv zeta. intros H.
  destruct (is_empty value); [done|]. apply bind_Ok in H as (parsed&_&H).
  destruct (negb (bool_decide (url_scheme parsed = _))); [done|].
  destruct (url_host parsed) as [host|]; [|done].
  destruct (_ || bool_decide (is_Some (url_fragment parsed))); [done|].
  match type of H with context [if _ && _ then Err _ else Ok ?c] =>
    assert (starts_with "https://" c = true) as Hstart;
      [apply starts_with_spec; destruct (url_port parsed); by eexists|
       generalize dependent c] end.
  intros c H Hstart. destruct (_ && _) eqn:Hb; [done|].
  assert (c = canonical) as -> by congruence. split; [done|].
  apply andb_false_iff in Hb as [Hb|Hb]; [reflect; by left|].
  apply orb_false_iff in Hb as [_ Hb]. reflect. by right.
Qed.

Definition issued_by (claims : Map) (iss expected_issuer : string) : Prop :=
  map_get "iss" claims = Some (VString iss)
  ∧ ∃ canonical, spells_origin canonical iss ∧ spells_origin canonical expected_issuer.

Lemma required_string_ok object name family s :
  required_string object name family = Ok s → map_get name object = Some (VString s) ∧ s ≠ "".
Proof.
  unfold required_string. intros [H Hs]%ok_or_Ok%opt_filter_Some. apply as_str_Some in H.
  reflect. split; [done|]. by apply is_empty_false.
Qed.

Lemma check_issuer_ok claims canonical expected iss :
  spells_origin canonical expected → check_issuer debug_str claims canonical = Ok iss →
  issued_by claims iss expected.
Proof.
  unfold check_issuer. intros He H. inv_ok.
  match goal with H : (if ?b then _ else _) = Ok _ |- _ => destruct b eqn:Hb; inv_ok end.
  reflect. rewrite safe_equal_spec in Hb. reflect. subst.
  match goal with H : required_string _ _ _ = _ |- _ => apply required_string_ok in H as [? _] end.
  split; [done|]. eexists. split; [|done]. by eapply canonical_https_origin_ok.
Qed.

(** Not from the future, and not older than asked, unless the age itself
    overflows. *)
Definition timely (iat now : Z) (max_age : option N) : Prop :=
  ((i64_min <= now)%Z → (iat <= now + 60)%Z)
  ∧ ∀ limit, max_age = Some limit → (now - iat <= Z.of_N limit)%Z ∨ (i64_max < now - iat)%Z.

Lemma check_time_ok iat now max_age u : check_time iat now max_age = Ok u → timely iat now max_age.
Proof.
  unfold check_time, timely, i64_saturating_add, i64_checked_sub. intros H.
  destruct (_ <? iat)%Z eqn:Hf; [done|]. apply Z.ltb_ge in Hf.
  split; [unfold i64_min, i64_max in *; lia|]. intros limit ->.
  destruct (decide (i64_max < now - iat)%Z) as [|Hle]; [by right|left].
  destruct (i64_min <=? now - iat)%Z eqn:E1; cbn in H; [|apply Z.leb_gt in E1; unfold i64_min in *; lia].
  rewrite (proj2 (Z.leb_le _ _)) in H by lia. cbn in H.
  destruct (0 <=? now - iat)%Z eqn:E2; cbn in H; [|apply Z.leb_gt in E2; lia].
  destruct (_ <? _)%N eqn:E3; [done|]. apply N.ltb_ge in E3. apply Z.leb_le in E2. lia.
Qed.

(** The digest a signed record holds. *)
Definition signed_digest (claims : Map) (name : string) (d : ReceiptHashClaims) : Prop :=
  ∃ record, map_get name claims = Some (VObject record)
    ∧ map_get "hash" record = Some (VString (hc_hash d))
    ∧ default "" (map_get "of" record >>? as_str) = hc_of d.

Lemma required_object_ok object name error m :
  required_object object name error = Ok m → map_get name object = Some (VObject m).
Proof.
  intros H%ok_or_Ok. destruct (map_get name object) as [[]|]; cbn in H; congruence.
Qed.

Lemma digest_claim_ok record name response d :
  digest_claim value_text record name response = Ok d →
  map_get "hash" record = Some (VString (hc_hash d))
  ∧ default "" (map_get "of" record >>? as_str) = hc_of d.
Proof.
  unfold digest_claim. intros H.
  repeat match goal with
  | H : (if ?b then _ else _) = Ok _ |- _ => destruct b eqn:?; inv_ok
  | _ => progress (inv_ok; cbv zeta in *)
  end. subst. cbn. split; [by apply as_str_Some|done].
Qed.

Lemma hash_bytes_ok value check bytes :
  hash_bytes value check = Ok bytes → b64_decode value = Some bytes.
Proof. unfold hash_bytes. intros H%map_err_Ok. by eapply decode_b64_ok. Qed.

(** The request the caller sent is the one whose digest was signed. *)
Definition request_bound (claims : Map) (options : ReceiptVerificationOptions)
    (d : ReceiptHashClaims) : Prop :=
  signed_digest claims "req" d
  ∧ ∀ body, request_body options = Some body → b64_decode (hc_hash d) = Some (sha256 body).

Lemma check_request_ok claims options d :
  check_request value_text claims options = Ok d →
  request_bound claims options d.
Proof.
  unfold check_request. intros H. inv_ok. subst.
  match goal with H : required_object _ _ _ = _ |- _ => apply required_object_ok in H end.
  match goal with H : digest_claim _ _ _ _ = _ |- _ => apply digest_claim_ok in H as [? ?] end.
  split; [by eexists|]. intros body Hb. rewrite Hb in *. inv_ok.
  match goal with H : (if ?b then _ else _) = Ok _ |- _ => destruct b eqn:He; inv_ok end.
  reflect. rewrite safe_equal_spec in He. reflect. subst. by eapply hash_bytes_ok.
Qed.

(** The response the caller saw is the one whose digest was signed. *)
Definition response_bound (claims : Map) (envelope : JwsEnvelope)
    (options : ReceiptVerificationOptions) (d : ReceiptHashClaims) : Prop :=
  signed_digest claims "resp" d
  ∧ (∀ body, response_body options = Some body →
       hc_of d = "body" ∧ b64_decode (hc_hash d) = Some (sha256 body))
  ∧ (∀ stream, response_stream options = Some stream →
       response_body options = None
       ∧ ∃ raws inputs, framed stream raws ""
           ∧ accepted_events debug_str (hc_of d) (flattened_value envelope) raws inputs
           ∧ b64_decode (hc_hash d) = Some (sha256 (concat_strings inputs))
           ∧ ∀ n, hc_events d = Some n → n = N.of_nat (length inputs)).

Lemma check_stream_ok d stream expected envelope u :
  check_stream debug_str d stream expected envelope = Some (Ok u) →
  ∃ raws inputs, framed stream raws ""
    ∧ accepted_events debug_str (hc_of d) (flattened_value envelope) raws inputs
    ∧ expected = sha256 (concat_strings inputs)
    ∧ ∀ n, hc_events d = Some n → n = N.of_nat (length inputs).
Proof.
  unfold check_stream. destruct (negb _); [done|].
  destruct (framed_total stream) as (raws&tail&Hf).
  destruct (stream_digest_framed debug_str stream (hc_of d) (flattened_value envelope) _ _ Hf)
    as (r&->&Hiff).
  intros (r'&[= <-]&H)%fmap_Some. symmetry in H. apply bind_Ok in H as ([actual events]&Hr&H).
  destruct (proj1 (Hiff _ _) Hr) as (->&inputs&Ha&->&->).
  exists raws, inputs. destruct (safe_equal _ expected) eqn:He; [|done].
  rewrite safe_equal_spec in He. reflect. subst. cbn in H.
  split_and!; [done..|]. intros n Hn. rewrite Hn in H. cbn in H.
  destruct (_ =? _)%N eqn:E; [|done]. by apply N.eqb_eq.
Qed.

Lemma check_body_ok d body expected u :
  check_body debug_str d body expected = Ok u → hc_of d = "body" ∧ expected = sha256 body.
Proof.
  unfold check_body. destruct (negb (bool_decide _)) eqn:Hof; [done|].
  destruct (safe_equal _ _) eqn:He; [|done]. rewrite safe_equal_spec in He. reflect. done.
Qed.

Lemma check_response_ok claims envelope options d :
  check_response debug_str value_text claims envelope options = Some (Ok d) →
  response_bound claims envelope options d.
Proof.
  unfold check_response. cbv zeta.
  match goal with |- context [match ?c with Ok _ => _ | Err _ => _ end] =>
    destruct c as [[resp expected]|e] eqn:Hc end; [|done].
  apply bind_Ok in Hc as (record&Ho%required_object_ok&Hc).
  apply bind_Ok in Hc as (resp'&[Hh Hof]%digest_claim_ok&Hc).
  destruct (_ && _) eqn:Hboth; [done|]. apply bind_Ok in Hc as (x&Hx%hash_bytes_ok&[= <- <-]).
  intros (v&Hv&Hd)%fmap_Some. symmetry in Hd. apply bind_Ok in Hd as (u&->&[= <-]).
  split; [by eexists|]. split.
  - intros body Hb. rewrite Hb in Hv. apply (inj Some) in Hv.
    apply check_body_ok in Hv as [? ->]. done.
  - intros stream Hs. rewrite Hs in *. destruct (response_body options); [done|]. split; [done|].
    destruct (check_stream_ok _ _ _ _ _ Hv) as (raws&inputs&?&?&->&?). by exists raws, inputs.
Qed.
(** ** The attestation of the key *)

(** The document that attests the signing key: embedded in the signed
    header of a flattened receipt, or supplied by the caller and pinned by
    the signed claims of a compact one. *)
Definition evidence (envelope : JwsEnvelope) (header : ParsedHeader) (claims : Map)
    (options : ReceiptVerificationOptions) (document : string) : Prop :=
  if flattened envelope then
    map_get "att_kind" (ph_value header) = Some (VString "gcp-cs-jwt")
    ∧ map_get "att" (ph_value header) = Some (VString document)
    ∧ ∀ supplied, supplied_attestation options = Some supplied → supplied = document
  else
    supplied_attestation options = Some document
    ∧ ∃ pin, map_get "att_sha256" claims = Some (VString pin)
        ∧ b64_decode pin = Some (sha256 document).

(** A status is earned: "verified" by evidence for this very key, and
    "unverified" only for a compact receipt whose caller has neither supplied
    a document nor required one. *)
Definition attested (verify_gcp : string → string → ReceiptResult unit) (envelope : JwsEnvelope)
    (header : ParsedHeader) (claims : Map) (options : ReceiptVerificationOptions)
    (status : ReceiptAttestationStatus) : Prop :=
  match status with
  | Verified =>
      ∃ document, evidence envelope header claims options document
        ∧ verify_gcp document (key_commitment (ph_public_key header)) = Ok ()
  | UnverifiedByThisSdk =>
      flattened envelope = false ∧ supplied_attestation options = None
      ∧ require_attestation options = false
  end.

Lemma check_kind_ok header u :
  check_kind value_text header = Ok u →
  map_get "att_kind" (ph_value header) = Some (VString "gcp-cs-jwt").
Proof.
  unfold check_kind. cbv zeta. destruct (_ >>? as_str) as [name|] eqn:E; [|done].
  apply as_str_Some in E. destruct (bool_decide (name ∈ _)); [done|].
  case_bool_decide; [|done]. by subst.
Qed.

Lemma optional_string_ok object name family s :
  optional_string object name family = Ok (Some s) → map_get name object = Some (VString s).
Proof.
  unfold optional_string. cbv zeta. destruct (map_get name object) as [[]|]; try done.
  destruct (negb _); [|done]. by intros [= ->].
Qed.

Lemma attestation_status_ok verify_gcp envelope header claims options pin status :
  (∀ s, pin = Some s → map_get "att_sha256" claims = Some (VString s)) →
  attestation_status value_text envelope header (supplied_attestation options) pin
    (require_attestation options)
    (λ document, verify_gcp document (key_commitment (ph_public_key header))) = Ok status →
  attested verify_gcp envelope header claims options status.
Proof.
  intros Hpin. unfold attestation_status, attested, evidence.
  destruct (flattened envelope); cbn [negb].
  - intros (?&Hk%check_kind_ok&H)%bind_Ok.
    apply bind_Ok in H as (document&Hd%ok_or_Ok&H). apply opt_filter_Some in Hd as [Hd%as_str_Some _].
    destruct (is_some_and _ _) eqn:Hs; [done|]. apply bind_Ok in H as ([]&Hv&[= <-]).
    exists document. split_and!; [done..| |done]. intros supplied Hsup. rewrite Hsup in Hs. cbn in Hs.
    rewrite safe_equal_spec in Hs. by reflect.
  - destruct (supplied_attestation options) as [document|].
    + intros (encoded&->%ok_or_Ok&H)%bind_Ok. apply bind_Ok in H as (digest&Hd%decode_b64_ok&H).
      rewrite safe_equal_spec in H. case_bool_decide as He; [|done]. cbn [negb] in H. subst digest.
      apply bind_Ok in H as ([]&Hv&[= <-]). exists document.
      split; [split; [done|]; exists encoded; by auto|done].
    + destruct (require_attestation options); [done|]. by intros [= <-].
Qed.

(** ** The whole verification *)

(** The caller supplied its side of the traffic. *)
Definition traffic_supplied (options : ReceiptVerificationOptions) : Prop :=
  is_Some (request_body options)
  ∧ (is_Some (response_body options) ∨ is_Some (response_stream options)).

Lemma require_traffic_bindings_ok options u :
  require_traffic_bindings options = Ok u → require_bindings options = true → traffic_supplied options.
Proof.
  unfold require_traffic_bindings, traffic_supplied. intros H Hr. rewrite Hr in H. cbn [negb] in H.
  destruct (request_body options), (response_body options), (response_stream options); try done;
    rewrite <-!not_eq_None_Some; naive_solver.
Qed.

Lemma check_pin_ok claims is_flattened pin s :
  check_pin claims is_flattened = Ok pin → pin = Some s →
  map_get "att_sha256" claims = Some (VString s).
Proof.
  unfold check_pin. intros (pin'&Hp&H)%bind_Ok ->. apply bind_Ok in H as (_&_&H).
  destruct (_ && _); [done|]. assert (pin' = Some s) as -> by congruence.
  by eapply optional_string_ok.
Qed.

Lemma check_expected_nonce_ok claims expected nonce n :
  check_expected_nonce debug_str claims expected = Ok nonce → expected = Some n →
  nonce = Some n ∧ map_get "nonce" claims = Some (VString n).
Proof.
  unfold check_expected_nonce. intros (nonce'&Hn&H)%bind_Ok ->.
  destruct nonce' as [actual|]; cbn [is_none_or] in H; [|done].
  rewrite safe_equal_spec in H. case_bool_decide; [|done]. cbn [negb] in H. subst actual.
  split; [congruence|]. unfold optional_nonce in Hn. cbv zeta in Hn.
  destruct (map_get "nonce" claims) as [[]|]; try done. destruct (_ && _); [|done]. congruence.
Qed.

(** A receipt that says its upstream was verified in an enclave was issued
    within the signed validity of that verification. *)
Definition upstream_sound (claims : Map) (iat : Z) (u : ReceiptUpstreamClaims) : Prop :=
  ∃ upstream, map_get "upstream" claims = Some (VObject upstream)
    ∧ map_get "tier" upstream = Some (VString (uc_tier u))
    ∧ uc_tier u ∈ ["tee-verified"; "tls-webpki"]
    ∧ (uc_tier u = "tee-verified" →
       is_Some (uc_policy u)
       ∧ ∃ verified expires,
           map_get "verified_at" upstream >>? as_i64 = Some verified
           ∧ map_get "verification_expires_at" upstream >>? as_i64 = Some expires
           ∧ uc_verified_at u = Some verified ∧ uc_verification_expires_at u = Some expires
           ∧ (verified <= iat < expires)%Z).

Lemma upstream_window_ok upstream tier iat window :
  upstream_window value_text upstream tier iat = Ok window →
  (tier = Some "tee-verified"
   ∧ ∃ verified expires,
       map_get "verified_at" upstream >>? as_i64 = Some verified
       ∧ map_get "verification_expires_at" upstream >>? as_i64 = Some expires
       ∧ window = (Some verified, Some expires) ∧ (verified <= iat < expires)%Z)
  ∨ tier = Some "tls-webpki".
Proof.
  unfold upstream_window. case_bool_decide as Ht.
  - intros (verified&Hv%ok_or_Ok&H)%bind_Ok. apply bind_Ok in H as (expires&He%ok_or_Ok&H).
    destruct (_ && _) eqn:Hw; [|done]. cbn [negb] in H. reflect. left. split; [done|].
    exists verified, expires. split_and!; [done|done|congruence|lia|lia].
  - case_bool_decide; [by right|done].
Qed.

Lemma upstream_claims_ok claims iat u :
  upstream_claims value_text claims iat = Ok u → upstream_sound claims iat u.
Proof.
  unfold upstream_claims. cbv zeta. intros (upstream&Hu%required_object_ok&H)%bind_Ok.
  apply bind_Ok in H as (window&Hw%upstream_window_ok&H). apply bind_Ok in H as (policy&_&H).
  destruct (_ && _) eqn:Hp; [done|]. apply bind_Ok in H as (cert&_&H).
  match type of H with Ok ?c = _ => assert (u = c) as -> by congruence end. clear H.
  exists upstream. cbn [uc_tier uc_policy uc_verified_at uc_verification_expires_at].
  destruct Hw as [(Ht&v&e&?&?&->&?)|Ht]; rewrite Ht in *; cbn [default]; apply as_str_Some in Ht;
    (split_and!; [done..|set_solver|]); [|discriminate].
  intros _. rewrite bool_decide_eq_true_2 in Hp by done. cbn in Hp.
  apply bool_decide_eq_false, not_eq_None_Some in Hp. split; [done|]. exists v, e. auto.
Qed.

(** What a success establishes of the receipt, the caller's traffic and the
    signing key. *)
Definition established (verify_gcp : string → string → ReceiptResult unit) (clock : result string N)
    (expected_issuer : string) (options : ReceiptVerificationOptions) (c : ReceiptClaims)
    (envelope : JwsEnvelope) (header : ParsedHeader) (claims : Map) : Prop :=
  authentic envelope header claims
  ∧ issued_by claims (rc_iss c) expected_issuer
  ∧ (map_get "iat" claims >>? as_i64 = Some (rc_iat c)
     ∧ ∃ now, current_time clock options = Ok now ∧ timely (rc_iat c) now (max_age_seconds options))
  ∧ request_bound claims options (rc_req c)
  ∧ response_bound claims envelope options (rc_resp c)
  ∧ (require_bindings options = true → traffic_supplied options)
  ∧ (∀ n, expected_nonce options = Some n →
       rc_nonce c = Some n ∧ map_get "nonce" claims = Some (VString n))
  ∧ upstream_sound claims (rc_iat c) (rc_upstream c)
  ∧ attested verify_gcp envelope header claims options (rc_attestation_status c).

Lemma open_receipt_ok receipt expected_issuer options canonical envelope header claims :
  open_receipt debug_str value_text receipt expected_issuer options
    = Ok (canonical, envelope, header, claims) →
  parse_envelope receipt = Ok envelope ∧ authentic envelope header claims
  ∧ spells_origin canonical expected_issuer
  ∧ (require_bindings options = true → traffic_supplied options).
Proof.
  unfold open_receipt. intros (u&Hb&H)%bind_Ok.
  apply bind_Ok in H as (canonical'&Hc%canonical_https_origin_ok&H).
  apply bind_Ok in H as (envelope'&Henv&H). apply bind_Ok in H as (header'&Hh%parse_header_ok&H).
  apply bind_Ok in H as (bytes&Hs%verify_signature_ok&H). apply bind_Ok in H as (body&Hl&H).
  apply bind_Ok in H as (claims'&Ho%ok_or_Ok%as_object_Some&H).
  assert (canonical' = canonical ∧ envelope' = envelope ∧ header' = header ∧ claims' = claims)
    as (->&->&->&->) by (split_and!; congruence).
  destruct Hs as (key&sig&?&?&?&?). subst body. split_and!; [done| |done|].
  - split; [done|]. by exists key, sig, bytes.
  - by eapply require_traffic_bindings_ok.
Qed.

(** C2. A verification that succeeds establishes the whole receipt: the
    signature of the key in the protected header over the exact encoded
    header and payload, the expected issuer, a timely issue date, the
    digests of the caller's own request and response (both supplied
    whenever bindings are required), the expected nonce, a valid enclave
    window, and an attestation status that was earned. *)
Theorem receipt_sound clock receipt expected_issuer options verify_gcp c :
  verify_receipt_with debug_str value_text clock receipt expected_issuer options verify_gcp
    = Some (Ok c) →
  ∃ envelope header claims, parse_envelope receipt = Ok envelope
    ∧ established verify_gcp clock expected_issuer options c envelope header claims.
Proof.
  unfold verify_receipt_with. cbv zeta.
  match goal with |- context [match ?r with Ok _ => _ | Err _ => _ end] =>
    destruct r as [[[[envelope header] claims] result]|] eqn:Hb end; [|done].
  intros (r&Hresp&Hr)%fmap_Some. symmetry in Hr.
  apply bind_Ok in Hr as (resp&->&Hr). apply bind_Ok in Hr as (status&Hstatus&Hr).
  apply check_response_ok in Hresp.
  apply bind_Ok in Hb as ([[[canonical envelope'] header'] claims']&Hopen%open_receipt_ok&Hb).
  apply bind_Ok in Hb as (rv&_&Hb). apply bind_Ok in Hb as (iss&Hiss&Hb).
  apply bind_Ok in Hb as (iat&Hiat%ok_or_Ok&Hb). apply bind_Ok in Hb as (now&Hnow&Hb).
  apply bind_Ok in Hb as (?&Htime%check_time_ok&Hb). apply bind_Ok in Hb as (jti&_&Hb).
  apply bind_Ok in Hb as (gen&_&Hb). apply bind_Ok in Hb as (route&_&Hb).
  apply bind_Ok in Hb as (model&_&Hb). apply bind_Ok in Hb as (pin&Hpin&Hb).
  apply bind_Ok in Hb as (nonce&Hnonce&Hb). apply bind_Ok in Hb as (upstream&Hup%upstream_claims_ok&Hb).
  apply bind_Ok in Hb as (req&Hreq%check_request_ok&Hb).
  injection Hb as -> -> -> <-. injection Hr as <-.
  destruct Hopen as (?&?&Hcan&?). exists envelope, header, claims. split; [done|].
  unfold established. cbn [rc_iss rc_iat rc_req rc_resp rc_nonce rc_upstream rc_attestation_status].
  split_and!; [done|by eapply check_issuer_ok|done|by exists now|done|done|done| |done|].
  - intros n. by eapply check_expected_nonce_ok.
  - eapply attestation_status_ok; [|done]. intros s. by eapply check_pin_ok.
Qed.

(** Verification always returns, whatever the receipt and the stream. *)
Theorem receipt_verification_total clock receipt expected_issuer options verify_gcp :
  ∃ r, verify_receipt_with debug_str value_text clock receipt expected_issuer options verify_gcp
       = Some r.
Proof.
  unfold verify_receipt_with. cbv zeta.
  match goal with |- context [match ?r with Ok _ => _ | Err _ => _ end] =>
    destruct r as [[[[envelope header] claims] result]|] end; [|by eexists].
  destruct (check_response_total claims envelope options) as [r ->]. by eexists.
Qed.

(** ** Captured streams *)

(** C13. A capture verifies the receipt it extracted against the bytes it
    forwarded: success establishes the whole receipt with the captured
    wire as the response stream, complete to its last event, whose
    ordinary events are exactly what the signed digest hashes. *)
Theorem captured_receipt_sound to_vec clock capture expected_issuer options verify_gcp c :
  capture_verify_with debug_str value_text to_vec clock capture expected_issuer options verify_gcp
    = Some (Ok c) →
  ∃ receipt encoded envelope header claims raws inputs,
    cap_receipt capture = Some receipt ∧ to_vec receipt = Ok encoded
    ∧ parse_envelope encoded = Ok envelope
    ∧ established verify_gcp clock expected_issuer
        (options <| response_stream := Some (cap_wire capture) |>) c envelope header claims
    ∧ framed (cap_wire capture) raws ""
    ∧ accepted_events debug_str (hc_of (rc_resp c)) (flattened_value envelope) raws inputs
    ∧ b64_decode (hc_hash (rc_resp c)) = Some (sha256 (concat_strings inputs)).
Proof.
  unfold capture_verify_with. destruct (cap_receipt capture) as [receipt|]; [|done].
  destruct (bool_decide _); [done|]. destruct (to_vec receipt) as [encoded|] eqn:Hvec; [|done].
  intros (envelope&header&claims&?&He)%receipt_sound.
  pose proof He as (_&_&_&_&(_&_&Hs)&_).
  destruct (Hs (cap_wire capture) eq_refl) as (_&raws&inputs&?&?&?&_).
  exists receipt, encoded, envelope, header, claims, raws, inputs. by split_and!.
Qed.

(** ** With the attestation verifier of the SDK *)

Context `{JL : JwtLib} `{KF : KeyFetch} `{BE : BuildEnv}.
Context (get_release : string → result string (Fetched TrustRelease)).
Context (signed : string → DecodingKey → Value → Prop) `{JLaws : !JwtLaws JL signed}.

(** The key belongs to a published gateway image: a document signed by a key
    of Google's key set, of a production workload whose image the fetched
    trust release names, whose [eat_nonce] holds the commitment to the key. *)
Definition key_attested (document public_key : string) : Prop :=
  ∃ response release policy token,
    get_release DEFAULT_TRUST_RELEASE_URL = Ok response ∧ is_success (f_status response) = true
    ∧ f_json response = Ok release ∧ policy_from_trust_release release None = Ok policy
    ∧ google_signed signed document
        (mkAttestationOptions policy (Some (hex (key_commitment public_key))) None None None
           (Some GCP_JWKS_URL) true) token
    ∧ get "iss" token = Some (VString GCP_ISSUER)
    ∧ production token policy
    ∧ nonce_bound token (hex (key_commitment public_key)) Document
    ∧ ∃ digest reference, attests_image token digest reference
        ∧ image_accepted policy digest reference.

Lemma verify_gcp_attestation_ok document public_key u :
  verify_gcp_attestation get_release document (key_commitment public_key) = Ok u →
  key_attested document public_key.
Proof using CLaws JLaws.
  unfold verify_gcp_attestation. intros (_&_&H)%bind_Ok.
  apply bind_Ok in H as (response&Hg%map_err_Ok&H).
  destruct (is_success (f_status response)) eqn:Hs; [|done]. cbn [negb] in H.
  apply bind_Ok in H as (release&Hj%map_err_Ok&H). apply bind_Ok in H as (policy&Hp%map_err_Ok&H).
  apply map_err_Ok in H. apply (receipt_key_attested signed) in H as (token&commitment&?&Hc&?&?&?&?).
  cbn in Hc. injection Hc as <-. exists response, release, policy, token. by split_and!.
Qed.

(** C3. With the SDK's own verifier, a receipt reported as verified was signed
    by a key that a published gateway image attests: the document of the
    receipt is a token signed by a key of the fetched set, issued by
    Google for a production workload whose image the fetched trust release
    names, and its [eat_nonce] holds the commitment to that very key. *)
Theorem verified_receipt_from_published_image clock receipt expected_issuer options c :
  verify_receipt debug_str value_text get_release clock receipt expected_issuer options = Some (Ok c) →
  rc_attestation_status c = Verified →
  ∃ envelope header claims document,
    parse_envelope receipt = Ok envelope ∧ authentic envelope header claims
    ∧ evidence envelope header claims options document
    ∧ key_attested document (ph_public_key header).
Proof using CLaws JLaws.
  intros (envelope&header&claims&Hp&He)%receipt_sound Hv.
  destruct He as (?&_&_&_&_&_&_&_&Ha). rewrite Hv in Ha. destruct Ha as (document&?&Hg).
  exists envelope, header, claims, document. split_and!; [done..|].
  by eapply verify_gcp_attestation_ok.
Qed.

End facts.

(** A receipt so old that its age does not fit in an [i64] passes every
    maximum age. *)
Theorem overflowing_age_is_accepted max_age :
  check_time i64_min 0 max_age = Ok ().
Proof. by destruct max_age. Qed.
