(* ===== verification/Headers.v ===== *)
(** * L4, attempt assembly ([transport/headers.rs])

    Per-attempt headers and the per-call idempotency key.  The random UUID
    of a minted key is an argument. *)
From S2P Require Import Prelude Text Http Error Config Policy Identity Recorder.

Section headers.
Context `{HL : HttpLib} `{BE : BuildEnv}.

Definition parse_header_name (value : string) : Result string :=
  map_err (λ e, InvalidConfiguration ("invalid header name: " +:+ e)) (name_from_bytes value).

Definition parse_header_value (value : string) : Result string :=
  map_err (λ e, InvalidConfiguration ("invalid header value: " +:+ e)) (value_from_str value).

Definition enforce_reserved_telemetry_header (headers : HeaderMap)
    (telemetry : option RequestRecorder) : HeaderMap :=
  let headers := hm_remove headers "x-tr-client" in
  match telemetry >>? header_value with
  | Some value =>
      match value_from_str value with
      | Ok value => hm_insert headers "x-tr-client" value
      | Err _ => headers
      end
  | None => headers
  end.

(** One layer of configured headers, parsed in order. *)
Fixpoint parse_layer (layer : Headers) (parsed : HeaderMap) : Result HeaderMap :=
  match layer with
  | [] => Ok parsed
  | (name, value) :: layer =>
      if eq_ignore_ascii_case name "x-tr-client" then parse_layer layer parsed
      else
        n ← parse_header_name name;
        v ← parse_header_value value;
        parse_layer layer (hm_append parsed n v)
  end.

Fixpoint extend_layers (layers : list Headers) (headers : HeaderMap) : Result HeaderMap :=
  match layers with
  | [] => Ok headers
  | layer :: layers =>
      parsed ← parse_layer layer hm_new;
      extend_layers layers (hm_extend headers parsed)
  end.

(** Remove a slot the SDK owns for this call, then fill it when the
    effective value is not empty. *)
Definition set_owned (name : string) (value : option string) (render : string → string)
    (headers : HeaderMap) : Result HeaderMap :=
  let headers := match value with Some _ => hm_remove headers name | None => headers end in
  match opt_filter (λ v, negb (is_empty v)) value with
  | Some v => v ← parse_header_value (render v); Ok (hm_insert headers name v)
  | None => Ok headers
  end.

Definition set_idempotency_key (key : option string) (headers : HeaderMap) : Result HeaderMap :=
  match opt_filter (λ v, negb (is_empty v)) key with
  | Some k => v ← parse_header_value k; Ok (hm_insert headers "idempotency-key" v)
  | None => Ok headers
  end.

Definition request_headers `{UL : UrlLib} (c : Client.t) (options : CallOptions.t)
    (telemetry : option RequestRecorder) : Result HeaderMap :=
  headers ← extend_layers [Client.headers c; CallOptions.headers options] hm_new;
  let headers := enforce_reserved_telemetry_header headers telemetry in
  agent ← parse_header_value sdk_user_agent;
  let headers := hm_insert headers "user-agent" agent in
  headers ← set_owned "authorization"
              (opt_or (CallOptions.api_key options) (Client.api_key c))
              (λ key, "Bearer " +:+ key) headers;
  headers ← set_owned "x-trustedrouter-workspace"
              (opt_or (CallOptions.workspace_id options) (Client.workspace_id c)) id headers;
  set_idempotency_key (CallOptions.idempotency_key options) headers.

Definition ensure_idempotency_key (uuid : string) (options : CallOptions.t) : CallOptions.t :=
  match CallOptions.idempotency_key options with
  | None => options <| CallOptions.idempotency_key := Some ("tr-req-" +:+ uuid) |>
  | Some _ => options
  end.

(** ** What each slot holds *)

Context `{HLaws : !HttpLaws HL}.

(** The value the SDK wants in its own slot of the wire request. *)
Definition expected_telemetry (telemetry : option RequestRecorder) : option string :=
  telemetry >>? header_value >>? (λ value, ok (value_from_str value)).

Lemma get_enforce headers telemetry name :
  hm_get (enforce_reserved_telemetry_header headers telemetry) name =
  if decide (name = "x-tr-client") then expected_telemetry telemetry else hm_get headers name.
Proof.
  unfold enforce_reserved_telemetry_header, expected_telemetry.
  destruct (telemetry >>? header_value) as [value|]; simpl; [destruct (value_from_str value)|]; simpl;
    rewrite ?get_insert, ?get_remove; repeat case_decide; congruence.
Qed.

Lemma parse_header_value_text s v : parse_header_value s = Ok v → v = s.
Proof.
  unfold parse_header_value. destruct (value_from_str s) eqn:E; simpl; [|done].
  intros [= <-]. by apply value_from_str_text.
Qed.

Lemma set_owned_get name value render headers headers' n :
  set_owned name value render headers = Ok headers' →
  hm_get headers' n =
  if decide (n = name) then
    match value with
    | Some v => if is_empty v then None else Some (render v)
    | None => hm_get headers n
    end
  else hm_get headers n.
Proof.
  unfold set_owned, mbind, result_bind. destruct value as [v|]; simpl.
  - destruct (is_empty v); simpl.
    + intros [= <-]. rewrite get_remove. repeat case_decide; congruence.
    + destruct (parse_header_value (render v)) eqn:E; [|done]. intros [= <-].
      apply parse_header_value_text in E as ->.
      rewrite get_insert, get_remove. repeat case_decide; congruence.
  - intros [= <-]. by case_decide; subst.
Qed.

Lemma set_idempotency_key_get key headers headers' n :
  set_idempotency_key key headers = Ok headers' →
  hm_get headers' n =
  match opt_filter (λ v, negb (is_empty v)) key with
  | Some k => if decide (n = "idempotency-key") then Some k else hm_get headers n
  | None => hm_get headers n
  end.
Proof.
  unfold set_idempotency_key, mbind, result_bind.
  destruct (opt_filter _ key) as [k|]; [|congruence].
  destruct (parse_header_value k) eqn:E; [|done]. intros [= <-].
  apply parse_header_value_text in E as ->. rewrite get_insert. repeat case_decide; congruence.
Qed.

(** The headers a call sends, slot by slot; [layers] is what the configured
    header maps contribute. *)
Definition slot_value `{UL : UrlLib} (c : Client.t) (options : CallOptions.t)
    (telemetry : option RequestRecorder) (layers : HeaderMap) (name : string) : option string :=
  let owned value render :=
    match value with
    | Some v => if is_empty v then None else Some (render v)
    | None => hm_get layers name
    end in
  if decide (name = "x-tr-client") then expected_telemetry telemetry
  else if decide (name = "user-agent") then Some sdk_user_agent
  else if decide (name = "authorization") then
    owned (opt_or (CallOptions.api_key options) (Client.api_key c)) (λ k, "Bearer " +:+ k)
  else if decide (name = "x-trustedrouter-workspace") then
    owned (opt_or (CallOptions.workspace_id options) (Client.workspace_id c)) id
  else if decide (name = "idempotency-key") then
    opt_or (opt_filter (λ v, negb (is_empty v)) (CallOptions.idempotency_key options))
           (hm_get layers name)
  else hm_get layers name.

Lemma request_headers_slot `{UL : UrlLib} c options telemetry headers name :
  request_headers c options telemetry = Ok headers →
  ∃ layers, extend_layers [Client.headers c; CallOptions.headers options] hm_new = Ok layers
    ∧ hm_get headers name = slot_value c options telemetry layers name.
Proof.
  unfold request_headers, mbind, result_bind.
  destruct (extend_layers _ hm_new) as [layers|]; [|done]. cbv zeta.
  destruct (parse_header_value sdk_user_agent) as [agent|] eqn:Ea; [|done].
  apply parse_header_value_text in Ea as ->.
  destruct (set_owned "authorization" _ _ _) as [h1|] eqn:E1; [|done].
  destruct (set_owned "x-trustedrouter-workspace" _ _ _) as [h2|] eqn:E2; [|done].
  intros E3. exists layers. split; [done|].
  rewrite (set_idempotency_key_get _ _ _ _ E3), (set_owned_get _ _ _ _ _ _ E2),
    (set_owned_get _ _ _ _ _ _ E1), !get_insert, !get_enforce.
  unfold slot_value.
  destruct (opt_filter _ (CallOptions.idempotency_key options)); simpl;
    repeat case_decide; subst; simpl; congruence.
Qed.

(** C9. Every header map the SDK assembles owns its slots: [x-tr-client] is
    the recorder's value or absent whatever the caller configured, the
    [user-agent] is the SDK's, an explicit key or workspace replaces any
    configured one (and an empty one suppresses it), and the idempotency
    key of the call is sent verbatim. *)
Theorem request_headers_own_slots `{UL : UrlLib} c options telemetry headers :
  request_headers c options telemetry = Ok headers →
  hm_get headers "x-tr-client" = expected_telemetry telemetry
  ∧ hm_get headers "user-agent" = Some sdk_user_agent
  ∧ (∀ k, opt_or (CallOptions.api_key options) (Client.api_key c) = Some k →
       hm_get headers "authorization" = if is_empty k then None else Some ("Bearer " +:+ k))
  ∧ (∀ w, opt_or (CallOptions.workspace_id options) (Client.workspace_id c) = Some w →
       hm_get headers "x-trustedrouter-workspace" = if is_empty w then None else Some w)
  ∧ (∀ k, CallOptions.idempotency_key options = Some k → is_empty k = false →
       hm_get headers "idempotency-key" = Some k).
Proof.
  intros H. split_and!.
  - by destruct (request_headers_slot _ _ _ _ "x-tr-client" H) as (layers&_&->).
  - by destruct (request_headers_slot _ _ _ _ "user-agent" H) as (layers&_&->).
  - intros k Hk. destruct (request_headers_slot _ _ _ _ "authorization" H) as (layers&_&->).
    unfold slot_value. simpl. by rewrite Hk.
  - intros w Hw. destruct (request_headers_slot _ _ _ _ "x-trustedrouter-workspace" H) as (layers&_&->).
    unfold slot_value. simpl. by rewrite Hw.
  - intros k Hk Hne. destruct (request_headers_slot _ _ _ _ "idempotency-key" H) as (layers&_&->).
    unfold slot_value. simpl. by rewrite Hk; simpl; rewrite Hne.
Qed.

End headers.
