(* ===== verification/Engine.v ===== *)
(** * L3, the transport engine ([transport/engine.rs])

    The single retry and failover loop.  The network, the request builder,
    the JSON parser, the random draw and the clocks are the fields of [Env];
    the monotonic clock advances by the time each awaited operation takes.
    [st_sent] keeps every request handed to the HTTP client, and the outcome
    of a call keeps, per attempt, the candidate it targeted and how it ended. *)
From S2P Require Import Prelude Text Json Http Error Policy Config Routing Vocab.
From S2P Require Import Identity Recorder Headers.

Record CandidateCursor := mkCursor { cursor_index : nat; cursor_len : nat }.

Definition new_cursor (len : nat) : CandidateCursor := mkCursor 0 len.

Definition advance (cur : CandidateCursor) : bool * CandidateCursor :=
  if (cursor_index cur + 1 <? cursor_len cur)%nat
  then (true, mkCursor (cursor_index cur + 1) (cursor_len cur))
  else (false, cur).

Definition error_source_of (payload : option Value) : option ErrorSource.t :=
  match payload with
  | None => None
  | Some payload =>
      ErrorSource.parse
        (opt_or (get "error" payload >>? get "source") (get "source" payload) >>? as_str)
  end.

Definition request_replay_safe (m : Method) (options : CallOptions.t) : bool :=
  match m with
  | GET | HEAD | OPTIONS | TRACE => true
  | _ => is_some_and (λ key, negb (is_empty key)) (CallOptions.idempotency_key options)
  end.

Inductive AttemptFailure :=
| Deadline
| TransportFailure (error : ReqwestError).

Definition record_failure (now : Instant) (failure : AttemptFailure)
    (response_opened body_started : bool) (r : RequestRecorder) : RequestRecorder :=
  match failure with
  | Deadline => on_transport_error now ErrorClass.ReadTimeout true response_opened body_started r
  | TransportFailure error =>
      on_transport_error now (classify_transport_error error) (is_timeout error)
        response_opened body_started r
  end.

Definition into_error (failure : AttemptFailure) (deadline_message : string) : Error :=
  match failure with
  | Deadline => Timeout deadline_message
  | TransportFailure error => map_reqwest_error error
  end.

(** Awaits an operation under an optional deadline; [Duration::ZERO] and no
    deadline both disable it.  Returns the result and the time that passed. *)
Definition await_deadline {A} (deadline : option Duration) (f : Fut (result ReqwestError A))
    : result AttemptFailure A * Duration :=
  match opt_filter (λ d, negb (d =? 0)%N) deadline with
  | Some duration =>
      match run_timeout duration f with
      | (Some sent, elapsed) => (map_err TransportFailure sent, elapsed)
      | (None, elapsed) => (Err Deadline, elapsed)
      end
  | None => (map_err TransportFailure (outcome_of f), ready_after f)
  end.

Section engine.
Context `{HL : HttpLib} `{UL : UrlLib} `{DL : HttpDateLib} `{BE : BuildEnv}.

(** The request handed to [http.execute], and which HTTP client it is handed
    to. *)
Record Request := mkRequest {
  rq_http : Transport;
  rq_method : Method;
  rq_url : Url;
  rq_headers : HeaderMap;
  rq_body : option Value;
}.

Record Env := mkEnv {
  execute_request : nat → Request → Fut (result ReqwestError Response);
  build_headers : Method → Url → HeaderMap → option Value → result ReqwestError HeaderMap;
  parse_json : string → option Value;
  gen_range : nat → N → N;
  wall_clock : Instant → Duration;
}.

Record St := mkSt {
  st_now : Instant;
  st_recorder : option RequestRecorder;
  st_sent : list Request;
}.
#[global] Instance St_settable : Settable St :=
  λ s, mkSt (st_now s) (st_recorder s) (st_sent s).

Definition observe (f : Instant → RequestRecorder → RequestRecorder) (s : St) : St :=
  s <| st_recorder := f (st_now s) <$> st_recorder s |>.

Context (env : Env) (c : Client.t) (options : CallOptions.t).

Definition deadline : option Duration := opt_or (CallOptions.timeout options) (Client.timeout c).

(** [send_raw]: the request reaches the wire, then time passes. *)
Definition send_raw (attempt : nat) (request : Request) (s : St)
    : result AttemptFailure Response * St :=
  let '(sent, elapsed) := await_deadline deadline (execute_request env attempt request) in
  (sent, mkSt (st_now s + elapsed)%N (st_recorder s) (st_sent s ++ [request])).

Definition read_body (response : Response) (s : St) : result AttemptFailure string * St :=
  let '(read, elapsed) := await_deadline deadline (body_bytes response) in
  (read, s <| st_now := (st_now s + elapsed)%N |>).

Definition send_once (attempt : nat) (m : Method) (url : Url) (body : option Value) (s : St)
    : Result Response * St :=
  match request_headers c options (st_recorder s) with
  | Err e => (Err e, s)
  | Ok headers =>
      match build_headers env m url headers body with
      | Err error =>
          let failure := TransportFailure error in
          (Err (into_error failure "request could not be built"),
           observe (λ now, record_failure now failure false false) s)
      | Ok built =>
          let headers := enforce_reserved_telemetry_header built (st_recorder s) in
          match send_raw attempt (mkRequest (Client.http c) m url headers body) s with
          | (Ok response, s) => (Ok response, s)
          | (Err failure, s) =>
              (Err (into_error failure "response headers deadline exceeded"),
               observe (λ now, record_failure now failure false false) s)
          end
      end
  end.

(** How one attempt ended. *)
Inductive Attempt :=
| Succeeded (response : Response)
| Failed (disposition : FailureDisposition)
| BodyFailed (error : Error).

Definition run_attempt (attempt : nat) (m : Method) (url : Url) (body : option Value) (s : St)
    : Attempt * St :=
  let s := observe (λ now, begin_attempt now url) s in
  match send_once attempt m url body s with
  | (Err error, s) => (Failed (from_transport error), s)
  | (Ok response, s) =>
      let code := status response in
      let headers := headers_of response in
      let s := observe (λ now, on_response now (wall_clock env now) code headers None) s in
      if is_success code then (Succeeded response, s)
      else
        match read_body response s with
        | (Ok bytes, s) =>
            let payload := parse_json env bytes in
            let s := observe (λ now, on_response_body_complete now (error_source_of payload)) s in
            (Failed (from_http (wall_clock env (st_now s)) code headers payload), s)
        | (Err failure, s) =>
            let s := observe (λ now, record_failure now failure true false) s in
            let disposition := from_http (wall_clock env (st_now s)) code headers None in
            if retry disposition then (Failed disposition, s)
            else (BodyFailed (into_error failure "response body deadline exceeded"),
                  observe (λ now, finish now false) s)
        end
  end.

(** What a call returns, with the requests it made and the sleeps between
    them.  [Panicked] is an out-of-range candidate index and [OutOfFuel] a
    loop cut short; neither is reachable. *)
Inductive Returned :=
| Returns (r : Result Response)
| Panicked
| OutOfFuel.

Record Outcome := mkOutcome {
  out_result : Returned;
  out_st : St;
  out_trace : list (nat * Attempt);
  out_sleeps : list Duration;
}.
#[global] Instance Outcome_settable : Settable Outcome :=
  λ o, mkOutcome (out_result o) (out_st o) (out_trace o) (out_sleeps o).

Definition done_with (r : Returned) (s : St) (trace : list (nat * Attempt)) : Outcome :=
  mkOutcome r s trace [].

Fixpoint retry_loop (fuel attempt : nat) (cur : CandidateCursor) (candidates : list Url)
    (m : Method) (body : option Value) (s : St) : Outcome :=
  match fuel with
  | O => done_with OutOfFuel s []
  | S fuel =>
      match candidates !! cursor_index cur with
      | None => done_with Panicked s []
      | Some url =>
          let '(ended, s) := run_attempt attempt m url body s in
          let here := (cursor_index cur, ended) in
          match ended with
          | Succeeded response => done_with (Returns (Ok response)) s [here]
          | BodyFailed error => done_with (Returns (Err error)) s [here]
          | Failed disposition =>
              if (Client.max_retries c <=? attempt)%nat || negb (retry disposition)
                 || negb (request_replay_safe m options)
              then
                done_with (Returns (Err (Policy.error disposition)))
                  (observe (λ now, finish now ((0 <? attempt)%nat && retry disposition)) s) [here]
              else
                let '(moved, cur') := if failover disposition then advance cur else (false, cur) in
                let s := if moved then observe (λ _, on_moved) s else s in
                let delay :=
                  retry_delay (gen_range env attempt) attempt (retry_after disposition) in
                let s := s <| st_now := (st_now s + delay)%N |> in
                let rest := retry_loop fuel (attempt + 1) cur' candidates m body s in
                rest <| out_trace := here :: out_trace rest |>
                     <| out_sleeps := delay :: out_sleeps rest |>
          end
      end
  end.

Definition request_recorder (plane : Plane) (m : Method) (path resolved_path : string)
    (body : option Value) (is_streaming : bool) : option RequestRecorder :=
  if negb (Client.telemetry c) || negb (bool_decide (plane = Inference))
     || negb (tracked_inference_path resolved_path)
  then None
  else
    let pinned :=
      body >>? get "provider" >>? as_object >>? map_get "allow_fallbacks" >>? as_bool in
    Some (new_recorder
      {| spec_endpoint := endpoint_enum path;
         spec_method := m;
         spec_streaming := is_streaming;
         spec_provider_pinned := bool_decide (pinned = Some false);
         spec_model := body >>? get "model" >>? as_str;
         spec_configured_timeout := deadline |}).

(** [Client::execute], started at instant [now]. *)
Definition execute (plane : Plane) (m : Method) (path : string) (body : option Value)
    (is_streaming : bool) (now : Instant) : Outcome :=
  match plane_urls c plane path with
  | Err e => done_with (Returns (Err e)) (mkSt now None []) []
  | Ok candidates =>
      let resolved_path := from_option url_path path (head candidates) in
      let recorder := request_recorder plane m path resolved_path body is_streaming in
      retry_loop (S (Client.max_retries c)) 0 (new_cursor (length candidates)) candidates m body
        (mkSt now recorder [])
  end.

End engine.
