(* ===== verification/EngineFacts.v ===== *)
(** * Correctness of the engine

    The loop refines an abstract retry machine, always returns within
    [max_retries + 1] attempts, sends the same caller headers on every
    attempt and hands back a recorder in the right state. *)
From S2P Require Import Prelude Text Json Http Error Policy Config Routing Vocab.
From S2P Require Import Identity Recorder RecorderFacts Headers Engine.

Section facts.
Context `{HL : HttpLib} `{UL : UrlLib} `{DL : HttpDateLib} `{BE : BuildEnv}.
Context (env : Env) (c : Client.t) (options : CallOptions.t).

(** ** The abstract machine

    A call is a list of attempts, each at a candidate.  [Decision] says what
    may follow a failure; [max] and [safe] say whether anything may. *)
Inductive run_spec (len max : nat) (safe : bool) : nat → nat → list (nat * Attempt) → Prop :=
| run_success k i r : run_spec len max safe k i [(i, Succeeded r)]
| run_body_failed k i e : run_spec len max safe k i [(i, BodyFailed e)]
| run_stop k i d :
    decision_of d = Stop ∨ max ≤ k ∨ safe = false →
    run_spec len max safe k i [(i, Failed d)]
| run_here k i d rest :
    decision_of d = RetryHere → k < max → safe = true →
    run_spec len max safe (S k) i rest →
    run_spec len max safe k i ((i, Failed d) :: rest)
| run_elsewhere k i d rest :
    decision_of d = RetryElsewhere → k < max → safe = true →
    run_spec len max safe (S k) (Nat.min (S i) (pred len)) rest →
    run_spec len max safe k i ((i, Failed d) :: rest).

Lemma run_spec_length len max safe k i l :
  run_spec len max safe k i l → length l ≤ S (max - k) ∧ 1 ≤ length l.
Proof. induction 1; simpl in *; lia. Qed.

Lemma run_spec_unsafe len max k i l : run_spec len max false k i l → length l = 1.
Proof. by inversion 1. Qed.

Lemma run_spec_single max safe k l :
  run_spec 1 max safe k 0 l → Forall (λ a, a.1 = 0) l.
Proof.
  intros H. remember 1 as len. remember 0 as i. revert Heqlen Heqi.
  induction H; intros -> ->; constructor; auto.
Qed.

Definition trace_result (l : list (nat * Attempt)) : option (Result Response) :=
  match snd <$> last l with
  | Some (Succeeded r) => Some (Ok r)
  | Some (BodyFailed e) => Some (Err e)
  | Some (Failed d) => Some (Err (Policy.error d))
  | None => None
  end.

Lemma trace_result_cons a l : l ≠ [] → trace_result (a :: l) = trace_result l.
Proof. unfold trace_result. by destruct l. Qed.

(** ** The loop runs the machine *)

Lemma advance_spec cur :
  cursor_index cur < cursor_len cur →
  let '(moved, cur') := advance cur in
  cursor_len cur' = cursor_len cur
  ∧ cursor_index cur' = Nat.min (S (cursor_index cur)) (pred (cursor_len cur))
  ∧ cursor_index cur' < cursor_len cur'.
Proof.
  intros H. unfold advance. destruct (_ <? _)%nat eqn:E; reflect; cbn [cursor_len cursor_index]; lia.
Qed.

(** The terminal test of the loop, as propositions. *)
Lemma terminal_false d attempt m :
  (Client.max_retries c <=? attempt)%nat || negb (retry d) || negb (request_replay_safe m options)
    = false →
  attempt < Client.max_retries c ∧ retry d = true ∧ request_replay_safe m options = true.
Proof. intros. by reflect. Qed.

Lemma terminal_true d attempt m :
  (Client.max_retries c <=? attempt)%nat || negb (retry d) || negb (request_replay_safe m options)
    = true →
  decision_of d = Stop ∨ Client.max_retries c ≤ attempt ∨ request_replay_safe m options = false.
Proof.
  rewrite !orb_true_iff, Nat.leb_le, !negb_true_iff. unfold decision_of.
  intros [[?| ->]| ?]; auto.
Qed.

Lemma retry_loop_runs candidates m body fuel attempt cur s :
  attempt ≤ Client.max_retries c < fuel + attempt →
  cursor_index cur < cursor_len cur → cursor_len cur = length candidates →
  let o := retry_loop env c options fuel attempt cur candidates m body s in
  run_spec (length candidates) (Client.max_retries c) (request_replay_safe m options)
    attempt (cursor_index cur) (out_trace o)
  ∧ (∃ r, out_result o = Returns r ∧ trace_result (out_trace o) = Some r)
  ∧ S (length (out_sleeps o)) = length (out_trace o).
Proof.
  revert attempt cur s. induction fuel as [|fuel IH]; intros attempt cur s Hfuel Hcur Hlen; [lia|].
  cbn [retry_loop].
  destruct (lookup_lt_is_Some_2 candidates (cursor_index cur)) as [url ->]; [lia|].
  destruct (run_attempt env c options attempt m url body s) as [ended s1].
  destruct ended as [r|d|e]; cbv zeta.
  1,3: by split; [constructor|split; [eexists|]].
  destruct (_ || _) eqn:E.
  { apply terminal_true in E. by split; [constructor|split; [eexists|]]. }
  apply terminal_false in E as (Hk&Hr&Hs).
  pose proof (advance_spec cur Hcur) as Hadv.
  assert (∃ moved cur', (if failover d then advance cur else (false, cur)) = (moved, cur')
    ∧ cursor_index cur' < cursor_len cur' ∧ cursor_len cur' = length candidates
    ∧ cursor_index cur' = if failover d then Nat.min (S (cursor_index cur)) (pred (length candidates))
                          else cursor_index cur) as (moved&cur'&->&Hc1&Hc2&Hc3).
  { destruct (failover d); [|by eexists _, _]. destruct (advance cur) as [moved cur'].
    destruct Hadv as (Ha&Hb&Hc). rewrite Hlen in Hb. eexists _, _. split_and!; [done|lia|lia|done]. }
  match goal with |- context [retry_loop _ _ _ fuel _ cur' _ _ _ ?s2] =>
    destruct (IH (attempt + 1) cur' s2) as (Hrun&(r&Hres&Htr)&Hsl); [lia|done|done|];
    set (o := retry_loop env c options fuel (attempt + 1) cur' candidates m body s2) in * end.
  cbn. split_and!.
  - rewrite Nat.add_1_r in Hrun. rewrite Hc3 in Hrun.
    assert (decision_of d = if failover d then RetryElsewhere else RetryHere) as Hd
      by (unfold decision_of; by rewrite Hr).
    rewrite Hs in *. destruct (failover d); [by apply run_elsewhere|by apply run_here].
  - exists r. split; [done|]. rewrite trace_result_cons; [done|].
    apply run_spec_length in Hrun. by destruct (out_trace o); simpl in *; [lia|].
  - lia.
Qed.

(** ** The requests of the attempts

    The machine's candidates are where the requests really go: an attempt
    sends one request to the candidate it names, the next attempt's follow
    it, and what the attempt reports is what that request was answered. *)

(** Why an attempt may have nothing to send: the headers do not parse, or
    reqwest refuses to build the request. *)
Definition unsendable (m : Method) (url : Url) (body : option Value) : Prop :=
  ∃ tel, match request_headers c options tel with
         | Err _ => True
         | Ok h => ∃ e, build_headers env m url h body = Err e
         end.

(** The headers of a request: those of the call, as the builder took them,
    with the telemetry slot enforced last. *)
Definition assembled (m : Method) (url : Url) (body : option Value) (headers : HeaderMap) : Prop :=
  ∃ tel h built, request_headers c options tel = Ok h ∧ build_headers env m url h body = Ok built
    ∧ headers = enforce_reserved_telemetry_header built tel.

(** No response came: the operation failed, or took longer than the call's
    deadline, if it has one. *)
Definition unanswered {A} (f : Fut (result ReqwestError A)) : Prop :=
  (∃ e, outcome_of f = Err e)
  ∨ ∃ limit, deadline c options = Some limit ∧ (0 < limit < ready_after f)%N.

Definition answered (k : nat) (rq : Request) (ended : Attempt) : Prop :=
  match ended with
  | Succeeded r => outcome_of (execute_request env k rq) = Ok r ∧ is_success (status r) = true
  | BodyFailed _ =>
      ∃ r, outcome_of (execute_request env k rq) = Ok r ∧ is_success (status r) = false
        ∧ unanswered (body_bytes r)
  | Failed d =>
      (∃ e, d = from_transport e) ∧ unanswered (execute_request env k rq)
      ∨ ∃ r wall payload, outcome_of (execute_request env k rq) = Ok r
          ∧ is_success (status r) = false ∧ d = from_http wall (status r) (headers_of r) payload
  end.

Inductive wire_of (candidates : list Url) (m : Method) (body : option Value)
  : nat → list (nat * Attempt) → list Request → Prop :=
| wire_end k : wire_of candidates m body k [] []
| wire_unsent k i url e trace sent :
    candidates !! i = Some url → unsendable m url body →
    wire_of candidates m body (S k) trace sent →
    wire_of candidates m body k ((i, Failed (from_transport e)) :: trace) sent
| wire_sent k i rq ended trace sent :
    candidates !! i = Some (rq_url rq) → rq_method rq = m → rq_body rq = body →
    rq_http rq = Client.http c → assembled m (rq_url rq) body (rq_headers rq) → answered k rq ended →
    wire_of candidates m body (S k) trace sent →
    wire_of candidates m body k ((i, ended) :: trace) (rq :: sent).

Lemma await_answered {A} deadline (f : Fut (result ReqwestError A)) a elapsed :
  await_deadline deadline f = (Ok a, elapsed) → outcome_of f = Ok a.
Proof.
  unfold await_deadline, run_timeout. repeat case_match; intros [= ]; simplify_eq/=;
    by match goal with H : map_err _ _ = Ok _ |- _ => apply map_err_Ok in H end.
Qed.

Lemma await_unanswered {A} (f : Fut (result ReqwestError A)) failure elapsed :
  await_deadline (deadline c options) f = (Err failure, elapsed) → unanswered f.
Proof.
  unfold await_deadline, run_timeout, unanswered.
  destruct (opt_filter _ _) as [limit|] eqn:Hd; [apply opt_filter_Some in Hd as [Hd Hz]|].
  - destruct (_ <=? _)%N eqn:Ht; reflect.
    + destruct (outcome_of f); [done|]. intros _. left. by eexists.
    + intros _. right. exists limit. split; [done|lia].
  - destruct (outcome_of f); [done|]. intros _. left. by eexists.
Qed.

(** One attempt: what it adds to the requests, and what it was answered. *)
Lemma send_once_wire attempt m url body s r s' :
  send_once env c options attempt m url body s = (r, s') →
  (st_sent s' = st_sent s ∧ unsendable m url body ∧ ∃ e, r = Err e)
  ∨ ∃ headers, let rq := mkRequest (Client.http c) m url headers body in
      st_sent s' = st_sent s ++ [rq] ∧ assembled m url body headers
      ∧ match r with
        | Ok resp => outcome_of (execute_request env attempt rq) = Ok resp
        | Err _ => unanswered (execute_request env attempt rq)
        end.
Proof.
  unfold send_once. destruct (request_headers c options (st_recorder s)) as [h|e] eqn:Hh.
  2:{ intros [= <- <-]. left. split_and!; [done| |by eexists]. exists (st_recorder s). by rewrite Hh. }
  destruct (build_headers env m url h body) as [built|e] eqn:Hb.
  2:{ intros [= <- <-]. left. split_and!; [done| |by eexists]. exists (st_recorder s).
      rewrite Hh. by eexists. }
  unfold send_raw. intros H. right. eexists. cbv zeta.
  destruct (await_deadline _ _) as [[resp|f] elapsed] eqn:Ha; simplify_eq/=;
    (split; [done|]); (split; [by eexists _, _, _|]).
  - by eapply await_answered.
  - by eapply await_unanswered.
Qed.

Lemma run_attempt_wire attempt m url body s ended s' :
  run_attempt env c options attempt m url body s = (ended, s') →
  (st_sent s' = st_sent s ∧ unsendable m url body ∧ ∃ e, ended = Failed (from_transport e))
  ∨ ∃ rq, st_sent s' = st_sent s ++ [rq] ∧ rq_url rq = url ∧ rq_method rq = m ∧ rq_body rq = body
      ∧ rq_http rq = Client.http c ∧ assembled m url body (rq_headers rq) ∧ answered attempt rq ended.
Proof.
  unfold run_attempt. set (s0 := observe _ s).
  assert (st_sent s0 = st_sent s) as Hs0 by done. clearbody s0. rewrite <-Hs0.
  destruct (send_once _ _ _ _ _ _ _ _) as [[resp|e] s1] eqn:Hso;
    apply send_once_wire in Hso as [(Hs1&Hu&e'&Hr)|(headers&Hs1&Has&Hr)]; simplify_eq/=.
  - intros H. right.
    exists (mkRequest (Client.http c) m url headers body). split_and!; [|done..|].
    + rewrite <-Hs1. revert H. destruct (is_success (status resp)); [by intros [= _ <-]|].
      unfold read_body. destruct (await_deadline _ _) as [[bytes|f] elapsed]; [by intros [= _ <-]|].
      destruct (retryable_status _ _); by intros [= _ <-].
    + revert H. destruct (is_success (status resp)) eqn:Hok; [by intros [= <- _]|].
      unfold read_body. destruct (await_deadline _ _) as [[bytes|f] elapsed] eqn:Hbody.
      * intros [= <- _]. right. by eexists _, _, _.
      * apply await_unanswered in Hbody.
        destruct (retryable_status _ _); intros [= <- _]; [right; by eexists _, _, _|by eexists].
  - intros [= <- <-]. left. by eauto.
  - intros [= <- <-]. right. exists (mkRequest (Client.http c) m url headers body).
    split_and!; try done. left. by split; [eexists|].
Qed.

Lemma retry_loop_wire candidates m body fuel attempt cur s :
  let o := retry_loop env c options fuel attempt cur candidates m body s in
  ∃ sent, st_sent (out_st o) = st_sent s ++ sent ∧ wire_of candidates m body attempt (out_trace o) sent.
Proof.
  revert attempt cur s. induction fuel as [|fuel IH]; intros attempt cur s; cbn [retry_loop].
  { exists []. rewrite app_nil_r. split; [done|constructor]. }
  destruct (candidates !! cursor_index cur) as [url|] eqn:Hurl.
  2:{ exists []. rewrite app_nil_r. split; [done|constructor]. }
  destruct (run_attempt env c options attempt m url body s) as [ended s1] eqn:Hra.
  assert (∀ (trace : list (nat * Attempt)) (s2 : St) sent,
    st_sent s2 = st_sent s1 ++ sent → wire_of candidates m body (attempt + 1) trace sent →
    ∃ sent', st_sent s2 = st_sent s ++ sent'
      ∧ wire_of candidates m body attempt ((cursor_index cur, ended) :: trace) sent') as Hcons.
  { intros trace s2 sent Hs2 Hw. rewrite Nat.add_1_r in Hw.
    apply run_attempt_wire in Hra as [(Hs1&Hu&e&->)|(rq&Hs1&Hu&?&?&?&?&?)]; rewrite Hs1 in Hs2.
    - exists sent. split; [done|]. by eapply wire_unsent.
    - exists (rq :: sent). rewrite <-app_assoc in Hs2. split; [done|].
      apply wire_sent; by rewrite ?Hu. }
  assert (∀ s2 : St, st_sent s2 = st_sent s1 → ∃ sent', st_sent s2 = st_sent s ++ sent'
    ∧ wire_of candidates m body attempt [(cursor_index cur, ended)] sent') as Hlast.
  { intros s2 Hs2. apply (Hcons [] s2 []); [by rewrite app_nil_r|constructor]. }
  destruct ended as [r|d|e]; cbv zeta; try (by apply Hlast).
  destruct (_ || _); [by apply Hlast|].
  destruct (if failover d then _ else _) as [moved cur'].
  match goal with |- context [retry_loop _ _ _ fuel _ cur' _ _ _ ?s2] =>
    destruct (IH (attempt + 1) cur' s2) as (sent&Hsent&Hw) end.
  eapply Hcons; [|exact Hw]. etrans; [exact Hsent|]. by destruct moved.
Qed.

(** Every request of a run, whatever attempt it belongs to. *)
Lemma wire_of_requests candidates m body k trace sent :
  wire_of candidates m body k trace sent →
  length sent ≤ length trace
  ∧ Forall (λ rq, rq_method rq = m ∧ rq_body rq = body ∧ rq_http rq = Client.http c
      ∧ rq_url rq ∈ candidates ∧ assembled m (rq_url rq) body (rq_headers rq)) sent.
Proof.
  induction 1 as [|k i url e trace sent _ _ _ [IHl IH]|k i rq ended trace sent Hu ????? _ [IHl IH]];
    simpl; (split; [lia|]); [by constructor|done|].
  constructor; [|done]. split_and!; [done..| |done]. by eapply list_elem_of_lookup_2.
Qed.

(** ** What one attempt sends *)

(** [reqwest]'s builder keeps the headers it is given; it may add a content
    type for the body and credentials taken from the URL. *)
Definition build_headers_ok : Prop := ∀ m url h body built n,
  build_headers env m url h body = Ok built →
  n ∉ ["content-type"; "authorization"] → hm_get built n = hm_get h n.

(** The names whose value is the same on every attempt. *)
Definition attempt_stable (n : string) : Prop :=
  n ∉ ["x-tr-client"; "content-type"; "authorization"].

Section sent.
Context `{HLaws : !HttpLaws HL} (Hbuild : build_headers_ok).

(** A request carries the headers of the call. *)
Definition carries_call_headers (m : Method) (body : option Value) (rq : Request) : Prop :=
  rq_method rq = m ∧ rq_body rq = body
  ∧ ∃ layers, extend_layers [Client.headers c; CallOptions.headers options] hm_new = Ok layers
    ∧ ∀ n, attempt_stable n → hm_get (rq_headers rq) n = slot_value c options None layers n.

Lemma slot_value_stable tel layers n :
  attempt_stable n → slot_value c options tel layers n = slot_value c options None layers n.
Proof.
  unfold attempt_stable, slot_value. intros Hn.
  destruct (decide (n = "x-tr-client")); [set_solver|]. done.
Qed.

Lemma assembled_slot m url body headers n :
  assembled m url body headers → attempt_stable n →
  ∃ layers, extend_layers [Client.headers c; CallOptions.headers options] hm_new = Ok layers
    ∧ hm_get headers n = slot_value c options None layers n.
Proof using Hbuild HLaws.
  intros (tel&h&built&Hh&Hb&->) Hn. destruct (request_headers_slot _ _ _ _ n Hh) as (layers&Hl&Hg).
  exists layers. split; [done|]. rewrite get_enforce, decide_False by (unfold attempt_stable in Hn; set_solver).
  rewrite (Hbuild _ _ _ _ _ n Hb), Hg by (unfold attempt_stable in Hn; set_solver).
  by apply slot_value_stable.
Qed.

Lemma assembled_carries m body rq :
  rq_method rq = m → rq_body rq = body → assembled m (rq_url rq) body (rq_headers rq) →
  carries_call_headers m body rq.
Proof using Hbuild HLaws.
  intros Hm Hb Ha. split_and!; [done..|]. pose proof Ha as (tel&h&_&Hh&_).
  destruct (request_headers_slot _ _ _ _ "" Hh) as (layers&Hl&_). exists layers. split; [done|].
  intros n Hn. destruct (assembled_slot _ _ _ _ n Ha Hn) as (layers'&Hl'&->).
  assert (layers' = layers) as -> by congruence. done.
Qed.

End sent.

Lemma read_body_sent resp s r s' :
  read_body c options resp s = (r, s') → st_sent s' = st_sent s.
Proof. unfold read_body. destruct (await_deadline _ _). by intros [= _ <-]. Qed.

(** ** What reaches the wire

    reqwest adds the default headers of the HTTP client where a request has
    no header of that name, when it executes the request; [defaults] are
    those of the SDK's own client and of one the caller injected. *)
Definition wire_header (defaults : Transport → HeaderMap) (rq : Request) (n : string) : option string :=
  opt_or (hm_get (rq_headers rq) n) (hm_get (defaults (rq_http rq)) n).

(** reqwest's builder keeps an [authorization] it is given and otherwise
    takes the one of the URL's user info, if any. *)
Definition builder_authorizes (user_info : Url → option string) : Prop :=
  ∀ m url h body built, build_headers env m url h body = Ok built →
    hm_get built "authorization" = opt_or (hm_get h "authorization") (user_info url).

(** ** Calls without a recorder *)

Section silent.
Context `{HLaws : !HttpLaws HL}.

(** No recorder, and no request of the call has the telemetry header; each
    was handed to the client's HTTP client. *)
Definition silent (s : St) : Prop :=
  st_recorder s = None
  ∧ Forall (λ rq, hm_get (rq_headers rq) "x-tr-client" = None ∧ rq_http rq = Client.http c) (st_sent s).

Lemma observe_silent f s : silent s → silent (observe f s).
Proof. intros [H ?]. split; [cbn; by rewrite H|done]. Qed.

Lemma read_body_silent resp s r s' : read_body c options resp s = (r, s') → silent s → silent s'.
Proof. unfold read_body. destruct (await_deadline _ _). by intros [= _ <-]. Qed.

Lemma send_once_silent attempt m url body s r s' :
  send_once env c options attempt m url body s = (r, s') → silent s → silent s'.
Proof using HLaws.
  unfold send_once. intros H Hs. destruct (request_headers _ _ _); [|by simplify_eq].
  destruct (build_headers _ _ _ _ _) as [built|]; [|simplify_eq; by apply observe_silent].
  destruct (send_raw _ _ _ _ _ _) as [r1 s1] eqn:Hr.
  assert (silent s1) as Hs1.
  { revert Hr. unfold send_raw. destruct (await_deadline _ _). intros [= _ <-].
    destruct Hs as [Hrec Hall]. split; [done|]. apply Forall_app. split; [done|].
    apply Forall_singleton. cbn [rq_headers rq_http]. by rewrite get_enforce, Hrec. }
  destruct r1; simplify_eq; [done|]. by apply observe_silent.
Qed.

Lemma run_attempt_silent attempt m url body s ended s' :
  run_attempt env c options attempt m url body s = (ended, s') → silent s → silent s'.
Proof using HLaws.
  unfold run_attempt. intros H Hs. apply (observe_silent (λ now, begin_attempt now url)) in Hs.
  destruct (send_once _ _ _ _ _ _ _ _) as [[resp|e] s1] eqn:Hso;
    apply send_once_silent in Hso; try done; [|by simplify_eq].
  cbv zeta in H. destruct (is_success _); [simplify_eq; by apply observe_silent|].
  destruct (read_body _ _ _ _) as [[bytes|f] s2] eqn:Hrb; apply read_body_silent in Hrb;
    try (by apply observe_silent); [simplify_eq; by apply observe_silent|].
  destruct (retry _); simplify_eq; repeat apply observe_silent; done.
Qed.

Lemma retry_loop_silent candidates m body fuel attempt cur s :
  silent s → silent (out_st (retry_loop env c options fuel attempt cur candidates m body s)).
Proof using HLaws.
  revert attempt cur s. induction fuel as [|fuel IH]; intros attempt cur s Hs; [done|].
  cbn [retry_loop]. destruct (candidates !! _) as [url|]; [|done].
  destruct (run_attempt _ _ _ _ _ _ _ _) as [ended s1] eqn:Hra.
  apply run_attempt_silent in Hra; [|done]. destruct ended as [r|d|e]; [done| |done].
  destruct (_ || _); [by apply observe_silent|].
  destruct (if failover d then _ else _) as [moved cur'].
  apply IH. destruct moved; done || by apply (observe_silent (λ _, on_moved)) in Hra.
Qed.

Lemma execute_silent plane m path body is_streaming now :
  Client.telemetry c = false →
  silent (out_st (execute env c options plane m path body is_streaming now)).
Proof using HLaws.
  intros Ht. unfold execute. destruct (plane_urls c plane path) as [candidates|]; [|done].
  apply retry_loop_silent. split; [|constructor]. unfold request_recorder. by rewrite Ht.
Qed.

End silent.

(** ** The recorder handed back *)

Definition recorder_with (fin : bool) (s : St) : Prop :=
  from_option (λ r, wf_recorder r ∧ finished r = fin) True (st_recorder s).

Lemma observe_with f fin fin' s :
  (∀ now r, wf_recorder r → finished r = fin → wf_recorder (f now r) ∧ finished (f now r) = fin') →
  recorder_with fin s → recorder_with fin' (observe f s).
Proof. unfold recorder_with, observe. cbn. destruct (st_recorder s); cbn; naive_solver. Qed.

Lemma store_attempt_finished a r : finished (store_attempt a r) = finished r.
Proof. unfold store_attempt. by destruct (_ <? _)%nat. Qed.

Lemma on_transport_error_finished now cl t o b r :
  finished (on_transport_error now cl t o b r) = finished r.
Proof.
  unfold on_transport_error. destruct (in_flight r) as [[[??]?]|]; [|done].
  destruct (failure_facts cl t b) as [[??]?]. apply store_attempt_finished.
Qed.

Lemma on_response_finished now wall code h src r :
  finished (on_response now wall code h src r) = finished r.
Proof.
  unfold on_response. destruct (in_flight r) as [[[??]?]|]; [|done]. apply store_attempt_finished.
Qed.

Lemma on_response_body_complete_finished now src r :
  finished (on_response_body_complete now src r) = finished r.
Proof.
  unfold on_response_body_complete. destruct (in_flight r) as [[[??]?]|]; [|done].
  by destruct (attempts r !! _).
Qed.

Lemma on_moved_finished r : finished (on_moved r) = finished r.
Proof. unfold on_moved. by destruct (last (attempts r)). Qed.

Lemma record_failure_live now f o b r :
  wf_recorder r → finished r = false →
  wf_recorder (record_failure now f o b r) ∧ finished (record_failure now f o b r) = false.
Proof.
  intros. destruct f; simpl; rewrite on_transport_error_finished; auto using on_transport_error_wf.
Qed.

Lemma finish_done now e r :
  wf_recorder r → finished r = false → wf_recorder (finish now e r) ∧ finished (finish now e r) = true.
Proof. auto using finish_wf, finish_finished. Qed.

Lemma send_once_live attempt m url body s r s' :
  send_once env c options attempt m url body s = (r, s') →
  recorder_with false s → recorder_with false s'.
Proof.
  unfold send_once. destruct (request_headers _ _ _); [|naive_solver].
  destruct (build_headers _ _ _ _ _).
  - unfold send_raw. destruct (await_deadline _ _) as [[resp|f] elapsed]; intros [= _ <-] Hs; [done|].
    eapply observe_with; [|exact Hs]. eauto using record_failure_live.
  - intros [= _ <-] Hs. eapply observe_with; [|exact Hs].
    intros now r0. apply (record_failure_live now (TransportFailure _)).
Qed.

Lemma run_attempt_live attempt m url body s ended s' :
  run_attempt env c options attempt m url body s = (ended, s') →
  recorder_with false s →
  recorder_with (match ended with BodyFailed _ => true | _ => false end) s'.
Proof.
  unfold run_attempt. intros H Hs.
  assert (recorder_with false (observe (λ now, begin_attempt now url) s)) as Hb
    by (eapply observe_with; [|exact Hs]; auto using begin_attempt_wf).
  destruct (send_once _ _ _ _ _ _ _ _) as [[resp|e] s1] eqn:Hso;
    pose proof (send_once_live _ _ _ _ _ _ _ Hso Hb) as H1; [|by simplify_eq].
  cbv zeta in H.
  set (s2 := observe _ s1) in H.
  assert (recorder_with false s2) as H2.
  { eapply observe_with; [|exact H1]. intros now r. rewrite on_response_finished.
    auto using on_response_wf. }
  destruct (is_success (status resp)); [by simplify_eq|].
  unfold read_body in H. destruct (await_deadline _ _) as [[bytes|f] elapsed].
  - simplify_eq. eapply observe_with; [|exact H2]. intros now r.
    rewrite on_response_body_complete_finished. auto using on_response_body_complete_wf.
  - set (s3 := observe _ _) in H.
    assert (recorder_with false s3) as H3
      by (eapply observe_with; [|exact H2]; eauto using record_failure_live).
    destruct (retry _); simplify_eq; [done|]. eapply observe_with; [|exact H3]. intros now r; apply finish_done.
Qed.

Lemma retry_loop_recorder candidates m body fuel attempt cur s :
  recorder_with false s →
  let o := retry_loop env c options fuel attempt cur candidates m body s in
  match out_result o with
  | Returns (Ok _) => recorder_with false (out_st o)
  | Returns (Err _) => recorder_with true (out_st o)
  | _ => True
  end.
Proof.
  revert attempt cur s. induction fuel as [|fuel IH]; intros attempt cur s Hs; cbn [retry_loop]; [done|].
  destruct (candidates !! cursor_index cur) as [url|]; [|done].
  destruct (run_attempt env c options attempt m url body s) as [ended s1] eqn:Hra.
  apply run_attempt_live in Hra; [|done].
  destruct ended as [r|d|e]; cbv zeta; [done| |done].
  destruct (_ || _); [eapply observe_with; [|exact Hra]; intros now r; apply finish_done|].
  destruct (if failover d then _ else _) as [moved cur'].
  apply IH. destruct moved; [|exact Hra].
  apply (observe_with (λ _, on_moved) false false s1); [|done].
  intros _ r. rewrite on_moved_finished. auto using on_moved_wf.
Qed.

Lemma retry_loop_sleeps candidates m body fuel attempt cur s :
  (∀ k, gen_range_ok (gen_range env k)) →
  Forall (λ d, d <= MAX_RETRY_AFTER)%N
    (out_sleeps (retry_loop env c options fuel attempt cur candidates m body s)).
Proof.
  intros Hg. revert attempt cur s. induction fuel as [|fuel IH]; intros attempt cur s;
    cbn [retry_loop]; [constructor|].
  destruct (candidates !! cursor_index cur); [|constructor].
  destruct (run_attempt _ _ _ _ _ _ _ _) as [[r|d|e] s1]; cbv zeta; try constructor.
  destruct (_ || _); [constructor|]. destruct (if failover d then _ else _) as [moved cur'].
  cbn. constructor; [by apply retry_delay_le|apply IH].
Qed.

(** ** The call as a whole *)

Section call.
Context (plane : Plane) (m : Method) (path : string) (body : option Value)
        (is_streaming : bool) (now : Instant).

Let call := execute env c options plane m path body is_streaming now.

Lemma execute_runs :
  Client.api_base_urls c ≠ [] →
  match plane_urls c plane path with
  | Err e => out_result call = Returns (Err e) ∧ out_trace call = [] ∧ out_sleeps call = []
  | Ok candidates =>
      run_spec (length candidates) (Client.max_retries c) (request_replay_safe m options) 0 0
        (out_trace call)
      ∧ (∃ r, out_result call = Returns r ∧ trace_result (out_trace call) = Some r)
      ∧ S (length (out_sleeps call)) = length (out_trace call)
  end.
Proof.
  intros Hne. unfold call, execute. destruct (plane_urls c plane path) as [candidates|e] eqn:Hp; [|done].
  cbv zeta. match goal with |- context [retry_loop _ _ _ ?f ?a ?cur _ _ _ ?s] =>
    apply (retry_loop_runs candidates m body f a cur s) end; [lia| |done]. cbn.
  rewrite (plane_urls_length _ _ _ _ Hp). destruct plane; [|lia].
  destruct (Client.api_base_urls c); [done|simpl; lia].
Qed.

Lemma execute_wire :
  match plane_urls c plane path with
  | Err _ => st_sent (out_st call) = []
  | Ok candidates => wire_of candidates m body 0 (out_trace call) (st_sent (out_st call))
  end.
Proof.
  unfold call, execute. destruct (plane_urls c plane path) as [candidates|]; [|done].
  cbv zeta. match goal with |- context [retry_loop _ _ _ ?f ?a ?cur _ _ _ ?s] =>
    destruct (retry_loop_wire candidates m body f a cur s) as (sent&Hs&Hw) end.
  cbv zeta in Hs. rewrite Hs. exact Hw.
Qed.

Lemma execute_sent `{HLaws : !HttpLaws HL} :
  build_headers_ok → Forall (carries_call_headers m body) (st_sent (out_st call)).
Proof.
  intros Hb. pose proof execute_wire as Hw.
  destruct (plane_urls c plane path) as [candidates|]; [|rewrite Hw; constructor].
  apply wire_of_requests in Hw as [_ Hw]. eapply Forall_impl; [exact Hw|].
  intros rq (?&?&_&_&?). by apply assembled_carries.
Qed.

End call.

(** C1. The engine implements the abstract retry machine: its attempts are
    exactly a run of it over the resolved candidates, starting at the first
    one.  Another attempt follows only a retryable failure of a replay-safe
    call below the ceiling; the candidate advances, saturating at the last
    one, exactly after a failover decision; and the call returns what its
    last attempt produced.  The requests that leave the SDK are those of the
    run: each attempt sends one, to the very candidate it is at, with the
    method and body of the call, and ends as that request was answered; only
    an attempt whose request cannot be built sends none.  A path that does
    not resolve sends nothing. *)
Theorem execute_refines_retry_machine plane m path body is_streaming now :
  Client.api_base_urls c ≠ [] →
  let call := execute env c options plane m path body is_streaming now in
  match plane_urls c plane path with
  | Err e => out_result call = Returns (Err e) ∧ out_trace call = [] ∧ st_sent (out_st call) = []
  | Ok candidates =>
      run_spec (length candidates) (Client.max_retries c) (request_replay_safe m options) 0 0
        (out_trace call)
      ∧ (∃ r, out_result call = Returns r ∧ trace_result (out_trace call) = Some r)
      ∧ wire_of candidates m body 0 (out_trace call) (st_sent (out_st call))
  end.
Proof.
  intros Hne. pose proof (execute_runs plane m path body is_streaming now Hne) as H.
  pose proof (execute_wire plane m path body is_streaming now) as Hw. cbv zeta in *.
  destruct (plane_urls c plane path); tauto.
Qed.

(** C15. The engine always returns, each operation it awaits taking a finite
    time: at most [max_retries + 1] attempts, at
    most one when the call is not replay safe, all at the one candidate on
    the control plane, with a sleep of at most [MAX_RETRY_AFTER] between
    two attempts and none after the last. *)
Theorem execute_bounded plane m path body is_streaming now :
  Client.api_base_urls c ≠ [] → (∀ k, gen_range_ok (gen_range env k)) →
  let call := execute env c options plane m path body is_streaming now in
  (∃ r, out_result call = Returns r)
  ∧ length (out_trace call) ≤ S (Client.max_retries c)
  ∧ (request_replay_safe m options = false → length (out_trace call) ≤ 1)
  ∧ (plane = Control → Forall (λ a, a.1 = 0) (out_trace call))
  ∧ length (out_sleeps call) = pred (length (out_trace call))
  ∧ Forall (λ d, d <= MAX_RETRY_AFTER)%N (out_sleeps call).
Proof.
  intros Hne Hg. pose proof (execute_runs plane m path body is_streaming now Hne) as H. cbv zeta.
  set (call := execute env c options plane m path body is_streaming now) in *.
  assert (Forall (λ d, d <= MAX_RETRY_AFTER)%N (out_sleeps call)) as Hsl.
  { unfold call, execute. destruct (plane_urls c plane path); [|constructor].
    by apply retry_loop_sleeps. }
  destruct (plane_urls c plane path) as [candidates|e] eqn:Hp.
  - destruct H as (Hrun&(r&Hr&_)&Hlen). pose proof (run_spec_length _ _ _ _ _ _ Hrun).
    split_and!; [by eexists|lia| | |lia|done].
    + intros Hs. rewrite Hs in Hrun. apply run_spec_unsafe in Hrun. lia.
    + intros ->. apply plane_urls_length in Hp. rewrite Hp in Hrun. by apply run_spec_single in Hrun.
  - destruct H as (Hr&->&->). split_and!; simpl; try done; [by eexists|lia|lia].
Qed.

(** C8. Exactly-once settlement rests on replay being verbatim: any two
    requests of one call carry the same method, the same body and the same
    value for every header but the telemetry slot and the two the request
    builder may add, and the idempotency key of the call is on each. *)
Theorem execute_replays_verbatim `{HLaws : !HttpLaws HL} plane m path body is_streaming now rq1 rq2 :
  build_headers_ok →
  let sent := st_sent (out_st (execute env c options plane m path body is_streaming now)) in
  rq1 ∈ sent → rq2 ∈ sent →
  rq_method rq1 = rq_method rq2 ∧ rq_body rq1 = rq_body rq2
  ∧ (∀ n, attempt_stable n → hm_get (rq_headers rq1) n = hm_get (rq_headers rq2) n)
  ∧ (∀ k, CallOptions.idempotency_key options = Some k → is_empty k = false →
       hm_get (rq_headers rq1) "idempotency-key" = Some k).
Proof.
  intros Hb sent H1 H2. pose proof (execute_sent plane m path body is_streaming now Hb) as Hall.
  rewrite Forall_forall in Hall. apply Hall in H1 as (->&->&l1&Hl1&Hn1), H2 as (->&->&l2&Hl2&Hn2).
  assert (l2 = l1) as -> by congruence. split_and!; [done|done| |].
  - intros n Hn. by rewrite Hn1, Hn2.
  - intros k Hk Hne. rewrite Hn1 by (unfold attempt_stable; set_solver).
    unfold slot_value. simpl. rewrite Hk. simpl. by rewrite Hne.
Qed.

Lemma execute_returns plane m path body is_streaming now :
  Client.api_base_urls c ≠ [] →
  let call := execute env c options plane m path body is_streaming now in
  match out_result call with
  | Returns (Ok _) => recorder_with false (out_st call)
  | Returns (Err _) => recorder_with true (out_st call)
  | _ => False
  end.
Proof.
  intros Hne. pose proof (execute_runs plane m path body is_streaming now Hne) as H. cbv zeta.
  unfold execute in *. destruct (plane_urls c plane path) as [candidates|e]; [|done].
  cbv zeta in *. destruct H as (_&(r&Hr&_)&_).
  match goal with |- context [retry_loop _ _ _ ?f ?a ?cur _ _ _ ?s] =>
    pose proof (retry_loop_recorder candidates m body f a cur s) as Hrec end.
  cbv zeta in Hrec.
  rewrite Hr in *. destruct r; apply Hrec; unfold recorder_with, request_recorder; cbn;
    destruct (_ || _); cbn; auto using wf_new.
Qed.

(** The recorder that comes back is well formed and reports once: a
    failed call has finished it, a successful one hands it over unfinished
    with nothing reported yet. *)
Theorem execute_recorder_state plane m path body is_streaming now :
  Client.api_base_urls c ≠ [] →
  let call := execute env c options plane m path body is_streaming now in
  match out_result call with
  | Returns (Ok _) => recorder_with false (out_st call)
  | Returns (Err _) => recorder_with true (out_st call)
  | _ => False
  end.
Proof. apply execute_returns. Qed.

End facts.
