(* ===== verification/Transport.v ===== *)
(** * Transport entry points ([transport/mod.rs])

    The buffered and streaming entry points on top of the engine, and the
    credential boundary: calls made without the client's key, workspace or
    ambient credentials.  [serde_json::from_slice] into a caller's type is a
    parameter. *)
From S2P Require Import Prelude Text Json Http Error Policy Config Routing Vocab.
From S2P Require Import Identity Recorder RecorderFacts Headers Engine EngineFacts.

Section transport.
Context `{HL : HttpLib} `{UL : UrlLib} `{DL : HttpDateLib} `{BE : BuildEnv}.

(** What an entry point returns: [None] is a call that does not return. *)
Definition Settled (A : Type) : Type := option (Result A) * St.

Definition request_bytes (env : Env) (c : Client.t) (plane : Plane) (m : Method) (path : string)
    (body : option Value) (options : CallOptions.t) (now : Instant) : Settled string :=
  let call := execute env c options plane m path body false now in
  match out_result call with
  | Returns (Ok response) =>
      match read_body c options response (out_st call) with
      | (Ok bytes, s) => (Some (Ok bytes), observe (λ now, finish now false) s)
      | (Err failure, s) =>
          let s := observe (λ now, record_failure now failure true false) s in
          (Some (Err (into_error failure "response body deadline exceeded")),
           observe (λ now, finish now false) s)
      end
  | Returns (Err e) => (Some (Err e), out_st call)
  | Panicked | OutOfFuel => (None, out_st call)
  end.

(** The response with its body untouched; the recorder of [out_st] becomes
    the stream's. *)
Definition open_stream (env : Env) (c : Client.t) (plane : Plane) (m : Method) (path : string)
    (body : Value) (options : CallOptions.t) (now : Instant)
    : option (Result (Response * option StreamState)) * St :=
  let call := execute env c options plane m path (Some body) true now in
  let s := out_st call in
  match out_result call with
  | Returns (Ok response) => (Some (Ok (response, new_stream <$> st_recorder s)), s)
  | Returns (Err e) => (Some (Err e), s)
  | Panicked | OutOfFuel => (None, s)
  end.

Definition credential_header (name : string) : bool :=
  bool_decide (to_ascii_lowercase name ∈
    ["authorization"; "proxy-authorization"; "cookie"; "cookie2"; "x-api-key";
     "x-trustedrouter-workspace"; "idempotency-key"; "x-tr-client"]).

(** [headers.retain(|name, _| !credential_header(name))]. *)
Definition retain_plain (headers : Headers) : Headers :=
  List.filter (λ kv, negb (credential_header kv.1)) headers.

Definition credential_free_clone (c : Client.t) : Client.t :=
  c <| Client.api_key := None |>
    <| Client.workspace_id := None |>
    <| Client.telemetry := false |>
    <| Client.has_sink := false |>
    <| Client.headers := retain_plain (Client.headers c) |>
    <| Client.http := OwnedTransport |>.

(** The options of a credential-free call. *)
Definition credential_free_options (options : CallOptions.t) : CallOptions.t :=
  options <| CallOptions.api_key := Some "" |>
          <| CallOptions.workspace_id := Some "" |>
          <| CallOptions.headers := retain_plain (CallOptions.headers options) |>.

Definition credential_free_plane_bytes (env : Env) (c : Client.t) (plane : Plane) (m : Method)
    (path : string) (body : option Value) (options : CallOptions.t) (now : Instant)
    : Settled string :=
  request_bytes env (credential_free_clone c) plane m path body (credential_free_options options)
    now.

(** [serde_json::from_slice(&bytes).map_err(Serialization)] on a returned
    body. *)
Definition decoded {A} (decode : string → result string A) (r : Settled string) : Settled A :=
  ((λ res : Result string, bytes ← res; map_err Serialization (decode bytes)) <$> r.1, r.2).

Definition credential_free_control_request {A} (decode : string → result string A) (env : Env)
    (c : Client.t) (m : Method) (path : string) (body : option Value) (options : CallOptions.t)
    (now : Instant) : Settled A :=
  decoded decode (credential_free_plane_bytes env c Control m path body options now).

(** An await under the client's own timeout, with the message of its
    deadline. *)
Definition await_public {A} (c : Client.t) (message : string) (f : Fut (result ReqwestError A))
    : Result A :=
  map_err (λ failure, into_error failure message) (await_deadline (Client.timeout c) f).1.

(** [credential_free_json]: one request, described by its URL and its only
    header. *)
Definition credential_free_json {A} (decode : string → result string A)
    (parse : string → option Value) (get_once : Url → list (string * string) →
      result ReqwestError (Fut (result ReqwestError Response))) (c : Client.t) (target : string)
    : Result A :=
  url ← map_err (λ e, InvalidConfiguration ("invalid public URL: " +:+ e)) (url_parse target);
  if negb (bool_decide (url_scheme url = "https"))
     && negb (bool_decide (url_host_str url = Some "127.0.0.1"))
     && negb (bool_decide (url_host_str url = Some "localhost"))
  then Err (InvalidConfiguration "public metadata URL must use HTTPS")
  else
    sent ← map_err map_reqwest_error (get_once url [("user-agent", sdk_user_agent)]);
    response ← await_public c "public metadata response headers deadline exceeded" sent;
    bytes ← await_public c "public metadata response body deadline exceeded" (body_bytes response);
    if negb (is_success (status response))
    then Err (classify_api_error (status response) (parse bytes) None)
    else map_err Serialization (decode bytes).

(** ** Every buffered call settles its record *)

Section settles.
Context (env : Env) (c : Client.t).

Lemma read_body_recorder options resp s r s' :
  read_body c options resp s = (r, s') → st_recorder s' = st_recorder s.
Proof. unfold read_body. destruct (await_deadline _ _). by intros [= _ <-]. Qed.

Lemma finish_settles fin s :
  recorder_with fin s → recorder_with true (observe (λ now, finish now false) s).
Proof.
  destruct fin; intros Hs; eapply observe_with; try exact Hs; intros now r Hwf Hf.
  - split; [by apply finish_wf|]. unfold finish. by rewrite Hf.
  - by apply finish_done.
Qed.

(** A buffered call always returns, and by then its record is settled:
    finished exactly once whether the call failed in the engine, its success
    body failed to drain, or it succeeded. *)
Theorem request_bytes_settles plane m path body options now :
  Client.api_base_urls c ≠ [] →
  ∃ r s, request_bytes env c plane m path body options now = (Some r, s) ∧ recorder_with true s.
Proof.
  intros Hne. unfold request_bytes.
  pose proof (execute_returns env c options plane m path body false now Hne) as Hrec. cbv zeta in *.
  destruct (out_result _) as [[response|e]| |]; [|by eexists _, _|done|done].
  destruct (read_body _ _ _ _) as [[bytes|failure] s1] eqn:Hb; apply read_body_recorder in Hb.
  - eexists _, _. split; [done|]. apply (finish_settles false). unfold recorder_with.
    by rewrite Hb.
  - eexists _, _. split; [done|]. apply (finish_settles false).
    eapply (observe_with _ false); [|unfold recorder_with; rewrite Hb; exact Hrec].
    intros now' r. apply record_failure_live.
Qed.

End settles.

(** ** The credential boundary *)

Section boundary.
Context `{HLaws : !HttpLaws HL}.

(** The credential slots, and whether a name is one of them. *)
Definition credential_names : list string :=
  ["authorization"; "proxy-authorization"; "cookie"; "cookie2"; "x-api-key";
   "x-trustedrouter-workspace"; "x-tr-client"].

Lemma parse_layer_absent layer parsed parsed' n :
  Forall (λ kv, to_ascii_lowercase kv.1 ≠ n) layer →
  parse_layer layer parsed = Ok parsed' → hm_get parsed' n = hm_get parsed n.
Proof.
  intros Hall. revert parsed. induction Hall as [|[name value] layer Hne _ IH]; intros parsed;
    cbn [parse_layer]; [congruence|].
  destruct (eq_ignore_ascii_case _ _); [apply IH|]. unfold mbind, result_bind.
  destruct (parse_header_name name) as [k|] eqn:Hk; [|done].
  destruct (parse_header_value value) as [v|]; [|done]. intros H%IH. rewrite H, get_append.
  unfold parse_header_name in Hk. destruct (name_from_bytes name) eqn:En; simplify_eq/=.
  apply name_from_bytes_lower in En as ->. by rewrite decide_False.
Qed.

Lemma retain_plain_absent headers n :
  n ∈ "idempotency-key" :: credential_names →
  Forall (λ kv, to_ascii_lowercase kv.1 ≠ n) (retain_plain headers).
Proof.
  intros Hn. apply Forall_forall. intros kv Hin.
  apply list_elem_of_In, filter_In in Hin as [_ Hp].
  apply negb_true_iff, bool_decide_eq_false in Hp. intros <-. apply Hp.
  unfold credential_names in Hn. clear -Hn. set_solver.
Qed.

Lemma credential_free_layers c options layers n :
  n ∈ "idempotency-key" :: credential_names →
  extend_layers [Client.headers (credential_free_clone c);
                 CallOptions.headers (credential_free_options options)] hm_new = Ok layers →
  hm_get layers n = None.
Proof.
  intros Hn. cbn [extend_layers]. unfold mbind, result_bind.
  destruct (parse_layer (Client.headers _) hm_new) as [p1|] eqn:H1; [|done].
  destruct (parse_layer (CallOptions.headers _) hm_new) as [p2|] eqn:H2; [|done].
  intros [= <-]. rewrite !get_extend.
  apply (parse_layer_absent _ _ _ n) in H1; [|by apply retain_plain_absent].
  apply (parse_layer_absent _ _ _ n) in H2; [|by apply retain_plain_absent].
  by rewrite H1, H2, !get_new.
Qed.

Lemma credential_free_slot c options layers n :
  n ∈ credential_names →
  extend_layers [Client.headers (credential_free_clone c);
                 CallOptions.headers (credential_free_options options)] hm_new = Ok layers →
  slot_value (credential_free_clone c) (credential_free_options options) None layers n = None.
Proof.
  intros Hn Hl.
  pose proof (credential_free_layers c options layers n ltac:(by right) Hl) as Hg.
  unfold credential_names in Hn. unfold slot_value.
  repeat (apply elem_of_cons in Hn as [->|Hn]; [simpl; done|]). by apply not_elem_of_nil in Hn.
Qed.

(** Credential-free calls cross no credential: whatever keys, workspace,
    cookies or authorization headers the client or the caller configured,
    the headers the SDK assembles carry none of them, and no telemetry; the
    calls go over the SDK's own transport and are never recorded. *)
Theorem credential_free_carries_none c options headers n :
  request_headers (credential_free_clone c) (credential_free_options options) None = Ok headers →
  n ∈ credential_names →
  hm_get headers n = None
  ∧ Client.http (credential_free_clone c) = OwnedTransport
  ∧ ∀ plane m path resolved body streaming,
      request_recorder (credential_free_clone c) (credential_free_options options) plane m path
        resolved body streaming = None.
Proof.
  intros Hh Hn. destruct (request_headers_slot _ _ _ _ n Hh) as (layers&Hl&->).
  split_and!; [by apply credential_free_slot|done|done].
Qed.

(** The requests of a credential-free call: where they go, over which HTTP
    client, and how their headers came about. *)
Lemma credential_free_sent env c options plane m path body now rq :
  rq ∈ st_sent (credential_free_plane_bytes env c plane m path body options now).2 →
  rq_method rq = m ∧ rq_body rq = body ∧ rq_http rq = OwnedTransport
  ∧ (∃ candidates, plane_urls c plane path = Ok candidates ∧ rq_url rq ∈ candidates)
  ∧ assembled env (credential_free_clone c) (credential_free_options options) m (rq_url rq) body
      (rq_headers rq)
  ∧ hm_get (rq_headers rq) "x-tr-client" = None.
Proof using HLaws.
  intros Hrq. set (c' := credential_free_clone c). set (o' := credential_free_options options).
  assert (rq ∈ st_sent (out_st (execute env c' o' plane m path body false now))) as Hin.
  { revert Hrq. unfold credential_free_plane_bytes, request_bytes. cbv zeta.
    destruct (out_result _) as [[response|e]| |]; [|done..].
    destruct (read_body _ _ _ _) as [[bytes|f] s1] eqn:Hr; apply read_body_sent in Hr; cbn;
      by rewrite Hr. }
  pose proof (execute_wire env c' o' plane m path body false now) as Hw.
  pose proof (execute_silent env c' o' plane m path body false now eq_refl) as [_ Hs].
  rewrite Forall_forall in Hs. destruct (Hs _ Hin) as [Htel _].
  change (plane_urls c' plane path) with (plane_urls c plane path) in Hw.
  destruct (plane_urls c plane path) as [candidates|]; [|rewrite Hw in Hin; by apply not_elem_of_nil in Hin].
  apply wire_of_requests in Hw as [_ Hw]. rewrite Forall_forall in Hw.
  destruct (Hw _ Hin) as (?&?&?&?&?). split_and!; try done. by eexists.
Qed.

(** The SDK's own HTTP client has no default header of this kind: it is built
    without any, and reqwest's own are not among these names. *)
Definition plain_defaults (defaults : Transport → HeaderMap) : Prop :=
  ∀ n, n ∈ "idempotency-key" :: credential_names → hm_get (defaults OwnedTransport) n = None.

(** A request without ambient credentials: on the wire every credential slot
    is empty, [authorization] but for the user info of the URL itself, and
    the idempotency key is the call's own. *)
Definition carries_no_credential (defaults : Transport → HeaderMap) (user_info : Url → option string)
    (key : option string) (rq : Request) : Prop :=
  wire_header defaults rq "authorization" = user_info (rq_url rq)
  ∧ (∀ n, n ∈ credential_names → n ≠ "authorization" → wire_header defaults rq n = None)
  ∧ wire_header defaults rq "idempotency-key" = opt_filter (λ k, negb (is_empty k)) key.

Lemma credential_free_wire env defaults user_info c options plane m path body now rq :
  build_headers_ok env → builder_authorizes env user_info → plain_defaults defaults →
  rq ∈ st_sent (credential_free_plane_bytes env c plane m path body options now).2 →
  carries_no_credential defaults user_info (CallOptions.idempotency_key options) rq.
Proof using HLaws.
  intros Hb Hauth Hd (_&_&Hh&_&Has&Htel)%credential_free_sent.
  unfold carries_no_credential, wire_header. rewrite Hh. split_and!.
  - rewrite Hd by (unfold credential_names; set_solver). destruct Has as (tel&h&built&Hr&Hbuilt&->).
    rewrite get_enforce, decide_False, (Hauth _ _ _ _ _ Hbuilt) by done.
    destruct (request_headers_slot _ _ _ _ "authorization" Hr) as (layers&Hl&->). cbn.
    by destruct (user_info _).
  - intros n Hn Hna. rewrite Hd by (by right). destruct (decide (n = "x-tr-client")) as [->|Hnx].
    { by rewrite Htel. }
    destruct (assembled_slot env _ _ Hb _ _ _ _ n Has) as (layers&Hl&->).
    { unfold attempt_stable, credential_names in *. set_solver. }
    by rewrite credential_free_slot.
  - rewrite Hd by set_solver.
    destruct (assembled_slot env _ _ Hb _ _ _ _ "idempotency-key" Has) as (layers&Hl&->).
    { unfold attempt_stable. set_solver. }
    unfold slot_value. simpl. rewrite (credential_free_layers _ _ _ _ ltac:(by left) Hl).
    by destruct (opt_filter _ _).
Qed.

(** C19. On the wire too: every request a credential-free call sends, on any
    attempt, goes to a candidate of the call with no value in a credential
    slot: no key or workspace of the client or the caller, no cookie, no
    telemetry, and nothing an injected HTTP client would add.  The one
    [authorization] that can travel is the user info of the URL itself, and
    the one idempotency key is that of the call's options. *)
Theorem credential_free_requests_clean env defaults user_info c options plane m path body now rq :
  build_headers_ok env → builder_authorizes env user_info → plain_defaults defaults →
  rq ∈ st_sent (credential_free_plane_bytes env c plane m path body options now).2 →
  (∃ candidates, plane_urls c plane path = Ok candidates ∧ rq_url rq ∈ candidates)
  ∧ carries_no_credential defaults user_info (CallOptions.idempotency_key options) rq.
Proof.
  intros Hb Ha Hd Hrq. split; [|by eapply credential_free_wire].
  by apply credential_free_sent in Hrq as (_&_&_&?&_).
Qed.

End boundary.

End transport.
