(* ===== verification/TelemetryTests.v ===== *)
(** * The crate's own tests of the telemetry, run on the model

    The unit tests of [telemetry.rs] and [telemetry/wire.rs], one
    definition per test under the test's name, each evaluated to [true].
    Instants are arguments, so the tests that rewind a clock set it; the
    tests that open sockets of their own are left out. *)
From S2P Require Import Prelude Text F64 Http UrlParts Policy Config Routing Vocab Identity Recorder.

Module RecorderTests.
#[local] Existing Instance FullUrl.urls.
#[local] Instance dates : HttpDateLib := λ _, None.

Definition url (s : string) : Url :=
  match url_parse s with Ok u => u | Err _ => FullUrl.mkUrl "" "" None "" [] end.
Definition apex_url : Url := url "https://api.trustedrouter.com/v1/".
Definition empty_headers : HeaderMap := hm_new.

Definition header_recorder (streaming : bool) : RequestRecorder :=
  new_recorder (mkRecorderSpec Endpoint.ChatCompletions POST streaming false None (Some (from_secs 120))).

Definition events (r : RequestRecorder) : list RequestEvent := map fst (sink r).
Definition counters (r : RequestRecorder) : list (list (CounterKey * CounterRow)) := map snd (sink r).

Definition finish_derives_the_exact_request_and_attempt_counter_tuples : bool :=
  let r := new_recorder (mkRecorderSpec Endpoint.Responses POST false true (Some "model/a")
                           (Some (from_secs 60))) in
  let r := begin_attempt 0%N apex_url r in
  let r := on_response 1%N 0%N 503 (hm_insert empty_headers "x-should-retry" "true") None r in
  let r := begin_attempt 2%N (url "https://api.allyrouter.com/v1/responses") (on_moved r) in
  let r := on_response 3%N 0%N 200
             (hm_insert empty_headers "x-request-id" "rlog_0123456789abcdef0123456789abcdef") None r in
  let r := finish 4%N false r in
  let exhausted := new_recorder (mkRecorderSpec Endpoint.Responses POST false false None None) in
  let exhausted := on_response 1%N 0%N 503 empty_headers None (begin_attempt 0%N apex_url exhausted) in
  let exhausted := on_response 3%N 0%N 503 empty_headers None (begin_attempt 2%N apex_url exhausted) in
  let exhausted := finish 4%N true exhausted in
  match events r, counters r with
  | [event], [[request; first; second]] =>
      bool_decide (ev_endpoint event = Endpoint.Responses)
      && bool_decide (ev_final_outcome event = FinalOutcome.Outcome AttemptOutcome.Ok)
      && ev_failover_used event
      && (length (ev_attempts event) =? 2)%nat
      && bool_decide ((λ a, (ar_moved a, ar_should_retry a)) <$> ev_attempts event !! 0
                      = Some (true, ShouldRetry.True))
      && bool_decide (ar_host <$> ev_attempts event !! 1 = Some Host.Ally)
      && bool_decide (request.1 = mkCounterKey Level.Request Endpoint.Responses false Host.Ally
           AttemptOutcome.Ok None HttpStatusClass.Success TimeoutPhase.NoPhase false true)
      && bool_decide ((cr_requests request.2, cr_attempts request.2, cr_failover_used request.2,
                       cr_first_attempt_success request.2) = (1, 2, 1, 0)%N)
      && bool_decide ((ck_level first.1, ck_host first.1, ck_outcome first.1, ck_http_status_class first.1)
           = (Level.Attempt, Host.Apex, AttemptOutcome.HttpError, HttpStatusClass.ServerError))
      && (cr_failover_used first.2 =? 1)%N
      && bool_decide ((ck_host second.1, ck_outcome second.1) = (Host.Ally, AttemptOutcome.Ok))
  | _, _ => false
  end
  && match events exhausted, counters exhausted with
     | event :: _, (request :: _) :: _ =>
         bool_decide (ev_final_outcome event = FinalOutcome.Exhausted)
         && bool_decide (ck_outcome request.1 = AttemptOutcome.HttpError)
     | _, _ => false
     end.

Definition opened_stream (endpoint : Endpoint.t) (timeout : option Duration) : StreamState :=
  new_stream (on_response 1%N 0%N 200 empty_headers None
    (begin_attempt 0%N apex_url (new_recorder (mkRecorderSpec endpoint POST true false None timeout)))).

Definition stream_hooks_record_ttft_breakage_and_caller_abort_once : bool :=
  let broken := on_event 2%N (opened_stream Endpoint.ChatCompletions (Some (from_secs 30))) in
  let broken := on_complete 4%N (on_wire_failure 3%N ErrorClass.Reset false broken) in
  let broken := drop_recorder 5%N (stream_recorder broken) in
  let aborted := drop_recorder 2%N (stream_recorder (opened_stream Endpoint.Responses None)) in
  match events broken, events aborted with
  | [b], [a] =>
      bool_decide (ev_final_outcome b = FinalOutcome.Outcome AttemptOutcome.StreamBroken)
      && bool_decide (is_Some (ev_ttft_ms b))
      && bool_decide (ev_final_outcome a = FinalOutcome.Outcome AttemptOutcome.Aborted)
  | _, _ => false
  end.

Definition methods_outside_get_and_post_never_emit_events_or_counters : bool :=
  let r := begin_attempt 0%N apex_url
             (new_recorder (mkRecorderSpec Endpoint.InferenceOther PUT false false None None)) in
  bool_decide (header_value r = Some "v=1;a=0;s=0")
  && match sink (finish 2%N false (on_response 1%N 0%N 200 empty_headers None r)) with
     | [] => true | _ => false end.

Definition attempt_zero_headers_match_the_contract_examples_byte_for_byte : bool :=
  bool_decide (header_value (begin_attempt 0%N apex_url (header_recorder true)) = Some "v=1;a=0;s=1")
  && bool_decide (header_value (begin_attempt 0%N apex_url (header_recorder false)) = Some "v=1;a=0;s=0").

Definition the_documented_retry_example_matches_byte_for_byte : bool :=
  let r := header_recorder true
    <| attempts := [mkAttemptRecord 0 Host.Apex AttemptOutcome.TransportError None
         (Some ErrorClass.ConnectTimeout) None ShouldRetry.Absent None 10012 None None true
         TimeoutPhase.Connect] |>
    <| failover_used := true |> <| first_started := Some 0%N |>
    <| attempt_started := Some (from_millis 10530) |> <| current_host := Some Host.Ally |>
    <| current_index := Some 1 |> in
  bool_decide (header_value r = Some
    "v=1;a=1;po=transport_error;pc=connect_timeout;ph=apex;pm=10012;sm=10530;s=1;fo=1").

Definition a_custom_host_suppresses_the_header : bool :=
  bool_decide (header_value (begin_attempt 0%N (url "http://127.0.0.1:9/v1/") (header_recorder true)) = None)
  && bool_decide (header_value (header_recorder true) = None).

(** [assert_header_grammar]. *)
Definition header_grammar (header : string) : bool :=
  forallb (λ part,
    match split_once "=" part with
    | Some (key, value) => negb (is_empty key) && valid_value value
    | None => false
    end) (split_by (λ b, bool_decide (b = ";"%char)) header).

Definition recorded_durations_past_the_bound_clamp_on_the_wire : bool :=
  let late := from_secs (2 * 3600) in
  let r := begin_attempt 0%N apex_url (header_recorder false) in
  let r := on_transport_error late ErrorClass.ConnectTimeout true false false r in
  match header_value (begin_attempt late apex_url r) with
  | Some header =>
      contains ";pm=3600000;" header && contains ";sm=3600000;" header
      && (String.length header <=? 160)%nat && header_grammar header
  | None => false
  end.

Definition refused_once (r : RequestRecorder) : RequestRecorder :=
  on_transport_error 1%N ErrorClass.ConnectRefused false false false (begin_attempt 0%N apex_url r).

Definition an_attempt_index_past_the_contract_bound_sends_nothing : bool :=
  let r := begin_attempt 0%N apex_url (Nat.iter 99 refused_once (header_recorder false)) in
  match header_value r with
  | Some header => starts_with "v=1;a=99;" header && header_grammar header
  | None => false
  end
  && bool_decide (header_value (begin_attempt 0%N apex_url
       (on_transport_error 1%N ErrorClass.ConnectRefused false false false r)) = None).

Definition a_forced_retry_after_ok_serialises_po_none : bool :=
  let r := on_response 1%N 0%N 302 empty_headers None (begin_attempt 0%N apex_url (header_recorder false)) in
  is_some_and (starts_with "v=1;a=1;po=none;pc=none;ph=apex;") (header_value (begin_attempt 2%N apex_url r)).

Definition repeat_a (n : nat) : string := Nat.iter n (String "a"%char) "".
Definition LONG_KEYS : list string := ["k1"; "k2"; "k3"; "k4"; "k5"; "k6"; "k7"].

Definition finalize_header_sends_nothing_rather_than_an_out_of_grammar_value : bool :=
  bool_decide (finalize_header [("v", "1"); ("pc", "BAD-VALUE")] = None)
  && bool_decide (finalize_header [("pc", "")] = None)
  && bool_decide (finalize_header [("pc", repeat_a 25)] = None)
  && bool_decide (finalize_header (map (λ k, (k, repeat_a 24)) LONG_KEYS) = None)
  && bool_decide (finalize_header [("v", "1"); ("a", "0")] = Some "v=1;a=0").

Definition durations_clamp_to_the_contract_bounds_with_saturating_arithmetic : bool :=
  let start := from_secs 10 in
  (duration_ms start start =? 0)%N
  && (duration_ms start (start + from_secs (2 * 3600)) =? 3600000)%N
  && (duration_ms (start + from_secs 5) start =? 0)%N
  && (duration_ms start (start + from_millis 10530) =? 10530)%N.

Example recorder_tests :
  forallb id
    [finish_derives_the_exact_request_and_attempt_counter_tuples;
     stream_hooks_record_ttft_breakage_and_caller_abort_once;
     methods_outside_get_and_post_never_emit_events_or_counters;
     attempt_zero_headers_match_the_contract_examples_byte_for_byte;
     the_documented_retry_example_matches_byte_for_byte; a_custom_host_suppresses_the_header;
     recorded_durations_past_the_bound_clamp_on_the_wire;
     an_attempt_index_past_the_contract_bound_sends_nothing;
     a_forced_retry_after_ok_serialises_po_none;
     finalize_header_sends_nothing_rather_than_an_out_of_grammar_value;
     durations_clamp_to_the_contract_bounds_with_saturating_arithmetic] = true.
Proof. vm_compute. reflexivity. Qed.
End RecorderTests.

Module VocabularyTests.
#[local] Existing Instance FullUrl.urls.

Definition known_hosts_match_the_contract : bool :=
  forallb (λ case : string * Host.t, bool_decide (host_enum_str case.1 = case.2))
    [("https://api.trustedrouter.com/v1", Host.Apex);
     ("HTTPS://API.TRUSTEDROUTER.COM/other/path", Host.Apex);
     ("http://api.trustedrouter.com:8443/v1", Host.Apex);
     ("https://api.allyrouter.com/v1", Host.Ally);
     ("https://api.uptimerouter.com/v1", Host.Uptime);
     ("https://api-us-central1.quillrouter.com/v1", Host.UsCentral1);
     ("https://api-us-east4.quillrouter.com/v1", Host.UsEast4);
     ("https://api-europe-west4.quillrouter.com/v1", Host.EuropeWest4);
     ("https://trustedrouter.com/v1", Host.Control);
     ("https://trust.trustedrouter.com/anything", Host.Control);
     ("http://trustedrouter.com/v1", Host.Custom);
     ("https://my.internal/v1", Host.Custom);
     ("https://nottrustedrouter.com/v1", Host.Custom);
     ("https://api.trustedrouter.com.evil.example/v1", Host.Custom);
     ("not a url", Host.Custom)]
  && bool_decide (map Host.as_str
       [Host.Apex; Host.Ally; Host.Uptime; Host.UsCentral1; Host.UsEast4; Host.EuropeWest4;
        Host.Control; Host.Custom] = TELEMETRY_HOSTS).

Definition env_of (pairs : list (string * string)) (name : string) : option string :=
  find_map (λ kv, if bool_decide (kv.1 = name) then Some kv.2 else None) pairs.
Definition default_base : string := "https://api.trustedrouter.com/v1".

Definition telemetry_enablement_precedence_mirrors_the_python_sdk : bool :=
  forallb (λ case : option bool * list (string * string) * string * string * bool,
    let '(explicit, pairs, base, control, expected) := case in
    bool_decide (resolve_telemetry_enabled explicit base control (env_of pairs) = expected))
    [(Some true, [("TRUSTEDROUTER_TELEMETRY", "0"); ("DO_NOT_TRACK", "1")], "x", "x", true);
     (Some false, [("TRUSTEDROUTER_TELEMETRY", "1")], default_base, "x", false);
     (None, [("TRUSTEDROUTER_TELEMETRY", "OFF")], default_base, "x", false);
     (None, [("TRUSTEDROUTER_TELEMETRY", "yes"); ("DO_NOT_TRACK", "1")], "x", "x", true);
     (None, [("TRUSTEDROUTER_TELEMETRY", "maybe"); ("DO_NOT_TRACK", "1")], "x", "x", false);
     (None, [], default_base, "https://telemetry.trustedrouter.com/v1", true);
     (None, [], "https://private.example/v1", "https://trustedrouter.com/v1", false);
     (None, [], default_base, "https://control.example/v1", false);
     (None, [("TRUSTEDROUTER_TELEMETRY", "0")], default_base, "https://trustedrouter.com/v1", false)].

Definition attestation_and_authorize_are_the_untracked_inference_paths : bool :=
  forallb (λ path, negb (tracked_inference_path path))
    ["/attestation"; "/attestation?nonce=ab12"; "/attestation/"; "/v1/attestation";
     "/v1/attestation/evidence"; "/internal/gateway/authorize"; "/v1/internal/gateway/authorize";
     "/v1/internal/gateway/authorize/"]
  && forallb tracked_inference_path
       ["/chat/completions"; "/v1/chat/completions"; "/responses"; "/attestations"; "/v1/attestations"].

Definition no_alternate_spelling_of_an_excluded_route_is_tracked : bool :=
  forallb (λ path, negb (tracked_inference_path path))
    ["/v1/internal/gateway/%61uthorize"; "/v1/internal/gateway/authoriz%65";
     "/v1/internal/gateway/%61%75%74%68%6f%72%69%7a%65"; "/v1/%69nternal/gateway/authorize";
     "/v1/INTERNAL/GATEWAY/AUTHORIZE"; "/v1/Internal/Gateway/Authorize";
     "/v1/internal//gateway/authorize"; "/v1//internal/gateway/authorize//";
     "/v1/internal/gateway/%61uthorize?trace=1"; "/v1/%61ttestation"; "/v1/attestatio%6e";
     "/v1/ATTESTATION"; "/v1//attestation"; "/v1/%61ttestation/evidence"]
  && forallb tracked_inference_path
       ["/v1/chat/completions"; "/v1/attestations"; "/v1/attestation%73";
        "/v1/internal/gateway/authorized_models"; "/v1/preattestation"; "/v1/%63hat/completions"].

(** Every function is total; what is left of the test is its last two lines. *)
Definition route_folding_is_total_on_malformed_escapes : bool :=
  tracked_inference_path "/attestation%zz/evidence"
  && negb (tracked_inference_path "/%61ttestation/evidence").

Example vocabulary_tests :
  forallb id
    [known_hosts_match_the_contract; telemetry_enablement_precedence_mirrors_the_python_sdk;
     attestation_and_authorize_are_the_untracked_inference_paths;
     no_alternate_spelling_of_an_excluded_route_is_tracked;
     route_folding_is_total_on_malformed_escapes] = true.
Proof. vm_compute. reflexivity. Qed.
End VocabularyTests.

Module ClassificationTests.
(** A synthetic cause chain: its outermost link and the ones below. *)
Definition link (text : string) : ErrorLink := mkErrorLink None text.
Definition io (kind : IoKind) : ErrorLink := mkErrorLink (Some kind) "io failure".
Definition io_chain (kind : IoKind) (connect : bool) : ErrorClass.t :=
  classify_chain (link "request failed") [io kind] connect.
Definition probed (message : string) (connect : bool) : ErrorClass.t :=
  classify_chain (link "request failed") [link message] connect.

Definition classification_walks_source_chains_by_type_first : bool :=
  forallb (λ case : IoKind * bool * ErrorClass.t,
    let '(kind, connect, expected) := case in bool_decide (io_chain kind connect = expected))
    [(ConnectionRefused, true, ErrorClass.ConnectRefused); (ConnectionReset, false, ErrorClass.Reset);
     (ConnectionAborted, false, ErrorClass.Reset); (BrokenPipe, false, ErrorClass.Reset);
     (TimedOut, true, ErrorClass.ConnectTimeout); (TimedOut, false, ErrorClass.ReadTimeout);
     (InvalidData, true, ErrorClass.Tls); (OtherKind, false, ErrorClass.IoError)].

Definition classification_falls_back_to_bounded_message_probes : bool :=
  forallb (λ case : string * bool * ErrorClass.t,
    let '(message, connect, expected) := case in bool_decide (probed message connect = expected))
    [("dns error: lookup failed", true, ErrorClass.Dns);
     ("failed to lookup address information", true, ErrorClass.Dns);
     ("invalid peer certificate", true, ErrorClass.Tls);
     ("received corrupt message of type InvalidContentType", true, ErrorClass.Tls);
     ("proxy authentication required", false, ErrorClass.ProxyError);
     ("connection closed before message completed", false, ErrorClass.ProtocolError);
     ("something else entirely", true, ErrorClass.ConnectError);
     ("something else entirely", false, ErrorClass.Unknown)].

Definition the_outermost_display_never_decides_a_classification : bool :=
  bool_decide (classify_chain
    (link "error sending request for url (https://api.trustedrouter.com/v1/tls/proxy/parse)")
    [mkErrorLink (Some ConnectionRefused) "connection refused"] true = ErrorClass.ConnectRefused)
  && bool_decide (classify_chain (link "dns error at the top only") [] false = ErrorClass.Unknown)
  && bool_decide (classify_chain (link "tls at the top only") [] true = ErrorClass.ConnectError).

Example classification_tests :
  forallb id
    [classification_walks_source_chains_by_type_first;
     classification_falls_back_to_bounded_message_probes;
     the_outermost_display_never_decides_a_classification] = true.
Proof. vm_compute. reflexivity. Qed.
End ClassificationTests.

(** [telemetry/wire.rs]. *)
Module IdentityTests.
#[local] Instance build : BuildEnv :=
  {| CARGO_PKG_VERSION := "0.6.0"; TRUSTED_ROUTER_RUSTC_RELEASE := Some "1.88.0";
     target_os := "linux"; target_arch := "x86_64" |}.

Definition count (b : ascii) (s : string) : nat :=
  pred (length (split_by (λ c, bool_decide (c = b)) s)).

Definition the_identity_only_uses_the_contract_vocabulary : bool :=
  bool_decide (sdk_name sdk_identity = "tr-rust") && bool_decide (sdk_lang sdk_identity = "rust")
  && valid_semver (sdk_version sdk_identity) && valid_runtime (sdk_runtime sdk_identity)
  && starts_with "rustc/" (sdk_runtime sdk_identity)
  && bool_decide (sdk_os sdk_identity ∈ ["linux"; "macos"; "windows"; "ios"; "android"; "freebsd"; "other"])
  && bool_decide (sdk_arch sdk_identity ∈ ["x64"; "x32"; "arm"; "arm64"; "wasm"; "other"]).

Definition the_user_agent_carries_the_same_valid_runtime_as_the_beacon_identity : bool :=
  let prefix := "trusted-router-rust/" +:+ CARGO_PKG_VERSION in
  starts_with prefix sdk_user_agent && (count " " sdk_user_agent =? 1)%nat
  && match split_once " " sdk_user_agent with
     | Some (actual_prefix, runtime) =>
         bool_decide (actual_prefix = prefix) && valid_runtime runtime
         && bool_decide (runtime = sdk_runtime sdk_identity)
     | None => false
     end
  && (String.length sdk_user_agent <=? 256)%nat.

Definition a_missing_or_empty_compiler_release_has_a_valid_runtime_fallback : bool :=
  forallb (λ release, bool_decide (runtime_token_from_release release = "rustc/unknown")
                      && valid_runtime (runtime_token_from_release release)) [None; Some ""].

Definition adversarial_compiler_releases_never_produce_a_malformed_runtime : bool :=
  forallb (λ case : string * string,
    let runtime := runtime_token_from_release (Some case.1) in
    bool_decide (runtime = case.2) && valid_runtime runtime && (count "/" runtime =? 1)%nat
    && (count " " runtime =? 0)%nat && (count (ascii_of_N 9) runtime =? 0)%nat)
    [("   " +:+ String (ascii_of_N 9) "", "rustc/unknown"); (" 1.88.0 ", "rustc/unknown");
     ("1.99.0-nightly", "rustc/1.99.0-nightly"); ("1.88.0+build.7", "rustc/1.88.0+build.7");
     ("1.0.0 (abc)", "rustc/unknown"); ("1.0.0-β", "rustc/unknown");
     ("1.0.0+aaaaaaaaaaaaaaaaaaaaaaaaa", "rustc/unknown")].

Definition the_version_grammar_matches_the_bounded_python_semver : bool :=
  forallb valid_semver ["0.1.0"; "1.2.3"; "10.20.30-rc.1"; "1.0.0+build.5"; "1.0.0-rc.1+build.5"]
  && forallb (λ bad, negb (valid_semver bad))
       ["1.0"; "01.0.0"; "1.0.0-rc.1+"; "1.0.0-"; ""; "v1.0.0"; "1.0.0+build+again";
        "1.0.0-aaaaaaaaaaaaaaaaaaaaaaaaaaaaaaaa"]
  && forallb valid_runtime ["rustc/1.88.0"; "rustc/1.99.0-nightly"]
  && forallb (λ bad, negb (valid_runtime bad))
       ["Rustc/1.88.0"; "rustc/"; "rustc"; "rustc/1.88.0 (abcdef 2026-01-01)"].

Example identity_tests :
  forallb id
    [the_identity_only_uses_the_contract_vocabulary;
     the_user_agent_carries_the_same_valid_runtime_as_the_beacon_identity;
     a_missing_or_empty_compiler_release_has_a_valid_runtime_fallback;
     adversarial_compiler_releases_never_produce_a_malformed_runtime;
     the_version_grammar_matches_the_bounded_python_semver] = true.
Proof. vm_compute. reflexivity. Qed.
End IdentityTests.
