(* ===== verification/TransportTests.v ===== *)
(** * The crate's own tests of the transport, run on the model

    The unit tests of [transport/policy.rs], [transport/routing.rs] and
    [transport/engine.rs], one definition per test under the test's name,
    each evaluated to [true].  A mock server is a function of the request; a
    failing socket is the error its client reports.  They tie the definitions
    of [Policy], [Routing], [Recorder] and [Engine] to the behaviour the crate
    pins for itself. *)
From S2P Require Import Prelude Text F64 Json Http UrlParts Error Policy Config Routing Vocab.
From S2P Require Import Identity Recorder Headers Engine Transport.

(** ** [transport/policy.rs], [failover_tests] *)
Module FailoverTests.
#[local] Instance dates : HttpDateLib := λ _, None.

Definition no_headers : HeaderMap := hm_new.
Definition headers (pairs : list (string * string)) : HeaderMap :=
  foldl (λ map kv, hm_insert map kv.1 kv.2) hm_new pairs.

Definition only_gateway_statuses_move_domains : bool :=
  forallb (λ status, failoverable_status status no_headers) [502; 503; 504]%N.
Definition a_500_does_not_move_domains : bool :=
  negb (failoverable_status 500 no_headers) && retryable_status 500 no_headers.
Definition all_server_errors_are_retryable : bool :=
  forallb (λ status, retryable_status status no_headers && negb (failoverable_status status no_headers))
    [501; 505; 599]%N.
Definition a_429_does_not_move_domains : bool :=
  negb (failoverable_status 429 no_headers) && retryable_status 429 no_headers.
Definition the_verdict_only_speaks_when_the_server_did : bool :=
  bool_decide (should_retry_verdict no_headers = None)
  && bool_decide (should_retry_verdict (headers [("x-should-retry", "TRUE")]) = Some true)
  && bool_decide (should_retry_verdict (headers [("x-should-retry", "false")]) = Some false)
  && bool_decide (should_retry_verdict (headers [("x-should-retry", "perhaps")]) = None).
Definition a_labelled_spent_response_is_neither_retried_nor_moved : bool :=
  let spent := headers [("x-should-retry", "false")] in
  negb (retryable_status 502 spent) && negb (failoverable_status 502 spent).
Definition a_labelled_retryable_response_is_retried_against_the_status : bool :=
  retryable_status 400 (headers [("x-should-retry", "true")]).
Definition retry_after_ms_is_honored_and_beats_retry_after : bool :=
  bool_decide (parse_retry_after 0%N (headers [("retry-after-ms", "250")]) = Some (from_millis 250))
  && bool_decide (parse_retry_after 0%N (headers [("retry-after-ms", "500"); ("retry-after", "9")])
                  = Some (from_millis 500))
  && bool_decide (parse_retry_after 0%N (headers [("retry-after-ms", "soon"); ("retry-after", "3")])
                  = Some (from_secs 3)).

Example failover_tests :
  forallb id
    [only_gateway_statuses_move_domains; a_500_does_not_move_domains; all_server_errors_are_retryable;
     a_429_does_not_move_domains; the_verdict_only_speaks_when_the_server_did;
     a_labelled_spent_response_is_neither_retried_nor_moved;
     a_labelled_retryable_response_is_retried_against_the_status;
     retry_after_ms_is_honored_and_beats_retry_after] = true.
Proof. vm_compute. reflexivity. Qed.
End FailoverTests.

(** ** [transport/policy.rs], [retry_after_bound_tests] *)
Module RetryAfterBoundTests.
(** A date library that knows one date, a century after the epoch. *)
Definition far_future : string := "Wed, 08 Dec 2069 00:00:00 GMT".
#[local] Instance dates : HttpDateLib := λ s,
  if bool_decide (s = far_future) then Some (from_secs (100 * 365 * 24 * 3600)) else None.

(** mulberry32 on 32-bit words. *)
Definition wrap (n : N) : N := (n mod 2 ^ 32)%N.
Definition next_u32 (rng : N) : N * N :=
  let s := wrap (rng + 0x6d2b79f5) in
  let t := s in
  let t := wrap (N.lxor t (N.shiftr t 15) * N.lor t 1) in
  let t := N.lxor t (wrap (t + wrap (N.lxor t (N.shiftr t 7) * N.lor t 0x3d))) in
  (N.lxor t (N.shiftr t 14), s).

Definition header (name value : string) : HeaderMap :=
  match value_from_str value with Ok parsed => hm_insert hm_new name parsed | Err _ => hm_new end.

Definition INTERESTING : list string :=
  ["inf"; "Inf"; "Infinity"; "-Infinity"; "NaN"; "nan"; "1e300"; "100000"; "86400";
   "18446744073709551615"; "-5"; "0"; "30"; "0.5"; "  30  "; "30s"; ""; "   "].

(** Decimal digits, for the noise. *)
Fixpoint digits (fuel : nat) (n : N) (acc : string) : string :=
  match fuel with
  | O => acc
  | S fuel =>
      let acc := String (ascii_of_N (48 + n mod 10)) acc in
      if (n <? 10)%N then acc else digits fuel (n / 10) acc
  end.
Definition decimal (n : N) : string := digits 40 n "".

Definition sample (rng : N) (index : nat) : string * N :=
  match INTERESTING !! index with
  | Some raw => (raw, rng)
  | None =>
      let '(a, rng) := next_u32 rng in
      let '(b, rng) := next_u32 rng in
      (decimal (a * b), rng)
  end.

(** The generator threaded through a number of runs of a check. *)
Fixpoint runs (count index : nat) (rng : N) (check : N → nat → string → bool * N) : bool :=
  match count with
  | O => true
  | S count =>
      let '(raw, rng) := sample rng index in
      let '(fine, rng) := check rng index raw in
      fine && runs count (S index) rng check
  end.
Definition RUNS : nat := 2000.

Definition hint_bounded (hint : option Duration) : bool :=
  from_option (λ d, (d <=? MAX_RETRY_AFTER)%N) true hint.

Definition a_parsed_hint_is_never_above_the_bound : bool :=
  runs RUNS 0 0x5eed (λ rng _ raw,
    (forallb (λ name, hint_bounded (parse_retry_after 0%N (header name raw))) ["retry-after"; "retry-after-ms"],
     rng)).
(** The draw takes its largest value. *)
Definition the_sleep_is_never_above_the_bound : bool :=
  runs RUNS 0 0xc0ffee (λ rng _ raw,
    let '(n, rng) := next_u32 rng in
    ((retry_delay id (N.to_nat (n mod 2000)) (parse_retry_after 0%N (header "retry-after" raw))
      <=? MAX_RETRY_AFTER)%N, rng)).
Definition retry_delay_reclamps_a_hint_handed_to_it_directly : bool :=
  forallb (λ seconds, (retry_delay id 0 (Some (from_secs seconds)) <=? MAX_RETRY_AFTER)%N)
    [0; 1; 30; 60; 100000; u64_max]%N
  && (retry_delay id 0 (Some (from_secs u64_max + 999999999))%N <=? MAX_RETRY_AFTER)%N.
Definition the_values_that_used_to_park_a_caller_are_clamped : bool :=
  forallb (λ raw, bool_decide (parse_retry_after 0%N (header "retry-after" raw) = Some MAX_RETRY_AFTER))
    ["100000"; "86400"; "18446744073709551615"].
Definition non_finite_values_remain_rejected_by_the_parser : bool :=
  forallb (λ raw, bool_decide (parse_retry_after 0%N (header "retry-after" raw) = None))
    ["inf"; "Inf"; "Infinity"; "NaN"; "nan"; "-5"; "1e300"].
Definition hints_within_the_bound_are_honoured_exactly : bool :=
  forallb (λ seconds,
    bool_decide (parse_retry_after 0%N (header "retry-after" (decimal seconds)) = Some (from_secs seconds))
    && (from_secs seconds <=? retry_delay (λ _, 0%N) 0 (Some (from_secs seconds)))%N)
    [0; 1; 5; 30; 59; 60]%N.
Definition a_far_future_http_date_is_clamped : bool :=
  match parse_retry_after 0%N (header "retry-after" far_future) with
  | Some parsed => (parsed <=? MAX_RETRY_AFTER)%N
  | None => false
  end.
Definition the_millisecond_header_still_wins_when_usable : bool :=
  bool_decide (parse_retry_after 0%N (hm_insert (header "retry-after-ms" "1500") "retry-after" "7")
               = Some (from_millis 1500)).
Definition a_junk_millisecond_header_falls_through_to_seconds : bool :=
  forallb (λ junk,
    bool_decide (parse_retry_after 0%N (hm_insert (header "retry-after-ms" junk) "retry-after" "7")
                 = Some (from_secs 7)))
    ["inf"; "nan"; "-5"; "abc"].

(** A check that passes on every input passes all the runs. *)
Lemma runs_pass count index rng (check : N → nat → string → bool * N) :
  (∀ rng index raw, (check rng index raw).1 = true) → runs count index rng check = true.
Proof.
  intros Hc. revert index rng. induction count as [|count IH]; intros index rng; [done|].
  cbn [runs]. destruct (sample rng index) as [raw rng1]. pose proof (Hc rng1 index raw) as Hf.
  destruct (check rng1 index raw) as [fine rng2]. cbn in Hf. subst fine. apply IH.
Qed.

Lemma bounded_hint wall_now headers : hint_bounded (parse_retry_after wall_now headers) = true.
Proof.
  unfold hint_bounded. destruct (parse_retry_after wall_now headers) as [d|] eqn:E; [|done].
  apply N.leb_le. by eapply parse_retry_after_le.
Qed.

Example property_runs :
  a_parsed_hint_is_never_above_the_bound = true ∧ the_sleep_is_never_above_the_bound = true.
Proof.
  split; apply runs_pass; intros rng index raw.
  - apply forallb_forall. intros name _. apply bounded_hint.
  - destruct (next_u32 rng) as [n rng']. apply N.leb_le, retry_delay_le. by intros ceiling.
Qed.

Example retry_after_bound_tests :
  forallb id
    [retry_delay_reclamps_a_hint_handed_to_it_directly;
     the_values_that_used_to_park_a_caller_are_clamped;
     non_finite_values_remain_rejected_by_the_parser; hints_within_the_bound_are_honoured_exactly;
     a_far_future_http_date_is_clamped; the_millisecond_header_still_wins_when_usable;
     a_junk_millisecond_header_falls_through_to_seconds] = true.
Proof. vm_compute. reflexivity. Qed.
End RetryAfterBoundTests.

(** ** [transport/routing.rs], [semantic_route_tests] *)
Module SemanticRouteTests.
Definition url (s : string) : Url := match url_parse s with Ok u => u | Err _ => Concrete.mkUrl "" "" "" end.

Definition intended_routes_are_exact_after_url_and_ascii_normalisation : bool :=
  forallb (λ spelling, bool_decide (semantic_request_route spelling = "/chat/completions"))
    ["/chat/completions"; "/x/../chat/completions"; "/chat/%63ompletions"; "/CHAT//COMPLETIONS/"]
  && bool_decide (semantic_request_route "/custom/chat/completions" = "/custom/chat/completions").
Definition response_routes_are_exact_relative_to_matching_custom_bases : bool :=
  let base := url "https://api.example/tenant/v2/" in
  bool_decide (semantic_route_relative_to_base base (url "https://api.example/tenant/v2/chat/completions")
               = Some "/chat/completions")
  && bool_decide (semantic_route_relative_to_base base
                    (url "https://api.example/tenant/v2/custom/chat/completions")
                  = Some "/custom/chat/completions")
  && bool_decide (semantic_route_relative_to_base base
                    (url "https://api.example/tenant/v20/chat/completions") = None)
  && bool_decide (semantic_route_relative_to_base base
                    (url "https://other.example/tenant/v2/chat/completions") = None).

Example semantic_route_tests :
  intended_routes_are_exact_after_url_and_ascii_normalisation
  && response_routes_are_exact_relative_to_matching_custom_bases = true.
Proof. vm_compute. reflexivity. Qed.
End SemanticRouteTests.

(** ** [transport/engine.rs], [candidate_walk_tests] *)
Module CandidateWalkTests.
#[local] Instance dates : HttpDateLib := λ _, None.
#[local] Instance build : BuildEnv :=
  {| CARGO_PKG_VERSION := "0.6.0"; TRUSTED_ROUTER_RUSTC_RELEASE := Some "1.80.0";
     target_os := "linux"; target_arch := "x86_64" |}.

Definition APEX_HOST : string := "api.trustedrouter.com".
Definition ALLY_HOST : string := "api.allyrouter.com".
Definition base (host : string) : Url := Concrete.mkUrl "http" host "/v1/".

(** A server behind each host. *)
Definition Server : Type := Request → Fut (result ReqwestError Response).
Definition respond (delay : Duration) (status : N) (body : string) : Server := λ rq,
  mkFut delay (Ok (mkResponse _ _ status hm_new (rq_url rq) (mkFut 0%N (Ok body)))).
Definition fail (error : ReqwestError) : Server := λ _, mkFut 0%N (Err error).

Definition network (down up : Server) : Env :=
  {| execute_request _ rq :=
       if bool_decide (url_host_str (rq_url rq) = Some APEX_HOST) then down rq else up rq;
     build_headers _ _ headers _ := Ok (hm_insert headers "content-type" "application/json");
     parse_json _ := Some (VObject [("error", VObject [("message", VString "unavailable")])]);
     gen_range _ ceiling := ceiling;
     wall_clock now := now |}.

Definition two_hosts (first_status : N) : Env :=
  network (respond 0%N first_status "{}") (respond 0%N 200 "data: [DONE]").

Definition client_over (max_retries : nat) : Client.t :=
  Client.mk _ (Some "sk-test") (base APEX_HOST) [base APEX_HOST; base ALLY_HOST]
    (Concrete.mkUrl "https" "trustedrouter.com" "/v1/") None (Some DEFAULT_REQUEST_TIMEOUT)
    max_retries true true [] InjectedTransport.

Definition replay_options : CallOptions.t :=
  CallOptions.default <| CallOptions.idempotency_key := Some "test-retry-key" |>.
Definition body : Value := VObject [("model", VString "trustedrouter/auto")].

(** What each host received, as its telemetry headers. *)
Definition received (host : string) (s : St) : list (option string) :=
  map (λ rq, hm_get (rq_headers rq) "x-tr-client")
    (List.filter (λ rq, bool_decide (url_host_str (rq_url rq) = Some host)) (st_sent s)).

(** [parsed_retry_header]: the bound, the grammar of the values and the order
    of the keys. *)
Definition value_byte (b : ascii) : bool :=
  in_range 97 122 (byte_of b) || is_ascii_digit b || bool_decide (b = "_"%char).
Definition parsed_retry_header (header : string) : option (list (string * string)) :=
  pairs ← mapM (split_once "=") (split_by (λ b, bool_decide (b = ";"%char)) header);
  if (String.length header <=? 160)%nat
     && forallb (λ kv, negb (is_empty kv.2) && (String.length kv.2 <=? 24)%nat
                       && all_bytes value_byte kv.2) pairs
     && bool_decide (map fst pairs = ["v"; "a"; "po"; "pc"; "ph"; "pm"; "sm"; "s"; "fo"])
  then Some pairs else None.
Definition field (pairs : list (string * string)) (name : string) : option string :=
  find_map (λ kv, if bool_decide (kv.1 = name) then Some kv.2 else None) pairs.

(** A retry header that parses and has these fields. *)
Definition retry_says (expected : list (string * string)) (header : option (option string)) : bool :=
  match header with
  | Some (Some header) =>
      is_some_and (λ pairs, forallb (λ kv, bool_decide (field pairs kv.1 = Some kv.2)) expected)
        (parsed_retry_header header)
  | _ => false
  end.

Definition open (env : Env) : option (Result (Response * option StreamState)) * St :=
  open_stream env (client_over 2) Inference POST "/chat/completions" body replay_options 0%N.
Definition fetch (env : Env) (max_retries : nat) (options : CallOptions.t) : Settled string :=
  request_bytes env (client_over max_retries) Inference POST "/chat/completions" (Some body) options 0%N.
Definition succeeds {A} (r : option (Result A)) : bool := is_some_and is_ok r.
Definition fails {A} (r : option (Result A)) : bool := is_some_and (λ r, negb (is_ok r)) r.

Definition open_stream_moves_to_the_next_candidate_on_503 : bool :=
  let '(r, s) := open (two_hosts 503) in
  is_some_and (λ r, match r with Ok (response, _) => is_success (status response) | Err _ => false end) r
  && bool_decide (received APEX_HOST s = [Some "v=1;a=0;s=1"])
  && (length (received ALLY_HOST s) =? 1)%nat
  && retry_says [("a", "1"); ("po", "http_error"); ("pc", "none"); ("ph", "apex"); ("s", "1"); ("fo", "1")]
       (received ALLY_HOST s !! 0).
Definition open_stream_keeps_a_500_on_the_same_candidate : bool :=
  let '(r, s) := open (two_hosts 500) in
  fails r && (length (received ALLY_HOST s) =? 0)%nat && (1 <? length (received APEX_HOST s))%nat.
Definition request_bytes_moves_to_the_next_candidate_on_503 : bool :=
  let '(r, s) := fetch (two_hosts 503) 2 replay_options in
  is_some_and (λ r, match r with Ok bytes => negb (is_empty bytes) | Err _ => false end) r
  && bool_decide (received APEX_HOST s = [Some "v=1;a=0;s=0"])
  && (length (received ALLY_HOST s) =? 1)%nat
  && retry_says [("po", "http_error"); ("ph", "apex"); ("s", "0"); ("fo", "1")] (received ALLY_HOST s !! 0).
Definition request_bytes_keeps_a_500_on_the_same_candidate : bool :=
  let '(r, s) := fetch (two_hosts 500) 2 replay_options in
  fails r && (length (received ALLY_HOST s) =? 0)%nat && (1 <? length (received APEX_HOST s))%nat
  && retry_says [("a", "1"); ("po", "http_error"); ("ph", "apex"); ("fo", "0")] (received APEX_HOST s !! 1).

(** A transport failure on the first candidate, then a success: what the
    second is told. *)
Definition told_of (down : Server) (retries : nat) (options : CallOptions.t)
    (expected : list (string * string)) : bool :=
  let '(r, s) := fetch (network down (respond 0%N 200 "{}")) retries options in
  succeeds r && (length (received ALLY_HOST s) =? 1)%nat && retry_says expected (received ALLY_HOST s !! 0).

Definition link (kind : option IoKind) (text : string) : ErrorLink := mkErrorLink kind text.
Definition refused : ReqwestError :=
  mkReqwestError false true (link None "error sending request")
    [link None "client error (Connect)"; link None "tcp connect error";
     link (Some ConnectionRefused) "Connection refused (os error 111)"].
Definition corrupt_record : ReqwestError :=
  mkReqwestError false true (link None "error sending request")
    [link None "client error (Connect)";
     link (Some InvalidData) "received corrupt message of type InvalidContentType"].
Definition reset : ReqwestError :=
  mkReqwestError false false (link None "error sending request")
    [link None "client error (SendRequest)"; link None "connection error";
     link (Some ConnectionReset) "Connection reset by peer (os error 104)"].

Definition a_transport_error_carries_its_class_to_the_next_attempt : bool :=
  told_of (fail refused) 2 replay_options
    [("a", "1"); ("po", "transport_error"); ("pc", "connect_refused"); ("ph", "apex"); ("fo", "1")].
Definition a_tls_failure_carries_its_class_to_the_next_attempt : bool :=
  bool_decide (classify_transport_error corrupt_record = ErrorClass.Tls)
  && told_of (fail corrupt_record) 2 replay_options
       [("po", "transport_error"); ("pc", "tls"); ("ph", "apex"); ("fo", "1")].
Definition a_connection_reset_carries_its_class_to_the_next_attempt : bool :=
  told_of (fail reset) 2 replay_options
    [("po", "transport_error"); ("pc", "reset"); ("ph", "apex"); ("fo", "1")].
Definition the_sdk_deadline_is_recorded_as_a_timeout : bool :=
  told_of (respond (from_secs 5) 200 "{}") 1
    (replay_options <| CallOptions.timeout := Some (from_millis 100) |>)
    [("po", "timeout"); ("pc", "read_timeout"); ("ph", "apex"); ("fo", "1")].

Example candidate_walk_tests :
  forallb id
    [open_stream_moves_to_the_next_candidate_on_503; open_stream_keeps_a_500_on_the_same_candidate;
     request_bytes_moves_to_the_next_candidate_on_503; request_bytes_keeps_a_500_on_the_same_candidate;
     a_transport_error_carries_its_class_to_the_next_attempt;
     a_tls_failure_carries_its_class_to_the_next_attempt;
     a_connection_reset_carries_its_class_to_the_next_attempt;
     the_sdk_deadline_is_recorded_as_a_timeout] = true.
Proof. vm_compute. reflexivity. Qed.
End CandidateWalkTests.
