(* ===== verification/Sse.v ===== *)
(** * Server-sent events ([sse.rs])

    Decoding the wire, the four protocol validators and the stream openers.
    An [async_stream] generator is a state machine: one poll runs it to its
    next [yield], at an instant.  The body's chunks and the framing of the
    eventsource_stream crate are parameters; the JSON parser is one too. *)
From S2P Require Import Prelude Text Json Http Error Policy Config Routing Vocab.
From S2P Require Import Identity Recorder RecorderFacts Headers Engine EngineFacts Transport.

Record SseEvent := mkSseEvent {
  sse_event : option string;
  sse_data : string;
  sse_id : option string;
}.

Inductive SseWireError :=
| WireTransport (error : ReqwestError)
| IdleTimeout.

(** What the framing layer yields. *)
Inductive StreamItem :=
| Decoded (event data id : string)
| WireFailed (error : SseWireError)
| Framing (text : string).

(** The inner generator: raw chunks under the idle deadline, ended by the
    first failure.  [end_after] is when the body ends. *)
Fixpoint wire_chunks (idle_timeout : option Duration)
    (chunks : list (Fut (result ReqwestError string))) (end_after : Duration)
    : list (result SseWireError string) :=
  let idle {A} (f : Fut A) : option A :=
    match opt_filter (λ d, negb (d =? 0)%N) idle_timeout with
    | Some duration => (run_timeout duration f).1
    | None => Some (outcome_of f)
    end in
  match chunks with
  | [] => match idle (mkFut end_after ()) with Some _ => [] | None => [Err IdleTimeout] end
  | next :: chunks =>
      match idle next with
      | None => [Err IdleTimeout]
      | Some (Ok chunk) => Ok chunk :: wire_chunks idle_timeout chunks end_after
      | Some (Err error) => [Err (WireTransport error)]
      end
  end.

(** ** The decoded stream

    The items still to come and the recorder every layer shares. *)
Record Sse := mkSse { src_items : list StreamItem; src_recorder : option StreamState }.

Definition complete (now : Instant) (s : Sse) : Sse :=
  mkSse (src_items s) (on_complete now <$> src_recorder s).

(** One poll of [parse_sse].  After a failure the generator breaks: nothing
    is left to come. *)
Definition next_event (now : Instant) (s : Sse) : option (Result SseEvent) * Sse :=
  match src_items s with
  | [] => (None, complete now s)
  | Decoded event data id :: items =>
      (Some (Ok (mkSseEvent (Some event) data (Some id))),
       mkSse items (on_event now <$> src_recorder s))
  | WireFailed IdleTimeout :: _ =>
      (Some (Err (Timeout "SSE stream idle deadline exceeded")),
       mkSse [] (on_wire_failure now ErrorClass.ReadTimeout true <$> src_recorder s))
  | WireFailed (WireTransport error) :: _ =>
      (Some (Err (map_reqwest_error error)),
       mkSse [] (on_wire_failure now (classify_transport_error error) (is_timeout error)
                 <$> src_recorder s))
  | Framing text :: _ =>
      (Some (Err (Error.Transport ("invalid SSE stream: " +:+ text))),
       complete now (mkSse [] (src_recorder s)))
  end.

(** Dropping the last handle. *)
Definition drop_stream (now : Instant) (s : Sse) : Sse :=
  mkSse [] ((λ st, mkStreamState (drop_recorder now (stream_recorder st)) (body_started st))
            <$> src_recorder s).

(** ** Payloads *)

Section payloads.
Context (from_str : string → result string Value).

Definition sse_error_status (error : Value) : Result N :=
  match get "status" error with
  | None => Ok 502%N
  | Some status =>
      ok_or (Serialization "SSE error status must be an HTTP status integer")
        (opt_filter (in_range 100 599) (opt_filter (λ n, (n <=? 65535)%N) (as_u64 status)))
  end.

Definition parse_json_event (data : string) : Result Value :=
  value ← map_err (λ e, Serialization ("invalid SSE JSON: " +:+ e)) (from_str data);
  if negb (is_object value) then Err (Serialization "SSE event must be an object")
  else if is_some_and (λ kind, negb (is_string kind)) (get "type" value)
  then Err (Serialization "SSE type must be a string")
  else
    match get "error" value with
    | Some error =>
        if negb (is_object error) then Err (Serialization "SSE error must be an object")
        else
          status ← sse_error_status error;
          Err (classify_api_error status (Some value) None)
    | None => Ok value
    end.

Definition text_delta (value : Value) : Result (option string) :=
  match get "choices" value with
  | None => Ok None
  | Some choices =>
      choices ← ok_or (Serialization "choices must be an array") (as_array choices);
      match head choices with
      | None => Ok None
      | Some choice =>
          choice ← ok_or (Serialization "choice must be an object") (as_object choice);
          match map_get "delta" choice with
          | None => Ok None
          | Some delta =>
              delta ← ok_or (Serialization "delta must be an object") (as_object delta);
              match map_get "content" delta with
              | None | Some VNull => Ok None
              | Some (VString text) => Ok (Some text)
              | Some _ => Err (Serialization "delta content must be a string or null")
              end
          end
      end
  end.

(** ** Validators

    Where a validator's generator stands: reading, suspended at the [yield]
    of a terminal event, or returned. *)
Inductive ValidPhase := Reading | AtTerminal | Over.
Record Valid := mkValid { v_src : Sse; v_phase : ValidPhase }.

Definition is_done (event : SseEvent) : bool := bool_decide (trim (sse_data event) = "[DONE]").

(** [event_name] of the Responses validators. *)
Definition event_name (event : SseEvent) (value : Value) : string :=
  default "message"
    (opt_or (opt_filter (λ name, negb (is_empty name) && negb (bool_decide (name = "message")))
               (sse_event event))
            (get "type" value >>? as_str)).

Definition terminal_event (name : string) : bool :=
  bool_decide (name ∈ ["response.completed"; "response.failed"; "response.incomplete"; "error"]).

Definition ended_chat : Error := Error.Transport "SSE stream ended before [DONE]".
Definition ended_responses : Error := Error.Transport "SSE stream ended before a terminal event".

(** One poll of [validate_chat_stream]. *)
Definition next_chat (now : Instant) (v : Valid) : option (Result Value) * Valid :=
  match v_phase v with
  | Over | AtTerminal => (None, v)
  | Reading =>
      match next_event now (v_src v) with
      | (None, s) => (Some (Err ended_chat), mkValid s Over)
      | (Some (Err e), s) => (Some (Err e), mkValid s Over)
      | (Some (Ok event), s) =>
          if is_done event then (None, mkValid (complete now s) Over)
          else
            match parse_json_event (sse_data event) with
            | Ok value => (Some (Ok value), mkValid s Reading)
            | Err e => (Some (Err e), mkValid s Over)
            end
      end
  end.

(** One poll of [validate_raw_chat_stream]. *)
Definition next_raw_chat (now : Instant) (v : Valid) : option (Result SseEvent) * Valid :=
  match v_phase v with
  | Over | AtTerminal => (None, v)
  | Reading =>
      match next_event now (v_src v) with
      | (None, s) => (Some (Err ended_chat), mkValid s Over)
      | (Some (Err e), s) => (Some (Err e), mkValid s Over)
      | (Some (Ok event), s) =>
          if is_done event then (Some (Ok event), mkValid (complete now s) Over)
          else
            match parse_json_event (sse_data event) with
            | Ok _ => (Some (Ok event), mkValid s Reading)
            | Err e => (Some (Err e), mkValid s Over)
            end
      end
  end.

(** [ResponseEvent]. *)
Record ResponseEvent := mkResponseEvent { re_event : string; re_data : Value }.

(** One poll of [validate_responses_stream]: the record is completed when
    the generator is resumed after a terminal event. *)
Definition next_responses (now : Instant) (v : Valid) : option (Result ResponseEvent) * Valid :=
  match v_phase v with
  | Over => (None, v)
  | AtTerminal => (None, mkValid (complete now (v_src v)) Over)
  | Reading =>
      match next_event now (v_src v) with
      | (None, s) => (Some (Err ended_responses), mkValid s Over)
      | (Some (Err e), s) => (Some (Err e), mkValid s Over)
      | (Some (Ok event), s) =>
          if is_done event then (None, mkValid (complete now s) Over)
          else
            match parse_json_event (sse_data event) with
            | Ok value =>
                let name := event_name event value in
                (Some (Ok (mkResponseEvent name value)),
                 mkValid s (if terminal_event name then AtTerminal else Reading))
            | Err e => (Some (Err e), mkValid s Over)
            end
      end
  end.

(** One poll of [validate_raw_responses_stream]. *)
Definition next_raw_responses (now : Instant) (v : Valid) : option (Result SseEvent) * Valid :=
  match v_phase v with
  | Over => (None, v)
  | AtTerminal => (None, mkValid (complete now (v_src v)) Over)
  | Reading =>
      match next_event now (v_src v) with
      | (None, s) => (Some (Err ended_responses), mkValid s Over)
      | (Some (Err e), s) => (Some (Err e), mkValid s Over)
      | (Some (Ok event), s) =>
          if is_done event then (Some (Ok event), mkValid (complete now s) Over)
          else
            match parse_json_event (sse_data event) with
            | Ok value =>
                (Some (Ok event),
                 mkValid s (if terminal_event (event_name event value) then AtTerminal else Reading))
            | Err e => (Some (Err e), mkValid s Over)
            end
      end
  end.

End payloads.

(** ** Views of a chat stream

    [chat_completion_chunks] maps the items of a chat stream and
    [chat_completions_text] filters them; [from_value] is serde_json's. *)
Definition chunk_item {A} (from_value : Value → result string A) (item : Result Value) : Result A :=
  value ← item; map_err Serialization (from_value value).

Definition chat_completion_chunks {A} (from_value : Value → result string A)
    (items : list (Result Value)) : list (Result A) :=
  map (chunk_item from_value) items.

Definition text_item (item : Result Value) : option (Result string) :=
  match item with
  | Ok value =>
      match text_delta value with
      | Ok text => Ok <$> text
      | Err error => Some (Err error)
      end
  | Err error => Some (Err error)
  end.

Definition chat_completions_text (items : list (Result Value)) : list (Result string) :=
  omap text_item items.

(** ** Openers *)

Inductive PromptStreamKind := Chat | Responses.

Definition prompt_stream_kind (route : string) : option PromptStreamKind :=
  if bool_decide (route = "/chat/completions") then Some Chat
  else if bool_decide (route = "/responses") then Some Responses
  else None.

(** [with_stream] of [types.rs] on a serialised request. *)
Definition with_stream (request : result string Value) (stream : bool) : Result Value :=
  value ← map_err Serialization request;
  match value with
  | VObject m => Ok (VObject (map_insert "stream" (VBool stream) m))
  | _ => Err (Serialization "request is not a JSON object")
  end.

(** [entry("stream_options").or_insert_with(...)] on the chat body. *)
Definition with_usage (body : Value) : Value :=
  match body with
  | VObject m =>
      if contains_key m "stream_options" then body
      else VObject (map_insert "stream_options" (VObject [("include_usage", VBool true)]) m)
  | _ => body
  end.

Section openers.
Context `{HL : HttpLib} `{UL : UrlLib} `{DL : HttpDateLib} `{BE : BuildEnv}.
Context (chunks_of : Response → list (Fut (result ReqwestError string)) * Duration).
Context (eventsource : list (result SseWireError string) → list StreamItem).
Context (env : Env) (c : Client.t).

Definition parse_sse (response : Response) (idle_timeout : option Duration)
    (recorder : option StreamState) : Sse :=
  let '(chunks, end_after) := chunks_of response in
  mkSse (eventsource (wire_chunks idle_timeout chunks end_after)) recorder.

(** The stream of an opened response, under the call's idle deadline. *)
Definition opened {A} (f : Response → Sse → A)
    (r : option (Result (Response * option StreamState)) * St) (options : CallOptions.t)
    : option (Result A) :=
  (λ res : Result (Response * option StreamState),
     (λ rs : Response * option StreamState,
        f rs.1 (parse_sse rs.1 (opt_or (CallOptions.timeout options) (Client.timeout c)) rs.2))
     <$> res) <$> r.1.

(** [chat_completions_stream]; [None] is a call that does not return. *)
Definition chat_completions_stream (uuid : string) (request : result string Value)
    (options : CallOptions.t) (now : Instant) : option (Result Valid) :=
  let options := ensure_idempotency_key uuid options in
  match with_stream request true with
  | Err e => Some (Err e)
  | Ok body =>
      opened (λ _ s, mkValid s Reading)
        (open_stream env c Inference POST "/chat/completions" (with_usage body) options now) options
  end.

Definition responses_stream (uuid : string) (request : result string Value)
    (options : CallOptions.t) (now : Instant) : option (Result Valid) :=
  let options := ensure_idempotency_key uuid options in
  match with_stream request true with
  | Err e => Some (Err e)
  | Ok body =>
      opened (λ _ s, mkValid s Reading)
        (open_stream env c Inference POST "/responses" body options now) options
  end.

(** [open_raw_sse]: the stream and the URL of the actual response. *)
Definition open_raw_sse (uuid : string) (path : string) (body : Value) (options : CallOptions.t)
    (now : Instant) : option (Result (Sse * Url)) :=
  let options := ensure_idempotency_key uuid options in
  opened (λ response s, (s, response_url response))
    (open_stream env c Inference POST path body options now) options.

Definition raw_sse (uuid : string) (path : string) (body : Value) (options : CallOptions.t)
    (now : Instant) : option (Result Sse) :=
  (fmap (M := result Error) fst) <$> open_raw_sse uuid path body options now.

Definition response_prompt_stream_kind (response_url : Url) : option PromptStreamKind :=
  opt_or
    (find_map (λ base, semantic_route_relative_to_base base response_url >>? prompt_stream_kind)
       (Client.api_base_urls c))
    (prompt_stream_kind (semantic_route (url_path response_url))).

(** [validated_raw_sse]: the stream and the validator it is wrapped in. *)
Definition validated_raw_sse (uuid : string) (path : string) (body : Value)
    (options : CallOptions.t) (now : Instant) : option (Result (Sse * option PromptStreamKind)) :=
  let intended_kind := prompt_stream_kind (semantic_request_route path) in
  (fmap (M := result Error)
     (λ su : Sse * Url, (su.1, opt_or intended_kind (response_prompt_stream_kind su.2))))
  <$> open_raw_sse uuid path body options now.

End openers.
