(* ===== verification/SseFacts.v ===== *)
(** * Streams: no silent truncation, one report per stream

    Each validator refines a pure reading of its items: it stops at the
    terminal frame or reports an error, and an error is the last thing it
    yields.  Through any sequence of polls and a final drop, the call's
    record is reported exactly once. *)
From S2P Require Import Prelude Text Json Http Error Policy Config Routing Vocab.
From S2P Require Import Recorder RecorderFacts Sse.

(** ** Polling a stream *)

Fixpoint collect {S A} (next : Instant → S → option (Result A) * S) (polls : list Instant) (v : S)
    : list (Result A) * S :=
  match polls with
  | [] => ([], v)
  | now :: polls =>
      match next now v with
      | (None, v) => ([], v)
      | (Some x, v) => let '(out, v) := collect next polls v in (x :: out, v)
      end
  end.

(** ** The pure reading of a stream *)

Definition item_result (item : StreamItem) : Result SseEvent :=
  match item with
  | Decoded event data id => Ok (mkSseEvent (Some event) data (Some id))
  | WireFailed IdleTimeout => Err (Timeout "SSE stream idle deadline exceeded")
  | WireFailed (WireTransport error) => Err (map_reqwest_error error)
  | Framing text => Err (Error.Transport ("invalid SSE stream: " +:+ text))
  end.

(** What one event means: the end of the stream, a last value, a value, or a
    protocol error. *)
Inductive Verdict (A : Type) := Silent | Last (a : A) | More (a : A) | Bad (e : Error).
Arguments Silent {A}.
Arguments Last {A} a.
Arguments More {A} a.
Arguments Bad {A} e.

Fixpoint reading {A} (judge : SseEvent → Verdict A) (ended : Error) (items : list StreamItem)
    : list (Result A) :=
  match items with
  | [] => [Err ended]
  | item :: items =>
      match item_result item with
      | Err e => [Err e]
      | Ok event =>
          match judge event with
          | Silent => []
          | Last a => [Ok a]
          | Bad e => [Err e]
          | More a => Ok a :: reading judge ended items
          end
      end
  end.

(** An item that ends the stream well. *)
Definition terminates {A} (judge : SseEvent → Verdict A) (item : StreamItem) : Prop :=
  ∃ event, item_result item = Ok event ∧ (judge event = Silent ∨ ∃ a, judge event = Last a).

Lemma reading_error_last {A} (judge : SseEvent → Verdict A) ended items i e :
  reading judge ended items !! i = Some (Err e) → S i = length (reading judge ended items).
Proof.
  revert i. induction items as [|item items IH]; intros i; simpl.
  { by destruct i as [|[]]. }
  destruct (item_result item) as [event|]; [destruct (judge event)|]; simpl.
  all: try by destruct i as [|[]].
  destruct i; [done|]. simpl. intros H%IH. lia.
Qed.

Lemma reading_ok_terminates {A} (judge : SseEvent → Verdict A) ended items :
  Forall (λ r, is_ok r = true) (reading judge ended items) →
  ∃ item, item ∈ items ∧ terminates judge item.
Proof.
  induction items as [|item items IH]; simpl.
  { intros H. by apply Forall_cons in H as [? _]. }
  destruct (item_result item) as [event|e] eqn:Hi;
    [|intros H; by apply Forall_cons in H as [? _]].
  destruct (judge event) as [|a|a|e] eqn:Hj; intros H.
  - exists item. split; [by left|]. exists event. auto.
  - exists item. split; [by left|]. exists event. eauto.
  - apply Forall_cons in H as [_ (it&?&?)%IH]. exists it. split; [by right|done].
  - by apply Forall_cons in H as [? _].
Qed.

(** ** Validators implement their reading *)

Section validators.
Context {A : Type} (next : Instant → Valid → option (Result A) * Valid).
Context (judge : SseEvent → Verdict A) (ended : Error).

Definition stopped (v : Valid) : Prop := ∀ now, (next now v).1 = None.

Definition implements : Prop := ∀ now items rec,
  let r := next now (mkValid (mkSse items rec) Reading) in
  match items with
  | [] => r.1 = Some (Err ended) ∧ stopped r.2
  | item :: items =>
      match item_result item with
      | Err e => r.1 = Some (Err e) ∧ stopped r.2
      | Ok event =>
          match judge event with
          | Silent => r.1 = None
          | Last a => r.1 = Some (Ok a) ∧ stopped r.2
          | Bad e => r.1 = Some (Err e) ∧ stopped r.2
          | More a => r.1 = Some (Ok a) ∧ ∃ rec', r.2 = mkValid (mkSse items rec') Reading
          end
      end
  end.

Lemma collect_stopped polls v : stopped v → (collect next polls v).1 = [].
Proof.
  intros Hs. destruct polls as [|now polls]; [done|]. simpl. specialize (Hs now).
  destruct (next now v) as [[?|] ?]; by simplify_eq/=.
Qed.

Lemma collect_one now polls v x v' :
  next now v = (Some x, v') → stopped v' → (collect next (now :: polls) v).1 = [x].
Proof.
  intros Hn Hs. simpl. rewrite Hn. pose proof (collect_stopped polls v' Hs) as Hc.
  destruct (collect next polls v'). by simplify_eq/=.
Qed.

Lemma collect_reading items polls rec :
  implements → length items < length polls →
  (collect next polls (mkValid (mkSse items rec) Reading)).1 = reading judge ended items.
Proof.
  intros Himp. revert polls rec. induction items as [|item items IH]; intros polls rec Hl.
  all: destruct polls as [|now polls]; simpl in Hl; [lia|].
  all: pose proof (Himp now) as Hi.
  - specialize (Hi [] rec). simpl in Hi. cbn [reading]. destruct (next now _) as [o v'] eqn:Hn.
    destruct Hi as [Ho Hs]. simpl in *. subst. by apply (collect_one now polls _ _ _ Hn).
  - specialize (Hi (item :: items) rec). cbv zeta in Hi. cbn [reading].
    destruct (next now _) as [o v'] eqn:Hn. cbn [fst snd] in Hi.
    destruct (item_result item) as [event|e].
    2: { destruct Hi as [-> Hs]. by apply (collect_one now polls _ _ _ Hn). }
    destruct (judge event) as [|a|a|e].
    + subst. simpl. by rewrite Hn.
    + destruct Hi as [-> Hs]. by apply (collect_one now polls _ _ _ Hn).
    + destruct Hi as (->&rec'&->). cbn [collect]. rewrite Hn.
      pose proof (IH polls rec') as Hrest. destruct (collect next polls _). simpl in *.
      f_equal. apply Hrest. lia.
    + destruct Hi as [-> Hs]. by apply (collect_one now polls _ _ _ Hn).
Qed.

End validators.

(** ** The four validators *)

Section judges.
Context (from_str : string → result string Value).

Definition chat_judge (event : SseEvent) : Verdict Value :=
  if is_done event then Silent
  else match parse_json_event from_str (sse_data event) with Ok v => More v | Err e => Bad e end.

Definition raw_chat_judge (event : SseEvent) : Verdict SseEvent :=
  if is_done event then Last event
  else match parse_json_event from_str (sse_data event) with Ok _ => More event | Err e => Bad e end.

Definition responses_judge (event : SseEvent) : Verdict ResponseEvent :=
  if is_done event then Silent
  else
    match parse_json_event from_str (sse_data event) with
    | Ok v =>
        let name := event_name event v in
        if terminal_event name then Last (mkResponseEvent name v) else More (mkResponseEvent name v)
    | Err e => Bad e
    end.

Definition raw_responses_judge (event : SseEvent) : Verdict SseEvent :=
  if is_done event then Last event
  else
    match parse_json_event from_str (sse_data event) with
    | Ok v => if terminal_event (event_name event v) then Last event else More event
    | Err e => Bad e
    end.

Ltac validator_cases :=
  intros now items rec; cbv zeta;
  destruct items as [|[event data id|[error|]|text] items]; try (split; [done|by intros now']);
  cbn [item_result next_event src_items v_phase v_src];
  unfold chat_judge, raw_chat_judge, responses_judge, raw_responses_judge;
  unfold next_chat, next_raw_chat, next_responses, next_raw_responses;
  cbn [next_event src_items v_phase v_src src_recorder];
  repeat match goal with
  | |- context [if is_done ?e then _ else _] => destruct (is_done e)
  | |- context [match parse_json_event ?f ?d with _ => _ end] => destruct (parse_json_event f d)
  | |- context [if terminal_event ?n then _ else _] => destruct (terminal_event n)
  end; cbv zeta; try done; try (split; [done|by intros now']); (split; [done|by eexists]).

Lemma chat_implements : implements (next_chat from_str) chat_judge ended_chat.
Proof. validator_cases. Qed.
Lemma raw_chat_implements : implements (next_raw_chat from_str) raw_chat_judge ended_chat.
Proof. validator_cases. Qed.
Lemma responses_implements : implements (next_responses from_str) responses_judge ended_responses.
Proof. validator_cases. Qed.
Lemma raw_responses_implements :
  implements (next_raw_responses from_str) raw_responses_judge ended_responses.
Proof. validator_cases. Qed.

(** The two facts a reading gives for free. *)
Definition never_truncates {A} (judge : SseEvent → Verdict A) (items : list StreamItem)
    (out : list (Result A)) : Prop :=
  (∀ i e, out !! i = Some (Err e) → S i = length out)
  ∧ (Forall (λ r, is_ok r = true) out → ∃ item, item ∈ items ∧ terminates judge item).

Lemma reading_never_truncates {A} (judge : SseEvent → Verdict A) ended items :
  never_truncates judge items (reading judge ended items).
Proof. split; [apply reading_error_last|apply reading_ok_terminates]. Qed.

Lemma views_keep_errors (items : list (Result Value)) e :
  Err e ∈ items →
  Err e ∈ chat_completions_text items
  ∧ ∀ A (from_value : Value → result string A), Err e ∈ chat_completion_chunks from_value items.
Proof.
  intros Hin. split.
  - apply list_elem_of_omap. by exists (Err e).
  - intros A from_value. apply (list_elem_of_fmap_2 (chunk_item from_value)) in Hin. exact Hin.
Qed.

(** C16. A prompt stream, chat or Responses, typed or raw, yields exactly its
    pure reading, and is never silently truncated: an error is the last thing
    it yields, and a stream that ends without one has reached its end, a
    [[DONE]] frame or for Responses a terminal event, with every payload
    before it valid.  The text and the typed-chunk views of a chat keep every
    error. *)
Theorem streams_never_truncate items rec polls :
  length items < length polls →
  let v := mkValid (mkSse items rec) Reading in
  let chat := (collect (next_chat from_str) polls v).1 in
  let raw_chat := (collect (next_raw_chat from_str) polls v).1 in
  let typed := (collect (next_responses from_str) polls v).1 in
  let raw := (collect (next_raw_responses from_str) polls v).1 in
  (chat = reading chat_judge ended_chat items ∧ never_truncates chat_judge items chat)
  ∧ (raw_chat = reading raw_chat_judge ended_chat items
     ∧ never_truncates raw_chat_judge items raw_chat)
  ∧ (typed = reading responses_judge ended_responses items
     ∧ never_truncates responses_judge items typed)
  ∧ (raw = reading raw_responses_judge ended_responses items
     ∧ never_truncates raw_responses_judge items raw)
  ∧ ∀ e, Err e ∈ chat →
      Err e ∈ chat_completions_text chat
      ∧ ∀ A (from_value : Value → result string A), Err e ∈ chat_completion_chunks from_value chat.
Proof.
  intros Hl. cbv zeta.
  rewrite (collect_reading _ _ _ items polls rec chat_implements Hl).
  rewrite (collect_reading _ _ _ items polls rec raw_chat_implements Hl).
  rewrite (collect_reading _ _ _ items polls rec responses_implements Hl).
  rewrite (collect_reading _ _ _ items polls rec raw_responses_implements Hl).
  auto 8 using reading_never_truncates, views_keep_errors.
Qed.

End judges.

(** ** Reporting *)

(** The recorder of an open stream: recordable, its attempt in flight and
    stored, and reported exactly when finished. *)
Record tracked (r : RequestRecorder) : Prop := {
  tr_wf : wf_recorder r;
  tr_recordable : recordable r = true;
  tr_attempts : attempts r ≠ [];
  tr_index : is_Some (current_index r);
  tr_reported : finished r = true → length (sink r) = 1;
}.

Lemma tracked_first r : tracked r → is_Some (first_started r).
Proof.
  intros [[_ Hf _ _ _] _ _ [i Hi] _]. unfold wf_flight in Hf. rewrite Hi in Hf.
  destruct (first_started r); [by eexists|]. by destruct (attempt_started r), (current_host r).
Qed.

Lemma finish_tracked now e r : tracked r → tracked (finish now e r) ∧ length (sink (finish now e r)) = 1.
Proof.
  intros Ht. destruct (finished r) eqn:Hf.
  { unfold finish. rewrite Hf. split; [done|by apply Ht]. }
  destruct (tracked_first r Ht) as [first Hfirst]. destruct Ht as [Hwf Hrec Hat Hi _].
  destruct (last (attempts r)) as [final|] eqn:Hl; [|by apply last_None in Hl].
  rewrite (finish_emits now e r first final Hwf Hf Hrec Hfirst Hl).
  split; [|done]. split; try done. rewrite <-(finish_emits now e r first final Hwf Hf Hrec Hfirst Hl).
  by apply finish_wf.
Qed.

Lemma store_attempt_frame a r :
  recordable (store_attempt a r) = recordable r ∧ current_index (store_attempt a r) = current_index r
  ∧ finished (store_attempt a r) = finished r ∧ sink (store_attempt a r) = sink r
  ∧ attempts (store_attempt a r) ≠ [].
Proof.
  unfold store_attempt. destruct (_ <? _)%nat eqn:E; reflect; cbn; split_and!; try done.
  - intros Hn. apply (f_equal length) in Hn. rewrite length_insert in Hn. simpl in Hn. lia.
  - by destruct (attempts r).
Qed.

Lemma on_transport_error_tracked now class t o b r :
  tracked r → tracked (on_transport_error now class t o b r).
Proof.
  intros Ht. pose proof (on_transport_error_wf now class t o b r (tr_wf _ Ht)) as Hwf.
  revert Hwf. unfold on_transport_error. destruct (in_flight r) as [[[??]?]|]; [|done].
  destruct (failure_facts _ _ _) as [[??]?]. intros Hwf.
  match goal with |- tracked (store_attempt ?a r) =>
    destruct (store_attempt_frame a r) as (E1&E2&E3&E4&E5) end.
  destruct Ht. split; rewrite ?E1, ?E2, ?E3, ?E4; done.
Qed.

Lemma on_aborted_tracked now r : tracked r → tracked (on_aborted now r).
Proof.
  intros Ht. pose proof (on_aborted_wf now r (tr_wf _ Ht)) as Hwf.
  revert Hwf. unfold on_aborted. destruct (in_flight r) as [[[??]?]|]; [|done]. intros Hwf.
  match goal with |- tracked (store_attempt ?a r) =>
    destruct (store_attempt_frame a r) as (E1&E2&E3&E4&E5) end.
  destruct Ht. split; rewrite ?E1, ?E2, ?E3, ?E4; done.
Qed.

Lemma on_first_event_tracked now r : tracked r → tracked (on_first_event now r).
Proof.
  intros [Hwf]. pose proof (on_first_event_wf now r Hwf) as Hwf'. revert Hwf'.
  unfold on_first_event. destruct (ttft_ms r), (first_started r); intros; by split.
Qed.

Lemma drop_recorder_tracked now r :
  tracked r → tracked (drop_recorder now r) ∧ length (sink (drop_recorder now r)) = 1.
Proof.
  intros Ht. unfold drop_recorder. destruct (finished r) eqn:Hf; [split; [done|by apply Ht]|].
  by apply finish_tracked, on_aborted_tracked.
Qed.

Definition tracked_src (s : Sse) : Prop :=
  ∃ st, src_recorder s = Some st ∧ tracked (stream_recorder st).

Lemma tracked_update (f : StreamState → StreamState) items s :
  (∀ st, tracked (stream_recorder st) → tracked (stream_recorder (f st))) →
  tracked_src s → tracked_src (mkSse items (f <$> src_recorder s)).
Proof. intros Hf (st&Hs&Ht). exists (f st). simpl. rewrite Hs. auto. Qed.

Lemma complete_tracked now s : tracked_src s → tracked_src (complete now s).
Proof. apply tracked_update. intros st Ht. by apply finish_tracked. Qed.

Lemma on_wire_failure_tracked now class t st :
  tracked (stream_recorder st) → tracked (stream_recorder (on_wire_failure now class t st)).
Proof. intros Ht. by apply finish_tracked, on_transport_error_tracked. Qed.

Lemma next_event_tracked now s : tracked_src s → tracked_src (next_event now s).2.
Proof.
  intros Hs. unfold next_event. destruct (src_items s) as [|[event data id|[error|]|text] items].
  - by apply complete_tracked.
  - apply tracked_update; [|done]. intros st Ht. unfold on_event.
    destruct (body_started st); [done|]. by apply on_first_event_tracked.
  - apply tracked_update; [|done]. intros. by apply on_wire_failure_tracked.
  - apply tracked_update; [|done]. intros. by apply on_wire_failure_tracked.
  - apply complete_tracked. by destruct Hs as (st&?&?); exists st.
Qed.

Section reporting.
Context (from_str : string → result string Value).

Ltac poll_tracked :=
  let now := fresh in let v := fresh "v" in let Hv := fresh "Hv" in
  intros now v Hv;
  match goal with |- tracked_src (v_src (?f _ now v).2) => unfold f end;
  destruct (v_phase v); try done; try (by apply complete_tracked);
  pose proof (next_event_tracked now (v_src v) Hv) as Hn;
  destruct (next_event now (v_src v)) as [[[event|e]|] s]; simpl in Hn; try done;
  destruct (is_done event); [by apply complete_tracked|];
  by destruct (parse_json_event _ _).

Lemma next_chat_tracked : ∀ now v, tracked_src (v_src v) → tracked_src (v_src (next_chat from_str now v).2).
Proof. poll_tracked. Qed.
Lemma next_raw_chat_tracked :
  ∀ now v, tracked_src (v_src v) → tracked_src (v_src (next_raw_chat from_str now v).2).
Proof. poll_tracked. Qed.
Lemma next_responses_tracked :
  ∀ now v, tracked_src (v_src v) → tracked_src (v_src (next_responses from_str now v).2).
Proof. poll_tracked. Qed.
Lemma next_raw_responses_tracked :
  ∀ now v, tracked_src (v_src v) → tracked_src (v_src (next_raw_responses from_str now v).2).
Proof. poll_tracked. Qed.

Lemma collect_tracked {S A} (src : S → Sse) (next : Instant → S → option (Result A) * S) polls v :
  (∀ now v, tracked_src (src v) → tracked_src (src (next now v).2)) →
  tracked_src (src v) → tracked_src (src (collect next polls v).2).
Proof.
  intros Hn. revert v. induction polls as [|now polls IH]; intros v Hv; simpl; [done|].
  specialize (Hn now v Hv). destruct (next now v) as [[x|] v']; simpl in *; [|done].
  specialize (IH v' Hn). by destruct (collect next polls v').
Qed.

(** How often the record was reported once the stream is gone. *)
Definition reports (now : Instant) (s : Sse) : option nat :=
  (λ st, length (sink (stream_recorder st))) <$> src_recorder (drop_stream now s).

Lemma drop_reports now s : tracked_src s → reports now s = Some 1.
Proof.
  intros (st&Hs&Ht). unfold reports, drop_stream. simpl. rewrite Hs. simpl.
  f_equal. by apply drop_recorder_tracked.
Qed.

(** C17. A recorded stream is reported exactly once, however it is consumed:
    polled to its end, into an error, or dropped after any number of polls,
    raw or through any validator. *)
Theorem stream_reports_exactly_once items st polls now :
  tracked (stream_recorder st) →
  let s := mkSse items (Some st) in
  let v := mkValid s Reading in
  reports now (collect next_event polls s).2 = Some 1
  ∧ reports now (v_src (collect (next_chat from_str) polls v).2) = Some 1
  ∧ reports now (v_src (collect (next_raw_chat from_str) polls v).2) = Some 1
  ∧ reports now (v_src (collect (next_responses from_str) polls v).2) = Some 1
  ∧ reports now (v_src (collect (next_raw_responses from_str) polls v).2) = Some 1.
Proof.
  intros Ht. cbv zeta. assert (tracked_src (mkSse items (Some st))) as Hs by (by exists st).
  split_and!; apply drop_reports.
  - by apply (collect_tracked id next_event); [apply next_event_tracked|].
  - by apply (collect_tracked v_src); [apply next_chat_tracked|].
  - by apply (collect_tracked v_src); [apply next_raw_chat_tracked|].
  - by apply (collect_tracked v_src); [apply next_responses_tracked|].
  - by apply (collect_tracked v_src); [apply next_raw_responses_tracked|].
Qed.

End reporting.

(** ** A terminal frame does not yet complete the record

    The Responses validators yield the terminal event first and complete the
    record when they are polled again; the chat validators complete it
    before they yield or return. *)
Section terminal.
Context (from_str : string → result string Value).

Definition final_outcomes (s : Sse) : list FinalOutcome.t :=
  match src_recorder s with
  | Some st => map (λ e : Emission, ev_final_outcome e.1) (sink (stream_recorder st))
  | None => []
  end.

Lemma final_outcomes_drop now items st :
  final_outcomes (drop_stream now (mkSse items (Some st)))
  = map (λ e : Emission, ev_final_outcome e.1) (sink (drop_recorder now (stream_recorder st))).
Proof. reflexivity. Qed.

Lemma on_event_frame now st :
  let r' := stream_recorder (on_event now st) in
  finished r' = finished (stream_recorder st) ∧ recordable r' = recordable (stream_recorder st)
  ∧ attempts r' = attempts (stream_recorder st)
  ∧ current_index r' = current_index (stream_recorder st).
Proof.
  unfold on_event. destruct (body_started st); [done|]. cbn. unfold on_first_event.
  by destruct (ttft_ms (stream_recorder st)), (first_started (stream_recorder st)).
Qed.

Lemma on_event_tracked now st :
  tracked (stream_recorder st) → tracked (stream_recorder (on_event now st)).
Proof.
  intros Ht. unfold on_event. destruct (body_started st); [done|]. by apply on_first_event_tracked.
Qed.

(** C40. A caller that stops at the terminal event of a Responses stream,
    without polling once more, has its finished call reported as aborted;
    polled once more first, the same call is reported with the outcome of
    its response. *)
Theorem terminal_event_then_drop_is_aborted now now' event data id items st value final :
  tracked (stream_recorder st) → finished (stream_recorder st) = false →
  last (attempts (stream_recorder st)) = Some final →
  is_done (mkSseEvent (Some event) data (Some id)) = false →
  parse_json_event from_str data = Ok value →
  terminal_event (event_name (mkSseEvent (Some event) data (Some id)) value) = true →
  let v := mkValid (mkSse (Decoded event data id :: items) (Some st)) Reading in
  let v1 := (next_responses from_str now v).2 in
  (∃ r, (next_responses from_str now v).1 = Some (Ok r))
  ∧ final_outcomes (drop_stream now' (v_src v1)) = [FinalOutcome.Outcome AttemptOutcome.Aborted]
  ∧ final_outcomes (drop_stream now' (v_src (next_responses from_str now' v1).2))
    = [FinalOutcome.Outcome (ar_outcome final)].
Proof.
  intros Ht Hf Hl Hd Hp Hterm. cbv zeta.
  unfold next_responses at 1 2 4. cbn [v_phase v_src next_event src_items src_recorder].
  rewrite Hd. cbn [sse_data]. rewrite Hp. cbv zeta. rewrite Hterm. cbn [fst snd v_src].
  set (st1 := on_event now st).
  destruct (on_event_frame now st) as (Ef&_&Ea&_). fold st1 in Ef, Ea.
  pose proof (on_event_tracked now st Ht) as Ht1. fold st1 in Ht1.
  split_and!; [by eexists| |].
  - destruct (tr_index _ Ht1) as [i Hi].
    destruct (drop_reports_aborted now' (stream_recorder st1) i (tr_wf _ Ht1)) as (ev&cs&Hs&Ho&_);
      [by rewrite Ef|by apply Ht1|done|].
    etrans; [apply (final_outcomes_drop now' items st1)|]. rewrite Hs. simpl. by rewrite Ho.
  - etrans; [apply (final_outcomes_drop now' items (on_complete now' st1))|].
    destruct (tracked_first _ Ht1) as [first Hfirst].
    assert (finished (stream_recorder st1) = false) as Hf1 by (by rewrite Ef).
    rewrite <-Ea in Hl. cbn [on_complete stream_recorder].
    rewrite (finish_emits now' false _ first final (tr_wf _ Ht1) Hf1 (tr_recordable _ Ht1) Hfirst Hl).
    done.
Qed.

End terminal.
