(* ===== verification/Wire.v ===== *)
(** * The beacon schema as serialised ([telemetry/wire.rs])

    What a finished call and a counter row become on the wire, and how
    counter rows accumulate.  Serialisation itself belongs to serde_json;
    the duration bound is the constant of the same value and name in
    [Recorder]. *)
From S2P Require Import Prelude Text F64 Http Config Vocab Recorder Identity.

Definition MAX_AGE_MS : N := 86400000.
Definition MAX_COUNT : N := 10000000.
Definition MAX_WIRE_ATTEMPTS : nat := 16.

Module SampleReason.
Inductive t : Type := Failure | Retried | Slow | Random.
Definition as_str (x : t) : string :=
  match x with
  | Failure => "failure"
  | Retried => "retried"
  | Slow => "slow"
  | Random => "random"
  end.
End SampleReason.

Record WireAttempt := mkWireAttempt {
  wa_index : N;
  wa_host : string;
  wa_outcome : string;
  wa_http_status : option N;
  wa_error_class : option string;
  wa_error_source : option string;
  wa_retry_after_ms : option N;
  wa_elapsed_ms : N;
  wa_ttfb_ms : option N;
  wa_request_id : option string;
  wa_moved : bool;
  wa_should_retry : option bool;
}.

Definition bounded (value minimum maximum : N) : N := clamp value minimum maximum.

Definition bounded_optional (value : option N) (minimum maximum : N) : option N :=
  opt_filter (in_range minimum maximum) value.

Definition wire_status (status : option N) : option N := opt_filter (in_range 100 599) status.

(** [WireAttempt::from_record]. *)
Definition from_record (record : AttemptRecord) : WireAttempt :=
  {| wa_index := bounded (N.of_nat (ar_index record)) 0 99;
     wa_host := Host.as_str (ar_host record);
     wa_outcome := AttemptOutcome.as_str (ar_outcome record);
     wa_http_status := wire_status (ar_http_status record);
     wa_error_class := ErrorClass.as_str <$> ar_error_class record;
     wa_error_source := ErrorSource.as_str <$> ar_error_source record;
     wa_retry_after_ms := bounded_optional (ar_retry_after_ms record) 0 MAX_DURATION_MS;
     wa_elapsed_ms := bounded (ar_elapsed_ms record) 0 MAX_DURATION_MS;
     wa_ttfb_ms := bounded_optional (ar_ttfb_ms record) 0 MAX_DURATION_MS;
     wa_request_id := opt_filter valid_request_id (ar_request_id record);
     wa_moved := ar_moved record;
     wa_should_retry :=
       match ar_should_retry record with
       | ShouldRetry.True => Some true
       | ShouldRetry.False => Some false
       | ShouldRetry.Absent => None
       end |}.

Record WireEvent := mkWireEvent {
  we_age_ms : N;
  we_plane : string;
  we_endpoint : string;
  we_method : string;
  we_streaming : bool;
  we_provider_pinned : bool;
  we_model : option string;
  we_attempts : list WireAttempt;
  we_final_outcome : string;
  we_final_http_status : option N;
  we_total_ms : N;
  we_ttft_ms : option N;
  we_failover_used : bool;
  we_timeout_phase : string;
  we_configured_timeout_ms : option N;
  we_sample_rate : f64;
  we_sample_reason : string;
}.
#[global] Instance WireEvent_settable : Settable WireEvent := λ w,
  mkWireEvent (we_age_ms w) (we_plane w) (we_endpoint w) (we_method w) (we_streaming w)
    (we_provider_pinned w) (we_model w) (we_attempts w) (we_final_outcome w)
    (we_final_http_status w) (we_total_ms w) (we_ttft_ms w) (we_failover_used w)
    (we_timeout_phase w) (we_configured_timeout_ms w) (we_sample_rate w) (we_sample_reason w).

(** The two methods the schema can carry. *)
Definition wire_method (m : Method) : option string :=
  match m with GET => Some "GET" | POST => Some "POST" | _ => None end.

(** [sample_rate.is_finite() && sample_rate > 0.0 && sample_rate <= 1.0]. *)
Definition rate_in_schema (rate : f64) : bool :=
  f64_is_finite rate && f64_ltb f64_zero rate && f64_leb rate f64_one.

(** [WireEvent::from_event]. *)
Definition from_event (event : RequestEvent) (sample_reason : SampleReason.t) (sample_rate : f64)
    : option WireEvent :=
  let attempts := map from_record (take MAX_WIRE_ATTEMPTS (ev_attempts event)) in
  if match attempts with [] => true | _ => false end || negb (rate_in_schema sample_rate) then None
  else
    method ← wire_method (ev_method event);
    Some {| we_age_ms := 0;
            we_plane := "inference";
            we_endpoint := Endpoint.as_str (ev_endpoint event);
            we_method := method;
            we_streaming := ev_streaming event;
            we_provider_pinned := ev_provider_pinned event;
            we_model := opt_filter valid_model (ev_model event);
            we_attempts := attempts;
            we_final_outcome := FinalOutcome.as_str (ev_final_outcome event);
            we_final_http_status := wire_status (ev_final_http_status event);
            we_total_ms := bounded (ev_total_ms event) 0 MAX_DURATION_MS;
            we_ttft_ms := bounded_optional (ev_ttft_ms event) 0 MAX_DURATION_MS;
            we_failover_used := ev_failover_used event;
            we_timeout_phase := TimeoutPhase.as_str (ev_timeout_phase event);
            we_configured_timeout_ms :=
              bounded_optional (ev_configured_timeout_ms event) 1 MAX_DURATION_MS;
            we_sample_rate := sample_rate;
            we_sample_reason := SampleReason.as_str sample_reason |}.

(** [WireEvent::aged]. *)
Definition aged (age_ms : N) (w : WireEvent) : WireEvent :=
  w <| we_age_ms := bounded age_ms 0 MAX_AGE_MS |>.

(** A [BTreeMap] keyed by the bucket's name. *)
Definition wire_histogram (histogram : Histogram) : gmap string N :=
  list_to_map
    (map (λ bc, (LatencyBucket.as_str bc.1, bounded bc.2 0 MAX_COUNT)) (map_to_list histogram)).

Record WireCounter := mkWireCounter {
  wc_window_start_age_ms : N;
  wc_level : string;
  wc_endpoint : string;
  wc_streaming : bool;
  wc_host : string;
  wc_outcome : string;
  wc_error_class : option string;
  wc_http_status_class : string;
  wc_timeout_phase : string;
  wc_timeout_floor_met : bool;
  wc_provider_pinned : bool;
  wc_requests : N;
  wc_attempts : N;
  wc_failover_used : N;
  wc_first_attempt_success : N;
  wc_total_ms_hist : gmap string N;
  wc_first_event_ms_hist : gmap string N;
}.

(** [WireCounter::from_row]. *)
Definition from_row (key : CounterKey) (row : CounterRow) (window_age_ms : N) : WireCounter :=
  {| wc_window_start_age_ms := bounded window_age_ms 0 MAX_AGE_MS;
     wc_level := Level.as_str (ck_level key);
     wc_endpoint := Endpoint.as_str (ck_endpoint key);
     wc_streaming := ck_streaming key;
     wc_host := Host.as_str (ck_host key);
     wc_outcome := AttemptOutcome.as_str (ck_outcome key);
     wc_error_class := ErrorClass.as_str <$> ck_error_class key;
     wc_http_status_class := HttpStatusClass.as_str (ck_http_status_class key);
     wc_timeout_phase := TimeoutPhase.as_str (ck_timeout_phase key);
     wc_timeout_floor_met := ck_timeout_floor_met key;
     wc_provider_pinned := ck_provider_pinned key;
     wc_requests := bounded (cr_requests row) 1 MAX_COUNT;
     wc_attempts := bounded (cr_attempts row) 0 MAX_COUNT;
     wc_failover_used := bounded (cr_failover_used row) 0 MAX_COUNT;
     wc_first_attempt_success := bounded (cr_first_attempt_success row) 0 MAX_COUNT;
     wc_total_ms_hist := wire_histogram (cr_total_ms_hist row);
     wc_first_event_ms_hist := wire_histogram (cr_first_event_ms_hist row) |}.

Record WireBatch := mkWireBatch {
  wb_schema_version : N;
  wb_batch_id : string;
  wb_instance_id : string;
  wb_seq : N;
  wb_sent_at_ms : N;
  wb_sdk : SdkIdentity;
  wb_synthetic : bool;
  wb_dropped_since_last : N;
  wb_events : list WireEvent;
  wb_counters : list WireCounter;
}.
#[global] Instance WireBatch_settable : Settable WireBatch := λ b,
  mkWireBatch (wb_schema_version b) (wb_batch_id b) (wb_instance_id b) (wb_seq b)
    (wb_sent_at_ms b) (wb_sdk b) (wb_synthetic b) (wb_dropped_since_last b) (wb_events b)
    (wb_counters b).

(** [WireBatch::new]; [since_epoch] is [SystemTime::now()] as a duration
    since the epoch, [None] before it. *)
Definition new_batch (since_epoch : option Duration) (batch_id instance_id : string) (seq : N)
    (sdk : SdkIdentity) : WireBatch :=
  {| wb_schema_version := TELEMETRY_SCHEMA_VERSION;
     wb_batch_id := batch_id;
     wb_instance_id := instance_id;
     wb_seq := seq;
     wb_sent_at_ms :=
       default 0%N (since_epoch >>?
                    λ d, if (as_millis d <=? u64_max)%N then Some (as_millis d) else None);
     wb_sdk := sdk;
     wb_synthetic := false;
     wb_dropped_since_last := 0;
     wb_events := [];
     wb_counters := [] |}.

(** One iteration of [merge_histogram]'s loop. *)
Definition merge_bucket (b : LatencyBucket.t) (count : N) (target : Histogram) : Histogram :=
  <[b := sat_add (default 0%N (target !! b)) (bounded count 0 MAX_COUNT)]> target.

Definition merge_histogram (target source : Histogram) : Histogram :=
  map_fold merge_bucket target source.

Definition merge_counter_increment (target increment : CounterRow) : CounterRow :=
  {| cr_requests := sat_add (cr_requests target) (bounded (cr_requests increment) 0 MAX_COUNT);
     cr_attempts := sat_add (cr_attempts target) (bounded (cr_attempts increment) 0 MAX_COUNT);
     cr_failover_used :=
       sat_add (cr_failover_used target) (bounded (cr_failover_used increment) 0 MAX_COUNT);
     cr_first_attempt_success :=
       sat_add (cr_first_attempt_success target)
         (bounded (cr_first_attempt_success increment) 0 MAX_COUNT);
     cr_total_ms_hist := merge_histogram (cr_total_ms_hist target) (cr_total_ms_hist increment);
     cr_first_event_ms_hist :=
       merge_histogram (cr_first_event_ms_hist target) (cr_first_event_ms_hist increment) |}.

(** ** The schema the control plane accepts *)

Definition one_of (vocabulary : list string) (s : string) : bool := bool_decide (s ∈ vocabulary).
Definition at_most (maximum : N) (n : N) : bool := (n <=? maximum)%N.

Definition attempt_in_schema (a : WireAttempt) : bool :=
  at_most 99 (wa_index a)
  && one_of TELEMETRY_HOSTS (wa_host a)
  && one_of TELEMETRY_OUTCOMES (wa_outcome a)
  && is_none_or (in_range 100 599) (wa_http_status a)
  && is_none_or (one_of TELEMETRY_ERROR_CLASSES) (wa_error_class a)
  && is_none_or (at_most MAX_DURATION_MS) (wa_retry_after_ms a)
  && at_most MAX_DURATION_MS (wa_elapsed_ms a)
  && is_none_or (at_most MAX_DURATION_MS) (wa_ttfb_ms a)
  && is_none_or valid_request_id (wa_request_id a).

Definition event_in_schema (w : WireEvent) : bool :=
  at_most MAX_AGE_MS (we_age_ms w)
  && one_of TELEMETRY_ENDPOINTS (we_endpoint w)
  && one_of ["GET"; "POST"] (we_method w)
  && is_none_or valid_model (we_model w)
  && match we_attempts w with [] => false | _ => true end
  && (length (we_attempts w) <=? MAX_WIRE_ATTEMPTS)%nat
  && forallb attempt_in_schema (we_attempts w)
  && one_of TELEMETRY_FINAL_OUTCOMES (we_final_outcome w)
  && is_none_or (in_range 100 599) (we_final_http_status w)
  && at_most MAX_DURATION_MS (we_total_ms w)
  && is_none_or (at_most MAX_DURATION_MS) (we_ttft_ms w)
  && one_of TELEMETRY_TIMEOUT_PHASES (we_timeout_phase w)
  && is_none_or (in_range 1 MAX_DURATION_MS) (we_configured_timeout_ms w)
  && rate_in_schema (we_sample_rate w)
  && one_of ["failure"; "retried"; "slow"; "random"] (we_sample_reason w).

Definition histogram_in_schema (h : gmap string N) : Prop :=
  map_Forall (λ name count, name ∈ TELEMETRY_LATENCY_BUCKETS ∧ (count <= MAX_COUNT)%N) h.

Definition counter_in_schema (c : WireCounter) : Prop :=
  (wc_window_start_age_ms c <= MAX_AGE_MS)%N
  ∧ wc_endpoint c ∈ TELEMETRY_ENDPOINTS ∧ wc_host c ∈ TELEMETRY_HOSTS
  ∧ wc_outcome c ∈ TELEMETRY_OUTCOMES ∧ wc_timeout_phase c ∈ TELEMETRY_TIMEOUT_PHASES
  ∧ (1 <= wc_requests c <= MAX_COUNT)%N ∧ (wc_attempts c <= MAX_COUNT)%N
  ∧ (wc_failover_used c <= MAX_COUNT)%N ∧ (wc_first_attempt_success c <= MAX_COUNT)%N
  ∧ histogram_in_schema (wc_total_ms_hist c) ∧ histogram_in_schema (wc_first_event_ms_hist c).

Lemma at_most_bounded n lo hi : (lo <= hi)%N → at_most hi (bounded n lo hi) = true.
Proof. intros. apply N.leb_le. apply clamp_bounds. done. Qed.

Lemma is_none_or_filter {A} (p q : A → bool) o :
  (∀ a, p a = true → q a = true) → is_none_or q (opt_filter p o) = true.
Proof. intros Hpq. destruct o as [a|]; simpl; [|done]. destruct (p a) eqn:E; simpl; auto. Qed.

Lemma at_most_optional o lo hi : is_none_or (at_most hi) (bounded_optional o lo hi) = true.
Proof. apply is_none_or_filter. intros a [_ ?]%in_range_true. by apply N.leb_le. Qed.

Lemma is_none_or_filter_same {A} (p : A → bool) o : is_none_or p (opt_filter p o) = true.
Proof. by apply is_none_or_filter. Qed.

Lemma error_class_known o :
  is_none_or (one_of TELEMETRY_ERROR_CLASSES) (ErrorClass.as_str <$> o) = true.
Proof. by destruct o as [[]|]. Qed.

Lemma from_record_in_schema a : attempt_in_schema (from_record a) = true.
Proof.
  unfold attempt_in_schema. simpl.
  rewrite !at_most_optional, !at_most_bounded by (unfold MAX_DURATION_MS; lia).
  rewrite error_class_known. unfold wire_status. rewrite !is_none_or_filter_same.
  by destruct (ar_host a), (ar_outcome a).
Qed.

Lemma from_event_None event reason rate :
  from_event event reason rate = None ↔
  ev_attempts event = [] ∨ rate_in_schema rate = false ∨ wire_method (ev_method event) = None.
Proof.
  unfold from_event. destruct (ev_attempts event) as [|a l]; simpl; [naive_solver|].
  destruct (rate_in_schema rate); simpl; [|naive_solver].
  destruct (wire_method (ev_method event)); naive_solver.
Qed.

Lemma from_event_in_schema event reason rate w age :
  from_event event reason rate = Some w → event_in_schema (aged age w) = true.
Proof.
  intros H. unfold from_event in H. cbv zeta in H. destruct (_ || _) eqn:Hor; [done|].
  apply orb_false_iff in Hor as [Hne Hrate]. apply negb_false_iff in Hrate.
  destruct (wire_method (ev_method event)) as [m|] eqn:Hm; simplify_eq/=.
  unfold event_in_schema. cbn -[take map MAX_WIRE_ATTEMPTS from_record].
  rewrite !at_most_optional, !at_most_bounded by (unfold MAX_DURATION_MS, MAX_AGE_MS; lia).
  unfold wire_status, bounded_optional. rewrite !is_none_or_filter_same, Hrate.
  rewrite length_map, length_take, (proj2 (Nat.leb_le _ _)) by lia.
  rewrite (proj2 (forallb_forall _ _))
    by (intros ? (a&<-&_)%in_map_iff; apply from_record_in_schema).
  assert (one_of ["GET"; "POST"] m = true) as -> by (destruct (ev_method event); by simplify_eq/=).
  rewrite !andb_true_r. destruct (map _ _); [done|].
  by destruct (ev_endpoint event), (ev_final_outcome event) as [[]|], (ev_timeout_phase event),
    reason.
Qed.

(** A sampled call is refused only when the schema cannot carry it (no
    attempt, a rate outside [(0, 1]], a method other than GET and POST), and
    whatever is put on the wire, at any age, satisfies the whole closed
    schema: every string in its vocabulary or grammar, every number in its
    range, at most sixteen attempts and at least one. *)
Theorem wire_event_closed_schema event reason rate :
  (from_event event reason rate = None ↔
     ev_attempts event = [] ∨ rate_in_schema rate = false ∨ wire_method (ev_method event) = None)
  ∧ (∀ w age, from_event event reason rate = Some w → event_in_schema (aged age w) = true).
Proof. split; [apply from_event_None|intros; by eapply from_event_in_schema]. Qed.

(** ** Counter rows *)

#[global] Instance as_str_inj : Inj (=) (=) LatencyBucket.as_str.
Proof. by intros [] []. Qed.

Lemma wire_histogram_lookup h b :
  wire_histogram h !! LatencyBucket.as_str b = (λ c, N.min c MAX_COUNT) <$> h !! b.
Proof.
  unfold wire_histogram. set (f := λ bc : LatencyBucket.t * N, _).
  assert (NoDup (map f (map_to_list h)).*1) as Hnd.
  { pose proof (NoDup_fst_map_to_list h) as Hnd. apply (NoDup_fmap_2 LatencyBucket.as_str) in Hnd.
    assert ((map f (map_to_list h)).*1 = LatencyBucket.as_str <$> (map_to_list h).*1) as -> by
      (clear; induction (map_to_list h) as [|x l IH]; simpl; [done|by f_equal]).
    done. }
  apply option_eq. intros c. rewrite <-(elem_of_list_to_map _ _ _ Hnd), list_elem_of_fmap.
  rewrite fmap_Some. unfold f, bounded, clamp. split.
  - intros ([b' c']&[= Hb ->]&Hin). apply as_str_inj in Hb as ->.
    apply elem_of_map_to_list in Hin. exists c'. split; [done|lia].
  - intros (c'&Hc%elem_of_map_to_list&->). exists (b, c'). simpl. split; [f_equal; lia|done].
Qed.

Lemma wire_histogram_in_schema h : histogram_in_schema (wire_histogram h).
Proof.
  intros name c Hc. unfold wire_histogram in Hc.
  apply elem_of_list_to_map_2, list_elem_of_fmap in Hc as ([b n]&[= -> ->]&_).
  split; [by destruct b; apply (bool_decide_unpack _)|]. unfold bounded, clamp. simpl. lia.
Qed.

Lemma from_row_in_schema key row age : counter_in_schema (from_row key row age).
Proof.
  assert (1 <= MAX_COUNT)%N by (unfold MAX_COUNT; lia).
  unfold counter_in_schema. simpl.
  split_and!; try apply wire_histogram_in_schema; try (unfold bounded, clamp; lia).
  - by destruct (ck_endpoint key); apply (bool_decide_unpack _).
  - by destruct (ck_host key); apply (bool_decide_unpack _).
  - by destruct (ck_outcome key); apply (bool_decide_unpack _).
  - by destruct (ck_timeout_phase key); apply (bool_decide_unpack _).
Qed.

(** Every counter row on the wire satisfies the closed schema, and a
    count within the schema's range is carried exactly: the row's four
    counts and every bucket of its two histograms. *)
Theorem wire_counter_exact key row age :
  counter_in_schema (from_row key row age)
  ∧ wc_attempts (from_row key row age) = N.min (cr_attempts row) MAX_COUNT
  ∧ ((1 <= cr_requests row)%N →
       wc_requests (from_row key row age) = N.min (cr_requests row) MAX_COUNT)
  ∧ (∀ b, wc_total_ms_hist (from_row key row age) !! LatencyBucket.as_str b
          = (λ c, N.min c MAX_COUNT) <$> cr_total_ms_hist row !! b)
  ∧ (∀ b, wc_first_event_ms_hist (from_row key row age) !! LatencyBucket.as_str b
          = (λ c, N.min c MAX_COUNT) <$> cr_first_event_ms_hist row !! b).
Proof.
  assert (1 <= MAX_COUNT)%N by (unfold MAX_COUNT; lia).
  split; [apply from_row_in_schema|].
  split_and!; simpl; try apply wire_histogram_lookup; unfold bounded, clamp; lia.
Qed.

(** ** What a row counts

    The six kinds of count of a row, so that accumulation is stated once
    for all of them. *)
Inductive Metric : Type :=
| Requests | Attempts | FailoverUsed | FirstAttemptSuccess
| TotalMs (b : LatencyBucket.t) | FirstEventMs (b : LatencyBucket.t).

Definition metric (m : Metric) (row : CounterRow) : N :=
  match m with
  | Requests => cr_requests row
  | Attempts => cr_attempts row
  | FailoverUsed => cr_failover_used row
  | FirstAttemptSuccess => cr_first_attempt_success row
  | TotalMs b => default 0%N (cr_total_ms_hist row !! b)
  | FirstEventMs b => default 0%N (cr_first_event_ms_hist row !! b)
  end.

Lemma merge_histogram_lookup target source b :
  (∀ b, (default 0 (target !! b) <= u64_max)%N) →
  default 0%N (merge_histogram target source !! b)
  = sat_add (default 0%N (target !! b)) (N.min (default 0%N (source !! b)) MAX_COUNT).
Proof.
  unfold merge_histogram. intros Ht.
  refine (map_fold_weak_ind
    (λ r m, default 0%N (r !! b)
            = sat_add (default 0%N (target !! b)) (N.min (default 0%N (m !! b)) MAX_COUNT))
    merge_bucket _ _ _ source).
  - rewrite lookup_empty. simpl. unfold sat_add. specialize (Ht b). lia.
  - intros i n m r Hi IH. unfold merge_bucket. destruct (decide (b = i)) as [->|Hne].
    + rewrite !lookup_insert_eq, IH, Hi. simpl. unfold sat_add, bounded, clamp. lia.
    + by rewrite !lookup_insert_ne by done.
Qed.

(** A row whose counts are [u64]s. *)
Definition row_fits (row : CounterRow) : Prop := ∀ m, (metric m row <= u64_max)%N.

Lemma metric_default m : metric m CounterRow_default = 0%N.
Proof. by destruct m. Qed.

Lemma row_fits_default : row_fits CounterRow_default.
Proof. intros m. rewrite metric_default. unfold u64_max. lia. Qed.

Lemma metric_merge m target increment :
  row_fits target →
  metric m (merge_counter_increment target increment)
  = sat_add (metric m target) (N.min (metric m increment) MAX_COUNT).
Proof.
  intros Hf. destruct m; simpl.
  1-4: unfold bounded, clamp; f_equal; lia.
  - apply merge_histogram_lookup. intros b'. apply (Hf (TotalMs b')).
  - apply merge_histogram_lookup. intros b'. apply (Hf (FirstEventMs b')).
Qed.

Lemma merge_fits target increment :
  row_fits target → row_fits (merge_counter_increment target increment).
Proof. intros Hf m. rewrite metric_merge by done. apply sat_add_bound. Qed.

#[export] Hint Resolve row_fits_default merge_fits : sdk.

(** Accumulating counts is exact until a count saturates, and the order
    of accumulation is irrelevant to every count. *)
Theorem merge_counts_commute target a b m :
  row_fits target →
  metric m (merge_counter_increment (merge_counter_increment target a) b)
    = metric m (merge_counter_increment (merge_counter_increment target b) a)
  ∧ ((metric m a <= MAX_COUNT)%N → (metric m target + metric m a <= u64_max)%N →
       metric m (merge_counter_increment target a) = (metric m target + metric m a)%N).
Proof.
  intros Hf. rewrite !metric_merge by auto with sdk. unfold sat_add. lia.
Qed.
