(* ===== verification/Reporter.v ===== *)
(** * The beacon reporter ([telemetry/reporter.rs])

    The bounded buffers behind [TelemetrySink], the flush they feed and the
    worker that paces it.  Every method of [State] is one function; the
    clock, the uniform draw, the random tokens and serde_json are arguments.
    [flush_with] and [on_request] release the state lock while they run, so
    each is split at its lock boundaries: [flush_gate], [flush_select] and
    [flush_finish], and [sample] and [store].  Counters that the source
    increments with [+=] ([usize] byte totals, [u64] identifiers) are not
    cut off at the machine width. *)
From S2P Require Import Prelude Text F64 Json Http Config Vocab Recorder Identity Wire.

Definition BATCH_TRIGGER_BYTES : N := 60 * 1024.
Definition MAX_BATCH_BYTES : N := 65536.
Definition URGENT_EVENT_COUNT : nat := 50.
Definition OPEN_COUNTER_ESTIMATE_BYTES : N := 400.
Definition MAX_RETRY_AFTER_SECONDS : f64 := f64_of_Z 600.
Definition MAX_PAUSE_SECONDS : f64 := f64_of_Z 86400.
Definition SLOW_MS : N := 30000.
Definition CLOSE_TIMEOUT : Duration := from_secs 2.
Definition FALLBACK_EVENT_BYTES : N := 600.

(** [Duration::from_secs_f64] of the two backoff constants. *)
Definition backoff_min : Duration := default 0%N (from_secs_f64 TELEMETRY_BACKOFF_MIN_SECONDS).
Definition backoff_max : Duration := default 0%N (from_secs_f64 TELEMETRY_BACKOFF_MAX_SECONDS).

(** What the reporter uses of serde_json. *)
Class Serde := {
  event_json : WireEvent → option string;
  counters_json : list WireCounter → option string;
  batch_json : WireBatch → option string;
  value_from_slice : string → option Value;
}.

Definition normalise_sample_rate (value : f64) : f64 :=
  if f64_is_finite value then f64_clamp value f64_zero f64_one else f64_hundredth.

(** [None] is the panic of [from_secs_f64]. *)
Definition normalise_flush_interval (value : Duration) : option Duration :=
  let seconds := as_secs_f64 value in
  if f64_is_finite seconds && f64_ltb f64_zero seconds
  then from_secs_f64 (f64_min seconds TELEMETRY_BACKOFF_MAX_SECONDS)
  else from_secs_f64 TELEMETRY_FLUSH_SECONDS.

Definition millis (d : Duration) : N := N.min (as_millis d) u64_max.

Definition float_value (value : Value) : option f64 :=
  opt_filter f64_is_finite
    match value with
    | VNumber number => number_as_f64 number
    | VString text => parse_f64 (trim text)
    | _ => None
    end.

Record BufferedEvent := mkBufferedEvent {
  be_id : N;
  be_wire : WireEvent;
  be_completed_at : Duration;
  be_estimated_bytes : N;
  be_ok : bool;
}.

Record CounterWindow := mkCounterWindow {
  cw_id : N;
  cw_window_start : Duration;
  cw_rows : list (CounterKey * CounterRow);
  cw_size_bytes : N;
}.
#[global] Instance CounterWindow_settable : Settable CounterWindow := λ w,
  mkCounterWindow (cw_id w) (cw_window_start w) (cw_rows w) (cw_size_bytes w).

Definition string_bytes (s : string) : N := N.of_nat (String.length s).

Definition window_size `{Serde} (rows : list (CounterKey * CounterRow)) : N :=
  from_option string_bytes 0%N (counters_json (map (λ kr, from_row kr.1 kr.2 0) rows)).

Definition folded_key (key : CounterKey) (endpoint : bool) : CounterKey :=
  key <| ck_endpoint := if endpoint then Endpoint.InferenceOther else ck_endpoint key |>
      <| ck_error_class := Some ErrorClass.Unknown |>.

Definition same_but_error_class_and_endpoint (a b : CounterKey) : bool :=
  bool_decide (ck_level a = ck_level b)
  && bool_decide (ck_streaming a = ck_streaming b)
  && bool_decide (ck_host a = ck_host b)
  && bool_decide (ck_outcome a = ck_outcome b)
  && bool_decide (ck_http_status_class a = ck_http_status_class b)
  && bool_decide (ck_timeout_phase a = ck_timeout_phase b)
  && bool_decide (ck_timeout_floor_met a = ck_timeout_floor_met b)
  && bool_decide (ck_provider_pinned a = ck_provider_pinned b).

Definition same_but_error_class (a b : CounterKey) : bool :=
  bool_decide (ck_level a = ck_level b)
  && bool_decide (ck_endpoint a = ck_endpoint b)
  && bool_decide (ck_streaming a = ck_streaming b)
  && bool_decide (ck_host a = ck_host b)
  && bool_decide (ck_outcome a = ck_outcome b)
  && bool_decide (ck_http_status_class a = ck_http_status_class b)
  && bool_decide (ck_timeout_phase a = ck_timeout_phase b)
  && bool_decide (ck_timeout_floor_met a = ck_timeout_floor_met b)
  && bool_decide (ck_provider_pinned a = ck_provider_pinned b).

Record Selected := mkSelected {
  sel_body : string;
  sel_event_ids : list N;
  sel_counter_refs : list (N * CounterKey);
  sel_dropped : N;
}.

Record State := mkState {
  success_sample_rate : f64;
  flush_interval : Duration;
  events : list BufferedEvent;
  events_size_bytes : N;
  next_event_id : N;
  current_window_start : option Duration;
  current_counters : list (CounterKey * CounterRow);
  closed_windows : list CounterWindow;
  next_window_id : N;
  retained_window_bytes : N;
  dropped_since_last : N;
  instance_id : string;
  seq : N;
  backoff : Duration;
  backoff_until : Duration;
  paused_until : Duration;
  next_flush_at : Duration;
  urgent_not_before : Duration;
  urgent_flush : bool;
  disabled : bool;
  closed : bool;
  worker_started : bool;
}.
#[global] Instance State_settable : Settable State := λ s,
  mkState (success_sample_rate s) (flush_interval s) (events s) (events_size_bytes s)
    (next_event_id s) (current_window_start s) (current_counters s) (closed_windows s)
    (next_window_id s) (retained_window_bytes s) (dropped_since_last s) (instance_id s) (seq s)
    (backoff s) (backoff_until s) (paused_until s) (next_flush_at s) (urgent_not_before s)
    (urgent_flush s) (disabled s) (closed s) (worker_started s).

(** ** Windows *)

Section windows.
Context `{Serde} (now : Duration) (retention_bytes : N).

Definition minute_start : Duration := from_secs (as_secs now / 60 * 60).

Definition drop_window (window : CounterWindow) (s : State) : State :=
  s <| retained_window_bytes := sat_sub (retained_window_bytes s) (cw_size_bytes window) |>
    <| dropped_since_last :=
         sat_add (dropped_since_last s) (N.of_nat (length (cw_rows window))) |>.

(** The two [while] loops of [prune_windows], by recursion on the deque. *)
Fixpoint prune_expired (windows : list CounterWindow) (s : State) : State :=
  match windows with
  | oldest :: windows =>
      if (from_secs TELEMETRY_RETENTION_SECONDS <? sat_sub now (cw_window_start oldest))%N
      then prune_expired windows (drop_window oldest (s <| closed_windows := windows |>))
      else s
  | [] => s
  end.

Fixpoint prune_oversize (windows : list CounterWindow) (s : State) : State :=
  if (retention_bytes <? retained_window_bytes s)%N then
    match windows with
    | window :: windows =>
        prune_oversize windows (drop_window window (s <| closed_windows := windows |>))
    | [] => s
    end
  else s.

Definition prune_windows (s : State) : State :=
  let s := prune_expired (closed_windows s) s in
  prune_oversize (closed_windows s) s.

Definition close_current_window (s : State) : State :=
  match current_window_start s, current_counters s with
  | None, _ | _, [] => s
  | Some window_start, rows =>
      let size_bytes := window_size rows in
      prune_windows
        (s <| current_counters := [] |>
           <| closed_windows :=
                closed_windows s ++
                [mkCounterWindow (next_window_id s) window_start rows size_bytes] |>
           <| next_window_id := (next_window_id s + 1)%N |>
           <| retained_window_bytes := (retained_window_bytes s + size_bytes)%N |>
           <| current_window_start := Some minute_start |>)
  end.

Definition roll_window (s : State) : State :=
  match current_window_start s with
  | None => s <| current_window_start := Some minute_start |>
  | Some current =>
      if (current <? minute_start)%N
      then close_current_window s <| current_window_start := Some minute_start |>
      else s
  end.

End windows.

(** ** Counter rows of the open window *)

Abbreviation Rows := (list (CounterKey * CounterRow)).

Definition key_is (key : CounterKey) (kr : CounterKey * CounterRow) : bool :=
  bool_decide (kr.1 = key).

(** These act on [current_counters] alone and are written on it. *)
Definition has_key (rows : Rows) (key : CounterKey) : bool := existsb (key_is key) rows.

(** [None] is the panic of [Vec::remove] out of range. *)
Definition refold (rows : Rows) (index : nat) (endpoint : bool) : option (CounterKey * Rows) :=
  '(existing, previous) ← rows !! index;
  let target := folded_key existing endpoint in
  let merged := merge_counter_increment CounterRow_default previous in
  Some (target, delete index rows ++ [(target, merged)]).

Definition counter_target (rows : Rows) (key : CounterKey) : option (CounterKey * Rows) :=
  if has_key rows key || (length rows <? TELEMETRY_MAX_WINDOW_KEYS)%nat then Some (key, rows)
  else
    let error_folded := folded_key key false in
    if has_key rows error_folded then Some (error_folded, rows)
    else
      match position (λ kr, same_but_error_class kr.1 key) rows with
      | Some index => refold rows index false
      | None =>
          let endpoint_folded := folded_key key true in
          if has_key rows endpoint_folded then Some (endpoint_folded, rows)
          else
            match position (λ kr, same_but_error_class_and_endpoint kr.1 key) rows with
            | Some index => refold rows index true
            | None => Some (from_option fst key (head rows), rows)
            end
      end.

(** Merges an increment into the first row of [target], appending one when
    there is none. *)
Fixpoint merge_row (target : CounterKey) (increment : CounterRow) (rows : Rows) : Rows :=
  match rows with
  | [] => [(target, merge_counter_increment CounterRow_default increment)]
  | (k, row) :: rows =>
      if bool_decide (k = target) then (k, merge_counter_increment row increment) :: rows
      else (k, row) :: merge_row target increment rows
  end.

Definition merge_one (rows : Rows) (counter : CounterKey * CounterRow) : option Rows :=
  '(target, rows) ← counter_target rows counter.1;
  Some (merge_row target counter.2 rows).

Fixpoint merge_all (rows counters : Rows) : option Rows :=
  match counters with
  | [] => Some rows
  | counter :: counters => rows ← merge_one rows counter; merge_all rows counters
  end.

Definition merge_counters (counters : Rows) (s : State) : option State :=
  rows ← merge_all (current_counters s) counters;
  Some (s <| current_counters := rows |>).

(** ** Buffered events *)

Definition drop_buffered_event (s : State) : State :=
  let index := default 0 (position be_ok (events s)) in
  match events s !! index with
  | Some dropped =>
      s <| events := delete index (events s) |>
        <| events_size_bytes := sat_sub (events_size_bytes s) (be_estimated_bytes dropped) |>
        <| dropped_since_last := sat_add (dropped_since_last s) 1 |>
  | None => s
  end.

Definition append_event `{Serde} (wire : WireEvent) (now : Duration) (s : State) : State :=
  let s := if (TELEMETRY_MAX_EVENTS <=? length (events s))%nat then drop_buffered_event s else s in
  let estimated_bytes := from_option string_bytes FALLBACK_EVENT_BYTES (event_json wire) in
  s <| events :=
         events s ++
         [mkBufferedEvent (next_event_id s) wire now estimated_bytes
            (bool_decide (we_final_outcome wire = "ok"))] |>
    <| next_event_id := (next_event_id s + 1)%N |>
    <| events_size_bytes := (events_size_bytes s + estimated_bytes)%N |>.

Definition urgent (s : State) : bool :=
  (URGENT_EVENT_COUNT <=? length (events s))%nat
  || (BATCH_TRIGGER_BYTES <=?
        events_size_bytes s + retained_window_bytes s
        + N.of_nat (length (current_counters s)) * OPEN_COUNTER_ESTIMATE_BYTES)%N.

Definition gate (s : State) : Duration := N.max (paused_until s) (backoff_until s).

(** ** Batches *)

Section batches.
Context `{Serde}.

(** The trimming loop; every round but the last removes one item. *)
Fixpoint trim_batch (fuel : nat) (batch : WireBatch) (event_ids : list N)
    (counter_refs : list (N * CounterKey)) (dropped : N) : option Selected :=
  match fuel with
  | O => None
  | S fuel =>
      body ← batch_json batch;
      if (string_bytes body <=? MAX_BATCH_BYTES)%N
      then Some (mkSelected body event_ids counter_refs dropped)
      else
        match wb_events batch, wb_counters batch with
        | _ :: _, _ =>
            trim_batch fuel (batch <| wb_events := removelast (wb_events batch) |>)
              (removelast event_ids) counter_refs dropped
        | [], _ :: _ =>
            trim_batch fuel (batch <| wb_counters := removelast (wb_counters batch) |>)
              event_ids (removelast counter_refs) dropped
        | [], [] => None
        end
  end.

(** The rows of the closed windows, oldest window first. *)
Definition window_rows (windows : list CounterWindow)
    : list (CounterWindow * (CounterKey * CounterRow)) :=
  w ← windows; (λ kr, (w, kr)) <$> cw_rows w.

Definition select_batch (now : Duration) (since_epoch : option Duration) (batch_id : string)
    (retention_bytes : N) (sdk : SdkIdentity) (s : State) : option Selected * State :=
  let s := roll_window now retention_bytes s in
  let s := close_current_window now retention_bytes s in
  let s := prune_windows now retention_bytes s in
  let taken := take TELEMETRY_MAX_BATCH_EVENTS (events s) in
  let rows := take TELEMETRY_MAX_BATCH_COUNTERS (window_rows (closed_windows s)) in
  let wire_events :=
    map (λ b, aged (millis (sat_sub now (be_completed_at b))) (be_wire b)) taken in
  let event_ids := map be_id taken in
  let wire_counters :=
    map (λ wr, from_row wr.2.1 wr.2.2 (millis (sat_sub now (cw_window_start wr.1)))) rows in
  let counter_refs := map (λ wr, (cw_id wr.1, wr.2.1)) rows in
  match wire_events, wire_counters with
  | [], [] => (None, s)
  | _, _ =>
      let dropped := dropped_since_last s in
      let batch :=
        new_batch since_epoch batch_id (instance_id s) (seq s) sdk
          <| wb_dropped_since_last := dropped |>
          <| wb_events := wire_events |>
          <| wb_counters := wire_counters |> in
      (trim_batch (S (length wire_events + length wire_counters)) batch event_ids counter_refs
         dropped,
       s <| seq := (seq s + 1)%N |>)
  end.

(** Removes the row of [ref] from the first window with its id; whether
    there was one. *)
Fixpoint remove_row (ref : N * CounterKey) (windows : list CounterWindow)
    : list CounterWindow * bool :=
  match windows with
  | [] => ([], false)
  | window :: windows =>
      if (cw_id window =? ref.1)%N then
        match position (key_is ref.2) (cw_rows window) with
        | Some index => (window <| cw_rows := delete index (cw_rows window) |> :: windows, true)
        | None => (window :: windows, false)
        end
      else let '(windows, changed) := remove_row ref windows in (window :: windows, changed)
  end.

(** The loop over [counter_refs], collecting [changed]. *)
Fixpoint remove_rows (refs : list (N * CounterKey)) (windows : list CounterWindow)
    (changed : list N) : list CounterWindow * list N :=
  match refs with
  | [] => (windows, changed)
  | ref :: refs =>
      let '(windows, hit) := remove_row ref windows in
      remove_rows refs windows (if hit then ref.1 :: changed else changed)
  end.

(** The loop over the changed windows: sizes and the retained total. *)
Fixpoint resize_windows (changed : list N) (windows : list CounterWindow) (retained : N)
    : list CounterWindow * N :=
  match windows with
  | [] => ([], retained)
  | window :: windows =>
      if bool_decide (cw_id window ∈ changed) then
        let size := match cw_rows window with [] => 0%N | rows => window_size rows end in
        let '(windows, retained) :=
          resize_windows changed windows (sat_sub retained (cw_size_bytes window) + size)%N in
        (window <| cw_size_bytes := size |> :: windows, retained)
      else
        let '(windows, retained) := resize_windows changed windows retained in
        (window :: windows, retained)
  end.

Definition has_rows (w : CounterWindow) : bool :=
  match cw_rows w with [] => false | _ => true end.

Definition remove_selected (event_ids : list N) (counter_refs : list (N * CounterKey)) (s : State)
    : State :=
  let kept := List.filter (λ b, negb (bool_decide (be_id b ∈ event_ids))) (events s) in
  let '(windows, changed) := remove_rows counter_refs (closed_windows s) [] in
  let '(windows, retained) := resize_windows changed windows (retained_window_bytes s) in
  s <| events := kept |>
    <| events_size_bytes := fold_right N.add 0%N (map be_estimated_bytes kept) |>
    <| closed_windows := List.filter has_rows windows |>
    <| retained_window_bytes := retained |>.

End batches.

(** ** Back-off, shut-off and policy *)

Definition set_backoff (now : Duration) (retry_after : option Duration) (s : State) : State :=
  let delay := match retry_after with Some d => N.max (backoff s) d | None => backoff s end in
  s <| backoff_until := (now + N.min delay backoff_max)%N |>
    <| backoff := N.min (N.max (backoff s * 2) backoff_min) backoff_max |>.

Definition disable (s : State) : State :=
  s <| disabled := true |>
    <| events := [] |>
    <| events_size_bytes := 0%N |>
    <| current_counters := [] |>
    <| closed_windows := [] |>
    <| retained_window_bytes := 0%N |>
    <| dropped_since_last := 0%N |>.

Definition apply_rate (policy : Value) (s : State) : State :=
  match get "success_sample_rate" policy >>? float_value with
  | Some rate =>
      if f64_leb f64_zero rate && f64_ltb rate (success_sample_rate s)
      then s <| success_sample_rate := rate |> else s
  | None => s
  end.

(** [None] is the panic of [from_secs_f64]. *)
Definition apply_flush (policy : Value) (s : State) : option State :=
  match get "flush_seconds" policy >>? float_value with
  | Some seconds =>
      if f64_ltb (as_secs_f64 (flush_interval s)) seconds then
        d ← from_secs_f64 (f64_min seconds TELEMETRY_BACKOFF_MAX_SECONDS);
        Some (s <| flush_interval := d |>)
      else Some s
  | None => Some s
  end.

Definition apply_pause (policy : Value) (now : Duration) (s : State) : option State :=
  match get "pause_seconds" policy >>? float_value with
  | Some seconds =>
      if f64_leb f64_zero seconds && f64_leb seconds MAX_PAUSE_SECONDS then
        d ← from_secs_f64 seconds;
        Some (s <| paused_until := N.max (paused_until s) (now + d)%N |>)
      else Some s
  | None => Some s
  end.

Definition apply_policy (policy : Value) (now : Duration) (s : State) : option State :=
  s ← apply_flush policy (apply_rate policy s);
  apply_pause policy now s.

Definition sample_reason (draw : f64) (event : RequestEvent) (rate : f64)
    : option (SampleReason.t * f64) :=
  if negb (FinalOutcome.is_ok (ev_final_outcome event)) then Some (SampleReason.Failure, f64_one)
  else if (1 <? length (ev_attempts event))%nat || ev_failover_used event
  then Some (SampleReason.Retried, f64_one)
  else if (SLOW_MS <? ev_total_ms event)%N then Some (SampleReason.Slow, f64_one)
  else if f64_leb rate f64_zero || f64_leb rate draw then None
  else Some (SampleReason.Random, rate).

Section inner.
Context `{Serde} `{HL : HttpLib} `{UL : UrlLib} `{BE : BuildEnv}.

(** [OwnedTransport]: what the reporter's own client is built from. *)
Record ReporterTransport := mkTransport {
  root_certificate_pems : list string;
  host_resolutions : list (string * string);
}.

(** The fields of [Inner] its operations read. *)
Record Inner := mkInner {
  in_endpoint : Url;
  in_api_key : option string;
  in_workspace_id : option string;
  in_sdk : SdkIdentity;
  in_debug : bool;
  in_retention_bytes : N;
  in_transport : ReporterTransport;
}.

(** The value is in range where it is converted, so the conversion does not
    panic. *)
Definition retry_after (headers : HeaderMap) : option Duration :=
  seconds ← header_text headers "retry-after" >>? (λ v, parse_f64 (trim v));
  if f64_is_finite seconds && f64_leb f64_zero seconds && f64_leb seconds MAX_RETRY_AFTER_SECONDS
  then from_secs_f64 seconds else None.

Definition telemetry_off (headers : HeaderMap) : bool :=
  is_some_and (λ v, eq_ignore_ascii_case (trim v) "off") (header_text headers "x-tr-telemetry").

(** The 202 branch. *)
Definition accept_batch (body : string) (now : Duration) (selected : Selected) (s : State)
    : option State :=
  let s := remove_selected (sel_event_ids selected) (sel_counter_refs selected) s in
  let s :=
    s <| dropped_since_last := sat_sub (dropped_since_last s) (sel_dropped selected) |>
      <| backoff := backoff_min |>
      <| backoff_until := 0%N |> in
  match opt_filter is_object (value_from_slice body >>? get "policy") with
  | Some policy => apply_policy policy now s
  | None => Some s
  end.

(** The 413 branch. *)
Definition refuse_batch (selected : Selected) (s : State) : State :=
  let s := remove_selected (sel_event_ids selected) (sel_counter_refs selected) s in
  s <| dropped_since_last :=
         sat_add (dropped_since_last s)
           (N.of_nat (length (sel_event_ids selected) + length (sel_counter_refs selected))) |>.

Definition handle_response (status : N) (headers : HeaderMap) (body : string) (now : Duration)
    (selected : Selected) (s : State) : option State :=
  if telemetry_off headers then Some (disable s)
  else if (status =? 202)%N then accept_batch body now selected s
  else if bool_decide (status ∈ [400; 401; 403; 404; 410]%N) then Some (disable s)
  else if (status =? 413)%N then Some (refuse_batch selected s)
  else Some (set_backoff now (retry_after headers) s).

(** The beacon request; it is sent once. *)
Record BeaconRequest := mkBeaconRequest {
  br_url : Url;
  br_headers : list (string * string);
  br_timeout : option Duration;
  br_body : string;
}.

(** [flush_with] up to the first lock release: whether it goes on. *)
Definition flush_gate (now : Duration) (s : State) : bool :=
  negb (disabled s || (now <? gate s)%N).

(** The second critical section and the request built from it. *)
Definition flush_select (inner : Inner) (timeout : option Duration) (now : Duration)
    (since_epoch : option Duration) (batch_id : string) (s : State)
    : option (Selected * BeaconRequest) * State :=
  match opt_filter (λ key, negb (is_empty key)) (in_api_key inner) with
  | None => (None, s)
  | Some api_key =>
      let '(selected, s) :=
        select_batch now since_epoch batch_id (in_retention_bytes inner) (in_sdk inner) s in
      (selected ≫= λ selected,
         Some (selected,
           {| br_url := in_endpoint inner;
              br_headers :=
                [("authorization", "Bearer " +:+ api_key); ("user-agent", sdk_user_agent);
                 ("content-type", "application/json")]
                ++ match opt_filter (λ v, negb (is_empty v)) (in_workspace_id inner) with
                   | Some workspace => [("x-trustedrouter-workspace", workspace)]
                   | None => []
                   end;
              br_timeout := (λ t, N.max t (from_millis 1)) <$> timeout;
              br_body := sel_body selected |}),
       s)
  end.

(** What came back: a transport failure, or a status with headers and the
    body ([None] when reading it failed). *)
Inductive Reply :=
| SendFailed
| Replied (status : N) (headers : HeaderMap) (body : option string).

Definition flush_finish (now : Duration) (selected : Selected) (reply : Reply) (s : State)
    : option (bool * State) :=
  match reply with
  | SendFailed => Some (false, set_backoff now None s)
  | Replied status headers body =>
      s ← handle_response status headers (default "" body) now selected s;
      Some ((status =? 202)%N, s)
  end.

(** One pass of the worker's loop before it flushes or waits. *)
Inductive WorkerStep := Leave | Wait (d : Duration) | Flush.

Definition worker_poll (now : Duration) (s : State) : WorkerStep * State :=
  if closed s || disabled s then (Leave, s)
  else
    let deadline := N.max (next_flush_at s) (gate s) in
    if urgent_flush s && (gate s <=? now)%N && (urgent_not_before s <=? now)%N
    then (Flush, s <| urgent_flush := false |>)
    else if (now <? deadline)%N then (Wait (sat_sub deadline now), s)
    else (Flush, s).

(** After the flush. *)
Definition worker_settle (now : Duration) (s : State) : State :=
  s <| next_flush_at := (now + flush_interval s)%N |>
    <| urgent_not_before := (now + flush_interval s)%N |>.

(** The state [TelemetryReporter::new] starts with; [None] is a panic of
    [from_secs_f64]. *)
Definition new_state (rate : f64) (interval : Duration) (token : string) : option State :=
  flush_interval ← normalise_flush_interval interval;
  Some {| success_sample_rate := normalise_sample_rate rate;
          flush_interval := flush_interval;
          events := [];
          events_size_bytes := 0%N;
          next_event_id := 0%N;
          current_window_start := None;
          current_counters := [];
          closed_windows := [];
          next_window_id := 0%N;
          retained_window_bytes := 0%N;
          dropped_since_last := 0%N;
          instance_id := token;
          seq := 0%N;
          backoff := backoff_min;
          backoff_until := 0%N;
          paused_until := 0%N;
          next_flush_at := 0%N;
          urgent_not_before := 0%N;
          urgent_flush := false;
          disabled := false;
          closed := false;
          worker_started := false |}.

(** The beacon's URL: [{control base}/client-events]. *)
Definition beacon_endpoint (control_base_url : Url) : Url :=
  default control_base_url
    (ok (url_join control_base_url (trim_start_matches "/" DEFAULT_TELEMETRY_PATH))).

(** [ReporterConfig], its clock, sampler and echo apart: those are the
    [now], [draw] and debug lines of the operations. *)
Record ReporterConfig := mkConfig {
  rc_control_base_url : Url;
  rc_api_key : option string;
  rc_workspace_id : option string;
  rc_sdk : SdkIdentity;
  rc_success_sample_rate : f64;
  rc_debug : bool;
  rc_transport : ReporterTransport;
  rc_flush_interval : Duration;
  rc_retention_bytes : N;
}.
#[global] Instance ReporterConfig_settable : Settable ReporterConfig := λ c,
  mkConfig (rc_control_base_url c) (rc_api_key c) (rc_workspace_id c) (rc_sdk c)
    (rc_success_sample_rate c) (rc_debug c) (rc_transport c) (rc_flush_interval c)
    (rc_retention_bytes c).

Definition config_new (control_base_url : Url) (api_key : option string) (sdk : SdkIdentity)
    : ReporterConfig :=
  {| rc_control_base_url := control_base_url;
     rc_api_key := api_key;
     rc_workspace_id := None;
     rc_sdk := sdk;
     rc_success_sample_rate := f64_hundredth;
     rc_debug := false;
     rc_transport := mkTransport [] [];
     rc_flush_interval := default 0%N (from_secs_f64 TELEMETRY_FLUSH_SECONDS);
     rc_retention_bytes := TELEMETRY_RETENTION_BYTES |}.

(** [TelemetryReporter::new]: what the reporter reads, and its first state. *)
Definition reporter_new (config : ReporterConfig) (token : string) : Inner * option State :=
  (mkInner (beacon_endpoint (rc_control_base_url config)) (rc_api_key config)
     (rc_workspace_id config) (rc_sdk config) (rc_debug config) (rc_retention_bytes config)
     (rc_transport config),
   new_state (rc_success_sample_rate config) (rc_flush_interval config) token).

Definition start_worker (has_runtime : bool) (now : Duration) (s : State) : State :=
  if worker_started s || disabled s || closed s || negb has_runtime then s
  else s <| next_flush_at := (now + flush_interval s)%N |> <| worker_started := true |>.

(** [on_request] before it takes the state lock: the sampled event, and
    whether the schema refused a sampled one. *)
Definition sample (draw : f64) (event : RequestEvent) (rate : f64) : option WireEvent * bool :=
  match sample_reason draw event rate with
  | Some (reason, rate) =>
      let sampled := from_event event reason rate in
      (sampled, match sampled with None => true | Some _ => false end)
  | None => (None, false)
  end.

(** [on_request] under the state lock. *)
Definition store (retention_bytes : N) (now : Duration) (has_runtime : bool)
    (sampled : option WireEvent) (invalid_sample : bool) (counters : Rows) (s : State)
    : option State :=
  if disabled s || closed s then Some s
  else
    s ← merge_counters counters (roll_window now retention_bytes s);
    let s :=
      if invalid_sample then s <| dropped_since_last := sat_add (dropped_since_last s) 1 |>
      else s in
    let s := match sampled with Some wire => append_event wire now s | None => s end in
    let s := start_worker has_runtime now s in
    Some (if urgent s then s <| urgent_flush := true |> else s).

Definition on_request (retention_bytes : N) (now : Duration) (draw : f64) (has_runtime : bool)
    (event : RequestEvent) (counters : Rows) (s : State) : option State :=
  let '(sampled, invalid_sample) := sample draw event (success_sample_rate s) in
  store retention_bytes now has_runtime sampled invalid_sample counters s.

(** [close] up to the final flush: whether this call performs it. *)
Definition close_begin (s : State) : bool * State :=
  if closed s then (false, s) else (true, s <| closed := true |>).

End inner.
