(* ===== verification/WireJson.v ===== *)
(** * The beacon's JSON document

    What [#[derive(Serialize)]] makes of the wire types of
    [telemetry/wire.rs]: one JSON object per struct, its members in the order
    of the fields.  The closed schema of the control plane is data, and
    [conforms] decides it; [print], the text of a document, is serde_json's. *)
From S2P Require Import Prelude Text F64 Json StrictJson Http Config Vocab Recorder Identity Wire Reporter.

(** ** Documents *)

Definition number (n : N) : Value := VNumber (PosInt n).
Definition or_null {A} (f : A → Value) (o : option A) : Value := from_option f VNull o.

Definition attempt_value (a : WireAttempt) : Value :=
  VObject
    ([("index", number (wa_index a));
      ("host", VString (wa_host a));
      ("outcome", VString (wa_outcome a));
      ("http_status", or_null number (wa_http_status a));
      ("error_class", or_null VString (wa_error_class a));
      ("error_source", or_null VString (wa_error_source a));
      ("retry_after_ms", or_null number (wa_retry_after_ms a));
      ("elapsed_ms", number (wa_elapsed_ms a));
      ("ttfb_ms", or_null number (wa_ttfb_ms a));
      ("request_id", or_null VString (wa_request_id a));
      ("moved", VBool (wa_moved a))]
     ++ match wa_should_retry a with Some b => [("should_retry", VBool b)] | None => [] end).

Definition event_value (w : WireEvent) : Value :=
  VObject
    [("age_ms", number (we_age_ms w));
     ("plane", VString (we_plane w));
     ("endpoint", VString (we_endpoint w));
     ("method", VString (we_method w));
     ("streaming", VBool (we_streaming w));
     ("provider_pinned", VBool (we_provider_pinned w));
     ("model", or_null VString (we_model w));
     ("attempts", VArray (map attempt_value (we_attempts w)));
     ("final_outcome", VString (we_final_outcome w));
     ("final_http_status", or_null number (we_final_http_status w));
     ("total_ms", number (we_total_ms w));
     ("ttft_ms", or_null number (we_ttft_ms w));
     ("failover_used", VBool (we_failover_used w));
     ("timeout_phase", VString (we_timeout_phase w));
     ("configured_timeout_ms", or_null number (we_configured_timeout_ms w));
     ("sample_rate", or_null VNumber (number_from_f64 (we_sample_rate w)));
     ("sample_reason", VString (we_sample_reason w))].

(** A [BTreeMap] is written in key order. *)
Definition histogram_value (h : gmap string N) : Value :=
  VObject (insert_all (map (λ kc, (kc.1, number kc.2)) (map_to_list h)) []).

Definition counter_value (c : WireCounter) : Value :=
  VObject
    [("window_start_age_ms", number (wc_window_start_age_ms c));
     ("level", VString (wc_level c));
     ("endpoint", VString (wc_endpoint c));
     ("streaming", VBool (wc_streaming c));
     ("host", VString (wc_host c));
     ("outcome", VString (wc_outcome c));
     ("error_class", or_null VString (wc_error_class c));
     ("http_status_class", VString (wc_http_status_class c));
     ("timeout_phase", VString (wc_timeout_phase c));
     ("timeout_floor_met", VBool (wc_timeout_floor_met c));
     ("provider_pinned", VBool (wc_provider_pinned c));
     ("requests", number (wc_requests c));
     ("attempts", number (wc_attempts c));
     ("failover_used", number (wc_failover_used c));
     ("first_attempt_success", number (wc_first_attempt_success c));
     ("total_ms_hist", histogram_value (wc_total_ms_hist c));
     ("first_event_ms_hist", histogram_value (wc_first_event_ms_hist c))].

Definition identity_value (i : SdkIdentity) : Value :=
  VObject
    [("name", VString (sdk_name i)); ("version", VString (sdk_version i));
     ("lang", VString (sdk_lang i)); ("runtime", VString (sdk_runtime i));
     ("os", VString (sdk_os i)); ("arch", VString (sdk_arch i))].

Definition batch_value (b : WireBatch) : Value :=
  VObject
    [("schema_version", number (wb_schema_version b));
     ("batch_id", VString (wb_batch_id b));
     ("instance_id", VString (wb_instance_id b));
     ("seq", number (wb_seq b));
     ("sent_at_ms", number (wb_sent_at_ms b));
     ("sdk", identity_value (wb_sdk b));
     ("synthetic", VBool (wb_synthetic b));
     ("dropped_since_last", number (wb_dropped_since_last b));
     ("events", VArray (map event_value (wb_events b)));
     ("counters", VArray (map counter_value (wb_counters b)))].

(** serde_json's text of a document and its reader. *)
Class JsonIo := {
  print : Value → string;
  parse : string → option Value;
}.

#[global] Instance wire_serde `{JsonIo} : Reporter.Serde :=
  {| event_json w := Some (print (event_value w));
     counters_json cs := Some (print (VArray (map counter_value cs)));
     batch_json b := Some (print (batch_value b));
     value_from_slice := parse |}.

(** ** The closed schema *)

#[warnings="-register-all"]
Inductive Schema :=
| SText (words : list string) (grammar : string → bool)
| SNat (lo hi : N)
| SU64
| SRate
| SFlag
| SNull (s : Schema)
| SList (min max : nat) (s : Schema)
| SRecord (members : list (string * (bool * Schema)))
| STable (keys : list string) (s : Schema).

Definition word_in (words : list string) (grammar : string → bool) (s : string) : bool :=
  bool_decide (s ∈ words) || grammar s.

(** Whether a value has a shape.  A record has its members in order and no
    others; those marked may be absent. *)
Fixpoint conforms (σ : Schema) (v : Value) {struct σ} : bool :=
  match σ, v with
  | SText words grammar, VString s => word_in words grammar s
  | SNat lo hi, VNumber (PosInt n) => in_range lo hi n
  | SU64, VNumber (PosInt _) => true
  | SRate, VNumber (Float f) => rate_in_schema f
  | SFlag, VBool _ => true
  | SNull _, VNull => true
  | SNull σ, v => conforms σ v
  | SList min max σ, VArray l =>
      (min <=? length l)%nat && (length l <=? max)%nat && forallb (conforms σ) l
  | SRecord members, VObject e =>
      (fix go (members : list (string * (bool * Schema))) (e : Map) : bool :=
         match members with
         | [] => match e with [] => true | _ => false end
         | (name, (optional, σ)) :: members =>
             match e with
             | (k, v) :: e' =>
                 if bool_decide (k = name) then conforms σ v && go members e'
                 else optional && go members e
             | [] => optional && go members []
             end
         end) members e
  | STable keys σ, VObject e =>
      forallb (λ kv, bool_decide (kv.1 ∈ keys) && conforms σ kv.2) e
  | _, _ => false
  end.

Definition words (l : list string) : Schema := SText l (λ _, false).
Definition grammar (p : string → bool) : Schema := SText [] p.
Definition millis_schema : Schema := SNat 0 MAX_DURATION_MS.
Definition status_schema : Schema := SNull (SNat 100 599).
Definition req (σ : Schema) : bool * Schema := (false, σ).
Definition opt (σ : Schema) : bool * Schema := (true, σ).

Definition attempt_schema : Schema :=
  SRecord
    [("index", req (SNat 0 99));
     ("host", req (words TELEMETRY_HOSTS));
     ("outcome", req (words TELEMETRY_OUTCOMES));
     ("http_status", req status_schema);
     ("error_class", req (SNull (words TELEMETRY_ERROR_CLASSES)));
     ("error_source", req (SNull (words ["router"; "provider"; "unknown"])));
     ("retry_after_ms", req (SNull millis_schema));
     ("elapsed_ms", req millis_schema);
     ("ttfb_ms", req (SNull millis_schema));
     ("request_id", req (SNull (grammar valid_request_id)));
     ("moved", req SFlag);
     ("should_retry", opt SFlag)].

Definition event_schema : Schema :=
  SRecord
    [("age_ms", req (SNat 0 MAX_AGE_MS));
     ("plane", req (words ["inference"]));
     ("endpoint", req (words TELEMETRY_ENDPOINTS));
     ("method", req (words ["GET"; "POST"]));
     ("streaming", req SFlag);
     ("provider_pinned", req SFlag);
     ("model", req (SNull (grammar valid_model)));
     ("attempts", req (SList 1 MAX_WIRE_ATTEMPTS attempt_schema));
     ("final_outcome", req (words TELEMETRY_FINAL_OUTCOMES));
     ("final_http_status", req status_schema);
     ("total_ms", req millis_schema);
     ("ttft_ms", req (SNull millis_schema));
     ("failover_used", req SFlag);
     ("timeout_phase", req (words TELEMETRY_TIMEOUT_PHASES));
     ("configured_timeout_ms", req (SNull (SNat 1 MAX_DURATION_MS)));
     ("sample_rate", req SRate);
     ("sample_reason", req (words ["failure"; "retried"; "slow"; "random"]))].

Definition count_schema : Schema := SNat 0 MAX_COUNT.

Definition counter_schema : Schema :=
  SRecord
    [("window_start_age_ms", req (SNat 0 MAX_AGE_MS));
     ("level", req (words ["attempt"; "request"]));
     ("endpoint", req (words TELEMETRY_ENDPOINTS));
     ("streaming", req SFlag);
     ("host", req (words TELEMETRY_HOSTS));
     ("outcome", req (words TELEMETRY_OUTCOMES));
     ("error_class", req (SNull (words TELEMETRY_ERROR_CLASSES)));
     ("http_status_class", req (words ["none"; "2xx"; "4xx"; "429"; "5xx"]));
     ("timeout_phase", req (words TELEMETRY_TIMEOUT_PHASES));
     ("timeout_floor_met", req SFlag);
     ("provider_pinned", req SFlag);
     ("requests", req (SNat 1 MAX_COUNT));
     ("attempts", req count_schema);
     ("failover_used", req count_schema);
     ("first_attempt_success", req count_schema);
     ("total_ms_hist", req (STable TELEMETRY_LATENCY_BUCKETS count_schema));
     ("first_event_ms_hist", req (STable TELEMETRY_LATENCY_BUCKETS count_schema))].

Definition identity_schema : Schema :=
  SRecord
    [("name", req (words ["tr-rust"]));
     ("version", req (grammar valid_semver));
     ("lang", req (words ["rust"]));
     ("runtime", req (grammar valid_runtime));
     ("os", req (words ["linux"; "macos"; "windows"; "ios"; "android"; "freebsd"; "other"]));
     ("arch", req (words ["x64"; "x32"; "arm64"; "arm"; "wasm"; "other"]))].

(** [hex_token]: lower-case hexadecimal. *)
Definition hex_text (size : nat) (s : string) : bool :=
  (String.length s =? size)%nat
  && all_bytes (λ b, is_ascii_digit b || in_range 97 102 (byte_of b)) s.

Definition batch_schema : Schema :=
  SRecord
    [("schema_version", req (SNat TELEMETRY_SCHEMA_VERSION TELEMETRY_SCHEMA_VERSION));
     ("batch_id", req (grammar (hex_text 32)));
     ("instance_id", req (grammar (hex_text 16)));
     ("seq", req SU64);
     ("sent_at_ms", req (SNat 0 u64_max));
     ("sdk", req identity_schema);
     ("synthetic", req SFlag);
     ("dropped_since_last", req SU64);
     ("events", req (SList 0 TELEMETRY_MAX_BATCH_EVENTS event_schema));
     ("counters", req (SList 0 TELEMETRY_MAX_BATCH_COUNTERS counter_schema))].

(** ** A concrete printer *)
Module ConcreteJson.
Definition quote : string := String (ascii_of_N 34) EmptyString.
Definition quoted (s : string) : string := quote +:+ s +:+ quote.

(** Compact text without escapes; numbers with a fraction are all written
    alike.  The runs of the development read their documents in it. *)
Fixpoint text_of (v : Value) : string :=
  match v with
  | VNull => "null"
  | VBool b => if b then "true" else "false"
  | VNumber (PosInt n) => show_N n
  | VNumber (NegInt z) => "-" +:+ show_N (Z.abs_N z)
  | VNumber (Float _) => "0.5"
  | VString s => quoted s
  | VArray l => "[" +:+ join "," (map text_of l) +:+ "]"
  | VObject e => "{" +:+ join "," (map (λ kv, quoted kv.1 +:+ ":" +:+ text_of kv.2) e) +:+ "}"
  end.

End ConcreteJson.
