(* ===== verification/TestLibraries.v ===== *)
(** * Libraries for running the crate's tests

    Small stand-ins for third-party code: a reader of compact JSON without
    escapes, a hash that reads its whole input, and a signature made of the
    key and the hash; with the [json!] notation of the tests. *)
From S2P Require Import Prelude Text Bytes F64 Json StrictJson Http UrlParts Crypto Wire WireJson.

Module TestLibraries.
Import ConcreteJson.

Definition dquote : ascii := ascii_of_N 34.

(** The longest prefix of digits, and the rest. *)
Fixpoint take_digits (s : string) : string * string :=
  match s with
  | String c rest =>
      if is_ascii_digit c then let '(digits, rest) := take_digits rest in (String c digits, rest)
      else ("", s)
  | EmptyString => ("", "")
  end.

(** A value at the head of a text, and what follows it. *)
Fixpoint read (fuel : nat) (s : string) : option (Raw * string) :=
  match fuel with
  | O => None
  | S fuel =>
      let elements :=
        (fix elements (n : nat) (s : string) : option (list Raw * string) :=
           match n with
           | O => None
           | S n =>
               '(x, s) ← read fuel s;
               match s with
               | String "]" s => Some ([x], s)
               | String "," s => '(l, s) ← elements n s; Some (x :: l, s)
               | _ => None
               end
           end) in
      let members :=
        (fix members (n : nat) (s : string) : option (list (string * Raw) * string) :=
           match n with
           | O => None
           | S n =>
               s ← strip_prefix quote s;
               '(key, s) ← split_once dquote s;
               s ← strip_prefix ":" s;
               '(x, s) ← read fuel s;
               match s with
               | String "}" s => Some ([(key, x)], s)
               | String "," s => '(l, s) ← members n s; Some ((key, x) :: l, s)
               | _ => None
               end
           end) in
      match s with
      | String "[" (String "]" s) => Some (RSeq [] None, s)
      | String "[" s => '(l, s) ← elements fuel s; Some (RSeq l None, s)
      | String "{" (String "}" s) => Some (RMap [] None, s)
      | String "{" s => '(l, s) ← members fuel s; Some (RMap l None, s)
      | String "t" s => s ← strip_prefix "rue" s; Some (RBool true, s)
      | String "f" s => s ← strip_prefix "alse" s; Some (RBool false, s)
      | String "n" s => s ← strip_prefix "ull" s; Some (RUnit, s)
      | String c rest =>
          if bool_decide (c = dquote) then '(text, s) ← split_once dquote rest; Some (RStr text, s)
          else let '(digits, s) := take_digits s in n ← parse_u64 digits; Some (RU64 n, s)
      | EmptyString => None
      end
  end.

(** Nesting and members are below this bound in every document here. *)
Definition DEPTH : nat := 24.

#[local] Instance json_text : JsonText := {|
  deserialize s := from_option fst (RFail "expected value") (read DEPTH s);
  deserializer_end s :=
    match read DEPTH s with
    | Some (_, String _ _) => Some "trailing characters"
    | _ => None
    end;
  json_error _ e :=
    match e with
    | Syntax text => text
    | Duplicate key => "duplicate JSON member " +:+ quoted key
    | NonFinite => "non-finite number"
    end
|}.

(** [serde_json::parsed] to a value. *)
Definition parsed (s : string) : Value := plain (deserialize s).

Definition hash (s : string) : string :=
  ConcreteCrypto.pad 32
    (show_N ((fix go (s : string) (h : N) : N :=
       match s with
       | EmptyString => h
       | String c s => go s (N.land (h * 257 + byte_of c + 1) 0x1fffffffffffff)
       end) s 0)%N).

Definition sign_with (key message : string) : string := key +:+ hash message.

#[local] Instance crypto : CryptoLib := {|
  sha256 := hash;
  b64_encode := ConcreteCrypto.encode;
  b64_decode := ConcreteCrypto.decode;
  ct_eq a b := bool_decide (a = b);
  EdKey := string;
  EdSignature := string;
  key_from_bytes k := Ok k;
  signature_from_slice s := if (String.length s =? 64)%nat then Some s else None;
  verify_strict k message sig := bool_decide (sig = sign_with k message)
|}.

#[local] Existing Instance FullUrl.urls.
#[local] Existing Instance FullUrl.parts.

(** [json!] of an object, [value[..] = ..] along a path, and
    [Map::remove]. *)
Definition object (members : list (string * Value)) : Value := VObject (insert_all members []).
Fixpoint put (path : list string) (new : Value) (v : Value) : Value :=
  match path, v with
  | [], _ => new
  | key :: path, VObject m => VObject (map_insert key (put path new (default VNull (map_get key m))) m)
  | _, _ => v
  end.
Definition remove (key : string) (v : Value) : Value :=
  match v with
  | VObject m => VObject (List.filter (λ kv, negb (bool_decide (kv.1 = key))) m)
  | _ => v
  end.

Definition repeated (n : nat) (s : string) : string := Nat.iter n (String.append s) "".
Definition num (z : Z) : Value := VNumber (number_from_i64 z).
End TestLibraries.
