(* ===== verification/ReceiptTests.v ===== *)
(** * The crate's own tests of attestation and receipts, run on the model

    The unit tests of [attestation.rs] and [receipts.rs], one definition per
    test under the test's name, each evaluated to [true] on the stand-ins of
    [TestLibraries].  The frozen fixture files are left out. *)
From S2P Require Import Prelude Text Bytes F64 Json StrictJson Http UrlParts Error Crypto Config.
From S2P Require Import Attestation ReceiptStream Receipts Wire WireJson TestLibraries.

(** ** [attestation.rs], [tests] *)
Module AttestationTests.
Import TestLibraries.TestLibraries.
#[local] Existing Instance TestLibraries.TestLibraries.crypto.

Definition KEY_COMMITMENT : string :=
  "abcdefabcdefabcdefabcdefabcdefabcdefabcdefabcdefabcdefabcdefabcd".

Definition key_binding_claims (commitment_position : nat) : Value :=
  let nonces := [repeated 64 "1"; repeated 64 "2"] in
  let nonces := take commitment_position nonces ++ KEY_COMMITMENT :: drop commitment_position nonces in
  object
    [("iss", VString GCP_ISSUER); ("aud", VString "quill-cloud"); ("exp", num 4000000000);
     ("dbgstat", VString "disabled-since-boot"); ("swname", VString "CONFIDENTIAL_SPACE");
     ("secboot", VBool true); ("hwmodel", VString "GCP_INTEL_TDX");
     ("eat_nonce", VArray (map VString nonces));
     ("submods", object [("container", object
        [("image_digest", VString "sha256:trusted");
         ("image_reference", VString "registry.example/trusted:release")])])].

Definition pins (digest : option string) (digests : list string) (reference : option string)
    : AttestationPolicy :=
  mkAttestationPolicy (audience policy_default) None digest digests reference [] false.
Definition trusted_digest : option string := Some "sha256:trusted".
Definition trusted_reference : option string := Some "registry.example/trusted:release".
Definition pinned : AttestationPolicy := pins trusted_digest [] trusted_reference.
Definition options_with (policy : AttestationPolicy) (nonce : option string)
    : AttestationVerificationOptions :=
  mkAttestationOptions policy nonce None None None None false.
Definition receipt_options (commitment : string) : AttestationVerificationOptions :=
  options_with pinned (Some commitment).

Definition refused_with (text : string) (r : Result GatewayAttestation) : bool :=
  match r with Err (Attestation message) => contains text message | _ => false end.

Definition receipt_key_claims_pass_without_channel_binding_but_live_claims_do_not : bool :=
  let claims := key_binding_claims 2 in
  let options := receipt_options KEY_COMMITMENT in
  match verify_claims claims options Document with
  | Ok verified =>
      bool_decide (ga_cert_sha256 verified = "") && bool_decide (ga_nonce verified = Some KEY_COMMITMENT)
  | Err _ => false
  end
  && refused_with "TLS certificate" (verify_claims claims options LiveChannel).

Definition receipt_key_commitment_is_set_membership_at_any_nonce_position : bool :=
  forallb (λ position,
    is_ok (verify_claims (key_binding_claims position) (receipt_options KEY_COMMITMENT) Document)) [0; 2].

Definition receipt_key_claims_reject_the_wrong_commitment : bool :=
  let claims := put ["nonces"] (VArray [VString (repeated 64 "f")]) (key_binding_claims 2) in
  refused_with "nonce is not bound" (verify_claims claims (receipt_options (repeated 64 "f")) Document).

Definition malformed_attestation_claims_are_not_defaulted : bool :=
  let container := ["submods"; "container"] in
  forallb (λ case : list string * Value * AttestationVerificationOptions,
    let '(pointer, replacement, options) := case in
    refused_with "" (verify_claims (put pointer replacement (key_binding_claims 0)) options Document))
    [(container ++ ["image_digest"], num 7,
      options_with (pins None [] trusted_reference) (Some KEY_COMMITMENT));
     (container ++ ["image_reference"], VArray [],
      options_with (pins trusted_digest [] None) (Some KEY_COMMITMENT));
     (["exp"], VString "tomorrow", receipt_options KEY_COMMITMENT);
     (["iss"], num 7, receipt_options KEY_COMMITMENT);
     (["eat_nonce"], VArray [VString KEY_COMMITMENT; num 7], options_with pinned None);
     (["eat_nonce"], num 7, options_with pinned None)].

Definition empty_image_pin_cannot_match_a_missing_claim : bool :=
  let claims :=
    put ["submods"; "container"]
      (object [("image_reference", VString "registry.example/trusted:release")]) (key_binding_claims 0) in
  refused_with ""
    (verify_claims claims
       (options_with (pins trusted_digest ["sha256:trusted"; ""] None) (Some KEY_COMMITMENT)) Document).

Example attestation_tests :
  forallb id
    [receipt_key_claims_pass_without_channel_binding_but_live_claims_do_not;
     receipt_key_commitment_is_set_membership_at_any_nonce_position;
     receipt_key_claims_reject_the_wrong_commitment; malformed_attestation_claims_are_not_defaulted;
     empty_image_pin_cannot_match_a_missing_claim] = true.
Proof. vm_compute. reflexivity. Qed.
End AttestationTests.

(** ** [receipts.rs], [tests] *)
Module ReceiptTests.
Import TestLibraries.TestLibraries ConcreteJson.
#[local] Existing Instance TestLibraries.TestLibraries.crypto.
#[local] Existing Instance TestLibraries.TestLibraries.json_text.
#[local] Existing Instance FullUrl.urls.
#[local] Existing Instance FullUrl.parts.

Definition NOW : Z := 1756223999.
Definition EXPECTED_ISSUER : string := "https://api.trustedrouter.com".

Definition digest (value : string) : string := b64_encode (sha256 value).

Definition claims (response_of : string) (response_hash : option string) : Value :=
  let response :=
    object [("alg", VString "sha256"); ("hash", VString (default (digest "response") response_hash));
            ("of", VString response_of)] in
  let response :=
    if negb (bool_decide (response_of = "body")) then put ["events"] (num 1) response else response in
  object
    [("rv", num 1); ("iss", VString "https://api.trustedrouter.com"); ("iat", num NOW);
     ("jti", VString "chatcmpl-test"); ("gen", VString "gen-test"); ("nonce", VString "nonce_test");
     ("route", VString "chat.completions");
     ("req", object [("alg", VString "sha256"); ("hash", VString (digest "request"));
                     ("of", VString "body")]);
     ("resp", response);
     ("model", object [("requested", VString "requested"); ("selected", VString "selected");
                       ("provider", VString "provider"); ("endpoint", VString "endpoint")]);
     ("upstream", object [("tier", VString "tee-verified"); ("policy", VString "chutes-tdx-nvidia-e2e-v1");
                          ("verified_at", num (NOW - 60)); ("verification_expires_at", num (NOW + 240))]);
     ("att_sha256", VString (digest "attestation"))].

(** A key is its 32 bytes, and its own public key. *)
Definition key (byte : N) : string := repeated 32 (bytes [byte]).

Definition sign_payload (payload_bytes : string) (flattened : bool)
    (header_updates : list (string * Value)) (signing_key : option string) : string :=
  let receipt_key := key 7 in
  let header :=
    object [("alg", VString "EdDSA"); ("typ", VString RECEIPT_TYPE); ("kid", VString (digest receipt_key));
            ("jwk", object [("kty", VString "OKP"); ("crv", VString "Ed25519");
                            ("x", VString (b64_encode receipt_key))])] in
  let header :=
    if flattened
    then put ["att_kind"] (VString "gcp-cs-jwt") (put ["att"] (VString "fake.jwt.token") header)
    else header in
  let header := foldl (λ header kv, put [kv.1] kv.2 header) header header_updates in
  let protected := b64_encode (text_of header) in
  let payload := b64_encode payload_bytes in
  let signature :=
    b64_encode (sign_with (default receipt_key signing_key) (protected +:+ "." +:+ payload)) in
  if flattened
  then text_of (object [("protected", VString protected); ("payload", VString payload);
                        ("signature", VString signature)])
  else protected +:+ "." +:+ payload +:+ "." +:+ signature.

Definition sign (claims : Value) (flattened : bool) (header_updates : list (string * Value))
    (signing_key : option string) : string :=
  sign_payload (text_of claims) flattened header_updates signing_key.

Definition receipt_event (receipt : string) : string :=
  "data: " +:+ text_of (object [("id", VString "chatcmpl-test"); ("object", VString "chat.completion.chunk");
                                ("choices", VArray []); ("inference_receipt", parsed receipt)])
  +:+ lf_end.

Definition stream_receipt (events : Z) : string * string :=
  let payload :=
    text_of (object [("choices", VArray [object [("delta", object [("content", VString "hello")])]])]) in
  let stream_claims := remove "att_sha256" (claims "sse-data-v1" (Some (digest (payload +:+ newline)))) in
  let stream_claims := put ["resp"; "events"] (num events) stream_claims in
  let receipt := sign stream_claims true [] None in
  (receipt, "data: " +:+ payload +:+ lf_end +:+ receipt_event receipt +:+ "data: [DONE]" +:+ lf_end).

Definition options : ReceiptVerificationOptions :=
  receipt_options_default <| now_seconds := Some NOW |> <| require_attestation := false |>
    <| require_bindings := false |>.

(** A call that does not return counts as a failure of the test. *)
Definition verify (receipt expected_issuer : string) (options : ReceiptVerificationOptions)
    (verify_gcp : string → string → ReceiptResult unit) : option (ReceiptResult ReceiptClaims) :=
  verify_receipt_with quoted text_of (Ok 0%N) receipt expected_issuer options verify_gcp.
Definition verify_without_evidence_at (receipt expected_issuer : string)
    (options : ReceiptVerificationOptions) : option (ReceiptResult ReceiptClaims) :=
  verify receipt expected_issuer options (λ _ _, Ok tt).
Definition verify_without_evidence (receipt : string) (options : ReceiptVerificationOptions)
    : option (ReceiptResult ReceiptClaims) :=
  verify_without_evidence_at receipt EXPECTED_ISSUER options.

Definition verified (check : ReceiptClaims → bool) (r : option (ReceiptResult ReceiptClaims)) : bool :=
  match r with Some (Ok claims) => check claims | _ => false end.
Definition fails (check : ReceiptError.t → bool) (r : option (ReceiptResult ReceiptClaims)) : bool :=
  match r with Some (Err e) => check e | _ => false end.
Definition is_verified (c : ReceiptClaims) : bool :=
  match rc_attestation_status c with Verified => true | UnverifiedByThisSdk => false end.

Definition is_signature (e : ReceiptError.t) : bool :=
  match e with ReceiptError.Signature _ => true | _ => false end.
Definition is_issuer (text : string) (e : ReceiptError.t) : bool :=
  match e with ReceiptError.Issuer message => contains text message | _ => false end.
Definition is_hash (text : string) (e : ReceiptError.t) : bool :=
  match e with ReceiptError.Hash message => contains text message | _ => false end.
Definition is_missing_binding (text : string) (e : ReceiptError.t) : bool :=
  match e with ReceiptError.MissingBinding message => contains text message | _ => false end.
Definition is_attestation (texts : list string) (e : ReceiptError.t) : bool :=
  match e with ReceiptError.Attestation message => forallb (λ text, contains text message) texts | _ => false end.

Definition compact : string := sign (claims "body" None) false [] None.

Definition verifies_compact_receipt_bodies_with_explicit_escape : bool :=
  verified (λ c, bool_decide (mc_provider (rc_model c) = "provider") && negb (is_verified c))
    (verify_without_evidence compact
       (options <| request_body := Some "request" |> <| response_body := Some "response" |>
          <| expected_nonce := Some "nonce_test" |> <| max_age_seconds := Some 10%N |>)).

Definition bindings_are_required_by_default_and_can_be_explicitly_disabled : bool :=
  fails (is_missing_binding "missing request_body and response_body or response_stream")
    (verify_without_evidence compact (options <| require_bindings := true |>))
  && verified (λ c, bool_decide (rc_iss c = EXPECTED_ISSUER)) (verify_without_evidence compact options).

Definition partial_bindings_fail_closed_by_default : bool :=
  let base := options <| require_bindings := true |> in
  fails (is_missing_binding "missing response_body or response_stream")
    (verify_without_evidence compact (base <| request_body := Some "request" |>))
  && fails (is_missing_binding "missing request_body")
       (verify_without_evidence compact (base <| response_body := Some "response" |>)).

Definition expected_issuer_exact_match_passes_and_mismatch_is_typed : bool :=
  verified (λ c, bool_decide (rc_iss c = EXPECTED_ISSUER)) (verify_without_evidence compact options)
  && fails (is_issuer "iss claim check failed: expected")
       (verify_without_evidence_at compact "https://other.example" options).

Definition issued_by (issuer : string) : string :=
  sign (put ["iss"] (VString issuer) (claims "body" None)) false [] None.

Definition issuer_origin_normalization_accepts_case_slash_and_default_port : bool :=
  forallb (λ '(receipt_issuer, expected_issuer),
    verified (λ c, bool_decide (rc_iss c = receipt_issuer))
      (verify_without_evidence_at (issued_by receipt_issuer) expected_issuer options))
    [("https://API.TrustedRouter.COM/", "HTTPS://api.trustedrouter.com");
     ("https://API.TrustedRouter.COM:443/", "https://api.trustedrouter.com");
     ("https://API.TrustedRouter.COM:8443/", "https://api.trustedrouter.com:8443")].

Definition issuer_port_must_match_exactly_after_normalization : bool :=
  fails (is_issuer "iss claim check failed: expected")
    (verify_without_evidence (issued_by "https://api.trustedrouter.com:8443") options).

Definition http_receipt_issuer_is_rejected : bool :=
  fails (is_issuer "must use https")
    (verify_without_evidence (issued_by "http://api.trustedrouter.com") options)
  && fails (is_issuer "must use https")
       (verify_without_evidence_at compact "http://api.trustedrouter.com" options).

(** The bytes of the payload of a compact receipt changed. *)
Definition with_payload (change : string → string) (receipt : string) : string :=
  match split_by is_dot receipt with
  | [protected; payload; signature] =>
      protected +:+ "." +:+ b64_encode (change (default "" (b64_decode payload))) +:+ "." +:+ signature
  | _ => ""
  end.
Definition flip (index : nat) (s : string) : string :=
  slice s 0 index
  +:+ match string_drop index s with
      | String c s => String (ascii_of_N (N.lxor (byte_of c) 1)) s
      | EmptyString => ""
      end.

Definition tampered_payload_wrong_key_and_stale_claim_fail_signature : bool :=
  fails is_signature
    (verify_without_evidence (with_payload (λ s, flip (String.length s - 2) s) compact) options)
  && fails is_signature
       (verify_without_evidence (sign (claims "body" None) false [] (Some (key 8))) options)
  && fails is_signature
       (verify_without_evidence
          (with_payload (λ s, text_of (put ["model"; "selected"] (VString "tampered") (parsed s))) compact)
          options).

Definition wrong_kid_fails_before_signature : bool :=
  fails (λ e, match e with ReceiptError.Header message => contains "kid" message | _ => false end)
    (verify_without_evidence (sign (claims "body" None) false [("kid", VString (digest "wrong"))] None)
       options).

(** The verifier of the tests that check what it is handed. *)
Definition expects (attestation commitment : string) : string → string → ReceiptResult unit := λ a c,
  if bool_decide (a = attestation) && bool_decide (c = commitment) then Ok tt
  else Err (ReceiptError.Attestation "assertion failed").
Definition embedded_for (claims : Value) : string := sign (remove "att_sha256" claims) true [] None.

Definition receipt_issuer_is_never_used_to_fetch_verification_material : bool :=
  let hostile_issuer := "https://evil.example" in
  verified (λ c, bool_decide (rc_iss c = hostile_issuer))
    (verify (embedded_for (put ["iss"] (VString hostile_issuer) (claims "body" None))) hostile_issuer
       options (expects "fake.jwt.token" (key_commitment (key 7))))
  && forallb (λ url, match url_parse url with
                     | Ok u => negb (bool_decide (url_host_str u = Some "evil.example"))
                     | Err _ => false
                     end) [DEFAULT_TRUST_RELEASE_URL; GCP_JWKS_URL].

(** [str::replace] of a text that occurs once. *)
Definition replace_once (from to s : string) : string :=
  match find_subslice s from with
  | Some index => slice s 0 index +:+ to +:+ string_drop (index + String.length from) s
  | None => s
  end.
Definition over (stream : string) : ReceiptVerificationOptions := options <| response_stream := Some stream |>.

Definition stream_byte_flip_receipt_position_and_event_count_fail : bool :=
  let '(receipt, stream) := stream_receipt 1 in
  let '(wrong_count_receipt, wrong_count_stream) := stream_receipt 2 in
  fails (is_hash "stream hash")
    (verify_without_evidence receipt (over (replace_once "hello" "jello" stream)))
  && fails (is_hash "not the last")
       (verify_without_evidence receipt
          (over (replace_once "data: [DONE]"
                   ("data: " +:+ text_of (object [("choices", VArray [])]) +:+ lf_end +:+ "data: [DONE]")
                   stream)))
  && fails (is_hash "events check") (verify_without_evidence wrong_count_receipt (over wrong_count_stream)).

Definition future_expired_window_and_nonce_mismatch_have_typed_errors : bool :=
  fails (λ e, match e with ReceiptError.Time _ => true | _ => false end)
    (verify_without_evidence (sign (put ["iat"] (num (NOW + 61)) (claims "body" None)) false [] None) options)
  && fails (λ e, match e with ReceiptError.Upstream _ => true | _ => false end)
       (verify_without_evidence
          (sign (put ["upstream"; "verification_expires_at"] (num NOW) (claims "body" None)) false [] None)
          options)
  && fails (λ e, match e with ReceiptError.Nonce _ => true | _ => false end)
       (verify_without_evidence compact (options <| expected_nonce := Some "different" |>)).

Definition is_missing_attestation (e : ReceiptError.t) : bool :=
  match e with ReceiptError.MissingAttestation _ => true | _ => false end.

Definition unsupported_and_missing_attestation_fail_closed : bool :=
  let bare := remove "att_sha256" (claims "body" None) in
  forallb (λ kind,
    fails (λ e, match e with ReceiptError.UnsupportedAttestation _ => true | _ => false end)
      (verify_without_evidence (sign bare true [("att_kind", VString kind)] None) options))
    ["aws-nitro-cose"; "azure-maa-jwt"]
  && fails is_missing_attestation
       (verify_without_evidence compact (options <| require_attestation := true |>))
  && fails is_missing_attestation
       (verify_without_evidence (sign bare true [("att", VNull); ("att_kind", VNull)] None) options).

Definition compact_receipt_verifies_a_supplied_pinned_attestation : bool :=
  let document := "fake.jwt.token" in
  let receipt := sign (put ["att_sha256"] (VString (digest document)) (claims "body" None)) false [] None in
  let strict := options <| require_attestation := true |> in
  verified is_verified
    (verify receipt EXPECTED_ISSUER (strict <| supplied_attestation := Some document |>)
       (expects document (key_commitment (key 7))))
  && fails (is_attestation ["att_sha256 check failed"])
       (verify_without_evidence receipt
          (strict <| supplied_attestation := Some (flip (String.length document - 1) document) |>)).

Definition flattened_receipt_rejects_a_mismatched_supplied_attestation : bool :=
  fails (is_attestation ["does not match"; "embedded"])
    (verify_without_evidence (embedded_for (claims "body" None))
       (options <| supplied_attestation := Some "different.jwt.token" |>)).

(** An object of members in their order, repeats included. *)
Definition members (l : list (string * string)) : string :=
  "{" +:+ join "," (map (λ kv, quoted kv.1 +:+ ":" +:+ kv.2) l) +:+ "}".
Definition duplicate_json_members_are_rejected_at_nested_depth : bool :=
  let hashed value := members [("alg", quoted "sha256"); ("hash", quoted (digest value)); ("of", quoted "body")] in
  let payload :=
    members [("rv", "1"); ("iss", quoted "https://api.trustedrouter.com"); ("iat", show_N (Z.to_N NOW));
             ("jti", quoted "id"); ("route", quoted "chat.completions");
             ("req", hashed "request"); ("resp", hashed "response");
             ("model", members [("requested", quoted "r"); ("selected", quoted "s"); ("provider", quoted "p");
                                ("provider", quoted "duplicate"); ("endpoint", quoted "e")]);
             ("upstream", members [("tier", quoted "tls-webpki")]);
             ("att_sha256", quoted (digest "attestation"))] in
  fails (λ e, match e with ReceiptError.Structure message => contains "duplicate JSON member" message | _ => false end)
    (verify_without_evidence (sign_payload payload false [] None) options).

Definition multiline_data_and_unknown_sse_fields_fail : bool :=
  let '(receipt, stream) := stream_receipt 1 in
  let first := "data: {" +:+ quoted "choices" in
  forallb (λ prefix,
    fails (is_hash "") (verify_without_evidence receipt (over (replace_once first (prefix +:+ newline +:+ first) stream))))
    ["data: first"; "id: 1"].

Definition capture_preserves_split_chunks_discovers_and_verifies : bool :=
  let '(receipt, wire) := stream_receipt 1 in
  let chunks := [slice wire 0 17; slice wire 17 83; string_drop 83 wire] in
  let run :=
    foldl (λ run chunk,
      '(consumed, capture) ← run;
      '(item, capture) ← capture_poll (E:=unit) (Chunk chunk) capture;
      Some (match item with Chunk chunk => consumed +:+ chunk | _ => consumed end, capture))
      (Some ("", capture_new)) chunks in
  match run with
  | Some (consumed, capture) =>
      bool_decide (consumed = wire) && bool_decide (cap_wire capture = wire)
      && is_some_and (value_eqb (parsed receipt)) (cap_receipt capture)
      && verified (λ c, bool_decide (rc_jti c = "chatcmpl-test"))
           (capture_verify_with quoted text_of (λ v, Ok (text_of v)) (Ok 0%N) capture EXPECTED_ISSUER options
              (λ _ _, Ok tt))
  | None => false
  end.

Definition gcp_verifier_receives_domain_separated_key_commitment_input : bool :=
  verified is_verified
    (verify (embedded_for (claims "body" None)) EXPECTED_ISSUER options
       (expects "fake.jwt.token" (key_commitment (key 7)))).

Example receipt_tests :
  forallb id
    [verifies_compact_receipt_bodies_with_explicit_escape;
     bindings_are_required_by_default_and_can_be_explicitly_disabled;
     partial_bindings_fail_closed_by_default; expected_issuer_exact_match_passes_and_mismatch_is_typed;
     issuer_origin_normalization_accepts_case_slash_and_default_port;
     issuer_port_must_match_exactly_after_normalization; http_receipt_issuer_is_rejected;
     receipt_issuer_is_never_used_to_fetch_verification_material;
     tampered_payload_wrong_key_and_stale_claim_fail_signature; wrong_kid_fails_before_signature] = true.
Proof. vm_compute. reflexivity. Qed.

Example evidence_tests :
  forallb id
    [stream_byte_flip_receipt_position_and_event_count_fail;
     future_expired_window_and_nonce_mismatch_have_typed_errors;
     unsupported_and_missing_attestation_fail_closed;
     compact_receipt_verifies_a_supplied_pinned_attestation;
     flattened_receipt_rejects_a_mismatched_supplied_attestation;
     duplicate_json_members_are_rejected_at_nested_depth; multiline_data_and_unknown_sse_fields_fail;
     capture_preserves_split_chunks_discovers_and_verifies;
     gcp_verifier_receives_domain_separated_key_commitment_input] = true.
Proof. vm_compute. reflexivity. Qed.
End ReceiptTests.
