(* ===== verification/ClientApi.v ===== *)
(** * Building a client and the endpoint methods ([client.rs])

    The builder, its validation, and every endpoint method as the request it
    makes.  Environment variables, certificate parsing and HTTP client
    construction of reqwest, the query encoding of the url crate, UUIDs and
    serde_json are parameters. *)
From S2P Require Import Prelude Text F64 Json Http Error Policy Config Routing Vocab.
From S2P Require Import Identity Recorder RecorderFacts Headers Engine EngineFacts Transport Sse.
From S2P Require Import Wire Reporter.

Definition DEFAULT_TELEMETRY_SAMPLE_RATE : f64 := f64_hundredth.

(** ** The builder *)

Record ClientBuilder := mkClientBuilder {
  b_api_key : option string;
  b_api_base_url : string;
  b_control_base_url : string;
  b_workspace_id : option string;
  b_timeout : option Duration;
  b_max_retries : nat;
  b_regional_failover : bool;
  b_telemetry : option bool;
  b_telemetry_sample_rate : f64;
  b_headers : Headers;
  b_http_client : bool;
  b_root_certificate_pems : list string;
  b_host_resolutions : list (string * string);
}.
#[global] Instance ClientBuilder_settable : Settable ClientBuilder := λ b,
  mkClientBuilder (b_api_key b) (b_api_base_url b) (b_control_base_url b) (b_workspace_id b)
    (b_timeout b) (b_max_retries b) (b_regional_failover b) (b_telemetry b)
    (b_telemetry_sample_rate b) (b_headers b) (b_http_client b) (b_root_certificate_pems b)
    (b_host_resolutions b).

(** [ClientBuilder::default()] in an environment. *)
Definition builder_default (env : string → option string) : ClientBuilder :=
  {| b_api_key := env "TRUSTEDROUTER_API_KEY";
     b_api_base_url := DEFAULT_API_BASE_URL;
     b_control_base_url := DEFAULT_CONTROL_BASE_URL;
     b_workspace_id := None;
     b_timeout := Some DEFAULT_REQUEST_TIMEOUT;
     b_max_retries := DEFAULT_MAX_RETRIES;
     b_regional_failover := true;
     b_telemetry := None;
     b_telemetry_sample_rate := DEFAULT_TELEMETRY_SAMPLE_RATE;
     b_headers := [];
     b_http_client := false;
     b_root_certificate_pems := [];
     b_host_resolutions := [] |}.

(** One call of a builder method. *)
Inductive Setting :=
| ApiKey (value : string)
| ApiBaseUrl (value : string)
| ControlBaseUrl (value : string)
| WorkspaceId (value : string)
| SetTimeout (value : option Duration)
| MaxRetries (value : nat)
| RegionalFailover (value : bool)
| Telemetry (value : bool)
| TelemetrySampleRate (value : f64)
| Header (name value : string)
| HttpClient
| RootCertificatePem (value : string)
| ResolveHostname (host address : string).

Definition set (b : ClientBuilder) (setting : Setting) : ClientBuilder :=
  match setting with
  | ApiKey value => b <| b_api_key := Some value |>
  | ApiBaseUrl value => b <| b_api_base_url := value |>
  | ControlBaseUrl value => b <| b_control_base_url := value |>
  | WorkspaceId value => b <| b_workspace_id := Some value |>
  | SetTimeout value => b <| b_timeout := value |>
  | MaxRetries value => b <| b_max_retries := value |>
  | RegionalFailover value => b <| b_regional_failover := value |>
  | Telemetry value => b <| b_telemetry := Some value |>
  | TelemetrySampleRate value => b <| b_telemetry_sample_rate := value |>
  | Header name value => b <| b_headers := map_insert name value (b_headers b) |>
  | HttpClient => b <| b_http_client := true |>
  | RootCertificatePem value => b <| b_root_certificate_pems := b_root_certificate_pems b ++ [value] |>
  | ResolveHostname host address =>
      b <| b_host_resolutions := map_insert host address (b_host_resolutions b) |>
  end.

Section build.
Context `{HL : HttpLib} `{UL : UrlLib} `{DL : HttpDateLib} `{BE : BuildEnv}.

(** [Certificate::from_pem] and [reqwest::ClientBuilder::build]. *)
Context (from_pem : string → result string unit).
Context (build_http : list string → list (string * string) → result string unit).
Context (env : string → option string).

Fixpoint check_certificates (pems : list string) : Result unit :=
  match pems with
  | [] => Ok ()
  | pem :: pems =>
      _ ← map_err (λ e, InvalidConfiguration ("invalid root certificate PEM: " +:+ e)) (from_pem pem);
      check_certificates pems
  end.

Definition build_owned_http (pems : list string) (resolutions : list (string * string))
    : Result unit :=
  _ ← check_certificates pems;
  map_err InvalidConfiguration (build_http pems resolutions).

(** The reporter a client with telemetry starts with: what it reads and its
    initial state ([None] is a panic). *)
Definition client_reporter (b : ClientBuilder) (control_base_url : Url) (token : string)
    : Inner * option State :=
  reporter_new
    (config_new control_base_url (b_api_key b) sdk_identity
       <| rc_workspace_id := b_workspace_id b |>
       <| rc_success_sample_rate := b_telemetry_sample_rate b |>
       <| rc_debug := is_some_and (λ value, bool_decide (trim value = "1"))
                        (env "TRUSTEDROUTER_TELEMETRY_DEBUG") |>
       <| rc_transport := mkTransport (b_root_certificate_pems b) (b_host_resolutions b) |>)
    token.

Definition build (b : ClientBuilder) (token : string)
    : Result (Client.t * option (Inner * option State)) :=
  api_base_url ← parse_base_url (b_api_base_url b) "inference";
  control_base_url ← parse_base_url (b_control_base_url b) "control";
  let telemetry :=
    resolve_telemetry_enabled (b_telemetry b) (b_api_base_url b) (b_control_base_url b) env in
  _ ← build_owned_http (b_root_certificate_pems b) (b_host_resolutions b);
  let reporter := if telemetry then Some (client_reporter b control_base_url token) else None in
  Ok (Client.mk _ (b_api_key b) api_base_url
        (if b_regional_failover b then inference_base_urls api_base_url else [api_base_url])
        control_base_url (b_workspace_id b) (b_timeout b) (b_max_retries b) telemetry telemetry
        (b_headers b) (if b_http_client b then InjectedTransport else OwnedTransport),
      reporter).

(** [Client::new], with the defaults of the process environment. *)
Definition new (api_key token : string) : Result (Client.t * option (Inner * option State)) :=
  build (set (builder_default env) (ApiKey api_key)) token.

Lemma parse_base_url_err raw label e :
  parse_base_url raw label = Err e → ∃ text, e = InvalidConfiguration text.
Proof.
  unfold parse_base_url, mbind, result_bind. destruct (url_parse raw) as [url|t]; cbn; [|naive_solver].
  repeat case_match; naive_solver.
Qed.

Lemma check_certificates_err pems e :
  check_certificates pems = Err e → ∃ text, e = InvalidConfiguration text.
Proof.
  induction pems as [|pem pems IH]; cbn; [done|]. unfold mbind, result_bind.
  destruct (from_pem pem); cbn; naive_solver.
Qed.

Lemma build_owned_http_err pems hosts e :
  build_owned_http pems hosts = Err e → ∃ text, e = InvalidConfiguration text.
Proof.
  unfold build_owned_http, mbind, result_bind.
  destruct (check_certificates pems) eqn:E; [|intros [= <-]; by apply check_certificates_err in E].
  destruct (build_http _ _); cbn; naive_solver.
Qed.

(** Building fails only as an invalid configuration, before any request.
    A built client keeps the configured key, timeout and retry budget; its
    first candidate is the configured base, the others are the published
    aliases, and a client that opted out of failover or has a base of its
    own has no other; it has a reporter exactly when telemetry resolves to
    on, and that reporter sends to the control plane with the same key. *)
Theorem build_configures b token :
  match build b token with
  | Err e => ∃ text, e = InvalidConfiguration text
  | Ok (c, reporter) =>
      parse_base_url (b_api_base_url b) "inference" = Ok (Client.api_base_url c)
      ∧ parse_base_url (b_control_base_url b) "control" = Ok (Client.control_base_url c)
      ∧ head (Client.api_base_urls c) = Some (Client.api_base_url c)
      ∧ Forall (λ url, ∃ alias, alias ∈ ALIAS_API_BASE_URLS ∧ parse_base_url alias "inference" = Ok url)
          (tail (Client.api_base_urls c))
      ∧ (b_regional_failover b = false
         ∨ Ok (Client.api_base_url c) ≠ parse_base_url DEFAULT_API_BASE_URL "inference" →
         Client.api_base_urls c = [Client.api_base_url c])
      ∧ (Client.api_key c, Client.timeout c, Client.max_retries c)
        = (b_api_key b, b_timeout b, b_max_retries b)
      ∧ reporter = (if Client.telemetry c
                    then Some (client_reporter b (Client.control_base_url c) token) else None)
      ∧ Client.telemetry c = Client.has_sink c
  end.
Proof.
  unfold build. destruct (parse_base_url (b_api_base_url b) _) as [base|e] eqn:Eb; cbn;
    [|by eapply parse_base_url_err].
  destruct (parse_base_url (b_control_base_url b) _) as [control|e] eqn:Ec; cbn;
    [|by eapply parse_base_url_err].
  destruct (build_owned_http _ _) as [[]|e] eqn:Eh; cbn; [|by eapply build_owned_http_err].
  pose proof (inference_base_urls_head base) as Hh.
  split_and!; try done.
  - by destruct (b_regional_failover b).
  - destruct (b_regional_failover b); [apply inference_base_urls_tail|constructor].
  - destruct (b_regional_failover b); [|done]. intros [?|Hne]; [done|].
    by apply inference_base_urls_pinned.
Qed.

(** The ways a client ends up without telemetry. *)
Inductive opted_out (b : ClientBuilder) : Prop :=
| opt_explicit : b_telemetry b = Some false → opted_out b
| opt_variable value :
    b_telemetry b = None → env "TRUSTEDROUTER_TELEMETRY" = Some value →
    to_ascii_lowercase (trim value) ∈ ["0"; "false"; "off"; "no"] → opted_out b
| opt_do_not_track value :
    b_telemetry b = None → env "TRUSTEDROUTER_TELEMETRY" = None →
    env "DO_NOT_TRACK" = Some value → trim value = "1" → opted_out b
| opt_custom_host :
    b_telemetry b = None → env "TRUSTEDROUTER_TELEMETRY" = None →
    host_enum_str (b_api_base_url b) = Host.Custom → opted_out b.

Lemma opted_out_off b : opted_out b →
  resolve_telemetry_enabled (b_telemetry b) (b_api_base_url b) (b_control_base_url b) env = false.
Proof.
  unfold resolve_telemetry_enabled.
  destruct 1 as [ -> | v -> -> Hv | v -> -> -> Hv | -> -> Hh ]; [done|..]; cbn [from_option id].
  - by rewrite bool_decide_eq_true_2.
  - rewrite Hv. reflexivity.
  - rewrite Hh. change (trim "") with "". by destruct (bool_decide (_ = "1")).
Qed.

Lemma build_telemetry b token c reporter :
  build b token = Ok (c, reporter) →
  let telemetry :=
    resolve_telemetry_enabled (b_telemetry b) (b_api_base_url b) (b_control_base_url b) env in
  Client.telemetry c = telemetry
  ∧ reporter = (if telemetry then Some (client_reporter b (Client.control_base_url c) token) else None)
  ∧ Client.http c = (if b_http_client b then InjectedTransport else OwnedTransport).
Proof.
  unfold build. intros (base&_&H)%bind_Ok. apply bind_Ok in H as (control&_&H). cbv zeta in H.
  apply bind_Ok in H as ([]&_&[= <- <-]). done.
Qed.

Lemma request_bytes_silent `{HLaws : !HttpLaws HL} renv c plane m path body options now :
  Client.telemetry c = false → silent c (request_bytes renv c plane m path body options now).2.
Proof.
  intros Ht. unfold request_bytes. cbv zeta.
  pose proof (execute_silent renv c options plane m path body false now Ht) as Hs.
  destruct (out_result _) as [[response|]| |]; [|done..].
  destruct (read_body _ _ _ _) as [[] s] eqn:Hr; apply read_body_silent in Hr;
    repeat apply observe_silent; done.
Qed.

(** What the wire shows of telemetry when the SDK adds none: no recorder
    runs, and [x-tr-client] is [own] on every request, after reqwest has
    filled vacant slots from the HTTP client's default headers. *)
Definition telemetry_free (defaults : Transport → HeaderMap) (own : option string) (s : St) : Prop :=
  st_recorder s = None ∧ Forall (λ rq, wire_header defaults rq "x-tr-client" = own) (st_sent s).

Lemma silent_telemetry_free defaults c s :
  silent c s → telemetry_free defaults (hm_get (defaults (Client.http c)) "x-tr-client") s.
Proof.
  intros [Hr Hs]. split; [done|]. eapply Forall_impl; [exact Hs|]. intros rq [Hn Hh].
  unfold wire_header. by rewrite Hn, Hh.
Qed.

(** C18. Opting out is silence: a client whose caller opted out (explicitly,
    by either variable, or by pointing it at a host of its own) has no
    reporter, no call of it runs a recorder, and the SDK puts the telemetry
    header on no request, whatever headers the caller configured.  On the
    wire the header is therefore absent, with one documented boundary: a
    caller who injected an HTTP client with a default header of that name
    ships that default, unchanged (the SDK's own HTTP client has none). *)
Theorem opted_out_silent `{HLaws : !HttpLaws HL} defaults b token c reporter :
  opted_out b → build b token = Ok (c, reporter) →
  hm_get (defaults OwnedTransport) "x-tr-client" = None →
  let own := if b_http_client b then hm_get (defaults InjectedTransport) "x-tr-client" else None in
  reporter = None
  ∧ (∀ renv plane m path body options now,
       telemetry_free defaults own (request_bytes renv c plane m path body options now).2)
  ∧ (∀ renv plane m path body options now,
       telemetry_free defaults own (open_stream renv c plane m path body options now).2).
Proof.
  intros Ho%opted_out_off Hb Hd. apply build_telemetry in Hb as (Ht&->&Hh). rewrite Ho in *. cbv zeta.
  replace (if b_http_client b then _ else None) with (hm_get (defaults (Client.http c)) "x-tr-client")
    by (rewrite Hh; by destruct (b_http_client b)).
  split_and!; [done|intros; apply silent_telemetry_free..].
  - by apply request_bytes_silent.
  - unfold open_stream. cbv zeta. destruct (out_result _) as [[]| |]; by apply execute_silent.
Qed.

End build.

(** ** Endpoint methods

    Each method is the request it hands to [Client::request]: plane, method,
    path, body and options.  [request] performs one. *)
Record Call := mkCall {
  call_plane : Plane;
  call_method : Method;
  call_path : string;
  call_body : option Value;
  call_options : CallOptions.t;
}.

Definition request `{HL : HttpLib} `{UL : UrlLib} `{DL : HttpDateLib} `{BE : BuildEnv} {A}
    (decode : string → result string A) (env : Env) (c : Client.t) (call : Call) (now : Instant)
    : Settled A :=
  decoded decode
    (request_bytes env c (call_plane call) (call_method call) (call_path call) (call_body call)
       (call_options call) now).

Definition resource_path (prefix id : string) : Result string :=
  if is_empty id || contains_byte id "/" || contains_byte id "?" || contains_byte id "#"
  then Err (InvalidConfiguration "invalid resource ID")
  else Ok (prefix +:+ "/" +:+ id).

Section endpoints.
(** The query of [Url::query_pairs_mut], and the UUID of a minted key. *)
Context (encode_pairs : list (string * string) → string) (uuid : string).

Definition query_path (path : string) (pairs : list (string * string)) : string :=
  match pairs with [] => path | _ => path +:+ "?" +:+ encode_pairs pairs end.

Definition keyed (options : CallOptions.t) : CallOptions.t := ensure_idempotency_key uuid options.

(** The typed request bodies: [serde_json::to_value] of the request. *)
Definition chat_completions (req : result string Value) (options : CallOptions.t) : Result Call :=
  body ← with_stream req false;
  Ok (mkCall Inference POST "/chat/completions" (Some body) (keyed options)).

Definition responses (req : result string Value) (options : CallOptions.t) : Result Call :=
  body ← with_stream req false;
  Ok (mkCall Inference POST "/responses" (Some body) (keyed options)).

Definition responses_input_tokens (req : result string Value) (options : CallOptions.t) : Result Call :=
  body ← with_stream req false;
  Ok (mkCall Inference POST "/responses/input_tokens" (Some body) (keyed options)).

Definition messages (req : result string Value) (options : CallOptions.t) : Result Call :=
  body ← map_err Serialization req;
  Ok (mkCall Inference POST "/messages" (Some body) (keyed options)).

Definition embeddings (req : result string Value) (options : CallOptions.t) : Result Call :=
  body ← map_err Serialization req;
  Ok (mkCall Inference POST "/embeddings" (Some body) (keyed options)).

(** [ModelFilters]. *)
Record ModelFilters := mkModelFilters {
  open_weights : option bool;
  provider_jurisdiction : option string;
  provider_region : option string;
}.

Definition opt_pair (key : string) (value : option string) : list (string * string) :=
  match value with Some v => [(key, v)] | None => [] end.

Definition models (filters : ModelFilters) : Call :=
  let pairs :=
    opt_pair "open_weights" ((λ b : bool, if b then "true" else "false") <$> open_weights filters)
    ++ opt_pair "provider[jurisdiction]" (provider_jurisdiction filters)
    ++ opt_pair "provider[region]" (provider_region filters) in
  mkCall Control GET (query_path "/models" pairs) None CallOptions.default.

Definition providers : Call := mkCall Control GET "/providers" None CallOptions.default.
Definition regions : Call := mkCall Control GET "/regions" None CallOptions.default.
Definition credits (options : CallOptions.t) : Call := mkCall Control GET "/credits" None options.

Definition activity (query : list (string * string)) (options : CallOptions.t) : Call :=
  mkCall Control GET (query_path "/activity" query) None options.

Definition auth_session : Call := mkCall Control GET "/auth/session" None CallOptions.default.
Definition user_info : Call := mkCall Control GET "/auth/userinfo" None CallOptions.default.
Definition logout : Call := mkCall Control POST "/auth/logout" None (keyed CallOptions.default).

Definition broadcast_destinations (options : CallOptions.t) : Call :=
  mkCall Control GET "/broadcast/destinations" None options.

Definition create_broadcast_destination (body : Value) (options : CallOptions.t) : Call :=
  mkCall Control POST "/broadcast/destinations" (Some body) (keyed options).

Definition broadcast_destination (id : string) (options : CallOptions.t) : Result Call :=
  path ← resource_path "/broadcast/destinations" id;
  Ok (mkCall Control GET path None options).

Definition update_broadcast_destination (id : string) (patch : Value) (options : CallOptions.t)
    : Result Call :=
  path ← resource_path "/broadcast/destinations" id;
  Ok (mkCall Control PATCH path (Some patch) (keyed options)).

Definition delete_broadcast_destination (id : string) (options : CallOptions.t) : Result Call :=
  path ← resource_path "/broadcast/destinations" id;
  Ok (mkCall Control DELETE path None (keyed options)).

Definition test_broadcast_destination (id : string) (options : CallOptions.t) : Result Call :=
  path ← resource_path "/broadcast/destinations" id;
  Ok (mkCall Control POST (path +:+ "/test") None (keyed options)).

Definition billing_checkout (amount : Value) (payment_method : option string)
    (options : CallOptions.t) : Call :=
  let body := map_insert "amount" amount [] in
  let body :=
    match payment_method with
    | Some value => map_insert "payment_method" (VString value) body
    | None => body
    end in
  mkCall Control POST "/billing/checkout" (Some (VObject body)) (keyed options).

Definition stablecoin_checkout (amount : Value) (options : CallOptions.t) : Call :=
  billing_checkout amount (Some "stablecoin") options.

(** The two credential-free metadata fetches. *)
Definition trust_release `{HL : HttpLib} `{UL : UrlLib} `{BE : BuildEnv} {A}
    (decode : string → result string A) (parse : string → option Value)
    (get_once : Url → list (string * string) →
      result ReqwestError (Fut (result ReqwestError Response))) (c : Client.t)
    (url : option string) : Result A :=
  credential_free_json decode parse get_once c (default DEFAULT_TRUST_RELEASE_URL url).

Definition fetch_status `{HL : HttpLib} `{UL : UrlLib} `{BE : BuildEnv}
    (decode : string → result string Value) (parse : string → option Value)
    (get_once : Url → list (string * string) →
      result ReqwestError (Fut (result ReqwestError Response))) (c : Client.t)
    (url : option string) : Result Value :=
  credential_free_json decode parse get_once c (default DEFAULT_STATUS_URL url).

Definition attestation `{HL : HttpLib} `{UL : UrlLib} `{DL : HttpDateLib} `{BE : BuildEnv}
    (env : Env) (c : Client.t) (nonce_hex : option string) (now : Instant) : Settled string :=
  let root :=
    if ends_with "/v1/" (url_path (Client.api_base_url c)) then "/../attestation"
    else "/attestation" in
  let path :=
    match opt_filter (λ nonce, negb (is_empty nonce)) nonce_hex with
    | Some nonce => query_path root [("nonce", nonce)]
    | None => root
    end in
  credential_free_plane_bytes env c Inference GET path None
    (CallOptions.default <| CallOptions.api_key := Some "" |>
                         <| CallOptions.workspace_id := Some "" |>) now.

Definition provider_filter (min_privacy : string) : Value :=
  VObject [("provider",
    VObject [("data_collection", VString "deny"); ("min_privacy", VString min_privacy)])].

(** Every call an endpoint method can make. *)
Inductive endpoint_call : Call → Prop :=
| ep_chat req o call : chat_completions req o = Ok call → endpoint_call call
| ep_responses req o call : responses req o = Ok call → endpoint_call call
| ep_input_tokens req o call : responses_input_tokens req o = Ok call → endpoint_call call
| ep_messages req o call : messages req o = Ok call → endpoint_call call
| ep_embeddings req o call : embeddings req o = Ok call → endpoint_call call
| ep_models f : endpoint_call (models f)
| ep_providers : endpoint_call providers
| ep_regions : endpoint_call regions
| ep_credits o : endpoint_call (credits o)
| ep_activity q o : endpoint_call (activity q o)
| ep_auth_session : endpoint_call auth_session
| ep_user_info : endpoint_call user_info
| ep_logout : endpoint_call logout
| ep_destinations o : endpoint_call (broadcast_destinations o)
| ep_create b o : endpoint_call (create_broadcast_destination b o)
| ep_get id o call : broadcast_destination id o = Ok call → endpoint_call call
| ep_update id p o call : update_broadcast_destination id p o = Ok call → endpoint_call call
| ep_delete id o call : delete_broadcast_destination id o = Ok call → endpoint_call call
| ep_test id o call : test_broadcast_destination id o = Ok call → endpoint_call call
| ep_checkout a p o : endpoint_call (billing_checkout a p o)
| ep_stablecoin a o : endpoint_call (stablecoin_checkout a o).

Definition prompt_paths : list string :=
  ["/chat/completions"; "/responses"; "/responses/input_tokens"; "/messages"; "/embeddings"].

Lemma keyed_replay_safe m o :
  CallOptions.idempotency_key (keyed o) ≠ Some "" → request_replay_safe m (keyed o) = true.
Proof.
  intros Hk. assert (is_some_and (λ key, negb (is_empty key)) (CallOptions.idempotency_key (keyed o))
    = true) as H.
  { revert Hk. unfold keyed, ensure_idempotency_key.
    destruct (CallOptions.idempotency_key o) as [k|] eqn:E; [|done].
    rewrite E. simpl. by destruct k. }
  unfold request_replay_safe. by destruct m.
Qed.

Lemma resource_path_shape prefix id path :
  resource_path prefix id = Ok path → path = prefix +:+ "/" +:+ id.
Proof. unfold resource_path. destruct (_ || _); [done|congruence]. Qed.

Definition prompt_path (path : string) : bool := bool_decide (path ∈ prompt_paths).

(** Refutes membership of a path in a list of literal paths it differs from. *)
Ltac no_prompt H :=
  repeat (apply elem_of_cons in H as [H|H]; [discriminate H|]); by apply not_elem_of_nil in H.

Lemma destination_not_prompt rest :
  prompt_path ("/broadcast/destinations" +:+ rest) = false.
Proof. apply bool_decide_eq_false. unfold prompt_paths. intros H. no_prompt H. Qed.

Lemma query_not_prompt path pairs :
  path ∈ ["/models"; "/activity"] → prompt_path (query_path path pairs) = false.
Proof.
  intros Hp. apply bool_decide_eq_false. unfold prompt_paths, query_path. intros H.
  rewrite !elem_of_cons in Hp.
  destruct Hp as [->|[->|[]%not_elem_of_nil]]; destruct pairs; no_prompt H.
Qed.

(** Every endpoint method is replay safe, so the engine may retry it: a
    read is a GET, and every other call carries an idempotency key, minted
    when the caller gave none (a caller's explicit empty key opts out).  The
    prompt-bearing calls, and only they, go to the inference plane. *)
Theorem endpoint_calls_replay_safe call :
  endpoint_call call →
  (CallOptions.idempotency_key (call_options call) ≠ Some "" →
     request_replay_safe (call_method call) (call_options call) = true)
  ∧ (call_plane call = Inference ↔ prompt_path (call_path call) = true).
Proof.
  destruct 1;
    repeat match goal with
    | H : ?f = Ok _ |- _ => first
        [ progress unfold chat_completions, responses, responses_input_tokens, messages, embeddings,
            broadcast_destination, update_broadcast_destination, delete_broadcast_destination,
            test_broadcast_destination in H
        | apply bind_Ok in H as (?&?&H) ]
    | H : Ok _ = Ok _ |- _ => injection H as <-
    end;
    (split; [first [apply keyed_replay_safe|intros _; reflexivity]|]).
  all: simpl; try (by vm_compute).
  all: try match goal with H : resource_path _ _ = Ok _ |- _ => apply resource_path_shape in H as -> end.
  all: try (rewrite query_not_prompt by set_solver; done).
  all: rewrite <-?append_assoc, destination_not_prompt; done.
Qed.

End endpoints.
