(* ===== verification/OAuthFlow.v ===== *)
(** * OAuth credit delegation ([oauth.rs])

    PKCE pairs, the authorize URL, the loopback callback listener and the key
    exchange.  Random bytes, the url crate, the socket (what was accepted and
    what the one read returned) and the derived decoder of the exchange
    response are arguments. *)
From S2P Require Import Prelude Text Bytes Json Http UrlParts Error Crypto Policy Config Routing.
From S2P Require Import Identity Recorder Headers Engine EngineFacts Transport.

Definition DEFAULT_OAUTH_LOOPBACK_PORT : N := 3000.

(** ** Text of the standard library *)

Definition strip_white (s : string) : option string :=
  find_map (λ w, strip_prefix w s) white_space.

(** [str::split_whitespace]; a step consumes at least one byte. *)
Fixpoint split_words (fuel : nat) (word s : string) : list string :=
  let flush := if is_empty word then [] else [word] in
  match fuel, strip_white s, s with
  | S fuel, Some rest, _ => flush ++ split_words fuel "" rest
  | S fuel, None, String c rest => split_words fuel (word +:+ String c "") rest
  | _, _, _ => flush
  end.
Definition split_whitespace (s : string) : list string := split_words (String.length s) "" s.

(** [str::lines().next()]: a line feed ends the line, and a carriage return
    before it is dropped. *)
Definition first_line (s : string) : option string :=
  if is_empty s then None
  else match split_once (ascii_of_N 10) s with
       | Some (line, _) => Some (default line (strip_suffix carriage_return line))
       | None => Some s
       end.

(** ** Data *)

Record OAuthPkcePair := mkPkcePair {
  code_verifier : string;
  code_challenge : string;
  code_challenge_method : string;
}.

Record OAuthAuthorizeOptions := mkAuthorizeOptions {
  ao_callback_url : string;
  ao_code_challenge : string;
  ao_code_challenge_method : option string;
  ao_key_label : option string;
  ao_limit : option string;
  ao_usage_limit_type : option string;
  ao_expires_at : option string;
  ao_spawn_agent : option string;
  ao_spawn_cloud : option string;
  ao_state : option string;
}.

Record OAuthKeyExchangeRequest := mkExchangeRequest {
  xr_code : string;
  xr_code_verifier : option string;
  xr_code_challenge_method : option string;
  xr_call_options : CallOptions.t;
}.

Record OAuthKeyExchangeResponse := mkExchangeResponse {
  xs_key : string;
  xs_user_id : option string;
  xs_identity : option Value;
  xs_data : option Value;
  xs_extra : gmap string Value;
}.

Record OAuthCallback := mkOAuthCallback { cb_code : string; cb_state : option string }.

Record OAuthLoopbackOptions := mkLoopbackOptions {
  lo_port : N;
  lo_path : string;
  lo_expected_state : option string;
}.

Definition loopback_options_default : OAuthLoopbackOptions :=
  mkLoopbackOptions DEFAULT_OAUTH_LOOPBACK_PORT "/callback" None.

(** ** Guards of the response decoder

    Each takes what the underlying deserializer produced. *)

Definition validate_identity (value : Value) : result string unit :=
  if negb (is_object value) then Err "identity must be an object"
  else if existsb (λ field,
            is_some_and (λ v, negb (is_null v) && negb (is_string v)) (get field value))
            ["sub"; "email"]
  then Err "identity sub/email must be a string or null"
  else Ok ().

Definition optional_record (deserialized : result string (option Value))
    : result string (option Value) :=
  value ← deserialized;
  if is_some_and (λ v, negb (is_object v)) value then Err "expected an object or null" else Ok value.

Definition optional_identity (deserialized : result string (option Value))
    : result string (option Value) :=
  value ← optional_record deserialized;
  match value with
  | Some v => _ ← validate_identity v; Ok value
  | None => Ok value
  end.

Definition identity_record (deserialized : result string Value) : result string Value :=
  value ← deserialized;
  _ ← validate_identity value;
  Ok value.

(** A member an identity record may hold. *)
Definition null_or_string (o : option Value) : Prop :=
  o = None ∨ o = Some VNull ∨ ∃ s, o = Some (VString s).

Lemma validate_identity_iff value :
  validate_identity value = Ok () ↔
  (∃ members, value = VObject members)
  ∧ null_or_string (get "sub" value) ∧ null_or_string (get "email" value).
Proof.
  unfold validate_identity, null_or_string. destruct value as [| | | | |members]; cbn.
  1-5: (split; [done|intros [[? ?] _]; done]).
  destruct (map_get "sub" members) as [[]|], (map_get "email" members) as [[]|]; cbn; naive_solver.
Qed.

Section oauth.
Context `{HL : HttpLib} `{UL : UrlLib} `{DL : HttpDateLib} `{BE : BuildEnv}.
Context `{UP : !UrlParts UL} `{CL : CryptoLib}.

Record OAuthAuthorization := mkAuthorization {
  au_url : Url;
  au_pkce : OAuthPkcePair;
  au_state : string;
}.

Record OAuthLoopback := mkLoopback {
  lb_callback_url : Url;
  lb_path : string;
  lb_expected_state : option string;
}.

(** ** PKCE and state; the argument is the bytes the generator filled in *)

Definition random_url_token (filled : string) : string := b64_encode filled.
Definition random_oauth_state (filled : string) : string := random_url_token filled.

Definition create_pkce_pair (verifier : option string) (filled : string) : OAuthPkcePair :=
  let verifier := default (random_url_token filled) verifier in
  mkPkcePair verifier (b64_encode (sha256 verifier)) "S256".

(** ** The authorize URL *)

Definition append_option (u : Url) (name : string) (value : option string) : Url :=
  match opt_filter (λ v, negb (is_empty v)) value with
  | Some value => url_append_pair u name value
  | None => u
  end.

Definition oauth_authorize_url (c : Client.t) (options : OAuthAuthorizeOptions) : Result Url :=
  if is_empty (ao_callback_url options) then Err (OAuth "callback_url is required")
  else
    callback ← map_err (λ e, OAuth ("invalid callback URL: " +:+ e))
                 (url_parse (ao_callback_url options));
    let callback := from_option (url_append_pair callback "state") callback (ao_state options) in
    let challenge := ao_code_challenge options in
    let method := opt_or (ao_code_challenge_method options)
                    (if negb (is_empty challenge) then Some "S256" else None) in
    if bool_decide (is_Some method) && is_empty challenge
    then Err (OAuth "code_challenge is required when a challenge method is set")
    else
      authorize ← map_err OAuth (url_join (Client.control_base_url c) "auth");
      let query := url_append_pair authorize "callback_url" (url_as_str callback) in
      let query :=
        if negb (is_empty challenge) then url_append_pair query "code_challenge" challenge
        else query in
      let query := append_option query "code_challenge_method" method in
      let query := append_option query "key_label" (ao_key_label options) in
      let query := append_option query "limit" (ao_limit options) in
      let query := append_option query "usage_limit_type" (ao_usage_limit_type options) in
      let query := append_option query "expires_at" (ao_expires_at options) in
      let query := append_option query "spawn_agent" (ao_spawn_agent options) in
      let query := append_option query "spawn_cloud" (ao_spawn_cloud options) in
      Ok query.

(** The verifier is 32 random bytes and the state 24. *)
Definition create_oauth_authorization (c : Client.t) (callback_url : string)
    (key_label : option string) (filled32 filled24 : string) : Result OAuthAuthorization :=
  let pkce := create_pkce_pair None filled32 in
  let state := random_oauth_state filled24 in
  url ← oauth_authorize_url c
          (mkAuthorizeOptions callback_url (code_challenge pkce) (Some (code_challenge_method pkce))
             key_label None None None None None (Some state));
  Ok (mkAuthorization url pkce state).

(** ** The key exchange *)

(** [serde_json::to_value(request)]: absent options are skipped and the call
    options never serialize. *)
Definition exchange_body (request : OAuthKeyExchangeRequest) : Value :=
  let insert_option name value m :=
    from_option (λ v, map_insert name (VString v) m) m value in
  VObject (insert_option "code_challenge_method" (xr_code_challenge_method request)
             (insert_option "code_verifier" (xr_code_verifier request)
                [("code", VString (xr_code request))])).

Definition exchange_oauth_key (decode : string → result string OAuthKeyExchangeResponse)
    (env : Env) (c : Client.t) (request : OAuthKeyExchangeRequest) (now : Instant)
    : Settled OAuthKeyExchangeResponse :=
  if is_empty (xr_code request) then (Some (Err (OAuth "code is required")), mkSt now None [])
  else
    let options := xr_call_options request <| CallOptions.api_key := Some "" |>
                                          <| CallOptions.workspace_id := Some "" |> in
    credential_free_control_request decode env c POST "/auth/keys" (Some (exchange_body request))
      options now.

(** ** The loopback listener *)

(** [bind]: the listener's address, or why it cannot listen. *)
Definition bind (listen : N → result string (result string N)) (options : OAuthLoopbackOptions)
    : Result OAuthLoopback :=
  let path :=
    if negb (starts_with "/" (lo_path options)) then "/" +:+ lo_path options else lo_path options in
  local_addr ← map_err (λ e, OAuth ("cannot bind OAuth loopback: " +:+ e)) (listen (lo_port options));
  port ← map_err OAuth local_addr;
  callback_url ← map_err OAuth (url_parse ("http://localhost:" +:+ show_N port +:+ path));
  Ok (mkLoopback callback_url path (lo_expected_state options)).

(** [query_pairs().collect::<BTreeMap<_, _>>()]: a repeated name keeps its
    last value. *)
Definition collect_pairs (pairs : list (string * string)) : gmap string string :=
  foldl (λ m kv, <[kv.1 := kv.2]> m) ∅ pairs.

Definition validate_callback (url : Url) (path : string) (expected_state : option string)
    : Result OAuthCallback :=
  if negb (bool_decide (url_path url = path)) then Err (OAuth "unexpected callback path")
  else
    let params := collect_pairs (url_query_pairs url) in
    match params !! "error" with
    | Some error => Err (OAuth ("authorization denied: " +:+ error))
    | None =>
        code ← ok_or (OAuth "callback is missing code")
                 (opt_filter (λ value, negb (is_empty value)) (params !! "code"));
        let state := params !! "state" in
        if is_some_and (λ expected, negb (bool_decide (state = Some expected))) expected_state
        then Err (OAuth "state mismatch (possible CSRF)")
        else Ok (mkOAuthCallback code state)
    end.

Definition crlf : string := carriage_return +:+ newline.

(** The page the browser is shown. *)
Definition callback_page (ok : bool) : string :=
  let '(status, heading) :=
    if ok then ("200 OK", "Signed in with TrustedRouter")
    else ("400 Bad Request", "TrustedRouter sign in failed") in
  let body := "<!doctype html><title>" +:+ heading +:+ "</title><h1>" +:+ heading
              +:+ "</h1><p>You can close this tab.</p>" in
  "HTTP/1.1 " +:+ status +:+ crlf +:+ "Content-Type: text/html; charset=utf-8" +:+ crlf
  +:+ "Content-Length: " +:+ show_N (N.of_nat (String.length body)) +:+ crlf
  +:+ "Connection: close" +:+ crlf +:+ crlf +:+ body.

(** The URL of the request line of what was read. *)
Definition callback_target (read : string) : Result Url :=
  text ← map_err OAuth (from_utf8 read);
  line ← ok_or (OAuth "empty OAuth callback") (first_line text);
  target ← ok_or (OAuth "malformed OAuth callback") (split_whitespace line !! 1);
  map_err OAuth (url_parse ("http://localhost" +:+ target)).

(** [wait]: the result, and the reply written to the socket, if any. *)
Definition wait (l : OAuthLoopback) (accepted : result string (result string string))
    : Result OAuthCallback * option string :=
  let url :=
    socket ← map_err OAuth accepted;
    read ← map_err OAuth socket;
    callback_target read in
  match url with
  | Err e => (Err e, None)
  | Ok url =>
      let result := validate_callback url (lb_path l) (lb_expected_state l) in
      (result, Some (callback_page (is_ok result)))
  end.

(** ** Callbacks *)

(** The parameters a callback carries, as the listener reads them. *)
Definition param (url : Url) (name : string) : option string :=
  collect_pairs (url_query_pairs url) !! name.

(** A callback the flow accepts: at the registered path, without an error,
    with a code, and with the expected state. *)
Definition acceptable (url : Url) (path : string) (expected : option string) (cb : OAuthCallback)
    : Prop :=
  url_path url = path ∧ param url "error" = None
  ∧ param url "code" = Some (cb_code cb) ∧ cb_code cb ≠ ""
  ∧ param url "state" = cb_state cb
  ∧ ∀ state, expected = Some state → cb_state cb = Some state.

Lemma validate_callback_iff url path expected cb :
  validate_callback url path expected = Ok cb ↔ acceptable url path expected cb.
Proof.
  unfold validate_callback, acceptable, param. cbv zeta. case_bool_decide as Hp; cbn [negb]; [|naive_solver].
  destruct (_ !! "error") as [e|]; [naive_solver|]. destruct cb as [code state]. cbn [cb_code cb_state]. split.
  - intros (code'&[-> Hne]%ok_or_Ok%opt_filter_Some&H)%bind_Ok. destruct (is_some_and _ _) eqn:Hs; [done|]. injection H as -> <-.
    split_and!; [done..| |done|].
    + by destruct code.
    + intros s ->. cbn in Hs. by reflect.
  - intros (_&_&Hc&Hne&Hst&Hs). apply bind_Ok. exists code.
    split; [apply ok_or_Ok, opt_filter_Some; by destruct code|]. rewrite Hst. destruct expected as [e|]; [|done]. cbn. rewrite (Hs e eq_refl).
    by rewrite bool_decide_eq_true_2.
Qed.

Lemma callback_target_iff read url :
  callback_target read = Ok url ↔
  from_utf8 read = Ok read
  ∧ ∃ line target, first_line read = Some line ∧ split_whitespace line !! 1 = Some target
      ∧ url_parse ("http://localhost" +:+ target) = Ok url.
Proof.
  unfold callback_target. split.
  - intros (text&Ht%map_err_Ok&H)%bind_Ok. pose proof (from_utf8_id _ _ Ht) as ->.
    apply bind_Ok in H as (line&Hl%ok_or_Ok&H). apply bind_Ok in H as (target&Hw%ok_or_Ok&H).
    apply map_err_Ok in H. split; [done|]. by exists line, target.
  - intros (Ht&line&target&Hl&Hw&Hu). apply bind_Ok. exists read. split; [by apply map_err_Ok|].
    apply bind_Ok. exists line. split; [by apply ok_or_Ok|].
    apply bind_Ok. exists target. split; [by apply ok_or_Ok|by apply map_err_Ok].
Qed.

(** The URL a browser asked the listener for: the target of the request line
    of what was read, when that is UTF-8. *)
Definition asked (accepted : result string (result string string)) (url : Url) : Prop :=
  ∃ read line target,
    accepted = Ok (Ok read) ∧ from_utf8 read = Ok read
    ∧ first_line read = Some line ∧ split_whitespace line !! 1 = Some target
    ∧ url_parse ("http://localhost" +:+ target) = Ok url.

(** A listener either reads the URL it was asked for, and answers by the
    verdict on it, or fails without an answer. *)
Lemma wait_cases l accepted :
  (∃ url, asked accepted url ∧ (∀ url', asked accepted url' → url' = url)
     ∧ let result := validate_callback url (lb_path l) (lb_expected_state l) in
       wait l accepted = (result, Some (callback_page (is_ok result))))
  ∨ ((∀ url, ¬ asked accepted url) ∧ ∃ e, wait l accepted = (Err e, None)).
Proof.
  unfold wait, asked. cbv zeta. destruct accepted as [[read|e]|e]; cbn [map_err mbind result_bind].
  2-3: (right; split; [by intros ? (?&?&?&?&_)|eauto]).
  destruct (callback_target read) as [url|e] eqn:Hu; [left|right].
  - pose proof Hu as (?&line&target&?&?&?)%callback_target_iff. exists url. split_and!; [eauto 10| |done].
    intros url' (read'&line'&target'&[= <-]&?&?&?&?).
    assert (callback_target read = Ok url') by (apply callback_target_iff; eauto 10). congruence.
  - split; [|eauto]. intros url' (read'&line'&target'&[= <-]&?&?&?&?).
    assert (callback_target read = Ok url') by (apply callback_target_iff; eauto 10). congruence.
Qed.

Lemma callback_page_status (ok : bool) :
  starts_with (if ok then "HTTP/1.1 200 OK" else "HTTP/1.1 400 Bad Request") (callback_page ok) = true.
Proof. by destruct ok; vm_compute. Qed.

(** C22. The loopback listener returns a callback exactly when what it read is
    UTF-8 text whose request line names a target at the registered path,
    with a non-empty code, no error and the expected state (the last value
    of a repeated parameter counts).  The browser gets the success page, a
    200, exactly then; a callback that was read and refused gets the failure
    page, a 400; and a connection without a readable request line gets no
    answer and ends in an error. *)
Theorem loopback_accepts_iff l accepted :
  let '(result, reply) := wait l accepted in
  (∀ cb, result = Ok cb ↔
     ∃ url, asked accepted url ∧ acceptable url (lb_path l) (lb_expected_state l) cb)
  ∧ (∀ url, asked accepted url →
       ∃ page, reply = Some page
         ∧ starts_with (if is_ok result then "HTTP/1.1 200 OK" else "HTTP/1.1 400 Bad Request") page
           = true
         ∧ page = callback_page (is_ok result))
  ∧ ((∀ url, ¬ asked accepted url) → reply = None ∧ is_ok result = false).
Proof.
  destruct (wait_cases l accepted) as [(url&Ha&Hu& ->)|[Hn [e ->]]];
    setoid_rewrite <-validate_callback_iff; [|naive_solver].
  split_and!; [|eauto using callback_page_status|naive_solver].
  intros cb. split; [eauto|]. by intros (url'& ->%Hu &?).
Qed.

(** ** The whole flow *)

Section flow.
Context `{UPL : !UrlPartsLaws UP}.

Lemma collect_snoc pairs k v : collect_pairs (pairs ++ [(k, v)]) = <[k := v]> (collect_pairs pairs).
Proof. unfold collect_pairs. by rewrite foldl_app. Qed.

Lemma collect_absent pairs k : k ∉ pairs.*1 → collect_pairs pairs !! k = None.
Proof.
  induction pairs as [|[k' v] pairs IH] using rev_ind; intros Hk; [done|].
  rewrite collect_snoc. rewrite fmap_app in Hk. cbn in Hk.
  rewrite lookup_insert_ne by set_solver. apply IH. set_solver.
Qed.

(** The pair an option contributes to a query. *)
Definition option_pair (name : string) (value : option string) : list (string * string) :=
  match opt_filter (λ v, negb (is_empty v)) value with Some v => [(name, v)] | None => [] end.

Lemma option_pair_Some name v :
  option_pair name (Some v) = if is_empty v then [] else [(name, v)].
Proof. by destruct v. Qed.

Lemma pairs_append_option u name value :
  url_query_pairs (append_option u name value) = url_query_pairs u ++ option_pair name value.
Proof.
  unfold append_option, option_pair. destruct (opt_filter _ value).
  - apply query_pairs_append.
  - by rewrite app_nil_r.
Qed.

(** The callback the authorization server is asked to redirect to. *)
Definition stateful_callback (callback : Url) (state : option string) : Url :=
  from_option (url_append_pair callback "state") callback state.

(** The authorize URL asks for a redirect to the callback carrying the state
    and names the challenge with its method. *)
Lemma authorize_pairs c options url :
  oauth_authorize_url c options = Ok url →
  ∃ callback base,
    url_parse (ao_callback_url options) = Ok callback
    ∧ url_join (Client.control_base_url c) "auth" = Ok base
    ∧ (ao_code_challenge options = "" → ao_code_challenge_method options = None)
    ∧ url_query_pairs url =
        url_query_pairs base
        ++ [("callback_url", url_as_str (stateful_callback callback (ao_state options)))]
        ++ option_pair "code_challenge" (Some (ao_code_challenge options))
        ++ option_pair "code_challenge_method"
             (opt_or (ao_code_challenge_method options)
                (if is_empty (ao_code_challenge options) then None else Some "S256"))
        ++ option_pair "key_label" (ao_key_label options)
        ++ option_pair "limit" (ao_limit options)
        ++ option_pair "usage_limit_type" (ao_usage_limit_type options)
        ++ option_pair "expires_at" (ao_expires_at options)
        ++ option_pair "spawn_agent" (ao_spawn_agent options)
        ++ option_pair "spawn_cloud" (ao_spawn_cloud options).
Proof using UPL.
  unfold oauth_authorize_url. cbv zeta. destruct (is_empty (ao_callback_url options)); [done|].
  intros (callback&Hc%map_err_Ok&H)%bind_Ok. destruct (_ && _) eqn:Hm; [done|].
  apply bind_Ok in H as (base&Hb%map_err_Ok&[= <-]). exists callback, base. split_and!; [done|done|..].
  - intros He. rewrite He in Hm. cbn in Hm. rewrite andb_true_r in Hm.
    apply bool_decide_eq_false in Hm. destruct (ao_code_challenge_method options); [|done].
    exfalso. apply Hm. by eexists.
  - rewrite !pairs_append_option, (option_pair_Some "code_challenge").
    destruct (is_empty (ao_code_challenge options)); cbn [negb];
      rewrite !query_pairs_append, <-!(assoc_L (++)); done.
Qed.

(** C23. The authorization flow closes: the authorize URL carries the challenge
    of the generated verifier and asks for a redirect to the callback with
    the generated state, and a callback at that redirect with a code is
    accepted with that code and state, by a listener that expects this
    state and by no listener that expects another.  The registered callback
    has no error parameter of its own. *)
Theorem authorization_roundtrip c callback_url key_label filled32 filled24 auth callback code :
  create_oauth_authorization c callback_url key_label filled32 filled24 = Ok auth →
  url_parse callback_url = Ok callback →
  "error" ∉ (url_query_pairs callback).*1 → code ≠ "" →
  let redirect := url_append_pair callback "state" (au_state auth) in
  ("callback_url", url_as_str redirect) ∈ url_query_pairs (au_url auth)
  ∧ ("code_challenge", b64_encode (sha256 (code_verifier (au_pkce auth))))
    ∈ url_query_pairs (au_url auth)
  ∧ ∀ url, url_path url = url_path redirect →
      url_query_pairs url = url_query_pairs redirect ++ [("code", code)] →
      ∀ expected,
        validate_callback url (url_path callback) (Some expected)
        = if decide (expected = au_state auth) then Ok (mkOAuthCallback code (Some (au_state auth)))
          else Err (OAuth "state mismatch (possible CSRF)").
Proof using UPL.
  intros Hcreate Hcb Herr Hcode. cbv zeta. unfold create_oauth_authorization in Hcreate. cbv zeta in Hcreate.
  apply bind_Ok in Hcreate as (url&(callback'&base&Hp&_&Hne&Hpairs)%authorize_pairs&[= <-]).
  cbn [ao_callback_url] in Hp. assert (callback' = callback) as -> by congruence.
  cbn [au_url au_pkce au_state code_verifier]. rewrite Hpairs. split_and!.
  - set_solver.
  - rewrite option_pair_Some. cbn [ao_code_challenge create_pkce_pair code_challenge].
    rewrite (proj2 (is_empty_false _)) by (by intros ?%Hne). set_solver.
  - intros u Hpath Hq expected. unfold validate_callback. cbv zeta.
    rewrite Hpath, path_append, bool_decide_eq_true_2, Hq, query_pairs_append, !collect_snoc by done.
    cbn [negb]. simplify_map_eq.
    rewrite (collect_absent _ _ Herr). cbn. rewrite (proj2 (is_empty_false code) Hcode). cbn.
    case_decide; case_bool_decide; naive_solver.
Qed.

(** A member sent when it has a value. *)
Definition offered (name : string) (value : option string) : Map :=
  match value with Some v => [(name, VString v)] | None => [] end.

Lemma exchange_body_members request :
  exchange_body request
  = VObject (("code", VString (xr_code request))
             :: offered "code_challenge_method" (xr_code_challenge_method request)
             ++ offered "code_verifier" (xr_code_verifier request)).
Proof.
  unfold exchange_body. by destruct (xr_code_challenge_method request), (xr_code_verifier request).
Qed.

(** C24. The key exchange refuses an empty code before anything is sent;
    otherwise every request it sends is a POST of the code, and of the method
    and verifier where there are any, to the control plane's key endpoint,
    and on the wire none carries a value in a credential slot, [authorization] included, whatever key, headers or
    HTTP client the client or the caller configured (the user info of the
    control URL itself apart). *)
Theorem exchange_withholds_credentials `{HLaws : !HttpLaws HL} decode env defaults user_info c
    request now :
  build_headers_ok env → builder_authorizes env user_info → plain_defaults defaults →
  let call := exchange_oauth_key decode env c request now in
  (xr_code request = "" → call = (Some (Err (OAuth "code is required")), mkSt now None []))
  ∧ ∀ rq, rq ∈ st_sent call.2 →
      rq_method rq = POST
      ∧ rq_body rq = Some (VObject (("code", VString (xr_code request))
          :: offered "code_challenge_method" (xr_code_challenge_method request)
          ++ offered "code_verifier" (xr_code_verifier request)))
      ∧ plane_urls c Control "/auth/keys" = Ok [rq_url rq]
      ∧ carries_no_credential defaults user_info
          (CallOptions.idempotency_key (xr_call_options request)) rq.
Proof.
  intros Hb Ha Hd. unfold exchange_oauth_key. cbv zeta. split.
  - by intros ->.
  - destruct (is_empty (xr_code request)); [by intros rq ?%not_elem_of_nil|].
    intros rq Hrq. pose proof Hrq as (?&?&_&(candidates&Hp&Hin)&_)%credential_free_sent.
    pose proof (plane_urls_length _ _ _ _ Hp) as Hl.
    destruct candidates as [|u [|]]; try done. apply list_elem_of_singleton in Hin as ->.
    split_and!; [done|by rewrite <-exchange_body_members|done|].
    by apply (credential_free_wire _ _ _ _ _ _ _ _ _ _ _ Hb Ha Hd Hrq).
Qed.

End flow.

End oauth.
