(* ===== verification/EvidenceTypes.v ===== *)
(** * Documents of the evidence ([attestation.rs], [oauth.rs])

    What the serde attributes make of the trust release and of the response
    of the key exchange, whose guarded fields call the checks of
    [OAuthFlow]. *)
From S2P Require Import Prelude Text F64 Json StrictJson Crypto Error Attestation OAuthFlow Serde.

(** [BTreeMap<String, String>]. *)
Definition text_map : Codec (gmap string string) :=
  mkCodec (λ m, to_value string_map (VString <$> m))
    (λ v, e ← as_object v;
      if forallb (λ kv, is_string kv.2) e then Some (omap as_str (collect e)) else None)
    (λ _, True).

#[global] Instance text_map_lawful : LawfulCodec text_map.
Proof.
  split; [|done..]. intros m _. cbn -[forallb collect].
  assert (forallb (λ kv, is_string kv.2) (insert_all (members_of (VString <$> m)) []) = true) as ->.
  { apply forallb_forall. intros [k v] Hin%list_elem_of_In.
    apply insert_all_elem in Hin as [Hin|[]%not_elem_of_nil].
    apply elem_of_map_to_list, lookup_fmap_Some in Hin as (s&<-&_). done. }
  assert (valid string_map (VString <$> m)) as Hv by (intros k v (s&<-&_)%lookup_fmap_Some; done).
  pose proof (of_to (c := string_map) _ Hv) as Hc. apply (inj Some) in Hc. cbn in Hc. rewrite Hc.
  f_equal. apply map_eq. intros k. rewrite lookup_omap, lookup_fmap. by destruct (m !! k).
Qed.

(** ** The trust release *)

Module TrustReleaseTls.
Definition shape : Shape TrustReleaseTls (Members → TrustReleaseTls) :=
  construct mkTrustReleaseTls
  ⊕ ("mode", tls_mode, defaulted "" str)
  ⊕ ("hostname", tls_hostname, defaulted "" str).
Definition codec : Codec TrustReleaseTls := flatten shape tls_extra.

#[global] Instance flattened : Flattened shape tls_extra.
Proof. flattened_record. Qed.
#[global] Instance codec_lawful : LawfulCodec codec := flatten_lawful shape tls_extra.
End TrustReleaseTls.

Module TrustReleaseDataPolicy.
Definition shape : Shape TrustReleaseDataPolicy (Members → TrustReleaseDataPolicy) :=
  construct mkTrustReleaseDataPolicy
  ⊕ ("prompt_output_storage", prompt_output_storage, defaulted false boolean)
  ⊕ ("control_plane_prompt_access", control_plane_prompt_access, defaulted false boolean).
Definition codec : Codec TrustReleaseDataPolicy := flatten shape data_policy_extra.

#[global] Instance flattened : Flattened shape data_policy_extra.
Proof. flattened_record. Qed.
#[global] Instance codec_lawful : LawfulCodec codec := flatten_lawful shape data_policy_extra.
End TrustReleaseDataPolicy.

Module TrustRelease.
Definition shape : Shape TrustRelease (Members → TrustRelease) :=
  construct mkTrustRelease
  ⊕ ("platform", platform, defaulted "" str)
  ⊕ ("source_repo", source_repo, defaulted "" str)
  ⊕ ("source_repositories", source_repositories, defaulted ∅ text_map)
  ⊕ ("source_commit", source_commit, defaulted "" str)
  ⊕ ("image_reference", image_reference_of, defaulted "" str)
  ⊕ ("accepted_image_references", accepted_image_references, defaulted [] (vec str))
  ⊕ ("image_digest", image_digest_of, defaulted "" str)
  ⊕ ("accepted_image_digests", accepted_image_digests, defaulted [] (vec str))
  ⊕ ("attestation_issuer", attestation_issuer, defaulted "" str)
  ⊕ ("attestation_audience", attestation_audience, defaulted "" str)
  ⊕ ("api_base_url", release_api_base_url, defaulted "" str)
  ⊕ ("tls", release_tls, optional TrustReleaseTls.codec)
  ⊕ ("data_policy", release_data_policy, optional TrustReleaseDataPolicy.codec).
Definition codec : Codec TrustRelease := flatten shape release_extra.

#[global] Instance flattened : Flattened shape release_extra.
Proof. flattened_record. Qed.
#[global] Instance codec_lawful : LawfulCodec codec := flatten_lawful shape release_extra.
End TrustRelease.

(** ** The response of the key exchange *)

(** [Option::<Value>::deserialize]. *)
Definition option_value (v : Value) : option Value :=
  match v with VNull => None | _ => Some (canon v) end.

(** [#[serde(default, deserialize_with = "...")]] on an [Option<Value>],
    whose guard accepts what [keeps] decides. *)
Definition guarded_option (guard : result string (option Value) → result string (option Value))
    (keeps : Value → bool) : Member (option Value) :=
  mkMember (λ o, Some (default VNull o))
    (λ o, match o with
          | None => Some None
          | Some v => match guard (Ok (option_value v)) with Ok value => Some value | Err _ => None end
          end) true
    (λ o, match o with Some v => canonical v ∧ keeps v = true | None => True end).

(** The guards, as predicates of the value. *)
Definition keeps_identity (v : Value) : bool := is_object v && is_ok (validate_identity v).

Lemma optional_record_keeps v :
  optional_record (Ok (Some v)) = if is_object v then Ok (Some v) else Err "expected an object or null".
Proof. unfold optional_record. cbn. by destruct (is_object v). Qed.

Lemma optional_identity_keeps v :
  (keeps_identity v = true → optional_identity (Ok (Some v)) = Ok (Some v))
  ∧ ∀ o, optional_identity (Ok (Some v)) = Ok o → o = Some v ∧ keeps_identity v = true.
Proof.
  unfold optional_identity, keeps_identity. cbn -[optional_record]. rewrite optional_record_keeps.
  destruct (is_object v); cbn; [destruct (validate_identity v) as [[]|]; cbn|];
    (split; [done|]); intros o Ho; by inversion Ho.
Qed.

(** A guard that keeps a value or refuses it is lawful. *)
Lemma guarded_lawful guard keeps :
  guard (Ok None) = Ok None →
  (∀ v, (keeps v = true → guard (Ok (Some v)) = Ok (Some v))
        ∧ ∀ o, guard (Ok (Some v)) = Ok o → o = Some v ∧ keeps v = true) →
  keeps VNull = false →
  LawfulMember (guarded_option guard keeps).
Proof.
  intros Hn Hg Hk. split; cbn.
  - intros [v|] Hv; cbn; [|by rewrite Hn]. destruct Hv as [Hc Hv].
    assert (option_value v = Some v) as -> 
      by (unfold canonical in Hc; destruct v; cbn [option_value] in *; congruence).
    by rewrite (proj1 (Hg v) Hv).
  - intros [v|] x; [|by intros <-%(inj Some)]. destruct (option_value v) as [w|] eqn:E.
    + destruct (guard (Ok (Some w))) as [o|] eqn:Eg; [|done]. intros <-%(inj Some).
      apply (proj2 (Hg w)) in Eg as [-> Hw]. split; [|done].
      assert (w = canon v) as -> by (destruct v; cbn [option_value] in E; congruence).
      apply canon_canonical.
    + rewrite Hn. by intros <-%(inj Some).
Qed.

#[global] Instance record_guard_lawful : LawfulMember (guarded_option optional_record is_object).
Proof.
  apply guarded_lawful; [done| |done]. intros v. rewrite optional_record_keeps.
  destruct (is_object v); (split; [done|]); intros o Ho; by inversion Ho.
Qed.
#[global] Instance identity_guard_lawful : LawfulMember (guarded_option optional_identity keeps_identity).
Proof. apply guarded_lawful; [done|apply optional_identity_keeps|done]. Qed.

Module OAuthKeyExchangeResponse.
Definition shape : Shape OAuthKeyExchangeResponse (Members → OAuthKeyExchangeResponse) :=
  construct mkExchangeResponse
  ⊕ ("key", xs_key, required str)
  ⊕ ("user_id", xs_user_id, optional str)
  ⊕ ("identity", xs_identity, guarded_option optional_identity keeps_identity)
  ⊕ ("data", xs_data, guarded_option optional_record is_object).
Definition codec : Codec OAuthKeyExchangeResponse := flatten shape xs_extra.

#[global] Instance flattened : Flattened shape xs_extra.
Proof. flattened_record. Qed.
#[global] Instance codec_lawful : LawfulCodec codec := flatten_lawful shape xs_extra.

(** An identity the SDK hands out is an object whose subject and address are
    text, null or absent. *)
Lemma valid_identity r identity :
  valid codec r → xs_identity r = Some identity →
  (∃ members, identity = VObject members)
  ∧ null_or_string (get "sub" identity) ∧ null_or_string (get "email" identity).
Proof.
  intros [Hfit _] Hi. apply validate_identity_iff.
  cbn in Hfit. destruct Hfit as [[_ Hid] _]. rewrite Hi in Hid. destruct Hid as [_ Hk].
  unfold keeps_identity in Hk. by destruct (is_object identity), (validate_identity identity) as [[]|].
Qed.
End OAuthKeyExchangeResponse.
