(* ===== verification/Types.v ===== *)
(** * Request and response types ([types.rs])

    A module per struct: the record, the shape its serde attributes derive,
    its codec, and its constructors.  The requests are only written, so they
    have the fields they write.  [ResponseEvent] is the record of the event
    streams and [ModelFilters] is with the method that reads it. *)
From S2P Require Import Prelude Text F64 Json StrictJson Http Error Policy Config Serde Sse ClientApi OAuthFlow.

(** [identity_record] as the reader of a field. *)
Definition identity : Codec Value :=
  mkCodec id
    (λ v, match identity_record (Ok (canon v)) with Ok value => Some value | Err _ => None end)
    (λ v, canonical v ∧ validate_identity v = Ok ()).

#[global] Instance identity_lawful : LawfulCodec identity.
Proof.
  assert (∀ v x, of_value identity v = Some x → x = canon v ∧ validate_identity (canon v) = Ok ()) as H.
  { intros v x. cbn. unfold identity_record. cbn.
    destruct (validate_identity (canon v)) as [[]|e] eqn:E; cbn; [|done]. by intros ->%(inj Some). }
  split; cbn.
  - intros v [-> Hv]. unfold identity_record. cbn. by rewrite Hv.
  - intros v x [-> ?]%H. split; [apply canon_canonical|done].
  - intros v x [-> ?]%H Hv. by destruct v.
Qed.

(** A message of text, multimodal content or tools. *)
Module ChatMessage.
Record t := mk {
  role : string;
  content : Value;
  name : option string;
  tool_calls : list Value;
  tool_call_id : option string;
  extra : Members;
}.

Definition shape : Shape t (Members → t) :=
  construct mk
  ⊕ ("role", role, required str)
  ⊕ ("content", content, required json)
  ⊕ ("name", name, skip_none str)
  ⊕ ("tool_calls", tool_calls, skip_empty json)
  ⊕ ("tool_call_id", tool_call_id, skip_none str).
Definition codec : Codec t := flatten shape extra.

#[global] Instance flattened : Flattened shape extra.
Proof. flattened_record. Qed.
#[global] Instance codec_lawful : LawfulCodec codec := flatten_lawful shape extra.

Definition text (role content : string) : t := mk role (VString content) None [] None ∅.
Definition user (content : string) : t := text "user" content.
Definition system (content : string) : t := text "system" content.
Definition text_content (m : t) : option string := as_str (content m).
End ChatMessage.

(** Provider routing preferences. *)
Module ProviderPreferences.
Record t := mk {
  order : list string;
  only : list string;
  ignore : list string;
  sort : option string;
  allow_fallbacks : option bool;
  require_parameters : option bool;
  data_collection : option string;
  min_privacy : option string;
  jurisdiction : option string;
  usage : option string;
  quantizations : list string;
  max_price : Members;
  extra : Members;
}.

Definition shape : Shape t (Members → t) :=
  construct mk
  ⊕ ("order", order, skip_empty str)
  ⊕ ("only", only, skip_empty str)
  ⊕ ("ignore", ignore, skip_empty str)
  ⊕ ("sort", sort, skip_none str)
  ⊕ ("allow_fallbacks", allow_fallbacks, skip_none boolean)
  ⊕ ("require_parameters", require_parameters, skip_none boolean)
  ⊕ ("data_collection", data_collection, skip_none str)
  ⊕ ("min_privacy", min_privacy, skip_none str)
  ⊕ ("jurisdiction", jurisdiction, skip_none str)
  ⊕ ("usage", usage, skip_none str)
  ⊕ ("quantizations", quantizations, skip_empty str)
  ⊕ ("max_price", max_price, skip_empty_map).
Definition codec : Codec t := flatten shape extra.

#[global] Instance flattened : Flattened shape extra.
Proof. flattened_record. Qed.
#[global] Instance codec_lawful : LawfulCodec codec := flatten_lawful shape extra.

Definition default : t := mk [] [] [] None None None None None None None [] ∅ ∅.

Definition zdr : t :=
  mk [] [] [] None None None (Some "deny") (Some "zdr") None None [] ∅ ∅.
Definition confidential : t :=
  mk [] [] [] None None None (Some "deny") (Some "confidential") None None [] ∅ ∅.
Definition us_only : t :=
  mk [] [] [] None None None None None (Some "us") None [] ∅ ∅.
End ProviderPreferences.

(** The Chat Completions request, which is only written. *)
Module ChatRequest.
Record t := mk {
  model : string;
  messages : list Value;
  models : list string;
  tools : list Value;
  provider : option ProviderPreferences.t;
  metadata : option Value;
  depth : option N;
  extra : Members;
  call_options : CallOptions.t;
}.

Definition fields (r : t) : list (string * option Value) :=
  [("model", put (required str) (model r));
   ("messages", put (required (vec json)) (messages r));
   ("models", put (skip_empty str) (models r));
   ("tools", put (skip_empty json) (tools r));
   ("provider", put (skip_none ProviderPreferences.codec) (provider r));
   ("metadata", put (skip_none json) (metadata r));
   ("depth", put (skip_none (uint 8)) (depth r))].
Definition to_value (r : t) : Value := VObject (entries (fields r) (extra r)).

Definition new (model : string) (messages : list ChatMessage.t) : t :=
  mk model (map (Serde.to_value ChatMessage.codec) messages) [] [] None None None ∅ CallOptions.default.
Definition user (model prompt : string) : t := new model [ChatMessage.user prompt].
Definition with_field (r : t) (name : string) (value : Value) : t :=
  mk (model r) (messages r) (models r) (tools r) (provider r) (metadata r) (depth r)
    (<[name := value]> (extra r)) (call_options r).
End ChatRequest.

(** One choice of a completion. *)
Module ChatChoice.
Record t := mk {
  index : N;
  message : ChatMessage.t;
  finish_reason : option string;
  logprobs : option Value;
  extra : Members;
}.

Definition shape : Shape t (Members → t) :=
  construct mk
  ⊕ ("index", index, defaulted 0%N (uint 32))
  ⊕ ("message", message, required ChatMessage.codec)
  ⊕ ("finish_reason", finish_reason, optional str)
  ⊕ ("logprobs", logprobs, optional json).
Definition codec : Codec t := flatten shape extra.

#[global] Instance flattened : Flattened shape extra.
Proof. flattened_record. Qed.
#[global] Instance codec_lawful : LawfulCodec codec := flatten_lawful shape extra.
End ChatChoice.

(** Token, cache and cost accounting. *)
Module ChatUsage.
Record t := mk {
  prompt_tokens : N;
  completion_tokens : N;
  total_tokens : N;
  cost_microdollars : option Z;
  provider_usage : option Value;
  extra : Members;
}.

Definition shape : Shape t (Members → t) :=
  construct mk
  ⊕ ("prompt_tokens", prompt_tokens, defaulted 0%N (uint 64))
  ⊕ ("completion_tokens", completion_tokens, defaulted 0%N (uint 64))
  ⊕ ("total_tokens", total_tokens, defaulted 0%N (uint 64))
  ⊕ ("cost_microdollars", cost_microdollars, optional i64)
  ⊕ ("provider_usage", provider_usage, optional json).
Definition codec : Codec t := flatten shape extra.

#[global] Instance flattened : Flattened shape extra.
Proof. flattened_record. Qed.
#[global] Instance codec_lawful : LawfulCodec codec := flatten_lawful shape extra.
End ChatUsage.

(** A completion that is not streamed. *)
Module ChatCompletion.
Record t := mk {
  id : string;
  object : string;
  created : Z;
  model : string;
  choices : list ChatChoice.t;
  usage : option ChatUsage.t;
  extra : Members;
}.

Definition shape : Shape t (Members → t) :=
  construct mk
  ⊕ ("id", id, defaulted "" str)
  ⊕ ("object", object, defaulted "" str)
  ⊕ ("created", created, defaulted 0%Z i64)
  ⊕ ("model", model, defaulted "" str)
  ⊕ ("choices", choices, defaulted [] (vec ChatChoice.codec))
  ⊕ ("usage", usage, optional ChatUsage.codec).
Definition codec : Codec t := flatten shape extra.

#[global] Instance flattened : Flattened shape extra.
Proof. flattened_record. Qed.
#[global] Instance codec_lawful : LawfulCodec codec := flatten_lawful shape extra.
End ChatCompletion.

(** A streamed message delta. *)
Module ChatDelta.
Record t := mk {
  role : option string;
  content : option string;
  tool_calls : list Value;
  extra : Members;
}.

Definition shape : Shape t (Members → t) :=
  construct mk
  ⊕ ("role", role, optional str)
  ⊕ ("content", content, optional str)
  ⊕ ("tool_calls", tool_calls, defaulted [] (vec json)).
Definition codec : Codec t := flatten shape extra.

#[global] Instance flattened : Flattened shape extra.
Proof. flattened_record. Qed.
#[global] Instance codec_lawful : LawfulCodec codec := flatten_lawful shape extra.

Definition default : t := mk None None [] ∅.

Lemma default_valid : valid codec default.
Proof. split_and!; [repeat split; apply Forall_nil_2|apply map_Forall_empty|intros; apply lookup_empty]. Qed.
#[global] Hint Resolve default_valid : defaults.
End ChatDelta.

(** One streamed choice. *)
Module ChatChunkChoice.
Record t := mk {
  index : N;
  delta : ChatDelta.t;
  finish_reason : option string;
  extra : Members;
}.

Definition shape : Shape t (Members → t) :=
  construct mk
  ⊕ ("index", index, defaulted 0%N (uint 32))
  ⊕ ("delta", delta, defaulted ChatDelta.default ChatDelta.codec)
  ⊕ ("finish_reason", finish_reason, optional str).
Definition codec : Codec t := flatten shape extra.

#[global] Instance flattened : Flattened shape extra.
Proof. flattened_record. Qed.
#[global] Instance codec_lawful : LawfulCodec codec := flatten_lawful shape extra.
End ChatChunkChoice.

(** A streamed chunk. *)
Module ChatCompletionChunk.
Record t := mk {
  id : string;
  object : string;
  created : Z;
  model : string;
  choices : list ChatChunkChoice.t;
  usage : option ChatUsage.t;
  extra : Members;
}.

Definition shape : Shape t (Members → t) :=
  construct mk
  ⊕ ("id", id, defaulted "" str)
  ⊕ ("object", object, defaulted "" str)
  ⊕ ("created", created, defaulted 0%Z i64)
  ⊕ ("model", model, defaulted "" str)
  ⊕ ("choices", choices, defaulted [] (vec ChatChunkChoice.codec))
  ⊕ ("usage", usage, optional ChatUsage.codec).
Definition codec : Codec t := flatten shape extra.

#[global] Instance flattened : Flattened shape extra.
Proof. flattened_record. Qed.
#[global] Instance codec_lawful : LawfulCodec codec := flatten_lawful shape extra.
End ChatCompletionChunk.

(** The Responses request. *)
Module ResponsesRequest.
Record t := mk {
  model : string;
  input : Value;
  instructions : option string;
  models : list string;
  tools : list Value;
  provider : option ProviderPreferences.t;
  metadata : option Value;
  store : bool;
  extra : Members;
  call_options : CallOptions.t;
}.

Definition fields (r : t) : list (string * option Value) :=
  [("model", put (required str) (model r));
   ("input", put (required json) (input r));
   ("instructions", put (skip_none str) (instructions r));
   ("models", put (skip_empty str) (models r));
   ("tools", put (skip_empty json) (tools r));
   ("provider", put (skip_none ProviderPreferences.codec) (provider r));
   ("metadata", put (skip_none json) (metadata r));
   ("store", put (defaulted false boolean) (store r))].
Definition to_value (r : t) : Value := VObject (entries (fields r) (extra r)).

Definition text (model input : string) : t :=
  mk model (VString input) None [] [] None None false ∅ CallOptions.default.
End ResponsesRequest.

(** A Responses result. *)
Module ResponseObject.
Record t := mk {
  id : string;
  object : string;
  created_at : Z;
  status : string;
  model : string;
  output : list Value;
  usage : option Value;
  extra : Members;
}.

Definition shape : Shape t (Members → t) :=
  construct mk
  ⊕ ("id", id, required str)
  ⊕ ("object", object, defaulted "" str)
  ⊕ ("created_at", created_at, defaulted 0%Z i64)
  ⊕ ("status", status, defaulted "" str)
  ⊕ ("model", model, defaulted "" str)
  ⊕ ("output", output, defaulted [] (vec json))
  ⊕ ("usage", usage, optional json).
Definition codec : Codec t := flatten shape extra.

#[global] Instance flattened : Flattened shape extra.
Proof. flattened_record. Qed.
#[global] Instance codec_lawful : LawfulCodec codec := flatten_lawful shape extra.
End ResponseObject.

(** The answer of [/responses/input_tokens]. *)
Module ResponseInputTokens.
Record t := mk {
  input_tokens : N;
  extra : Members;
}.

Definition shape : Shape t (Members → t) :=
  construct mk
  ⊕ ("input_tokens", input_tokens, required (uint 64)).
Definition codec : Codec t := flatten shape extra.

#[global] Instance flattened : Flattened shape extra.
Proof. flattened_record. Qed.
#[global] Instance codec_lawful : LawfulCodec codec := flatten_lawful shape extra.
End ResponseInputTokens.

(** The Messages request. *)
Module MessagesRequest.
Record t := mk {
  model : string;
  messages : list Value;
  max_tokens : N;
  system : option Value;
  provider : option ProviderPreferences.t;
  extra : Members;
  call_options : CallOptions.t;
}.

Definition fields (r : t) : list (string * option Value) :=
  [("model", put (required str) (model r));
   ("messages", put (required (vec json)) (messages r));
   ("max_tokens", put (required (uint 32)) (max_tokens r));
   ("system", put (skip_none json) (system r));
   ("provider", put (skip_none ProviderPreferences.codec) (provider r))].
Definition to_value (r : t) : Value := VObject (entries (fields r) (extra r)).
End MessagesRequest.

(** A Messages response. *)
Module MessagesResponse.
Record t := mk {
  id : string;
  model : string;
  content : list Value;
  stop_reason : option string;
  usage : option Value;
  extra : Members;
}.

Definition shape : Shape t (Members → t) :=
  construct mk
  ⊕ ("id", id, required str)
  ⊕ ("model", model, defaulted "" str)
  ⊕ ("content", content, defaulted [] (vec json))
  ⊕ ("stop_reason", stop_reason, optional str)
  ⊕ ("usage", usage, optional json).
Definition codec : Codec t := flatten shape extra.

#[global] Instance flattened : Flattened shape extra.
Proof. flattened_record. Qed.
#[global] Instance codec_lawful : LawfulCodec codec := flatten_lawful shape extra.
End MessagesResponse.

(** The Embeddings request. *)
Module EmbeddingsRequest.
Record t := mk {
  model : string;
  input : Value;
  provider : option ProviderPreferences.t;
  extra : Members;
  call_options : CallOptions.t;
}.

Definition fields (r : t) : list (string * option Value) :=
  [("model", put (required str) (model r));
   ("input", put (required json) (input r));
   ("provider", put (skip_none ProviderPreferences.codec) (provider r))].
Definition to_value (r : t) : Value := VObject (entries (fields r) (extra r)).
End EmbeddingsRequest.

(** An Embeddings response. *)
Module EmbeddingResponse.
Record t := mk {
  data : list Value;
  model : string;
  usage : option Value;
  extra : Members;
}.

Definition shape : Shape t (Members → t) :=
  construct mk
  ⊕ ("data", data, defaulted [] (vec json))
  ⊕ ("model", model, defaulted "" str)
  ⊕ ("usage", usage, optional json).
Definition codec : Codec t := flatten shape extra.

#[global] Instance flattened : Flattened shape extra.
Proof. flattened_record. Qed.
#[global] Instance codec_lawful : LawfulCodec codec := flatten_lawful shape extra.
End EmbeddingResponse.

(** A model of the catalog. *)
Module ModelInfo.
Record t := mk {
  id : string;
  name : string;
  description : string;
  context_length : option N;
  pricing : option Value;
  architecture : option Value;
  trustedrouter : option Value;
  extra : Members;
}.

Definition shape : Shape t (Members → t) :=
  construct mk
  ⊕ ("id", id, required str)
  ⊕ ("name", name, defaulted "" str)
  ⊕ ("description", description, defaulted "" str)
  ⊕ ("context_length", context_length, optional (uint 64))
  ⊕ ("pricing", pricing, optional json)
  ⊕ ("architecture", architecture, optional json)
  ⊕ ("trustedrouter", trustedrouter, optional json).
Definition codec : Codec t := flatten shape extra.

#[global] Instance flattened : Flattened shape extra.
Proof. flattened_record. Qed.
#[global] Instance codec_lawful : LawfulCodec codec := flatten_lawful shape extra.
End ModelInfo.

(** The model catalog. *)
Module ModelList.
Record t := mk {
  data : list ModelInfo.t;
  extra : Members;
}.

Definition shape : Shape t (Members → t) :=
  construct mk
  ⊕ ("data", data, defaulted [] (vec ModelInfo.codec)).
Definition codec : Codec t := flatten shape extra.

#[global] Instance flattened : Flattened shape extra.
Proof. flattened_record. Qed.
#[global] Instance codec_lawful : LawfulCodec codec := flatten_lawful shape extra.

Definition by_id (l : t) (model_id : string) : option ModelInfo.t :=
  List.find (λ m, bool_decide (ModelInfo.id m = model_id)) (data l).
End ModelList.

(** A provider of the catalog. *)
Module ProviderInfo.
Record t := mk {
  id : string;
  name : string;
  extra : Members;
}.

Definition shape : Shape t (Members → t) :=
  construct mk
  ⊕ ("id", id, required str)
  ⊕ ("name", name, defaulted "" str).
Definition codec : Codec t := flatten shape extra.

#[global] Instance flattened : Flattened shape extra.
Proof. flattened_record. Qed.
#[global] Instance codec_lawful : LawfulCodec codec := flatten_lawful shape extra.
End ProviderInfo.

(** The provider catalog. *)
Module ProviderList.
Record t := mk {
  data : list ProviderInfo.t;
  extra : Members;
}.

Definition shape : Shape t (Members → t) :=
  construct mk
  ⊕ ("data", data, defaulted [] (vec ProviderInfo.codec)).
Definition codec : Codec t := flatten shape extra.

#[global] Instance flattened : Flattened shape extra.
Proof. flattened_record. Qed.
#[global] Instance codec_lawful : LawfulCodec codec := flatten_lawful shape extra.
End ProviderList.

(** A region. *)
Module RegionInfo.
Record t := mk {
  id : string;
  name : string;
  extra : Members;
}.

Definition shape : Shape t (Members → t) :=
  construct mk
  ⊕ ("id", id, required str)
  ⊕ ("name", name, defaulted "" str).
Definition codec : Codec t := flatten shape extra.

#[global] Instance flattened : Flattened shape extra.
Proof. flattened_record. Qed.
#[global] Instance codec_lawful : LawfulCodec codec := flatten_lawful shape extra.
End RegionInfo.

(** The published regions. *)
Module RegionList.
Record t := mk {
  data : list RegionInfo.t;
  extra : Members;
}.

Definition shape : Shape t (Members → t) :=
  construct mk
  ⊕ ("data", data, defaulted [] (vec RegionInfo.codec)).
Definition codec : Codec t := flatten shape extra.

#[global] Instance flattened : Flattened shape extra.
Proof. flattened_record. Qed.
#[global] Instance codec_lawful : LawfulCodec codec := flatten_lawful shape extra.
End RegionList.

(** The credits envelope. *)
Module CreditsBalance.
Record t := mk {
  data : Value;
  extra : Members;
}.

Definition shape : Shape t (Members → t) :=
  construct mk
  ⊕ ("data", data, required json).
Definition codec : Codec t := flatten shape extra.

#[global] Instance flattened : Flattened shape extra.
Proof. flattened_record. Qed.
#[global] Instance codec_lawful : LawfulCodec codec := flatten_lawful shape extra.
End CreditsBalance.

(** The activity envelope. *)
Module ActivityResponse.
Record t := mk {
  activities : list Value;
  extra : Members;
}.

Definition shape : Shape t (Members → t) :=
  construct mk
  ⊕ ("activities", activities, defaulted [] (vec json)).
Definition codec : Codec t := flatten shape extra.

#[global] Instance flattened : Flattened shape extra.
Proof. flattened_record. Qed.
#[global] Instance codec_lawful : LawfulCodec codec := flatten_lawful shape extra.
End ActivityResponse.

(** A broadcast destination; its type is the member [type]. *)
Module BroadcastDestination.
Record t := mk {
  id : string;
  destination_type : string;
  name : option string;
  endpoint : option string;
  enabled : option bool;
  include_content : option bool;
  method : option string;
  extra : Members;
}.

Definition shape : Shape t (Members → t) :=
  construct mk
  ⊕ ("id", id, required str)
  ⊕ ("type", destination_type, required str)
  ⊕ ("name", name, optional str)
  ⊕ ("endpoint", endpoint, optional str)
  ⊕ ("enabled", enabled, optional boolean)
  ⊕ ("include_content", include_content, optional boolean)
  ⊕ ("method", method, optional str).
Definition codec : Codec t := flatten shape extra.

#[global] Instance flattened : Flattened shape extra.
Proof. flattened_record. Qed.
#[global] Instance codec_lawful : LawfulCodec codec := flatten_lawful shape extra.
End BroadcastDestination.

(** The broadcast destinations. *)
Module BroadcastDestinationList.
Record t := mk {
  data : list BroadcastDestination.t;
  extra : Members;
}.

Definition shape : Shape t (Members → t) :=
  construct mk
  ⊕ ("data", data, defaulted [] (vec BroadcastDestination.codec)).
Definition codec : Codec t := flatten shape extra.

#[global] Instance flattened : Flattened shape extra.
Proof. flattened_record. Qed.
#[global] Instance codec_lawful : LawfulCodec codec := flatten_lawful shape extra.
End BroadcastDestinationList.

(** A checkout. *)
Module CheckoutResponse.
Record t := mk {
  url : option string;
  status : option string;
  extra : Members;
}.

Definition shape : Shape t (Members → t) :=
  construct mk
  ⊕ ("url", url, optional str)
  ⊕ ("status", status, optional str).
Definition codec : Codec t := flatten shape extra.

#[global] Instance flattened : Flattened shape extra.
Proof. flattened_record. Qed.
#[global] Instance codec_lawful : LawfulCodec codec := flatten_lawful shape extra.
End CheckoutResponse.

(** The browser session. *)
Module AuthSessionResponse.
Record t := mk {
  authenticated : bool;
  user : option Value;
  extra : Members;
}.

Definition shape : Shape t (Members → t) :=
  construct mk
  ⊕ ("authenticated", authenticated, required boolean)
  ⊕ ("user", user, optional json).
Definition codec : Codec t := flatten shape extra.

#[global] Instance flattened : Flattened shape extra.
Proof. flattened_record. Qed.
#[global] Instance codec_lawful : LawfulCodec codec := flatten_lawful shape extra.
End AuthSessionResponse.

(** The user-info envelope, whose data is an identity record. *)
Module UserInfoResponse.
Record t := mk {
  data : Value;
  extra : Members;
}.

Definition shape : Shape t (Members → t) :=
  construct mk
  ⊕ ("data", data, required identity).
Definition codec : Codec t := flatten shape extra.

#[global] Instance flattened : Flattened shape extra.
Proof. flattened_record. Qed.
#[global] Instance codec_lawful : LawfulCodec codec := flatten_lawful shape extra.
End UserInfoResponse.

(** A Responses event, which has no flattened field. *)
Module ResponseEvent.
Definition shape : Shape ResponseEvent ResponseEvent :=
  construct mkResponseEvent
  ⊕ ("event", re_event, required str)
  ⊕ ("data", re_data, required json).
Definition codec : Codec ResponseEvent := struct shape.

#[global] Instance plain : Plain shape.
Proof. plain_record. Qed.
#[global] Instance codec_lawful : LawfulCodec codec := struct_lawful shape plain.
End ResponseEvent.

Definition messages_to_values (messages : list ChatMessage.t) : list Value :=
  map (to_value ChatMessage.codec) messages.
