(* ===== verification/Tools.v ===== *)
(** * Orchestration tools ([tools.rs])

    The options of the five tool primitives and the builders of the tool
    values a request carries. *)
From S2P Require Import Prelude Text F64 Json StrictJson Serde Types.

(** [SelectionStrategy], in snake case. *)
Inductive SelectionStrategy :=
| Synthesize
| SynthesizeNonRefusals
| FirstSuccess
| FirstNonRefusal.

Definition strategy_name (s : SelectionStrategy) : string :=
  match s with
  | Synthesize => "synthesize"
  | SynthesizeNonRefusals => "synthesize_non_refusals"
  | FirstSuccess => "first_success"
  | FirstNonRefusal => "first_non_refusal"
  end.

Definition strategy_codec : Codec SelectionStrategy :=
  variants strategy_name [Synthesize; SynthesizeNonRefusals; FirstSuccess; FirstNonRefusal].

#[global] Instance strategy_lawful : LawfulCodec strategy_codec.
Proof. apply variants_lawful. distinct_names. Qed.

(** [json!({"type": kind, "parameters": options})]. *)
Definition tool {A} (kind : string) (c : Codec A) (options : A) : Value :=
  VObject (insert_all [("type", VString kind); ("parameters", to_value c options)] []).

(** Parameters of the Synth primitive. *)
Module SynthToolOptions.
Record t := mk {
  enabled : option bool;
  analysis_models : list string;
  model : option string;
  selection_strategy : option SelectionStrategy;
  fallback_judges : list string;
  fallback_final_models : list string;
  max_completion_tokens : option N;
  max_tool_calls : option N;
  preset : option string;
  panel_prompt : option string;
  synthesis_prompt : option string;
}.

Definition shape : Shape t t :=
  construct mk
  ⊕ ("enabled", enabled, skip_none boolean)
  ⊕ ("analysis_models", analysis_models, skip_empty str)
  ⊕ ("model", model, skip_none str)
  ⊕ ("selection_strategy", selection_strategy, skip_none strategy_codec)
  ⊕ ("fallback_judges", fallback_judges, skip_empty str)
  ⊕ ("fallback_final_models", fallback_final_models, skip_empty str)
  ⊕ ("max_completion_tokens", max_completion_tokens, skip_none (uint 32))
  ⊕ ("max_tool_calls", max_tool_calls, skip_none (uint 32))
  ⊕ ("preset", preset, skip_none str)
  ⊕ ("panel_prompt", panel_prompt, skip_none str)
  ⊕ ("synthesis_prompt", synthesis_prompt, skip_none str).
Definition codec : Codec t := struct shape.

#[global] Instance plain : Plain shape.
Proof. plain_record. Qed.
#[global] Instance codec_lawful : LawfulCodec codec := struct_lawful shape plain.
End SynthToolOptions.

Definition synth_tool (options : SynthToolOptions.t) : Value :=
  tool "trustedrouter:fusion" SynthToolOptions.codec options.

(** Parameters of the Advisor primitive. *)
Module AdvisorToolOptions.
Record t := mk {
  enabled : option bool;
  depth : option N;
  worker_models : list string;
  advisor_models : list string;
  max_get_advice_calls : option N;
  advisor_max_tokens : option N;
  worker_timeout_ms : option N;
  advisor_timeout_ms : option N;
  auto_initial_advice : option bool;
}.

Definition shape : Shape t t :=
  construct mk
  ⊕ ("enabled", enabled, skip_none boolean)
  ⊕ ("depth", depth, skip_none (uint 8))
  ⊕ ("worker_models", worker_models, skip_empty str)
  ⊕ ("advisor_models", advisor_models, skip_empty str)
  ⊕ ("max_get_advice_calls", max_get_advice_calls, skip_none (uint 8))
  ⊕ ("advisor_max_tokens", advisor_max_tokens, skip_none (uint 32))
  ⊕ ("worker_timeout_ms", worker_timeout_ms, skip_none (uint 64))
  ⊕ ("advisor_timeout_ms", advisor_timeout_ms, skip_none (uint 64))
  ⊕ ("auto_initial_advice", auto_initial_advice, skip_none boolean).
Definition codec : Codec t := struct shape.

#[global] Instance plain : Plain shape.
Proof. plain_record. Qed.
#[global] Instance codec_lawful : LawfulCodec codec := struct_lawful shape plain.
End AdvisorToolOptions.

Definition advisor_tool (options : AdvisorToolOptions.t) : Value :=
  tool "trustedrouter:advisor" AdvisorToolOptions.codec options.

(** Parameters of the Selector primitive. *)
Module SelectorToolOptions.
Record t := mk {
  enabled : option bool;
  analysis_models : list string;
  selector_models : list string;
  selector_prompt : option string;
  max_completion_tokens : option N;
}.

Definition shape : Shape t t :=
  construct mk
  ⊕ ("enabled", enabled, skip_none boolean)
  ⊕ ("analysis_models", analysis_models, skip_empty str)
  ⊕ ("selector_models", selector_models, skip_empty str)
  ⊕ ("selector_prompt", selector_prompt, skip_none str)
  ⊕ ("max_completion_tokens", max_completion_tokens, skip_none (uint 32)).
Definition codec : Codec t := struct shape.

#[global] Instance plain : Plain shape.
Proof. plain_record. Qed.
#[global] Instance codec_lawful : LawfulCodec codec := struct_lawful shape plain.
End SelectorToolOptions.

Definition selector_tool (options : SelectorToolOptions.t) : Value :=
  tool "trustedrouter:selector" SelectorToolOptions.codec options.

(** Parameters of the MapReduce primitive. *)
Module MapReduceToolOptions.
Record t := mk {
  enabled : option bool;
  mapper_models : list string;
  parallel_models : list string;
  reducer_models : list string;
  max_parts : option N;
  mapper_prompt : option string;
  parallel_prompt : option string;
  reducer_prompt : option string;
  max_completion_tokens : option N;
}.

Definition shape : Shape t t :=
  construct mk
  ⊕ ("enabled", enabled, skip_none boolean)
  ⊕ ("mapper_models", mapper_models, skip_empty str)
  ⊕ ("parallel_models", parallel_models, skip_empty str)
  ⊕ ("reducer_models", reducer_models, skip_empty str)
  ⊕ ("max_parts", max_parts, skip_none (uint 8))
  ⊕ ("mapper_prompt", mapper_prompt, skip_none str)
  ⊕ ("parallel_prompt", parallel_prompt, skip_none str)
  ⊕ ("reducer_prompt", reducer_prompt, skip_none str)
  ⊕ ("max_completion_tokens", max_completion_tokens, skip_none (uint 32)).
Definition codec : Codec t := struct shape.

#[global] Instance plain : Plain shape.
Proof. plain_record. Qed.
#[global] Instance codec_lawful : LawfulCodec codec := struct_lawful shape plain.
End MapReduceToolOptions.

Definition map_reduce_tool (options : MapReduceToolOptions.t) : Value :=
  tool "trustedrouter:mapreduce" MapReduceToolOptions.codec options.

(** Parameters of the Subagent primitive. *)
Module SubagentToolOptions.
Record t := mk {
  enabled : option bool;
  controller_model : option string;
  model : option string;
  instructions : option string;
  depth : option N;
  max_subagent_calls : option N;
  max_completion_tokens : option N;
  temperature : option f64;
  reasoning : option Value;
  tools : list Value;
}.

Definition shape : Shape t t :=
  construct mk
  ⊕ ("enabled", enabled, skip_none boolean)
  ⊕ ("controller_model", controller_model, skip_none str)
  ⊕ ("model", model, skip_none str)
  ⊕ ("instructions", instructions, skip_none str)
  ⊕ ("depth", depth, skip_none (uint 8))
  ⊕ ("max_subagent_calls", max_subagent_calls, skip_none (uint 8))
  ⊕ ("max_completion_tokens", max_completion_tokens, skip_none (uint 32))
  ⊕ ("temperature", temperature, skip_none double)
  ⊕ ("reasoning", reasoning, skip_none json)
  ⊕ ("tools", tools, skip_empty json).
Definition codec : Codec t := struct shape.

#[global] Instance plain : Plain shape.
Proof. plain_record. Qed.
#[global] Instance codec_lawful : LawfulCodec codec := struct_lawful shape plain.
End SubagentToolOptions.

Definition subagent_tool (options : SubagentToolOptions.t) : Value :=
  tool "trustedrouter:subagent" SubagentToolOptions.codec options.

