(* ===== verification/TypesFacts.v ===== *)
(** * What the types promise on the wire

    The bodies the typed requests put on the wire, and the round trips of
    every type that is written and read. *)
From S2P Require Import Prelude Text F64 Json StrictJson Http Error Policy Config Serde Sse.
From S2P Require Import Headers Engine Attestation OAuthFlow ClientApi Types Tools EvidenceTypes.

(** ** Bodies *)

(** A JSON object in key order with exactly these members. *)
Definition carries (body : Value) (members : string → option Value) : Prop :=
  ∃ m, body = VObject m ∧ ordered m ∧ ∀ name, map_get name m = members name.

(** The members of a body: those the call sets, then the caller's extra
    fields, then the documented ones. *)
Definition sent (forced : Map) (extra : Members) (documented : Map) (name : string) : option Value :=
  match map_get name forced with
  | Some v => Some v
  | None => match extra !! name with Some v => Some v | None => map_get name documented end
  end.

(** *** The documented members of each request

    A member that is not given is not sent: an option that is [None], a list
    or a map that is empty. *)

Definition given {A} (name : string) (write : A → Value) (o : option A) : Map :=
  match o with Some x => [(name, write x)] | None => [] end.
Definition listed {A} (name : string) (write : A → Value) (l : list A) : Map :=
  match l with [] => [] | _ => [(name, VArray (map write l))] end.
Definition number (n : N) : Value := VNumber (PosInt n).

Section documented.
(** The values of routing preferences and of a map. *)
Context (routing : ProviderPreferences.t → Value) (table : Members → Value).

Definition routing_members (p : ProviderPreferences.t) : Map :=
  listed "order" VString (ProviderPreferences.order p)
  ++ listed "only" VString (ProviderPreferences.only p)
  ++ listed "ignore" VString (ProviderPreferences.ignore p)
  ++ given "sort" VString (ProviderPreferences.sort p)
  ++ given "allow_fallbacks" VBool (ProviderPreferences.allow_fallbacks p)
  ++ given "require_parameters" VBool (ProviderPreferences.require_parameters p)
  ++ given "data_collection" VString (ProviderPreferences.data_collection p)
  ++ given "min_privacy" VString (ProviderPreferences.min_privacy p)
  ++ given "jurisdiction" VString (ProviderPreferences.jurisdiction p)
  ++ given "usage" VString (ProviderPreferences.usage p)
  ++ listed "quantizations" VString (ProviderPreferences.quantizations p)
  ++ (if decide (ProviderPreferences.max_price p = ∅) then []
      else [("max_price", table (ProviderPreferences.max_price p))]).

Definition chat_members (r : ChatRequest.t) : Map :=
  ("model", VString (ChatRequest.model r)) :: ("messages", VArray (ChatRequest.messages r))
  :: listed "models" VString (ChatRequest.models r)
  ++ listed "tools" id (ChatRequest.tools r)
  ++ given "provider" routing (ChatRequest.provider r)
  ++ given "metadata" id (ChatRequest.metadata r)
  ++ given "depth" number (ChatRequest.depth r).

Definition responses_members (r : ResponsesRequest.t) : Map :=
  ("model", VString (ResponsesRequest.model r)) :: ("input", ResponsesRequest.input r)
  :: given "instructions" VString (ResponsesRequest.instructions r)
  ++ listed "models" VString (ResponsesRequest.models r)
  ++ listed "tools" id (ResponsesRequest.tools r)
  ++ given "provider" routing (ResponsesRequest.provider r)
  ++ given "metadata" id (ResponsesRequest.metadata r)
  ++ [("store", VBool (ResponsesRequest.store r))].

Definition messages_members (r : MessagesRequest.t) : Map :=
  ("model", VString (MessagesRequest.model r)) :: ("messages", VArray (MessagesRequest.messages r))
  :: ("max_tokens", number (MessagesRequest.max_tokens r))
  :: given "system" id (MessagesRequest.system r)
  ++ given "provider" routing (MessagesRequest.provider r).

Definition embeddings_members (r : EmbeddingsRequest.t) : Map :=
  ("model", VString (EmbeddingsRequest.model r)) :: ("input", EmbeddingsRequest.input r)
  :: given "provider" routing (EmbeddingsRequest.provider r).
End documented.

(** What the fields of a record write is what is documented. *)
Lemma present_given {A} name (c : Codec A) o fs :
  present ((name, put (skip_none c) o) :: fs) = given name (to_value c) o ++ present fs.
Proof. by destruct o. Qed.

Lemma present_listed {A} name (c : Codec A) l fs :
  present ((name, put (skip_empty c) l) :: fs) = listed name (to_value c) l ++ present fs.
Proof. by destruct l. Qed.

Lemma present_required {A} name (c : Codec A) x fs :
  present ((name, put (required c) x) :: fs) = (name, to_value c x) :: present fs.
Proof. done. Qed.

Ltac documented :=
  repeat first [rewrite present_given | rewrite present_listed | rewrite present_required].

Lemma declared_present fs name : NoDup fs.*1 → declared fs name = map_get name (present fs).
Proof.
  unfold declared, present. induction fs as [|[k o] fs IH]; cbn; [done|].
  intros [Hk Hn]%NoDup_cons. case_bool_decide as Hkn; cbn.
  - subst. destruct o as [v|]; cbn; [by rewrite bool_decide_eq_true_2|].
    assert (∀ l : list (string * option Value), name ∉ l.*1 →
      map_get name (omap (λ f, (λ v, (f.1, v)) <$> f.2) l) = None) as ->; [|done|done].
    induction l as [|[k' [v|]] l IHl]; cbn; [done| |].
    + rewrite not_elem_of_cons. intros [? ?]. rewrite bool_decide_eq_false_2 by congruence. auto.
    + rewrite not_elem_of_cons. intros [? ?]. auto.
  - destruct o; cbn; [rewrite bool_decide_eq_false_2 by done|]; auto.
Qed.

(** The names a record declares are distinct. *)
Lemma request_names :
  (∀ r, NoDup (ChatRequest.fields r).*1) ∧ (∀ r, NoDup (ResponsesRequest.fields r).*1)
  ∧ (∀ r, NoDup (MessagesRequest.fields r).*1) ∧ (∀ r, NoDup (EmbeddingsRequest.fields r).*1)
  ∧ (∀ p, NoDup (fields ProviderPreferences.shape p).*1).
Proof. split_and!; intros r; distinct_names. Qed.

(** A body written from distinct fields, alone and with the flag the endpoint
    forces. *)
Lemma written_carries extra fields :
  NoDup fields.*1 → carries (VObject (entries fields extra)) (sent [] extra (present fields)).
Proof.
  intros Hn. eexists. split; [done|]. split; [apply entries_ordered|]. intros name.
  unfold sent. cbn. by rewrite <-declared_present, entries_get.
Qed.

Lemma with_stream_carries extra fields stream :
  NoDup fields.*1 →
  ∃ body, with_stream (Ok (VObject (entries fields extra))) stream = Ok body
    ∧ carries body (sent [("stream", VBool stream)] extra (present fields)).
Proof.
  intros Hn. eexists. split; [reflexivity|]. eexists. split; [done|].
  split; [apply map_insert_ordered, entries_ordered|]. intros name. unfold sent.
  rewrite map_get_insert, entries_get, declared_present by done. cbn. by case_decide; case_bool_decide.
Qed.

(** [with_usage] adds its member only when nothing else set it. *)
Lemma with_usage_carries body members :
  carries body members →
  carries (with_usage body) (λ name,
    if bool_decide (name = "stream_options")
    then Some (default (VObject [("include_usage", VBool true)]) (members name))
    else members name).
Proof.
  intros (m&->&Ho&Hm). unfold with_usage, contains_key. rewrite Hm.
  case_bool_decide as Hk; (eexists; split; [done|]).
  - split; [done|]. intros name. case_bool_decide; subst; rewrite Hm; [|done]. by destruct Hk as [v ->].
  - split; [by apply map_insert_ordered|]. intros name. rewrite map_get_insert, Hm.
    case_decide; case_bool_decide; subst; try done.
    destruct (members "stream_options") eqn:E; [by destruct Hk|done].
Qed.

(** Replacing one of the caller's extra members. *)
Lemma sent_insert forced extra documented name v k :
  map_get name forced = None →
  sent forced (<[name := v]> extra) documented k
  = if bool_decide (k = name) then Some v else sent forced extra documented k.
Proof.
  intros Hf. unfold sent. case_bool_decide; subst; [by rewrite Hf, lookup_insert_eq|].
  by rewrite lookup_insert_ne.
Qed.

Definition routing_value : ProviderPreferences.t → Value := to_value ProviderPreferences.codec.
Definition table_value : Members → Value := to_value string_map.

Lemma map_id_values (l : list Value) : map (to_value json) l = l.
Proof. apply map_id. Qed.

(** The fields each request writes are the documented ones. *)
Lemma present_documented :
  (∀ p, present (fields ProviderPreferences.shape p) = routing_members table_value p)
  ∧ (∀ r, present (ChatRequest.fields r) = chat_members routing_value r)
  ∧ (∀ r, present (ResponsesRequest.fields r) = responses_members routing_value r)
  ∧ (∀ r, present (MessagesRequest.fields r) = messages_members routing_value r)
  ∧ (∀ r, present (EmbeddingsRequest.fields r) = embeddings_members routing_value r).
Proof.
  split_and!; intros r; cbn [ProviderPreferences.shape fields member construct app].
  - documented. unfold routing_members. repeat f_equal. cbn. by case_decide.
  - unfold ChatRequest.fields, chat_members. documented. cbn [to_value vec str].
    by rewrite map_id_values, app_nil_r.
  - unfold ResponsesRequest.fields, responses_members. by documented.
  - unfold MessagesRequest.fields, messages_members. documented. cbn [to_value vec str uint].
    by rewrite map_id_values, app_nil_r.
  - unfold EmbeddingsRequest.fields, embeddings_members. documented. by rewrite app_nil_r.
Qed.

Lemma table_carries m : carries (table_value m) (λ name, m !! name).
Proof.
  destruct (written_carries m [] (NoDup_nil_2 : NoDup (@nil (string * option Value)).*1))
    as (o&[= <-]&Ho&Hg).
  eexists. split; [reflexivity|]. split; [exact Ho|]. intros name. rewrite Hg. unfold sent. cbn.
  by destruct (m !! name).
Qed.

(** C36. The body of a typed call is a JSON object with exactly the members
    documented for the request.  The [stream] flag is the endpoint's whatever
    the caller wrote; any other member of [extra] replaces a documented one
    of its name; an option that is absent, and a list or map that is empty,
    is not sent; and nothing of the call options is.  Routing preferences are
    written the same way, member by member.  A streamed chat asks for usage
    only when the caller did not set [stream_options]; [with_field] changes
    that one member.  Serialising never fails, and the call is made with the
    request's own options under an idempotency key. *)
Theorem request_bodies_exact uuid :
  ∃ (routing : ProviderPreferences.t → Value) (table : Members → Value),
  (∀ m, carries (table m) (λ name, m !! name))
  ∧ (∀ p, carries (routing p) (sent [] (ProviderPreferences.extra p) (routing_members table p)))
  ∧ (∀ r, ∃ body,
     chat_completions uuid (Ok (ChatRequest.to_value r)) (ChatRequest.call_options r)
     = Ok (mkCall Inference POST "/chat/completions" (Some body)
             (ensure_idempotency_key uuid (ChatRequest.call_options r)))
     ∧ carries body (sent [("stream", VBool false)] (ChatRequest.extra r) (chat_members routing r)))
  ∧ (∀ r, ∃ body,
     with_stream (Ok (ChatRequest.to_value r)) true = Ok body
     ∧ carries (with_usage body) (λ name,
         let v := sent [("stream", VBool true)] (ChatRequest.extra r) (chat_members routing r) name in
         if bool_decide (name = "stream_options")
         then Some (default (VObject [("include_usage", VBool true)]) v) else v))
  ∧ (∀ r name v, name ≠ "stream" → ∃ body,
     with_stream (Ok (ChatRequest.to_value (ChatRequest.with_field r name v))) false = Ok body
     ∧ carries body (λ k, if bool_decide (k = name) then Some v
         else sent [("stream", VBool false)] (ChatRequest.extra r) (chat_members routing r) k))
  ∧ (∀ r, ∃ body,
     let options := ensure_idempotency_key uuid (ResponsesRequest.call_options r) in
     responses uuid (Ok (ResponsesRequest.to_value r)) (ResponsesRequest.call_options r)
     = Ok (mkCall Inference POST "/responses" (Some body) options)
     ∧ responses_input_tokens uuid (Ok (ResponsesRequest.to_value r)) (ResponsesRequest.call_options r)
       = Ok (mkCall Inference POST "/responses/input_tokens" (Some body) options)
     ∧ carries body
         (sent [("stream", VBool false)] (ResponsesRequest.extra r) (responses_members routing r)))
  ∧ (∀ r, ∃ body,
     messages uuid (Ok (MessagesRequest.to_value r)) (MessagesRequest.call_options r)
     = Ok (mkCall Inference POST "/messages" (Some body)
             (ensure_idempotency_key uuid (MessagesRequest.call_options r)))
     ∧ carries body (sent [] (MessagesRequest.extra r) (messages_members routing r)))
  ∧ (∀ r, ∃ body,
     embeddings uuid (Ok (EmbeddingsRequest.to_value r)) (EmbeddingsRequest.call_options r)
     = Ok (mkCall Inference POST "/embeddings" (Some body)
             (ensure_idempotency_key uuid (EmbeddingsRequest.call_options r)))
     ∧ carries body (sent [] (EmbeddingsRequest.extra r) (embeddings_members routing r))).
Proof.
  destruct request_names as (Hc&Hr&Hm&He&Hp). destruct present_documented as (Dp&Dc&Dr&Dm&De).
  exists routing_value, table_value. split_and!; [|intros r..].
  - exact table_carries.
  - rewrite <-Dp. by apply written_carries.
  - destruct (with_stream_carries (ChatRequest.extra r) _ false (Hc r)) as (body&Hb&Hcar).
    rewrite <-Dc. exists body. split; [|done]. unfold chat_completions, ChatRequest.to_value. by rewrite Hb.
  - destruct (with_stream_carries (ChatRequest.extra r) _ true (Hc r)) as (body&Hb&Hcar).
    rewrite <-Dc. exists body. split; [done|]. by apply with_usage_carries.
  - intros name v Hn. rewrite <-Dc.
    destruct (with_stream_carries (<[name := v]> (ChatRequest.extra r)) _ false (Hc r))
      as (body&Hb&m&->&Ho&Hg).
    eexists. split; [exact Hb|]. exists m. split_and!; [done..|]. intros k.
    rewrite Hg. apply sent_insert. cbn. by rewrite bool_decide_eq_false_2.
  - destruct (with_stream_carries (ResponsesRequest.extra r) _ false (Hr r)) as (body&Hb&Hcar).
    rewrite <-Dr. exists body. unfold responses, responses_input_tokens, ResponsesRequest.to_value.
    by rewrite Hb.
  - rewrite <-Dm. eexists. split; [reflexivity|]. by apply written_carries.
  - rewrite <-De. eexists. split; [reflexivity|]. by apply written_carries.
Qed.

(** The privacy presets are the members of the client's provider filter. *)
Lemma privacy_presets :
  get "provider" (provider_filter "zdr") = Some (to_value ProviderPreferences.codec ProviderPreferences.zdr)
  ∧ get "provider" (provider_filter "confidential")
    = Some (to_value ProviderPreferences.codec ProviderPreferences.confidential).
Proof. by split. Qed.

(** ** Round trips *)

(** A written value reads back, and whatever is read can be written so. *)
Definition roundtrips {A} (c : Codec A) : Prop :=
  (∀ x, valid c x → of_value c (to_value c x) = Some x) ∧ (∀ v x, of_value c v = Some x → valid c x).

Lemma lawful_roundtrips {A} (c : Codec A) `{!LawfulCodec c} : roundtrips c.
Proof. split; [apply of_to|apply of_valid]. Qed.

(** A type with a flattened field. *)
Record Described := mkDescribed {
  d_type : Type;
  d_shape : Shape d_type (Members → d_type);
  d_extra : d_type → Members;
}.
Definition d_codec (d : Described) : Codec (d_type d) := flatten (d_shape d) (d_extra d).

(** Members the type does not name: they are kept by reading and writing, as
    the JSON value serde makes of them, and adding one anywhere keeps what the
    fields read. *)
Definition forward_compatible (d : Described) : Prop :=
  (∀ e x name, NoDup e.*1 → of_value (d_codec d) (VObject e) = Some x → name ∉ names (d_shape d) →
     get name (to_value (d_codec d) x) = canon <$> map_get name e)
  ∧ (∀ e1 e2 x name v, of_value (d_codec d) (VObject (e1 ++ e2)) = Some x → name ∉ names (d_shape d) →
     ∃ x', of_value (d_codec d) (VObject (e1 ++ (name, v) :: e2)) = Some x'
       ∧ fields (d_shape d) x' = fields (d_shape d) x).

Lemma described_ok {R} (s : Shape R (Members → R)) extra `{!Flattened s extra} :
  roundtrips (d_codec (mkDescribed R s extra)) ∧ forward_compatible (mkDescribed R s extra).
Proof.
  split; [apply lawful_roundtrips, _|]. split; [apply flatten_keeps, _|apply flatten_extends, _].
Qed.

(** Every type that is written and read with a flattened field. *)
Definition flattened_types : list Described :=
  [mkDescribed ChatMessage.t ChatMessage.shape ChatMessage.extra;
   mkDescribed ProviderPreferences.t ProviderPreferences.shape ProviderPreferences.extra;
   mkDescribed ChatCompletion.t ChatCompletion.shape ChatCompletion.extra;
   mkDescribed ChatChoice.t ChatChoice.shape ChatChoice.extra;
   mkDescribed ChatUsage.t ChatUsage.shape ChatUsage.extra;
   mkDescribed ChatCompletionChunk.t ChatCompletionChunk.shape ChatCompletionChunk.extra;
   mkDescribed ChatChunkChoice.t ChatChunkChoice.shape ChatChunkChoice.extra;
   mkDescribed ChatDelta.t ChatDelta.shape ChatDelta.extra;
   mkDescribed ResponseObject.t ResponseObject.shape ResponseObject.extra;
   mkDescribed ResponseInputTokens.t ResponseInputTokens.shape ResponseInputTokens.extra;
   mkDescribed MessagesResponse.t MessagesResponse.shape MessagesResponse.extra;
   mkDescribed EmbeddingResponse.t EmbeddingResponse.shape EmbeddingResponse.extra;
   mkDescribed ModelList.t ModelList.shape ModelList.extra;
   mkDescribed ModelInfo.t ModelInfo.shape ModelInfo.extra;
   mkDescribed ProviderList.t ProviderList.shape ProviderList.extra;
   mkDescribed ProviderInfo.t ProviderInfo.shape ProviderInfo.extra;
   mkDescribed RegionList.t RegionList.shape RegionList.extra;
   mkDescribed RegionInfo.t RegionInfo.shape RegionInfo.extra;
   mkDescribed CreditsBalance.t CreditsBalance.shape CreditsBalance.extra;
   mkDescribed ActivityResponse.t ActivityResponse.shape ActivityResponse.extra;
   mkDescribed BroadcastDestination.t BroadcastDestination.shape BroadcastDestination.extra;
   mkDescribed BroadcastDestinationList.t BroadcastDestinationList.shape BroadcastDestinationList.extra;
   mkDescribed CheckoutResponse.t CheckoutResponse.shape CheckoutResponse.extra;
   mkDescribed AuthSessionResponse.t AuthSessionResponse.shape AuthSessionResponse.extra;
   mkDescribed UserInfoResponse.t UserInfoResponse.shape UserInfoResponse.extra;
   mkDescribed TrustReleaseTls TrustReleaseTls.shape tls_extra;
   mkDescribed TrustReleaseDataPolicy TrustReleaseDataPolicy.shape data_policy_extra;
   mkDescribed TrustRelease TrustRelease.shape release_extra;
   mkDescribed OAuthKeyExchangeResponse OAuthKeyExchangeResponse.shape xs_extra].

(** A tool primitive: the type of its options and its builder. *)
Record Tool := mkTool {
  tl_options : Type;
  tl_codec : Codec tl_options;
  tl_kind : string;
  tl_build : tl_options → Value;
}.

Definition tools : list Tool :=
  [mkTool _ SynthToolOptions.codec "trustedrouter:fusion" synth_tool;
   mkTool _ AdvisorToolOptions.codec "trustedrouter:advisor" advisor_tool;
   mkTool _ SelectorToolOptions.codec "trustedrouter:selector" selector_tool;
   mkTool _ MapReduceToolOptions.codec "trustedrouter:mapreduce" map_reduce_tool;
   mkTool _ SubagentToolOptions.codec "trustedrouter:subagent" subagent_tool].

(** A built tool has its kind and exactly its options as parameters. *)
Definition tool_ok (t : Tool) : Prop :=
  roundtrips (tl_codec t)
  ∧ ∀ options, ∃ parameters,
      tl_build t options = VObject [("parameters", parameters); ("type", VString (tl_kind t))]
      ∧ (valid (tl_codec t) options → of_value (tl_codec t) parameters = Some options).

Lemma tool_builds {A} (c : Codec A) kind (build : A → Value) `{!LawfulCodec c} :
  (∀ options, build options = tool kind c options) → tool_ok (mkTool A c kind build).
Proof.
  intros Hb. split; [apply lawful_roundtrips, _|]. intros options. cbn. rewrite Hb.
  eexists. split; [reflexivity|]. apply of_to.
Qed.

(** C37. Every response, message and preference type, the trust release and
    the key exchange read back what they wrote, for the values they can hold (integers of their width, no null inside an
    option, no extra member that hides a field, JSON values as maps hold
    them), and whatever the SDK reads
    is such a value, so relaying a response loses nothing; members a type
    does not name survive reading and writing, and a member added to an
    object that was accepted, anywhere in it, leaves it accepted with the
    same fields.  The tool builders produce their kind and parameters that
    read back as the options. *)
Theorem wire_types_roundtrip :
  Forall (λ d, roundtrips (d_codec d) ∧ forward_compatible d) flattened_types
  ∧ roundtrips ResponseEvent.codec
  ∧ Forall tool_ok tools.
Proof.
  split_and!.
  - repeat apply Forall_cons_2; [apply described_ok, _..|apply Forall_nil_2].
  - apply lawful_roundtrips, _.
  - repeat apply Forall_cons_2; [by apply tool_builds; [apply _|]..|apply Forall_nil_2].
Qed.
