(* ===== verification/TypedApi.v ===== *)
(** * Typed calls ([client.rs], [blocking.rs])

    The endpoint methods as a caller sees them: a typed request in, a typed
    result out.  Each composes the request of [ClientApi], the buffered call
    of [Transport] and the reader the types derive ([Types]).  The blocking
    methods run the same future to its end. *)
From S2P Require Import Prelude Text F64 Json StrictJson Http Error Policy Config Routing Vocab.
From S2P Require Import Identity Recorder RecorderFacts Headers Engine EngineFacts Transport Sse.
From S2P Require Import Crypto UrlParts Wire Reporter Attestation OAuthFlow Serde ClientApi Types EvidenceTypes.

(** serde_json's reader: the document of a text, its members in the order of
    the text and repeated as they are there, or why it is not one; and what
    the derived reader says of a text that is not of its type. *)
Class JsonReader := {
  read_text : string → result string Value;
  mismatch : string → string;
}.

(** [serde_json::from_slice::<T>]. *)
Definition from_slice `{JsonReader} {A} (codec : Codec A) (bytes : string) : result string A :=
  v ← read_text bytes;
  match of_value codec v with Some x => Ok x | None => Err (mismatch bytes) end.

Module Typed.
Section typed.
Context `{HL : HttpLib} `{UL : UrlLib} `{DL : HttpDateLib} `{BE : BuildEnv} `{JR : JsonReader}.
Context (encode_pairs : list (string * string) → string) (uuid : string).
Context (env : Env) (c : Client.t).

(** A method body: a call that could not be made returns at once, before
    anything is sent. *)
Definition perform {A} (codec : Codec A) (call : Result Call) (now : Instant) : Settled A :=
  match call with
  | Ok call => ClientApi.request (from_slice codec) env c call now
  | Err e => (Some (Err e), mkSt now None [])
  end.

Definition chat_completions (request : ChatRequest.t) : Instant → Settled ChatCompletion.t :=
  perform ChatCompletion.codec
    (ClientApi.chat_completions uuid (Ok (ChatRequest.to_value request))
       (ChatRequest.call_options request)).

Definition responses (request : ResponsesRequest.t) : Instant → Settled ResponseObject.t :=
  perform ResponseObject.codec
    (ClientApi.responses uuid (Ok (ResponsesRequest.to_value request))
       (ResponsesRequest.call_options request)).


Definition messages (request : MessagesRequest.t) : Instant → Settled MessagesResponse.t :=
  perform MessagesResponse.codec
    (ClientApi.messages uuid (Ok (MessagesRequest.to_value request))
       (MessagesRequest.call_options request)).

Definition embeddings (request : EmbeddingsRequest.t) : Instant → Settled EmbeddingResponse.t :=
  perform EmbeddingResponse.codec
    (ClientApi.embeddings uuid (Ok (EmbeddingsRequest.to_value request))
       (EmbeddingsRequest.call_options request)).

Definition models (filters : ModelFilters) : Instant → Settled ModelList.t :=
  perform ModelList.codec (Ok (ClientApi.models encode_pairs filters)).

Definition providers : Instant → Settled ProviderList.t :=
  perform ProviderList.codec (Ok ClientApi.providers).

Definition regions : Instant → Settled RegionList.t := perform RegionList.codec (Ok ClientApi.regions).

Definition credits (options : CallOptions.t) : Instant → Settled CreditsBalance.t :=
  perform CreditsBalance.codec (Ok (ClientApi.credits options)).













(** The credential-free calls.  The reader of an error body is that of a
    [Value]. *)
Definition body_value (bytes : string) : option Value := ok (from_slice json bytes).

Definition trust_release
    (get_once : Url → list (string * string) →
      result ReqwestError (Fut (result ReqwestError Response))) (url : option string)
    : Result TrustRelease :=
  ClientApi.trust_release (from_slice TrustRelease.codec) body_value get_once c url.

Definition status
    (get_once : Url → list (string * string) →
      result ReqwestError (Fut (result ReqwestError Response))) (url : option string)
    : Result Value :=
  ClientApi.fetch_status (from_slice json) body_value get_once c url.

Definition exchange_key (request : OAuthKeyExchangeRequest)
    : Instant → Settled OAuthKeyExchangeResponse :=
  OAuthFlow.exchange_oauth_key (from_slice OAuthKeyExchangeResponse.codec) env c request.

(** [runtime.block_on]: the future run to its end on the calling thread. *)
Definition block_on {A} (future : Instant → Settled A) : Instant → Settled A := future.

Definition blocking_request {A} (codec : Codec A) (call : Call) : Instant → Settled A :=
  block_on (ClientApi.request (from_slice codec) env c call).
Definition blocking_chat_completions (request : ChatRequest.t) : Instant → Settled ChatCompletion.t :=
  block_on (chat_completions request).
Definition blocking_responses (request : ResponsesRequest.t) : Instant → Settled ResponseObject.t :=
  block_on (responses request).
Definition blocking_messages (request : MessagesRequest.t) : Instant → Settled MessagesResponse.t :=
  block_on (messages request).
Definition blocking_embeddings (request : EmbeddingsRequest.t)
    : Instant → Settled EmbeddingResponse.t := block_on (embeddings request).
Definition blocking_models (filters : ModelFilters) : Instant → Settled ModelList.t :=
  block_on (models filters).
Definition blocking_providers : Instant → Settled ProviderList.t := block_on providers.
Definition blocking_regions : Instant → Settled RegionList.t := block_on regions.
Definition blocking_credits (options : CallOptions.t) : Instant → Settled CreditsBalance.t :=
  block_on (credits options).

(** ** What a typed call promises *)















(** What is read from a body is a value of the type. *)
Lemma from_slice_valid {A} (codec : Codec A) `{!LawfulCodec codec} bytes x :
  from_slice codec bytes = Ok x → valid codec x.
Proof.
  unfold from_slice. destruct (read_text bytes) as [v|]; [|done]. cbn.
  destruct (of_value codec v) as [y|] eqn:E; [|done]. intros [= <-]. by eapply of_valid.
Qed.



(** An exchange that succeeds hands out a checked identity. *)
Lemma exchange_identity_checked request now r s identity :
  exchange_key request now = (Some (Ok r), s) → xs_identity r = Some identity →
  (∃ members, identity = VObject members)
  ∧ null_or_string (get "sub" identity) ∧ null_or_string (get "email" identity).
Proof.
  unfold exchange_key, OAuthFlow.exchange_oauth_key. destruct (is_empty _); [done|].
  unfold credential_free_control_request, decoded.
  destruct (credential_free_plane_bytes _ _ _ _ _ _ _ _) as [[[bytes|e]|] s1]; cbn; [|done..].
  destruct (from_slice _ bytes) as [x|t] eqn:Hx; cbn; [|done]. intros [= -> _].
  apply OAuthKeyExchangeResponse.valid_identity. apply (from_slice_valid _ _ _ Hx).
Qed.

End typed.
End Typed.
