(* ===== verification/Blocking.v ===== *)
(** * The blocking facade ([blocking.rs])

    [block_on] runs a future to its end on the calling thread, so a blocking
    method is the asynchronous one; what the facade adds is construction and
    the loops that hand the items of a stream to a callback.  A callback is a
    function of its captured state; the instants at which the stream is
    polled, and dropped, are arguments. *)
From S2P Require Import Prelude Text F64 Json Http Error Policy Config Routing Vocab.
From S2P Require Import Identity Recorder RecorderFacts Headers Engine EngineFacts Transport Sse.
From S2P Require Import SseFacts Wire Reporter ClientApi.

(** ** The loop of a streaming method

    [while let Some(item) = stream.next().await { if !callback(item?) { break } }]
    followed by [Ok(())].  [None] is a loop that the given polls do not
    finish. *)
Section drive.
Context {S A C : Type} (next : Instant → S → option (Result A) * S) (callback : C → A → C * bool).

Fixpoint drive (polls : list Instant) (cs : C) (s : S) : option (Result unit) * C * S :=
  match polls with
  | [] => (None, cs, s)
  | now :: polls =>
      match next now s with
      | (None, s) => (Some (Ok ()), cs, s)
      | (Some (Err e), s) => (Some (Err e), cs, s)
      | (Some (Ok item), s) =>
          let '(cs, continue) := callback cs item in
          if continue then drive polls cs s else (Some (Ok ()), cs, s)
      end
  end.

(** The reference: what a callback is to see of a sequence of items.  An
    error surfaces unless the callback has stopped before it. *)
Fixpoint deliver (cs : C) (items : list (Result A)) : Result unit * C :=
  match items with
  | [] => (Ok (), cs)
  | Err e :: _ => (Err e, cs)
  | Ok item :: items =>
      let '(cs, continue) := callback cs item in
      if continue then deliver cs items else (Ok (), cs)
  end.

Lemma drive_deliver polls cs s :
  length (collect next polls s).1 < length polls →
  (drive polls cs s).1 = (Some (deliver cs (collect next polls s).1).1,
                          (deliver cs (collect next polls s).1).2).
Proof.
  revert cs s. induction polls as [|now polls IH]; intros cs s Hl; [simpl in Hl; lia|].
  cbn [drive collect] in *. destruct (next now s) as [[[item|e]|] s'].
  - destruct (collect next polls s') as [out v] eqn:Hc. cbn in Hl |- *.
    destruct (callback cs item) as [cs' continue]. destruct continue; [|done].
    specialize (IH cs' s'). rewrite Hc in IH. apply IH. cbn. lia.
  - by destruct (collect next polls s').
  - done.
Qed.

Lemma drive_tracked (src : S → Sse) polls cs s :
  (∀ now v, tracked_src (src v) → tracked_src (src (next now v).2)) →
  tracked_src (src s) → tracked_src (src (drive polls cs s).2).
Proof.
  intros Hn. revert cs s. induction polls as [|now polls IH]; intros cs s Hs; cbn [drive]; [done|].
  specialize (Hn now s Hs). destruct (next now s) as [[[item|e]|] s']; cbn in *; [|done..].
  destruct (callback cs item) as [cs' []]; [by apply IH|done].
Qed.

End drive.

(** ** Construction *)

Section blocking.
Context `{HL : HttpLib} `{UL : UrlLib} `{DL : HttpDateLib} `{BE : BuildEnv}.
Context (from_pem : string → result string unit).
Context (build_http : list string → list (string * string) → result string unit).
Context (env_var : string → option string).

Definition from_builder (runtime : result string unit) (b : ClientBuilder) (token : string)
    : Result (Client.t * option (Inner * option State)) :=
  _ ← map_err InvalidConfiguration runtime;
  build from_pem build_http env_var b token.

Definition blocking_new (runtime : result string unit) (api_key token : string)
    : Result (Client.t * option (Inner * option State)) :=
  from_builder runtime (set (builder_default env_var) (ApiKey api_key)) token.

(** ** Streaming methods *)

Context (chunks_of : Response → list (Fut (result ReqwestError string)) * Duration).
Context (eventsource : list (result SseWireError string) → list StreamItem).
Context (from_str : string → result string Value) (env : Env) (c : Client.t).

(** The call of an opened stream: the loop, then the drop of the stream at
    the end of the block.  The stream is [None] when it never opened. *)
Definition stream_call {S A C} (src : S → Sse) (next : Instant → S → option (Result A) * S)
    (callback : C → A → C * bool) (cs : C) (polls : list Instant) (dropped : Instant)
    (opened : option (Result S)) : option (Result unit) * C * option Sse :=
  match opened with
  | None => (None, cs, None)
  | Some (Err e) => (Some (Err e), cs, None)
  | Some (Ok stream) =>
      let '(result, cs, stream) := drive next callback polls cs stream in
      (result, cs, Some (drop_stream dropped (src stream)))
  end.

Definition blocking_chat_completions_stream {C} (uuid : string) (request : result string Value)
    (options : CallOptions.t) (now : Instant) (callback : C → Value → C * bool) (cs : C)
    (polls : list Instant) (dropped : Instant) : option (Result unit) * C * option Sse :=
  stream_call v_src (next_chat from_str) callback cs polls dropped
    (chat_completions_stream chunks_of eventsource env c uuid request options now).

Definition blocking_responses_stream {C} (uuid : string) (request : result string Value)
    (options : CallOptions.t) (now : Instant) (callback : C → ResponseEvent → C * bool) (cs : C)
    (polls : list Instant) (dropped : Instant) : option (Result unit) * C * option Sse :=
  stream_call v_src (next_responses from_str) callback cs polls dropped
    (responses_stream chunks_of eventsource env c uuid request options now).

Definition blocking_raw_sse {C} (uuid : string) (path : string) (body : Value)
    (options : CallOptions.t) (now : Instant) (callback : C → SseEvent → C * bool) (cs : C)
    (polls : list Instant) (dropped : Instant) : option (Result unit) * C * option Sse :=
  stream_call id next_event callback cs polls dropped
    (raw_sse chunks_of eventsource env c uuid path body options now).

(** The stream [validated_raw_sse] returns: unvalidated, or under the
    validator of its route. *)
Definition next_validated (kind : option PromptStreamKind) (now : Instant) (v : Valid)
    : option (Result SseEvent) * Valid :=
  match kind with
  | Some Chat => next_raw_chat from_str now v
  | Some Responses => next_raw_responses from_str now v
  | None => let '(item, s) := next_event now (v_src v) in (item, mkValid s (v_phase v))
  end.

Definition blocking_validated_raw_sse {C} (uuid : string) (path : string) (body : Value)
    (options : CallOptions.t) (now : Instant) (callback : C → SseEvent → C * bool) (cs : C)
    (polls : list Instant) (dropped : Instant) : option (Result unit) * C * option Sse :=
  match validated_raw_sse chunks_of eventsource env c uuid path body options now with
  | None => (None, cs, None)
  | Some (Err e) => (Some (Err e), cs, None)
  | Some (Ok (s, kind)) =>
      stream_call v_src (next_validated kind) callback cs polls dropped
        (Some (Ok (mkValid s Reading)))
  end.

(** ** What a callback sees *)

(** An unvalidated stream: its items up to the first failure. *)
Fixpoint raw_reading (items : list StreamItem) : list (Result SseEvent) :=
  match items with
  | [] => []
  | item :: items =>
      match item_result item with
      | Ok event => Ok event :: raw_reading items
      | Err e => [Err e]
      end
  end.

Lemma collect_raw items polls rec :
  length items < length polls →
  (collect next_event polls (mkSse items rec)).1 = raw_reading items.
Proof.
  revert polls rec. induction items as [|item items IH]; intros polls rec Hl;
    destruct polls as [|now polls]; cbn [length] in Hl; try lia; [done|].
  destruct item as [event data id|[error|]|text];
    cbn [collect raw_reading next_event src_items src_recorder item_result].
  2-4: (destruct polls; cbn in *; [lia|done]).
  specialize (IH polls (on_event now <$> rec)). destruct (collect next_event polls _).
  cbn in *. f_equal. apply IH. lia.
Qed.

Lemma raw_reading_length items : length (raw_reading items) <= length items.
Proof. induction items as [|item items IH]; cbn; [done|]. destruct (item_result item); cbn; lia. Qed.

Lemma reading_length {A} (judge : SseEvent → Verdict A) ended items :
  length (reading judge ended items) <= S (length items).
Proof.
  induction items as [|item items IH]; cbn; [done|].
  destruct (item_result item) as [event|]; cbn; [|lia]. destruct (judge event); cbn; lia.
Qed.

(** A loop over a validated stream is the delivery of its reading. *)
Lemma drive_reading {A C} (next : Instant → Valid → option (Result A) * Valid)
    (judge : SseEvent → Verdict A) ended (callback : C → A → C * bool) items rec polls cs :
  implements next judge ended → S (length items) < length polls →
  (drive next callback polls cs (mkValid (mkSse items rec) Reading)).1
  = (Some (deliver callback cs (reading judge ended items)).1,
     (deliver callback cs (reading judge ended items)).2).
Proof.
  intros Hi Hl. pose proof (reading_length judge ended items).
  pose proof (collect_reading next judge ended items polls rec Hi ltac:(lia)) as Hc.
  rewrite drive_deliver, Hc; [done|]. rewrite Hc. lia.
Qed.

Lemma drive_raw {C} (callback : C → SseEvent → C * bool) items rec polls cs :
  length items < length polls →
  (drive next_event callback polls cs (mkSse items rec)).1
  = (Some (deliver callback cs (raw_reading items)).1,
     (deliver callback cs (raw_reading items)).2).
Proof.
  intros Hl. pose proof (raw_reading_length items).
  rewrite drive_deliver, collect_raw by (rewrite ?collect_raw; lia). done.
Qed.

(** What each kind of raw stream delivers. *)
Definition validated_reading (kind : option PromptStreamKind) (items : list StreamItem)
    : list (Result SseEvent) :=
  match kind with
  | Some Chat => reading (raw_chat_judge from_str) ended_chat items
  | Some Responses => reading (raw_responses_judge from_str) ended_responses items
  | None => raw_reading items
  end.

Lemma drive_unvalidated {C} (callback : C → SseEvent → C * bool) polls cs s phase :
  drive (next_validated None) callback polls cs (mkValid s phase)
  = let '(r, cs, s) := drive next_event callback polls cs s in (r, cs, mkValid s phase).
Proof.
  revert cs s. induction polls as [|now polls IH]; intros cs s; cbn [drive]; [done|].
  cbn [next_validated v_src v_phase]. destruct (next_event now s) as [[[item|e]|] s']; [|done..].
  destruct (callback cs item) as [cs' []]; [apply IH|done].
Qed.

Lemma drive_validated {C} kind (callback : C → SseEvent → C * bool) items rec polls cs :
  S (length items) < length polls →
  (drive (next_validated kind) callback polls cs (mkValid (mkSse items rec) Reading)).1
  = (Some (deliver callback cs (validated_reading kind items)).1,
     (deliver callback cs (validated_reading kind items)).2).
Proof.
  intros Hl. destruct kind as [[]|]; cbn [validated_reading].
  - apply drive_reading; [apply raw_chat_implements|done].
  - apply drive_reading; [apply raw_responses_implements|done].
  - rewrite drive_unvalidated. pose proof (drive_raw callback items rec polls cs ltac:(lia)) as Hd.
    destruct (drive next_event _ _ _ _) as [[??]?]. exact Hd.
Qed.

(** ** The streaming methods *)

(** A call that returns what delivering [items] to the callback gives, and
    leaves a recorded stream reported exactly once. *)
Definition settles {C} (call : option (Result unit) * C * option Sse) (rec : option StreamState)
    (delivery : Result unit * C) : Prop :=
  call.1 = (Some delivery.1, delivery.2)
  ∧ ∀ st, rec = Some st → tracked (stream_recorder st) →
      ∃ dropped st', call.2 = Some dropped ∧ src_recorder dropped = Some st'
        ∧ length (sink (stream_recorder st')) = 1.

Lemma stream_call_settles {S A C} (src : S → Sse) (next : Instant → S → option (Result A) * S)
    (callback : C → A → C * bool) cs polls dropped s out :
  (∀ now v, tracked_src (src v) → tracked_src (src (next now v).2)) →
  (drive next callback polls cs s).1 = (Some out.1, out.2) →
  settles (stream_call src next callback cs polls dropped (Some (Ok s))) (src_recorder (src s)) out.
Proof.
  intros Hn Hd. unfold stream_call, settles.
  pose proof (drive_tracked next callback src polls cs s Hn) as Htr.
  destruct (drive next callback polls cs s) as [[r cs'] s']. cbn in Hd, Htr |- *. split; [done|].
  intros st Hst Ht. assert (tracked_src (src s')) as Hs by (apply Htr; by exists st).
  destruct Hs as (st'&Hst'&Ht'). eexists _, _. split; [done|]. unfold drop_stream. cbn.
  rewrite Hst'. split; [done|]. by apply drop_recorder_tracked.
Qed.

Lemma next_validated_tracked kind now v :
  tracked_src (v_src v) → tracked_src (v_src (next_validated kind now v).2).
Proof.
  intros Hv. destruct kind as [[]|]; cbn [next_validated].
  - by apply next_raw_chat_tracked.
  - by apply next_raw_responses_tracked.
  - pose proof (next_event_tracked now (v_src v) Hv). by destruct (next_event now (v_src v)).
Qed.

(** C27. A blocking streaming call hands its callback exactly the items of the
    stream's pure reading, in order, until the callback asks to stop; an
    error before that is the result of the call; and a recorded stream has
    been reported exactly once when the call returns. *)
Theorem blocking_streams_deliver items rec polls dropped now :
  S (length items) < length polls →
  let valid := mkValid (mkSse items rec) Reading in
  (∀ uuid req options C (callback : C → Value → C * bool) cs,
     chat_completions_stream chunks_of eventsource env c uuid req options now = Some (Ok valid) →
     settles (blocking_chat_completions_stream uuid req options now callback cs polls dropped) rec
       (deliver callback cs (reading (chat_judge from_str) ended_chat items)))
  ∧ (∀ uuid req options C (callback : C → ResponseEvent → C * bool) cs,
       responses_stream chunks_of eventsource env c uuid req options now = Some (Ok valid) →
       settles (blocking_responses_stream uuid req options now callback cs polls dropped) rec
         (deliver callback cs (reading (responses_judge from_str) ended_responses items)))
  ∧ (∀ uuid path body options C (callback : C → SseEvent → C * bool) cs,
       raw_sse chunks_of eventsource env c uuid path body options now = Some (Ok (mkSse items rec)) →
       settles (blocking_raw_sse uuid path body options now callback cs polls dropped) rec
         (deliver callback cs (raw_reading items)))
  ∧ (∀ uuid path body options kind C (callback : C → SseEvent → C * bool) cs,
       validated_raw_sse chunks_of eventsource env c uuid path body options now
         = Some (Ok (mkSse items rec, kind)) →
       settles (blocking_validated_raw_sse uuid path body options now callback cs polls dropped) rec
         (deliver callback cs (validated_reading kind items))).
Proof.
  intros Hl. cbv zeta. split_and!; intros * Hopen.
  - unfold blocking_chat_completions_stream. rewrite Hopen.
    apply (stream_call_settles v_src); [apply next_chat_tracked|].
    apply drive_reading; [apply chat_implements|done].
  - unfold blocking_responses_stream. rewrite Hopen.
    apply (stream_call_settles v_src); [apply next_responses_tracked|].
    apply drive_reading; [apply responses_implements|done].
  - unfold blocking_raw_sse. rewrite Hopen.
    apply (stream_call_settles id); [apply next_event_tracked|]. apply drive_raw. lia.
  - unfold blocking_validated_raw_sse. rewrite Hopen.
    apply (stream_call_settles v_src); [apply next_validated_tracked|]. by apply drive_validated.
Qed.

End blocking.

(** ** Callbacks that never stop

    They see every value up to the first error, which surfaces. *)
Lemma deliver_all {A C} (callback : C → A → C * bool) cs items :
  (∀ cs a, (callback cs a).2 = true) →
  let seen values := foldl (λ cs a, (callback cs a).1) cs values in
  (∃ values, items = Ok <$> values ∧ deliver callback cs items = (Ok (), seen values))
  ∨ ∃ values e rest, items = (Ok <$> values) ++ Err e :: rest
      ∧ deliver callback cs items = (Err e, seen values).
Proof.
  intros Hcb. cbv zeta. revert cs. induction items as [|[a|e] items IH]; intros cs; cbn [deliver].
  - left. by exists [].
  - pose proof (Hcb cs a) as Hgo. destruct (callback cs a) as [cs1 go] eqn:Ec. cbn in Hgo. subst go.
    destruct (IH cs1) as [(values&->&->)|(values&e&rest&->&->)].
    + left. exists (a :: values). cbn. by rewrite Ec.
    + right. exists (a :: values), e, rest. cbn. by rewrite Ec.
  - right. by exists [], e, items.
Qed.
