(* ===== verification/Ffi.v ===== *)
(** * The C ABI ([trusted-router-ffi/src/lib.rs])

    Memory the library hands to its C caller is an explicit heap: C strings
    of results and boxed clients, by address.  An operation on a pointer that
    is not live is undefined behaviour, [None].  Arguments owned by the caller
    are null or the bytes before their NUL.  A panic is a value, [Panics], that
    [guarded] contains.  A stream is polled at given instants; a callback loop
    that these do not bring to its end, which the code would go on polling, is
    given the result of a contained panic, and C26, on what a stream that is
    read to its end reports, asks for more polls than frames.  JSON, HTTP method names and UUIDs are parameters. *)
From S2P Require Import Prelude Text Bytes F64 Json Http Error Policy Config Routing Vocab.
From S2P Require Import Identity Recorder RecorderFacts Headers Engine EngineFacts Transport Sse.
From S2P Require Import SseFacts Wire Reporter ClientApi Blocking.

(** A caller's [*const c_char]. *)
Definition CArg : Type := option string.

(** A pointer into the heap of the library; [None] is null. *)
Definition Ptr : Type := option positive.

Definition NUL : ascii := ascii_of_N 0.

(** [CString::new]: refused when the text has a NUL of its own. *)
Definition cstring_new (text : string) : option string :=
  if contains_byte text NUL then None else Some text.

(** [str::replace('\0', "\\u0000")]. *)
Fixpoint replace_nul (text : string) : string :=
  match text with
  | EmptyString => EmptyString
  | String c text => if bool_decide (c = NUL) then "\u0000" +:+ replace_nul text
                     else String c (replace_nul text)
  end.

Lemma replace_nul_clean text : contains_byte (replace_nul text) NUL = false.
Proof.
  induction text as [|c text IH]; cbn [replace_nul]; [done|].
  case_bool_decide as Hc; [exact IH|]. cbn [contains_byte]. rewrite IH.
  by rewrite bool_decide_eq_false_2.
Qed.

Record TrResult := mkTrResult {
  code : Z;
  http_status : Z;
  data : Ptr;
  error : Ptr;
}.

Definition local_error (message : string) : Error := InvalidConfiguration message.

(** ** Arguments *)

Definition optional_string (pointer : CArg) : Result (option string) :=
  match pointer with
  | None => Ok None
  | Some bytes =>
      map_err (λ e, local_error ("C string is not UTF-8: " +:+ e)) (Some <$> from_utf8 bytes)
  end.

Definition required_string (pointer : CArg) (name : string) : Result string :=
  value ← optional_string pointer;
  ok_or (local_error (name +:+ " is null or not UTF-8")) value.

Definition call_options (workspace_id idempotency_key : CArg) : Result CallOptions.t :=
  workspace_id ← optional_string workspace_id;
  idempotency_key ← optional_string idempotency_key;
  Ok (CallOptions.default <| CallOptions.workspace_id := workspace_id |>
                          <| CallOptions.idempotency_key := idempotency_key |>).

Definition error_code (e : Error) : Z :=
  match kind e with
  | ErrorKind.BadRequest => 1
  | ErrorKind.Authentication => 2
  | ErrorKind.PermissionDenied => 3
  | ErrorKind.NotFound => 4
  | ErrorKind.RateLimit => 5
  | ErrorKind.EndpointNotSupported => 6
  | ErrorKind.Internal => 7
  | ErrorKind.Transport => 8
  | ErrorKind.Timeout => 9
  | ErrorKind.Serialization => 10
  | ErrorKind.InvalidConfiguration => 11
  | ErrorKind.Attestation => 12
  | ErrorKind.OAuth => 13
  end.

Section ffi.
Context `{HL : HttpLib} `{UL : UrlLib} `{DL : HttpDateLib} `{BE : BuildEnv}.

(** What lives at an address. *)
Inductive Alloc :=
| CBytes (text : string)
| ClientBox (client : Client.t).

Abbreviation Heap := (gmap positive Alloc).

Definition alloc (a : Alloc) (h : Heap) : positive * Heap :=
  let l := fresh (dom h) in (l, <[l := a]> h).

(** ** Results *)

Definition owned_c_string (value : string) (h : Heap) : Ptr * Heap :=
  match cstring_new (replace_nul value) with
  | Some text => let '(l, h) := alloc (CBytes text) h in (Some l, h)
  | None => (None, h)
  end.

Definition failure_result (e : Error) (h : Heap) : TrResult * Heap :=
  let '(error, h) := owned_c_string (error_text e) h in
  (mkTrResult (error_code e) (from_option Z.of_N 0%Z (status_code e)) None error, h).

Section operations.
Context (to_string : Value → result string string) (from_str : string → result string Value).
Context (method_from_bytes : string → result string Method) (uuid : string).

Definition success_json (value : Value) (h : Heap) : Result (TrResult * Heap) :=
  text ← map_err (λ e, local_error ("cannot encode response: " +:+ e)) (to_string value);
  Ok (let '(data, h) := owned_c_string text h in (mkTrResult 0 200 data None, h)).

(** What a guarded operation did. *)
Inductive Attempted :=
| Returned (r : Result (TrResult * Heap))
| Panics.

Definition guarded (operation : Attempted) (h : Heap) : TrResult * Heap :=
  match operation with
  | Returned (Ok result) => result
  | Returned (Err e) => failure_result e h
  | Panics => failure_result (local_error "panic contained at C ABI boundary") h
  end.

(** [client_ref]: [None] is undefined behaviour, a pointer that is not a
    live client. *)
Definition client_ref (h : Heap) (client : Ptr) : option (Result Client.t) :=
  match client with
  | None => Some (Err (local_error "client is null"))
  | Some l =>
      match h !! l with
      | Some (ClientBox c) => Some (Ok c)
      | _ => None
      end
  end.

Definition generated_idempotency_key : string := "tr-req-" +:+ uuid.

Definition with_key (auto : bool) (options : CallOptions.t) : CallOptions.t :=
  match CallOptions.idempotency_key options with
  | None => if auto then options <| CallOptions.idempotency_key := Some generated_idempotency_key |>
            else options
  | Some _ => options
  end.

Definition plane_of (plane : Z) : Result Plane :=
  if bool_decide (plane = 0%Z) then Ok Inference
  else if bool_decide (plane = 1%Z) then Ok Control
  else Err (local_error "plane must be 0 or 1").

Definition parse_body (text : string) : Result Value :=
  map_err (λ e, local_error ("invalid body JSON: " +:+ e)) (from_str text).

(** The request the arguments describe, in the order they are read. *)
Definition request_arguments (client : Result Client.t) (plane : Z)
    (method path body_json workspace_id idempotency_key : CArg) (auto_idempotency : bool)
    : Result (Client.t * Call) :=
  c ← client;
  name ← required_string method "method";
  m ← map_err (λ e, local_error ("invalid method: " +:+ e)) (method_from_bytes name);
  path ← required_string path "path";
  text ← optional_string body_json;
  body ← match text with None => Ok None | Some text => Some <$> parse_body text end;
  options ← call_options workspace_id idempotency_key;
  plane ← plane_of plane;
  Ok (c, mkCall plane m path body (with_key auto_idempotency options)).

Context (env : Env) (from_slice : string → result string Value).

(** The transport's [None] is a panic. *)
Definition tr_request_json_with_policy (h : Heap) (client : Ptr) (plane : Z)
    (method path body_json workspace_id idempotency_key : CArg) (auto_idempotency : bool)
    (now : Instant) : option (TrResult * Heap) :=
  match client_ref h client with
  | None => None
  | Some c =>
      let operation :=
        match request_arguments c plane method path body_json workspace_id idempotency_key
                auto_idempotency with
        | Err e => Returned (Err e)
        | Ok (c, call) =>
            match (request from_slice env c call now).1 with
            | None => Panics
            | Some response => Returned (value ← response; success_json value h)
            end
        end in
      Some (guarded operation h)
  end.

Definition tr_request_json (h : Heap) (client : Ptr) (plane : Z)
    (method path body_json workspace_id idempotency_key : CArg) (now : Instant)
    : option (TrResult * Heap) :=
  tr_request_json_with_policy h client plane method path body_json workspace_id idempotency_key
    false now.

Definition tr_chat_completions (h : Heap) (client : Ptr)
    (request_json workspace_id idempotency_key : CArg) (now : Instant) : option (TrResult * Heap) :=
  tr_request_json_with_policy h client 0 (Some "POST") (Some "/chat/completions") request_json
    workspace_id idempotency_key true now.

Definition tr_responses (h : Heap) (client : Ptr)
    (request_json workspace_id idempotency_key : CArg) (now : Instant) : option (TrResult * Heap) :=
  tr_request_json_with_policy h client 0 (Some "POST") (Some "/responses") request_json
    workspace_id idempotency_key true now.

(** ** Streaming *)

Definition event_json (event : SseEvent) : Value :=
  let text := from_option VString VNull in
  VObject [("data", VString (sse_data event)); ("event", text (sse_event event));
           ("id", text (sse_id event))].

(** The C callback on its user data: what it leaves there and its answer. *)
Definition event_callback {U} (callback : U → string → U * Z) (user_data : U) (event : SseEvent)
    : U * bool :=
  match to_string (event_json event) with
  | Err _ => (user_data, false)
  | Ok text =>
      match cstring_new text with
      | None => (user_data, false)
      | Some text => let '(user_data, answer) := callback user_data text in
                     (user_data, negb (bool_decide (answer = 0%Z)))
      end
  end.

Definition streaming_body (body : Value) : Value :=
  match body with VObject m => VObject (map_insert "stream" (VBool true) m) | _ => body end.

Definition stream_arguments {U} (client : Result Client.t)
    (path body_json workspace_id idempotency_key : CArg) (callback : option (U → string → U * Z))
    : Result (Client.t * string * Value * CallOptions.t * (U → string → U * Z)) :=
  c ← client;
  path ← required_string path "path";
  body_text ← required_string body_json "body_json";
  body ← parse_body body_text;
  options ← call_options workspace_id idempotency_key;
  callback ← ok_or (local_error "callback is required") callback;
  Ok (c, path, streaming_body body, with_key true options, callback).

Context (chunks_of : Response → list (Fut (result ReqwestError string)) * Duration).
Context (eventsource : list (result SseWireError string) → list StreamItem).

Definition tr_stream_json {U} (h : Heap) (client : Ptr)
    (path body_json workspace_id idempotency_key : CArg) (callback : option (U → string → U * Z))
    (user_data : U) (now : Instant) (polls : list Instant) (dropped : Instant)
    : option (TrResult * Heap * U) :=
  match client_ref h client with
  | None => None
  | Some c =>
      match stream_arguments c path body_json workspace_id idempotency_key callback with
      | Err e => Some (guarded (Returned (Err e)) h, user_data)
      | Ok (c, path, body, options, callback) =>
          let '(result, user_data, _) :=
            blocking_validated_raw_sse chunks_of eventsource from_str env c uuid path body options now
              (event_callback callback) user_data polls dropped in
          let operation :=
            match result with
            | None => Panics
            | Some result =>
                Returned (_ ← result; success_json (VObject [("completed", VBool true)]) h)
            end in
          Some (guarded operation h, user_data)
      end
  end.

End operations.

(** ** Clients and releases *)

Section clients.
Context (from_pem : string → result string unit).
Context (build_http : list string → list (string * string) → result string unit).
Context (env_var : string → option string).

Definition client_settings (api_key api_base_url control_base_url : CArg) : Result ClientBuilder :=
  key ← optional_string api_key;
  let builder := set (builder_default env_var) (ApiKey (default "" key)) in
  api ← optional_string api_base_url;
  let builder := from_option (λ value, set builder (ApiBaseUrl value)) builder api in
  control ← optional_string control_base_url;
  Ok (from_option (λ value, set builder (ControlBaseUrl value)) builder control).

(** Every failure is null; so is a panic of the reporter's construction. *)
Definition tr_client_new (runtime : result string unit) (token : string) (h : Heap)
    (api_key api_base_url control_base_url : CArg) : Ptr * Heap :=
  let client :=
    builder ← client_settings api_key api_base_url control_base_url;
    from_builder from_pem build_http env_var runtime builder token in
  match client with
  | Ok (_, Some (_, None)) | Err _ => (None, h)
  | Ok (c, _) => let '(l, h) := alloc (ClientBox c) h in (Some l, h)
  end.

End clients.

(** [Box::from_raw] and [CString::from_raw]: undefined unless live and of
    that type. *)
Definition tr_client_free (client : Ptr) (h : Heap) : option Heap :=
  match client with
  | None => Some h
  | Some l => match h !! l with Some (ClientBox _) => Some (delete l h) | _ => None end
  end.

Definition free_c_string (p : Ptr) (h : Heap) : option Heap :=
  match p with
  | None => Some h
  | Some l => match h !! l with Some (CBytes _) => Some (delete l h) | _ => None end
  end.

Definition tr_result_free (r : TrResult) (h : Heap) : option Heap :=
  h ← free_c_string (data r) h; free_c_string (error r) h.

(** ** Ownership *)

(** A result owns exactly one fresh C string, [text]: the data of a success
    or the message of a failure. *)
Definition owns (h : Heap) (out : TrResult * Heap) (text : string) : Prop :=
  ∃ l, h !! l = None ∧ out.2 = <[l := CBytes text]> h
    ∧ if bool_decide (code out.1 = 0%Z) then data out.1 = Some l ∧ error out.1 = None
      else data out.1 = None ∧ error out.1 = Some l.

Lemma owned_c_string_fresh value h :
  ∃ l, h !! l = None ∧ owned_c_string value h = (Some l, <[l := CBytes (replace_nul value)]> h).
Proof.
  unfold owned_c_string, cstring_new, alloc. rewrite replace_nul_clean.
  exists (fresh (dom h)). split; [|done]. apply not_elem_of_dom, is_fresh.
Qed.

Lemma error_code_range e : (1 <= error_code e <= 13)%Z.
Proof. unfold error_code. destruct (kind e); lia. Qed.

Lemma failure_owns e h : owns h (failure_result e h) (replace_nul (error_text e)).
Proof.
  unfold failure_result, owns. destruct (owned_c_string_fresh (error_text e) h) as (l&Hl&->).
  exists l. cbn. pose proof (error_code_range e). rewrite bool_decide_eq_false_2 by lia. auto.
Qed.

Lemma success_owns to_string value h out :
  success_json to_string value h = Ok out →
  ∃ text, to_string value = Ok text ∧ owns h out (replace_nul text)
    ∧ code out.1 = 0%Z ∧ http_status out.1 = 200%Z.
Proof.
  unfold success_json. intros (text&Ht%map_err_Ok&H)%bind_Ok.
  destruct (owned_c_string_fresh text h) as (l&Hl&Ho). rewrite Ho in H. injection H as <-.
  exists text. split; [done|]. split; [|done]. by exists l.
Qed.

(** Releasing a result gives back exactly its string; releasing it twice is
    undefined. *)
Lemma owns_free h out text :
  owns h out text → tr_result_free out.1 out.2 = Some h ∧ tr_result_free out.1 h = None.
Proof.
  intros (l&Hl&Hh&Hc). unfold tr_result_free, free_c_string.
  case_bool_decide; destruct Hc as [-> ->]; rewrite Hh; cbn [mbind option_bind];
    rewrite lookup_insert_eq, Hl; cbn [mbind option_bind]; by rewrite delete_insert_id.
Qed.

Lemma guarded_owns operation h :
  (∀ out, operation = Returned (Ok out) → ∃ text, owns h out text) →
  ∃ text, owns h (guarded operation h) text.
Proof.
  intros Hop. destruct operation as [[out|e]|]; [by apply Hop|eexists; apply failure_owns..].
Qed.

(** A result that is released exactly once leaves the heap as it was. *)
Definition balanced (h : Heap) (out : TrResult * Heap) : Prop :=
  (∃ text, owns h out text)
  ∧ tr_result_free out.1 out.2 = Some h ∧ tr_result_free out.1 h = None.

Lemma guarded_balanced operation h :
  (∀ out, operation = Returned (Ok out) → ∃ text, owns h out text) → balanced h (guarded operation h).
Proof.
  intros (text&Ho)%guarded_owns. split; [by eexists|]. by eapply owns_free.
Qed.

(** C25. Every call of the C ABI on a live or null client returns, panics
    included, with a result that owns exactly one new string (the data of
    a success, the message of a failure); releasing the result restores
    the heap, and releasing it twice is undefined. *)
Theorem ffi_results_balanced to_string from_str method_from_bytes uuid env from_slice chunks_of
    eventsource h client now :
  is_Some (client_ref h client) →
  (∀ plane method path body workspace key auto,
     ∃ out, tr_request_json_with_policy to_string from_str method_from_bytes uuid env from_slice h
              client plane method path body workspace key auto now = Some out ∧ balanced h out)
  ∧ ∀ U path body workspace key (callback : option (U → string → U * Z)) user polls dropped,
      ∃ out user', tr_stream_json to_string from_str uuid env chunks_of eventsource h client path body
                     workspace key callback user now polls dropped = Some (out, user')
        ∧ balanced h out.
Proof.
  intros [c Hc]. split; intros *.
  - unfold tr_request_json_with_policy. rewrite Hc. eexists. split; [done|]. apply guarded_balanced.
    intros out. destruct (request_arguments _ _ _ _ _ _ _ _ _ _ _) as [[c' call]|]; [|done].
    destruct (request _ _ _ _ _).1 as [response|]; [|done].
    intros [= (value&_&(text&_&?&_)%success_owns)%bind_Ok]. by eexists.
  - unfold tr_stream_json. rewrite Hc.
    destruct (stream_arguments _ _ _ _ _ _ _ _) as [[[[[c' p] b] o] cb]|e].
    + destruct (blocking_validated_raw_sse _ _ _ _ _ _ _ _ _ _ _ _ _ _) as [[result u] s].
      eexists _, _. split; [done|]. apply guarded_balanced. intros out.
      destruct result as [result|]; [|done].
      intros [= (value&_&(text&_&?&_)%success_owns)%bind_Ok]. by eexists.
    + eexists _, _. split; [done|]. by apply guarded_balanced.
Qed.

(** A success always reports status 200, whatever status the server
    answered with. *)
Theorem ffi_success_is_200 to_string from_str method_from_bytes uuid env from_slice h client now
    plane method path body workspace key auto out :
  tr_request_json_with_policy to_string from_str method_from_bytes uuid env from_slice h client plane
    method path body workspace key auto now = Some out →
  code out.1 = 0%Z → http_status out.1 = 200%Z.
Proof.
  assert (∀ e, code (failure_result e h).1 = 0%Z → http_status (failure_result e h).1 = 200%Z) as Hf.
  { intros e. unfold failure_result. destruct (owned_c_string _ _). cbn. pose proof (error_code_range e).
    lia. }
  unfold tr_request_json_with_policy. destruct (client_ref h client) as [c|]; [|done].
  intros <-%(inj Some). destruct (request_arguments _ _ _ _ _ _ _ _ _ _ _) as [[c' call]|e]; [|apply Hf].
  destruct (request from_slice env c' call now).1 as [response|]; [|apply Hf]. cbn [guarded].
  destruct (_ ≫= _) as [out|e] eqn:Hr; [|apply Hf]. intros _.
  by apply bind_Ok in Hr as (value&_&(text&_&_&_&?)%success_owns).
Qed.

(** A client is created live or not at all, and is freed exactly once. *)
Theorem ffi_client_lifecycle from_pem build_http env_var runtime token h key api control :
  let '(client, h') :=
    tr_client_new from_pem build_http env_var runtime token h key api control in
  match client with
  | None => h' = h
  | Some _ => ∃ c, client_ref h' client = Some (Ok c)
  end
  ∧ tr_client_free client h' = Some h
  ∧ (client ≠ None → client_ref h client = None ∧ tr_client_free client h = None).
Proof.
  unfold tr_client_new. cbv zeta.
  assert (h !! fresh (dom h) = None) as Hf by apply not_elem_of_dom, is_fresh.
  assert (∀ c, client_ref (<[fresh (dom h) := ClientBox c]> h) (Some (fresh (dom h))) = Some (Ok c)
    ∧ tr_client_free (Some (fresh (dom h))) (<[fresh (dom h) := ClientBox c]> h) = Some h
    ∧ client_ref h (Some (fresh (dom h))) = None ∧ tr_client_free (Some (fresh (dom h))) h = None)
    as Hlive.
  { intros c. unfold client_ref, tr_client_free. rewrite lookup_insert_eq, Hf, delete_insert_id; auto. }
  destruct (_ ≫= _) as [[c [[inner [state|]]|]]|e]; cbn [alloc]; try (split_and!; done).
  all: destruct (Hlive c) as (?&?&?&?); split_and!; eauto.
Qed.

(** ** A stream to its end *)

Section stream.
Context (to_string : Value → result string string) (from_str : string → result string Value).

(** serde_json writes every event, and escapes its control characters. *)
Definition encodes (text_of : SseEvent → string) : Prop := ∀ event,
  to_string (event_json event) = Ok (text_of event) ∧ contains_byte (text_of event) NUL = false.

Lemma event_callback_text {U} (callback : U → string → U * Z) text_of user event :
  encodes text_of →
  event_callback to_string callback user event
  = ((callback user (text_of event)).1, negb (bool_decide ((callback user (text_of event)).2 = 0%Z))).
Proof.
  intros Hte. destruct (Hte event) as [Ht Hn]. unfold event_callback, cstring_new. rewrite Ht, Hn.
  by destruct (callback user (text_of event)).
Qed.

(** The stream carried the item that ends it well. *)
Definition ended_well (kind : option PromptStreamKind) (items : list StreamItem) : Prop :=
  match kind with
  | Some Chat => ∃ item, item ∈ items ∧ terminates (raw_chat_judge from_str) item
  | Some Responses => ∃ item, item ∈ items ∧ terminates (raw_responses_judge from_str) item
  | None => True
  end.

Lemma validated_ended_well kind items events :
  validated_reading from_str kind items = Ok <$> events → ended_well kind items.
Proof.
  assert (Forall (λ r : Result SseEvent, is_ok r = true) (Ok <$> events)) as Hok
    by (by apply Forall_fmap, Forall_true).
  destruct kind as [[]|]; cbn; [intros H..|done]; rewrite <-H in Hok;
    by apply reading_ok_terminates in Hok.
Qed.

(** C26. A C callback that always answers non-zero has seen the JSON of every
    event before the end: the call succeeds only when the stream carried
    the terminal item of its route, and otherwise fails with the error
    that ended the stream, its code and its message. *)
Theorem ffi_stream_outcome {U} uuid env chunks_of eventsource h client c path body workspace key
    (callback cb : U → string → U * Z) user now polls dropped path' body' options text_of
    items rec kind done_text :
  client_ref h client = Some (Ok c) →
  stream_arguments from_str uuid (Ok c) path body workspace key (Some callback)
    = Ok (c, path', body', options, cb) →
  validated_raw_sse chunks_of eventsource env c uuid path' body' options now
    = Some (Ok (mkSse items rec, kind)) →
  S (length items) < length polls →
  encodes text_of → to_string (VObject [("completed", VBool true)]) = Ok done_text →
  (∀ user text, (cb user text).2 ≠ 0%Z) →
  let seen events := foldl (λ u event, (cb u (text_of event)).1) user events in
  let call := tr_stream_json to_string from_str uuid env chunks_of eventsource h client path body
                workspace key (Some callback) user now polls dropped in
  (∃ out events, call = Some (out, seen events)
     ∧ code out.1 = 0%Z ∧ owns h out (replace_nul done_text)
     ∧ validated_reading from_str kind items = Ok <$> events ∧ ended_well kind items)
  ∨ ∃ events e rest, call = Some (failure_result e h, seen events)
      ∧ validated_reading from_str kind items = (Ok <$> events) ++ Err e :: rest.
Proof.
  intros Hc Ha Hopen Hl Henc Hdone Hgo. cbv zeta. unfold tr_stream_json. rewrite Hc, Ha.
  unfold blocking_validated_raw_sse. rewrite Hopen. unfold stream_call.
  pose proof (drive_validated from_str kind (event_callback to_string cb) items rec polls user Hl) as Hd.
  destruct (drive _ _ _ _ _) as [[result u] s]. cbn [fst] in Hd.
  assert (∀ u a, (event_callback to_string cb u a).2 = true) as Hcont.
  { intros u' a. rewrite (event_callback_text _ text_of) by done. cbn.
    by rewrite bool_decide_eq_false_2. }
  assert (∀ events, foldl (λ u a, (event_callback to_string cb u a).1) user events
    = foldl (λ u a, (cb u (text_of a)).1) user events) as Hfold.
  { intros events. generalize user. induction events as [|e events IH]; intros u'; cbn; [done|].
    rewrite (event_callback_text _ text_of) by done. apply IH. }
  destruct (deliver_all _ user (validated_reading from_str kind items) Hcont)
    as [(events&Hv&Hdel)|(events&e&rest&Hv&Hdel)]; rewrite Hdel, Hfold in Hd;
    injection Hd as -> ->.
  - left. unfold success_json. rewrite Hdone. cbn [mbind result_bind map_err guarded].
    destruct (owned_c_string_fresh done_text h) as (l&Hf&->). eexists _, events.
    split_and!; [done|done|by exists l|done|by eapply validated_ended_well].
  - right. exists events, e, rest. by split.
Qed.

End stream.

End ffi.
