(* ===== verification/FfiTests.v ===== *)
(** * The crate's own tests of the C ABI, run on the model

    The unit tests of [trusted-router-ffi/src/lib.rs], one definition per test
    under the test's name, each evaluated to [true].  A listening socket is
    the environment of the call: what it answers to a request, and the events
    of the body, which it serves only under the path the test expects. *)
From S2P Require Import Prelude Text Bytes F64 Json Http Error Policy Config Routing Vocab Identity.
From S2P Require Import Recorder Headers Engine Transport Sse Wire Reporter WireJson ClientApi Blocking Ffi.
From S2P Require Import StrictJson TestLibraries.

Module FfiTests.
Import TestLibraries.TestLibraries ConcreteJson.
#[local] Instance dates : HttpDateLib := λ _, None.
#[local] Instance build : BuildEnv :=
  {| CARGO_PKG_VERSION := "0.6.0"; TRUSTED_ROUTER_RUSTC_RELEASE := Some "1.80.0";
     target_os := "linux"; target_arch := "x86_64" |}.

Definition encode (v : Value) : result string string := Ok (text_of v).
Definition decode (s : string) : result string Value :=
  match read DEPTH s with
  | Some (r, EmptyString) => Ok (plain r)
  | _ => Err "expected value"
  end.
Definition method_of (name : string) : result string Method :=
  if bool_decide (name = "POST") then Ok POST else if bool_decide (name = "GET") then Ok GET
  else Err "invalid HTTP method".

Definition client_new (key : string) (h : gmap positive Alloc) : Ptr * gmap positive Alloc :=
  let base := Some "http://127.0.0.1/v1" in
  tr_client_new (λ _, Ok tt) (λ _ _, Ok tt) (λ _, None) (Ok tt) "01234567" h (Some key) base base.

Definition answer (s : N) (rq : Request) (body : string) : Fut (result ReqwestError Response) :=
  mkFut 0%N (Ok (mkResponse _ _ s hm_new (rq_url rq) (mkFut 0%N (Ok body)))).
Definition server (handle : nat → Request → Fut (result ReqwestError Response)) : Env :=
  {| execute_request attempt rq := handle attempt rq;
     build_headers _ _ headers _ := Ok (hm_insert headers "content-type" "application/json");
     parse_json s := ok (decode s);
     gen_range _ ceiling := ceiling;
     wall_clock now := now |}.

(** What a C caller reads behind a pointer. *)
Definition read_text (h : gmap positive Alloc) (p : Ptr) : option string :=
  p ≫= λ l, match h !! l with Some (CBytes text) => Some text | _ => None end.

Record StreamOutcome := mkStreamOutcome {
  so_code : Z;
  so_http_status : Z;
  so_data : option string;
  so_error : option string;
  so_callbacks : nat;
}.

Definition continue_stream_callback (count : nat) (_ : string) : nat * Z := (S count, 1%Z).
Definition cancel_stream_callback (count : nat) (_ : string) : nat * Z := (S count, 0%Z).

(** The body under [wire_path]: one event per pair of its name and data; under
    any other path the connection fails.  [None] also when something is left
    allocated at the end. *)
Definition invoke_stream (path wire_path : string) (events : list (string * string))
    (callback : nat → string → nat * Z) : option StreamOutcome :=
  let wrong := mkReqwestError false false (mkErrorLink None "connection refused") [] in
  let env := server (λ _ rq, if bool_decide (url_path (rq_url rq) = wire_path) then answer 200 rq ""
                             else mkFut 0%N (Err wrong)) in
  let '(client, h) := client_new "sk-c-stream-test" ∅ in
  out ← tr_stream_json encode decode "u1" env (λ _, ([], 0%N))
          (λ _, map (λ e, Decoded e.1 e.2 "") events) h client (Some path)
          (Some (text_of (object [("model", VString "trustedrouter/fast")]))) None None (Some callback) 0
          0%N (map N.of_nat (List.seq 1 (length events + 3))) 99%N;
  let '(result, h', callbacks) := out in
  let outcome := mkStreamOutcome (code result) (http_status result) (read_text h' (data result))
                   (read_text h' (error result)) callbacks in
  h' ← tr_result_free result h';
  h' ← tr_client_free client h';
  if bool_decide (map_to_list h' = []) then Some outcome else None.

Definition says (text : string) (o : StreamOutcome) : bool := is_some_and (contains text) (so_error o).
Definition ends (code : Z) (callbacks : nat) (o : StreamOutcome) : bool :=
  (so_code o =? code)%Z && (so_callbacks o =? callbacks)%nat.

Definition chunk : string * string :=
  ("", text_of (object [("id", VString "chunk"); ("choices", VArray [])])).
Definition done_event : string * string := ("", "[DONE]").
Definition not_json : string * string := ("", "{not-json}").
Definition delta : string * string :=
  ("response.output_text.delta",
   text_of (object [("type", VString "response.output_text.delta"); ("delta", VString "x")])).
Definition CHAT : string := "/v1/chat/completions".

Definition c_abi_chat_stream_rejects_truncation_malformed_json_and_api_errors : bool :=
  let limited := object [("error", object [("message", VString "limited"); ("status", num 429)])] in
  is_some_and (λ o, ends 8 1 o && (so_http_status o =? 0)%Z && says "ended before [DONE]" o)
    (invoke_stream "/chat/completions" CHAT [chunk] continue_stream_callback)
  && is_some_and (λ o, ends 10 0 o && says "invalid SSE JSON" o)
       (invoke_stream "/chat/completions" CHAT [not_json; done_event] continue_stream_callback)
  && is_some_and (λ o, ends 5 0 o && (so_http_status o =? 429)%Z && says "limited" o)
       (invoke_stream "/chat/completions" CHAT [("", text_of limited)] continue_stream_callback).

Definition c_abi_responses_stream_requires_a_terminal_event : bool :=
  is_some_and (λ o, ends 8 1 o && says "before a terminal event" o)
    (invoke_stream "/responses" "/v1/responses" [delta] continue_stream_callback).

Definition c_abi_known_stream_terminals_complete_successfully : bool :=
  let completed := object [("type", VString "response.completed");
                           ("response", object [("id", VString "resp_1")])] in
  is_some_and (ends 0 2) (invoke_stream "/chat/completions" CHAT [chunk; done_event] continue_stream_callback)
  && is_some_and (ends 0 1)
       (invoke_stream "/responses" "/v1/responses" [("response.completed", text_of completed)]
          continue_stream_callback).

Definition c_abi_semantic_prompt_routes_cannot_bypass_validation : bool :=
  is_some_and (ends 10 0) (invoke_stream "/x/../chat/completions" CHAT [not_json] continue_stream_callback)
  && is_some_and (ends 10 0)
       (invoke_stream "/../chat/completions" "/chat/completions" [not_json] continue_stream_callback)
  && is_some_and (ends 8 1)
       (invoke_stream "/x/../responses" "/v1/responses" [delta] continue_stream_callback)
  && forallb (λ spelling,
       is_some_and (ends 10 0)
         (invoke_stream spelling ("/v1" +:+ spelling) [not_json] continue_stream_callback))
       ["/chat/%63ompletions"; "/chat/completion%73"; "/chat%2fcompletions"; "/CHAT/COMPLETIONS";
        "/chat//completions"]
  && forallb (λ spelling,
       is_some_and (ends 8 1) (invoke_stream spelling ("/v1" +:+ spelling) [delta] continue_stream_callback))
       ["/%72esponses"; "/response%73"; "/responses%2f"; "/RESPONSES"; "/responses//"].

Definition c_abi_unrelated_prompt_suffixes_remain_framing_only : bool :=
  is_some_and (ends 0 1)
    (invoke_stream "/custom/chat/completions" "/v1/custom/chat/completions" [not_json]
       continue_stream_callback)
  && is_some_and (ends 0 1)
       (invoke_stream "/custom/responses" "/v1/custom/responses" [delta] continue_stream_callback).

Definition c_abi_callback_cancellation_is_clean_success : bool :=
  is_some_and (λ o, ends 0 1 o && (so_http_status o =? 200)%Z
                    && bool_decide (so_data o = Some (text_of (object [("completed", VBool true)])))
                    && bool_decide (so_error o = None))
    (invoke_stream "/chat/completions" CHAT [chunk] cancel_stream_callback).

Definition c_abi_contains_null_pointer_errors : bool :=
  is_some_and (λ out : TrResult * gmap positive Alloc,
    let '(result, h) := out in
    negb (code result =? 0)%Z && bool_decide (data result = None) && bool_decide (is_Some (error result))
    && is_some_and (λ h, bool_decide (map_to_list h = [])) (tr_result_free result h))
    (tr_request_json encode decode method_of "u1" (server (λ _ rq, answer 200 rq "")) decode ∅ None 0
       (Some "GET") (Some "/models") None None None 0%N).

(** The server refuses the first attempt and answers the second, and both
    carry the key of the call. *)
Definition c_abi_round_trip_and_result_ownership : bool :=
  let body := text_of (object [("model", VString "trustedrouter/fast");
     ("messages", VArray [object [("role", VString "user"); ("content", VString "ping")]])]) in
  let retry := text_of (object [("error", object [("message", VString "retry")])]) in
  let pong := text_of (object [("id", VString "chat_c"); ("choices", VArray [object [("index", num 0);
     ("message", object [("role", VString "assistant"); ("content", VString "PONG")])]])]) in
  let env := server (λ attempt rq,
    if bool_decide (hm_get (rq_headers rq) "authorization" = Some "Bearer sk-c-test")
       && bool_decide (hm_get (rq_headers rq) "idempotency-key" = Some "tr-req-u1")
       && bool_decide (url_path (rq_url rq) = CHAT)
    then if (attempt =? 0)%nat then answer 503 rq retry else answer 200 rq pong
    else answer 400 rq retry) in
  let '(client, h) := client_new "sk-c-test" ∅ in
  is_some_and (λ out : TrResult * gmap positive Alloc,
    let '(result, h) := out in
    (code result =? 0)%Z && (http_status result =? 200)%Z
    && is_some_and (contains "PONG") (read_text h (data result))
    && is_some_and (λ h, bool_decide (map_to_list h = []))
         (tr_result_free result h ≫= tr_client_free client))
    (tr_chat_completions encode decode method_of "u1" env decode h client (Some body) None None 0%N).

Example ffi_tests :
  forallb id
    [c_abi_round_trip_and_result_ownership; c_abi_contains_null_pointer_errors;
     c_abi_chat_stream_rejects_truncation_malformed_json_and_api_errors;
     c_abi_responses_stream_requires_a_terminal_event; c_abi_known_stream_terminals_complete_successfully;
     c_abi_semantic_prompt_routes_cannot_bypass_validation;
     c_abi_unrelated_prompt_suffixes_remain_framing_only;
     c_abi_callback_cancellation_is_clean_success] = true.
Proof. vm_compute. reflexivity. Qed.
End FfiTests.
