(* ===== verification/CounterFacts.v ===== *)
(** * Counter windows: folding is exact, bounded and never loses a count

    The open window keeps at most [TELEMETRY_MAX_WINDOW_KEYS] rows with
    distinct keys; past the cap an increment goes to a coarser key, and every
    count of every row is conserved. *)
From S2P Require Import Prelude Config Vocab Recorder Wire Reporter.

Definition keys (rows : Rows) : list CounterKey := rows.*1.

(** Everything the window has counted, per metric. *)
Definition total (m : Metric) (rows : Rows) : N :=
  fold_right N.add 0%N (map (λ kr, metric m kr.2) rows).

Definition wf_rows (rows : Rows) : Prop :=
  NoDup (keys rows) ∧ length rows ≤ TELEMETRY_MAX_WINDOW_KEYS
  ∧ Forall (λ kr, row_fits kr.2) rows.

(** A key as coarse as [folded_key key true] or finer. *)
Definition coarsens (rows : Rows) (key target : CounterKey) : Prop :=
  target = key ∨ target = folded_key key false ∨ target = folded_key key true
  ∨ Some target = head (keys rows).

Lemma has_key_spec rows key : has_key rows key = true ↔ key ∈ keys rows.
Proof.
  unfold has_key, keys. rewrite existsb_exists, list_elem_of_fmap. unfold key_is. split.
  - intros (kr&Hin&Hk). exists kr. rewrite bool_decide_eq_true in Hk.
    split; [done|by apply list_elem_of_In].
  - intros (kr&->&Hin). exists kr. rewrite bool_decide_eq_true.
    split; [by apply list_elem_of_In|done].
Qed.

Lemma has_key_false rows key : has_key rows key = false ↔ key ∉ keys rows.
Proof. rewrite <-has_key_spec. by destruct (has_key rows key). Qed.

Lemma same_error_class_folds a b :
  same_but_error_class a b = true → folded_key a false = folded_key b false.
Proof.
  unfold same_but_error_class. intros H. reflect. destruct a, b. simpl in *. by subst.
Qed.

Lemma same_endpoint_folds a b :
  same_but_error_class_and_endpoint a b = true → folded_key a true = folded_key b true.
Proof.
  unfold same_but_error_class_and_endpoint. intros H. reflect. destruct a, b. simpl in *. by subst.
Qed.

Lemma total_app m r1 r2 : total m (r1 ++ r2) = (total m r1 + total m r2)%N.
Proof. unfold total. rewrite map_app. induction (map _ r1); simpl; lia. Qed.

Lemma total_delete m rows i kr :
  rows !! i = Some kr → total m rows = (metric m kr.2 + total m (delete i rows))%N.
Proof.
  intros Hi. rewrite <-(take_drop_middle _ _ _ Hi) at 1. rewrite delete_take_drop, !total_app.
  unfold total at 2. simpl. fold (total m (drop (S i) rows)). lia.
Qed.

Lemma keys_delete rows i : keys (delete i rows) = delete i (keys rows).
Proof. unfold keys. by rewrite !delete_take_drop, fmap_app, fmap_take, fmap_drop. Qed.

(** A row with the folded key of [key] replaces the one at [i]. *)
Lemma refold_spec rows i endpoint key k row :
  wf_rows rows → rows !! i = Some (k, row) →
  folded_key k endpoint = folded_key key endpoint →
  has_key rows (folded_key key endpoint) = false →
  ∃ rows', refold rows i endpoint = Some (folded_key key endpoint, rows')
    ∧ wf_rows rows' ∧ folded_key key endpoint ∈ keys rows' ∧ length rows' = length rows
    ∧ ∀ m, (metric m row <= MAX_COUNT)%N → total m rows' = total m rows.
Proof.
  intros (Hnd&Hlen&Hfit) Hi Hk Hno%has_key_false. unfold refold. rewrite Hi. simpl. rewrite Hk.
  eexists. split; [done|]. pose proof (lookup_lt_Some _ _ _ Hi) as Hlt.
  assert (length (delete i rows ++ [(folded_key key endpoint,
    merge_counter_increment CounterRow_default row)]) = length rows) as Hl'.
  { rewrite length_app, length_delete by (by eexists). simpl. lia. }
  split_and!; [split_and!| |done|].
  - unfold keys. rewrite fmap_app. fold (keys (delete i rows)). rewrite keys_delete.
    assert (delete i (keys rows) ⊆+ keys rows) as Hsub
      by (apply sublist_submseteq, sublist_delete).
    apply NoDup_app. split_and!; [by eapply sublist_NoDup; [|apply sublist_delete]| |].
    + intros x Hx. simpl. rewrite list_elem_of_singleton. intros ->.
      apply Hno. by eapply elem_of_submseteq.
    + apply NoDup_singleton.
  - lia.
  - apply Forall_app. split; [by apply Forall_delete|]. repeat constructor. simpl. auto with sdk.
  - unfold keys. rewrite fmap_app. set_solver.
  - intros m Hm. rewrite total_app, (total_delete _ _ _ _ Hi). unfold total at 2. simpl.
    rewrite metric_merge, metric_default by auto with sdk.
    unfold sat_add, MAX_COUNT, u64_max in *. lia.
Qed.

Lemma metric_le_total m rows i kr : rows !! i = Some kr → (metric m kr.2 <= total m rows)%N.
Proof. intros Hi. rewrite (total_delete _ _ _ _ Hi). lia. Qed.

(** Where an increment goes: the ladder always answers, with a key that is
    in the window or still has room, and rearranges rows without changing a
    count. *)
Lemma counter_target_spec rows key :
  wf_rows rows →
  ∃ target rows', counter_target rows key = Some (target, rows') ∧ wf_rows rows'
    ∧ (target ∈ keys rows' ∨ length rows' < TELEMETRY_MAX_WINDOW_KEYS)
    ∧ length rows' = length rows ∧ coarsens rows key target
    ∧ (length rows < TELEMETRY_MAX_WINDOW_KEYS → target = key)
    ∧ ∀ m, (total m rows <= MAX_COUNT)%N → total m rows' = total m rows.
Proof.
  intros Hwf. unfold counter_target, coarsens.
  destruct (has_key rows key) eqn:Hk; simpl.
  { apply has_key_spec in Hk. exists key, rows. tauto. }
  destruct (_ <? _)%nat eqn:Hroom; apply Nat.ltb_lt in Hroom || apply Nat.ltb_ge in Hroom.
  { exists key, rows. tauto. }
  destruct (has_key rows (folded_key key false)) eqn:He.
  { apply has_key_spec in He. exists (folded_key key false), rows. split_and!; auto; lia. }
  destruct (position (λ kr, same_but_error_class kr.1 key) rows) as [i|] eqn:Hp.
  { apply position_Some in Hp as ([k row]&Hi&Hs&_).
    destruct (refold_spec rows i false key k row) as (rows'&->&?&?&?&Ht);
      auto using same_error_class_folds.
    eexists _, rows'. split_and!; auto; [lia|]. intros m Hm. apply Ht.
    pose proof (metric_le_total m _ _ _ Hi). simpl in *. lia. }
  destruct (has_key rows (folded_key key true)) eqn:Hee.
  { apply has_key_spec in Hee. exists (folded_key key true), rows. split_and!; auto; lia. }
  destruct (position (λ kr, same_but_error_class_and_endpoint kr.1 key) rows) as [i|] eqn:Hp2.
  { apply position_Some in Hp2 as ([k row]&Hi&Hs&_).
    destruct (refold_spec rows i true key k row) as (rows'&->&?&?&?&Ht);
      auto using same_endpoint_folds.
    eexists _, rows'. split_and!; auto; [lia|]. intros m Hm. apply Ht.
    pose proof (metric_le_total m _ _ _ Hi). simpl in *. lia. }
  destruct rows as [|[k row] rows]; simpl in *; [unfold TELEMETRY_MAX_WINDOW_KEYS in *; lia|].
  eexists k, _. split_and!; auto; [left; set_solver|lia].
Qed.

Lemma merge_row_keys target inc rows :
  keys (merge_row target inc rows) = if decide (target ∈ keys rows) then keys rows
                                     else keys rows ++ [target].
Proof.
  induction rows as [|[k row] rows IH]; [done|].
  unfold keys in *. cbn [merge_row]. case_bool_decide as Hk; rewrite !fmap_cons; cbn [fst].
  - subst. by rewrite decide_True by left.
  - rewrite IH. destruct (decide (target ∈ rows.*1)) as [Hin|Hout].
    + by rewrite decide_True by (by right).
    + rewrite decide_False by (by intros [?|?]%elem_of_cons). done.
Qed.

Lemma merge_row_fits target inc rows :
  Forall (λ kr, row_fits kr.2) rows → Forall (λ kr, row_fits kr.2) (merge_row target inc rows).
Proof.
  induction 1 as [|[k row] rows Hr Hrows IH]; simpl; [repeat constructor; simpl; auto with sdk|].
  case_bool_decide; constructor; simpl in *; auto with sdk.
Qed.

Lemma merge_row_total m target inc rows :
  Forall (λ kr, row_fits kr.2) rows → (total m rows + metric m inc <= MAX_COUNT)%N →
  total m (merge_row target inc rows) = (total m rows + metric m inc)%N.
Proof.
  induction 1 as [|[k row] rows Hr _ IH]; unfold total in *; simpl in *; intros Hm.
  - rewrite metric_merge, metric_default by auto with sdk.
    unfold sat_add, MAX_COUNT, u64_max in *. lia.
  - case_bool_decide; simpl.
    + rewrite metric_merge by done. unfold sat_add, MAX_COUNT, u64_max in *. lia.
    + rewrite IH by lia. lia.
Qed.

Lemma merge_one_spec rows counter :
  wf_rows rows →
  ∃ rows', merge_one rows counter = Some rows' ∧ wf_rows rows'
    ∧ ∀ m, (total m rows + metric m counter.2 <= MAX_COUNT)%N →
           total m rows' = (total m rows + metric m counter.2)%N.
Proof.
  intros Hwf. unfold merge_one.
  destruct (counter_target_spec rows counter.1 Hwf)
    as (t&rows1&->&(Hnd&Hl&Hf)&Hroom&Hlen&_&_&Ht). simpl.
  eexists. split; [done|]. split.
  - assert (length (keys (merge_row t counter.2 rows1)) ≤ TELEMETRY_MAX_WINDOW_KEYS) as Hk.
    { rewrite merge_row_keys. unfold keys in *.
      case_decide; rewrite ?length_app, length_fmap; simpl; [lia|naive_solver lia]. }
    unfold keys in Hk. rewrite length_fmap in Hk. split_and!; [|done|by apply merge_row_fits].
    rewrite merge_row_keys. case_decide; [done|]. apply NoDup_app. split_and!; [done| |].
    + set_solver.
    + apply NoDup_singleton.
  - intros m Hm. rewrite merge_row_total, Ht; [done|lia|done|]. rewrite Ht; lia.
Qed.

Lemma merge_all_spec counters rows :
  wf_rows rows →
  ∃ rows', merge_all rows counters = Some rows' ∧ wf_rows rows'
    ∧ ∀ m, (total m rows + total m counters <= MAX_COUNT)%N →
           total m rows' = (total m rows + total m counters)%N.
Proof.
  revert rows. induction counters as [|c counters IH]; intros rows Hwf; simpl.
  { exists rows. split_and!; [done..|]. unfold total. simpl. lia. }
  destruct (merge_one_spec rows c Hwf) as (rows1&->&Hwf1&Ht1). simpl.
  destruct (IH rows1 Hwf1) as (rows2&->&Hwf2&Ht2). exists rows2. split_and!; [done..|].
  intros m Hm. unfold total in Hm at 2. simpl in Hm. fold (total m counters) in Hm.
  unfold total at 3. simpl. fold (total m counters). rewrite Ht2; rewrite Ht1; lia.
Qed.

(** C32. Recording counters into a window never fails, never exceeds the key
    cap, never duplicates a key, and conserves every count exactly: for each
    kind of count, the window's total grows by what was recorded, whatever
    was folded on the way, as long as the total stays within the schema's
    bound. *)
Theorem merge_counters_conserves counters s :
  wf_rows (current_counters s) →
  ∃ s', merge_counters counters s = Some s' ∧ wf_rows (current_counters s')
    ∧ ∀ m, (total m (current_counters s) + total m counters <= MAX_COUNT)%N →
           total m (current_counters s') = (total m (current_counters s) + total m counters)%N.
Proof.
  intros Hwf. unfold merge_counters.
  destruct (merge_all_spec counters _ Hwf) as (rows&->&?&?). simpl. eexists. eauto.
Qed.

(** Folding is a last resort and as fine as possible: a key below the cap
    is counted under itself; past the cap an increment goes to its key with
    the error class folded, then with the endpoint folded too, and only then
    to the window's first key. *)
Theorem counter_target_coarsest_last rows key :
  wf_rows rows →
  ∃ target rows', counter_target rows key = Some (target, rows')
    ∧ coarsens rows key target
    ∧ (length rows < TELEMETRY_MAX_WINDOW_KEYS → target = key ∧ rows' = rows)
    ∧ (key ∈ keys rows → target = key ∧ rows' = rows)
    ∧ (folded_key key false ∈ keys rows → target ∈ [key; folded_key key false] ∧ rows' = rows).
Proof.
  intros Hwf. destruct (counter_target_spec rows key Hwf) as (t&rows'&Ht&_&_&_&Hc&_&_).
  exists t, rows'. unfold counter_target in Ht. split_and!; [done..| | |].
  - intros Hlt%Nat.ltb_lt. rewrite Hlt, orb_true_r in Ht. by simplify_eq.
  - intros Hk%has_key_spec. rewrite Hk in Ht. by simplify_eq/=.
  - intros Hk%has_key_spec. rewrite Hk in Ht. destruct (_ || _); simplify_eq; set_solver.
Qed.
