(* ===== verification/ReporterFacts.v ===== *)
(** * The reporter's buffers: bounds, identities and accounting

    [wf_state] is the invariant of [State]; every operation preserves it.
    The serialiser is a parameter; what the byte bounds need of it is
    [SerdeLaws]: dropping rows never lengthens the serialised window. *)
From S2P Require Import Prelude Text F64 Json Http Config Vocab Recorder Identity Wire.
From S2P Require Import Reporter CounterFacts.

Class SerdeLaws (S : Serde) : Prop := {
  rows_shrink rows rows' :
    rows' `sublist_of` rows → (window_size rows' <= window_size rows)%N;
}.

Definition sum_by {A} (f : A → N) (l : list A) : N := fold_right N.add 0%N (map f l).
Definition row_count (w : CounterWindow) : N := N.of_nat (length (cw_rows w)).

Lemma sum_by_app {A} (f : A → N) l1 l2 : sum_by f (l1 ++ l2) = (sum_by f l1 + sum_by f l2)%N.
Proof. unfold sum_by. rewrite map_app. induction (map f l1); simpl; lia. Qed.

Lemma sum_by_take_drop {A} (f : A → N) k l :
  (sum_by f (take k l) + sum_by f (drop k l) = sum_by f l)%N.
Proof. by rewrite <-sum_by_app, take_drop. Qed.

Lemma sum_by_delete {A} (f : A → N) l i x :
  l !! i = Some x → sum_by f l = (f x + sum_by f (delete i l))%N.
Proof.
  intros Hi. rewrite <-(take_drop_middle _ _ _ Hi) at 1.
  rewrite delete_take_drop, !sum_by_app. unfold sum_by at 2. simpl.
  fold (sum_by f (drop (S i) l)). lia.
Qed.

Lemma sum_by_sublist {A} (f : A → N) l1 l2 :
  l1 `sublist_of` l2 → (sum_by f l1 <= sum_by f l2)%N.
Proof. unfold sum_by. induction 1; simpl; lia. Qed.

Section facts.
Context `{Sd : Serde}.

Record wf_window (w : CounterWindow) : Prop := {
  ww_rows : wf_rows (cw_rows w);
  ww_some : cw_rows w ≠ [];
  ww_size : cw_size_bytes w = window_size (cw_rows w);
}.

Record wf_state (retention_bytes : N) (s : State) : Prop := {
  wf_events_len : length (events s) ≤ TELEMETRY_MAX_EVENTS;
  wf_events_ids : NoDup (map be_id (events s));
  wf_events_next : Forall (λ b, be_id b < next_event_id s)%N (events s);
  wf_events_size : events_size_bytes s = sum_by be_estimated_bytes (events s);
  wf_current : wf_rows (current_counters s);
  wf_windows_ids : NoDup (map cw_id (closed_windows s));
  wf_windows_next : Forall (λ w, cw_id w < next_window_id s)%N (closed_windows s);
  wf_windows : Forall wf_window (closed_windows s);
  wf_retained : retained_window_bytes s = sum_by cw_size_bytes (closed_windows s);
  wf_retention : (retained_window_bytes s <= retention_bytes)%N;
  wf_dropped : (dropped_since_last s <= u64_max)%N;
  wf_backoff : (backoff_min <= backoff s <= backoff_max)%N;
  wf_disabled : disabled s = true →
    events s = [] ∧ current_counters s = [] ∧ closed_windows s = [];
}.

(** ** Windows *)

(** [s] without its [k] oldest windows, each of whose rows counts as
    dropped. *)
Definition without_oldest (k : nat) (s : State) : State :=
  s <| closed_windows := drop k (closed_windows s) |>
    <| retained_window_bytes :=
         (retained_window_bytes s - sum_by cw_size_bytes (take k (closed_windows s)))%N |>
    <| dropped_since_last :=
         N.min (dropped_since_last s + sum_by row_count (take k (closed_windows s))) u64_max |>.

Lemma without_oldest_0 s : (dropped_since_last s <= u64_max)%N → without_oldest 0 s = s.
Proof.
  intros. destruct s; unfold without_oldest; simpl in *. unfold sum_by. simpl. f_equal; lia.
Qed.

Lemma without_oldest_add k j s : without_oldest j (without_oldest k s) = without_oldest (k + j) s.
Proof.
  destruct s; unfold without_oldest; simpl. rewrite drop_drop, <-take_take_drop, !sum_by_app.
  f_equal; lia.
Qed.

Lemma drop_first_window w ws s :
  closed_windows s = w :: ws → drop_window w (s <| closed_windows := ws |>) = without_oldest 1 s.
Proof.
  intros Hs. destruct s; unfold drop_window, without_oldest, sat_sub, sat_add, row_count, sum_by;
    simpl in *; subst; simpl. f_equal; lia.
Qed.

Lemma prune_expired_shape now ws s :
  closed_windows s = ws → (dropped_since_last s <= u64_max)%N →
  ∃ k, prune_expired now ws s = without_oldest k s.
Proof.
  revert s. induction ws as [|w ws IH]; intros s Hs Hd; cbn [prune_expired].
  { exists 0. by rewrite without_oldest_0. }
  destruct (_ <? _)%N; [|by exists 0; rewrite without_oldest_0].
  rewrite (drop_first_window w ws s Hs).
  destruct (IH (without_oldest 1 s)) as [k Hk]; [by simpl; rewrite Hs|simpl; lia|].
  exists (1 + k). by rewrite Hk, without_oldest_add.
Qed.

Lemma prune_oversize_shape rb ws s :
  closed_windows s = ws → (dropped_since_last s <= u64_max)%N →
  retained_window_bytes s = sum_by cw_size_bytes (closed_windows s) →
  ∃ k, prune_oversize rb ws s = without_oldest k s
       ∧ (retained_window_bytes (without_oldest k s) <= rb)%N.
Proof.
  revert s. induction ws as [|w ws IH]; intros s Hs Hd Hr; cbn [prune_oversize].
  { exists 0. rewrite without_oldest_0 by done. rewrite Hs in Hr. unfold sum_by in Hr. simpl in Hr.
    rewrite Hr. split; [by destruct (_ <? _)%N|lia]. }
  destruct (rb <? _)%N eqn:E; reflect.
  - rewrite (drop_first_window w ws s Hs).
    destruct (IH (without_oldest 1 s)) as (k&Hk&Hle); [by simpl; rewrite Hs|simpl; lia| |].
    { simpl. rewrite Hr, <-(sum_by_take_drop _ 1 (closed_windows s)). lia. }
    exists (1 + k). rewrite Hk. rewrite without_oldest_add in *. done.
  - exists 0. by rewrite without_oldest_0.
Qed.

Lemma prune_windows_shape now rb s :
  (dropped_since_last s <= u64_max)%N →
  retained_window_bytes s = sum_by cw_size_bytes (closed_windows s) →
  ∃ k, prune_windows now rb s = without_oldest k s
       ∧ (retained_window_bytes (without_oldest k s) <= rb)%N.
Proof.
  intros Hd Hr. unfold prune_windows.
  destruct (prune_expired_shape now (closed_windows s) s eq_refl Hd) as [k ->].
  destruct (prune_oversize_shape rb _ (without_oldest k s) eq_refl) as (j&Hj&Hle).
  - simpl. lia.
  - simpl. rewrite Hr, <-(sum_by_take_drop _ k (closed_windows s)). lia.
  - exists (k + j). rewrite Hj. rewrite without_oldest_add in *. done.
Qed.

Lemma fresh_id {A} (f : A → N) l x n :
  NoDup (map f l) → Forall (λ y, f y < n)%N l → f x = n → NoDup (map f (l ++ [x])).
Proof.
  intros Hnd Hlt Hx. rewrite map_app. apply NoDup_app. split_and!; [done| |apply NoDup_singleton].
  intros i Hi. simpl. rewrite list_elem_of_singleton. intros ->.
  apply list_elem_of_fmap in Hi as (y&Hy&Hin). rewrite Forall_forall in Hlt.
  specialize (Hlt y Hin). simpl in *. lia.
Qed.

Lemma ids_below {A} (f : A → N) l x n :
  Forall (λ y, f y < n)%N l → f x = n → Forall (λ y, f y < n + 1)%N (l ++ [x]).
Proof.
  intros Hlt Hx. apply Forall_app. split; [eapply Forall_impl; [done|]; simpl; lia|].
  constructor; [lia|constructor].
Qed.

Lemma nodup_sublist {A} (f : A → N) l1 l2 :
  l1 `sublist_of` l2 → NoDup (map f l2) → NoDup (map f l1).
Proof. intros Hs Hnd. eapply sublist_NoDup; [exact Hnd|]. by apply (fmap_sublist f). Qed.

Lemma drop_sublist {A} k (l : list A) : drop k l `sublist_of` l.
Proof. apply sublist_drop. Qed.

Lemma without_oldest_wf rb rb' k s :
  wf_state rb s → (retained_window_bytes (without_oldest k s) <= rb')%N →
  wf_state rb' (without_oldest k s).
Proof.
  intros [] Hle. split; simpl in *; try done.
  - eapply nodup_sublist; [apply drop_sublist|done].
  - by apply Forall_drop.
  - by apply Forall_drop.
  - rewrite wf_retained0, <-(sum_by_take_drop _ k (closed_windows s)). lia.
  - lia.
  - intros Hd. destruct (wf_disabled0 Hd) as (->&->&->). by rewrite drop_nil.
Qed.

Lemma prune_windows_wf now rb0 rb s : wf_state rb0 s → wf_state rb (prune_windows now rb s).
Proof.
  intros Hwf. destruct (prune_windows_shape now rb s) as (k&->&Hle); [by destruct Hwf..|].
  by eapply without_oldest_wf.
Qed.

Lemma close_current_window_wf now rb s : wf_state rb s → wf_state rb (close_current_window now rb s).
Proof.
  intros Hwf. unfold close_current_window.
  destruct (current_window_start s) as [start|]; [|done].
  destruct (current_counters s) as [|kr rows] eqn:Hrows; [done|].
  set (size := window_size _).
  apply (prune_windows_wf now (retained_window_bytes s + size)). destruct Hwf.
  rewrite Hrows in *. split; simpl; try done.
  - split_and!; [constructor|simpl; lia|constructor].
  - by eapply fresh_id.
  - by apply ids_below.
  - apply Forall_app. split; [done|]. apply Forall_singleton. by split.
  - rewrite sum_by_app, wf_retained0. unfold sum_by at 3. simpl. lia.
  - intros Hd. destruct (wf_disabled0 Hd) as (_&?&_). done.
Qed.

Lemma set_window_start_wf rb s start :
  wf_state rb s → wf_state rb (s <| current_window_start := start |>).
Proof. by intros []; split. Qed.

Lemma roll_window_wf now rb s : wf_state rb s → wf_state rb (roll_window now rb s).
Proof.
  intros Hwf. unfold roll_window. destruct (current_window_start s).
  - destruct (_ <? _)%N; [|done]. by apply set_window_start_wf, close_current_window_wf.
  - by apply set_window_start_wf.
Qed.

(** ** Events *)

Lemma drop_buffered_event_wf rb s : wf_state rb s → wf_state rb (drop_buffered_event s).
Proof.
  intros Hwf. unfold drop_buffered_event. set (i := default 0 _).
  destruct (events s !! i) as [dropped|] eqn:Hi; [|done].
  pose proof (lookup_lt_Some _ _ _ Hi). destruct Hwf. split; simpl; try done.
  - rewrite length_delete by (by eexists). lia.
  - eapply nodup_sublist; [apply sublist_delete|done].
  - by apply Forall_delete.
  - rewrite wf_events_size0, (sum_by_delete _ _ _ _ Hi). unfold sat_sub. lia.
  - apply sat_add_bound.
  - intros Hd. destruct (wf_disabled0 Hd) as (He&?&?). rewrite He in Hi. done.
Qed.

Lemma drop_buffered_event_room rb s :
  wf_state rb s → TELEMETRY_MAX_EVENTS ≤ length (events s) →
  length (events (drop_buffered_event s)) < TELEMETRY_MAX_EVENTS.
Proof.
  intros Hwf Hfull. unfold drop_buffered_event. pose proof (wf_events_len _ _ Hwf).
  destruct (lookup_lt_is_Some_2 (events s) (default 0 (position be_ok (events s)))) as [b Hb].
  { destruct (position be_ok (events s)) eqn:Hp; simpl; [by eapply position_lt|].
    unfold TELEMETRY_MAX_EVENTS in *. lia. }
  rewrite Hb. simpl. rewrite length_delete by (by eexists).
  unfold TELEMETRY_MAX_EVENTS in *. lia.
Qed.

Lemma append_event_wf rb wire now s :
  wf_state rb s → disabled s = false → wf_state rb (append_event wire now s).
Proof.
  intros Hwf Hdis. unfold append_event. set (s1 := if (_ <=? _)%nat then _ else _).
  assert (wf_state rb s1 ∧ length (events s1) < TELEMETRY_MAX_EVENTS ∧ disabled s1 = false)
    as (Hwf1&Hroom&Hd).
  { unfold s1. destruct (_ <=? _)%nat eqn:E; reflect; [|done].
    split_and!; [by apply drop_buffered_event_wf|by eapply drop_buffered_event_room|].
    unfold drop_buffered_event. by destruct (_ !! _). }
  clearbody s1. destruct Hwf1. split; simpl; try done.
  - rewrite length_app. simpl. lia.
  - by eapply fresh_id.
  - by apply ids_below.
  - rewrite sum_by_app, wf_events_size0. unfold sum_by at 3. simpl. lia.
  - rewrite Hd. done.
Qed.

(** ** Recording *)

Lemma merge_counters_wf rb counters s :
  wf_state rb s → disabled s = false →
  ∃ s', merge_counters counters s = Some s' ∧ wf_state rb s' ∧ disabled s' = false.
Proof.
  intros Hwf Hd. unfold merge_counters.
  destruct (merge_all_spec counters (current_counters s)) as (rows&->&Hrows&_);
    [by destruct Hwf|]. simpl. eexists. split_and!; [done| |done].
  destruct Hwf. split; simpl; try done. by rewrite Hd.
Qed.

Lemma disabled_stable_roll now rb s : disabled (roll_window now rb s) = disabled s.
Proof.
  unfold roll_window, close_current_window, prune_windows.
  assert (∀ ws t, disabled (prune_expired now ws t) = disabled t) as He.
  { induction ws as [|w ws IH]; intros t; simpl; [done|]. by destruct (_ <? _)%N; rewrite ?IH. }
  assert (∀ ws t, disabled (prune_oversize rb ws t) = disabled t) as Ho.
  { induction ws as [|w ws IH]; intros t; simpl; destruct (_ <? _)%N; rewrite ?IH; done. }
  repeat split_match; simpl; rewrite ?Ho, ?He; done.
Qed.

Lemma start_worker_wf rb runtime now s : wf_state rb s → wf_state rb (start_worker runtime now s).
Proof. intros Hwf. unfold start_worker. destruct (_ || _); [done|]. by destruct Hwf; split. Qed.

Lemma store_wf rb now runtime sampled invalid counters s :
  wf_state rb s →
  ∃ s', store rb now runtime sampled invalid counters s = Some s' ∧ wf_state rb s'.
Proof.
  intros Hwf. unfold store. destruct (disabled s || closed s) eqn:Hdc; [by eexists|].
  apply orb_false_iff in Hdc as [Hd Hc].
  destruct (merge_counters_wf rb counters (roll_window now rb s)) as (s1&->&Hwf1&Hd1).
  { by apply roll_window_wf. }
  { by rewrite disabled_stable_roll. }
  simpl. eexists. split; [done|].
  set (s2 := if invalid then _ else _).
  assert (wf_state rb s2 ∧ disabled s2 = false) as [Hwf2 Hd2].
  { unfold s2. destruct invalid; [|done]. split; [|done].
    destruct Hwf1; split; simpl; try done. apply sat_add_bound. }
  clearbody s2. set (s3 := match sampled with Some _ => _ | None => _ end).
  assert (wf_state rb s3) as Hwf3 by (unfold s3; destruct sampled; auto using append_event_wf).
  apply (start_worker_wf rb runtime now) in Hwf3.
  destruct (urgent _); [|done]. by destruct Hwf3; split.
Qed.

(** ** Retiring a batch *)

(** The rows of window [id] that [refs] does not name. *)
Definition unsent (refs : list (N * CounterKey)) (id : N) (rows : Rows) : Rows :=
  List.filter (λ kr, negb (bool_decide ((id, kr.1) ∈ refs))) rows.

Definition without_refs (refs : list (N * CounterKey)) (w : CounterWindow) : CounterWindow :=
  w <| cw_rows := unsent refs (cw_id w) (cw_rows w) |>.

Lemma unsent_sublist refs id rows : unsent refs id rows `sublist_of` rows.
Proof. induction rows; simpl; [done|]. destruct (negb _); by constructor. Qed.

Lemma unsent_nil id rows : unsent [] id rows = rows.
Proof.
  unfold unsent. induction rows as [|kr rows IH]; cbn [List.filter]; [done|].
  by rewrite bool_decide_false, IH by apply not_elem_of_nil.
Qed.

Lemma unsent_cons r refs id rows : unsent (r :: refs) id rows = unsent refs id (unsent [r] id rows).
Proof.
  unfold unsent in *. induction rows as [|kr rows IH]; cbn [List.filter]; [done|]. rewrite IH.
  destruct (decide ((id, kr.1) = r)) as [<-|Hne].
  - by rewrite !bool_decide_true by set_solver.
  - rewrite (bool_decide_false ((id, kr.1) ∈ [r])) by set_solver. simpl.
    by rewrite (bool_decide_ext ((id, kr.1) ∈ r :: refs) ((id, kr.1) ∈ refs)) by set_solver.
Qed.

Lemma unsent_other r id rows : id ≠ r.1 → unsent [r] id rows = rows.
Proof.
  intros Hne. unfold unsent in *. induction rows as [|kr rows IH]; cbn [List.filter]; [done|].
  rewrite bool_decide_false, IH; [done|]. destruct r. intros ?%list_elem_of_singleton. naive_solver.
Qed.

Lemma unsent_absent r id rows : r.2 ∉ keys rows → unsent [r] id rows = rows.
Proof.
  unfold unsent in *. induction rows as [|kr rows IH]; cbn [List.filter]; [done|]. unfold keys. rewrite fmap_cons.
  rewrite not_elem_of_cons. intros [Hne Hout].
  rewrite bool_decide_false, IH; [done..|]. destruct r. intros ?%list_elem_of_singleton. naive_solver.
Qed.

Lemma unsent_delete r rows i :
  NoDup (keys rows) → position (key_is r.2) rows = Some i → unsent [r] r.1 rows = delete i rows.
Proof.
  revert i. induction rows as [|[k row] rows IH]; intros i Hnd Hi; [done|].
  unfold unsent. cbn [List.filter]. cbn [position] in Hi. fold (unsent [r] r.1 rows).
  unfold keys in Hnd. simpl in Hnd. apply NoDup_cons in Hnd as [Hout Hnd].
  unfold key_is in Hi. simpl in Hi. case_bool_decide as Hk; simplify_eq/=.
  - rewrite bool_decide_true by (destruct r; set_solver). simpl. by rewrite unsent_absent.
  - apply fmap_Some in Hi as (j&Hj&->). simpl.
    rewrite bool_decide_false by (destruct r; set_solver). simpl. f_equal. by apply IH.
Qed.

Lemma without_refs_nil w : without_refs [] w = w.
Proof. destruct w. unfold without_refs. simpl. by rewrite unsent_nil. Qed.

Lemma without_refs_cons r refs w : without_refs (r :: refs) w = without_refs refs (without_refs [r] w).
Proof. unfold without_refs. simpl. by rewrite unsent_cons. Qed.

Lemma without_refs_other r w : cw_id w ≠ r.1 → without_refs [r] w = w.
Proof. destruct w. unfold without_refs. simpl. intros. by rewrite unsent_other. Qed.

Definition distinct_keys (w : CounterWindow) : Prop := NoDup (keys (cw_rows w)).

Lemma remove_row_spec r ws :
  NoDup (map cw_id ws) → Forall distinct_keys ws →
  (remove_row r ws).1 = map (without_refs [r]) ws
  ∧ ((remove_row r ws).2 = false → (remove_row r ws).1 = ws).
Proof.
  induction ws as [|w ws IH]; intros Hids Hkeys; simpl in *; [done|].
  apply NoDup_cons in Hids as [Hout Hids]. apply Forall_cons in Hkeys as [Hk Hkeys].
  destruct (cw_id w =? r.1)%N eqn:Hid; reflect.
  - assert (map (without_refs [r]) ws = ws) as Hrest.
    { clear IH Hids Hkeys. rewrite Hid in Hout. induction ws as [|w' ws IH]; simpl in *; [done|].
      apply not_elem_of_cons in Hout as [? ?]. by rewrite without_refs_other, IH by congruence. }
    rewrite Hrest. destruct (position _ _) as [i|] eqn:Hp; simpl; (split; [|done]);
      apply (f_equal (λ x, x :: ws)).
    + unfold without_refs. rewrite Hid, (unsent_delete r _ i Hk Hp). destruct w; simpl in *. by subst.
    + assert (r.2 ∉ keys (cw_rows w)) as Habs.
      { rewrite <-has_key_false. unfold has_key.
        apply position_None in Hp. clear -Hp. induction Hp as [|x l Hx _ IH]; simpl; [done|].
        by rewrite Hx. }
      destruct w. unfold without_refs. simpl in *. by rewrite unsent_absent.
  - destruct (IH Hids Hkeys) as [H1 H2]. destruct (remove_row r ws) as [ws' hit]. simpl in *.
    rewrite without_refs_other by done. split; [by f_equal|]. intros ?. f_equal. auto.
Qed.

Lemma without_refs_ids refs ws : map cw_id (map (without_refs refs) ws) = map cw_id ws.
Proof. rewrite map_map. by apply map_ext. Qed.

Lemma without_refs_distinct refs ws :
  Forall distinct_keys ws → Forall distinct_keys (map (without_refs refs) ws).
Proof.
  intros Hall. apply Forall_fmap. eapply Forall_impl; [exact Hall|]. intros w Hw.
  unfold distinct_keys, keys in *. simpl.
  eapply sublist_NoDup; [exact Hw|]. apply fmap_sublist, unsent_sublist.
Qed.

Lemma map_fixes {A} (f : A → A) l x : map f l = l → x ∈ l → f x = x.
Proof. induction l as [|y l IH]; intros Hm Hx; [by apply not_elem_of_nil in Hx|]. set_solver. Qed.

(** [remove_rows] removes exactly the named rows, and a window left out of
    [changed] lost none. *)
Lemma remove_rows_spec refs ws changed :
  NoDup (map cw_id ws) → Forall distinct_keys ws →
  (remove_rows refs ws changed).1 = map (without_refs refs) ws
  ∧ changed ⊆ (remove_rows refs ws changed).2
  ∧ Forall (λ w, cw_id w ∉ (remove_rows refs ws changed).2 → without_refs refs w = w) ws.
Proof.
  revert ws changed. induction refs as [|r refs IH]; intros ws changed Hids Hkeys; simpl.
  { split_and!; [|done|by apply Forall_forall; intros; apply without_refs_nil].
    rewrite <-(map_id ws) at 1. apply map_ext. intros. by rewrite without_refs_nil. }
  destruct (remove_row_spec r ws Hids Hkeys) as [H1 H2].
  destruct (remove_row r ws) as [ws1 hit]. simpl in *. subst ws1.
  destruct (IH (map (without_refs [r]) ws) (if hit then r.1 :: changed else changed))
    as (Hw&Hc&Hf); [by rewrite without_refs_ids|by apply without_refs_distinct|].
  destruct (remove_rows refs _ _) as [ws2 changed2]. simpl in *. split_and!.
  - rewrite Hw, map_map. apply map_ext. intros w. symmetry. apply without_refs_cons.
  - destruct hit; set_solver.
  - apply Forall_forall. intros w Hin Hout. rewrite without_refs_cons.
    assert (without_refs [r] w = w) as Hsame.
    { destruct hit.
      - apply without_refs_other. intros Heq. apply Hout, Hc. rewrite Heq. by left.
      - by eapply map_fixes; [apply H2|]. }
    rewrite Hsame. rewrite Forall_forall in Hf. apply Hf; [|done].
    apply list_elem_of_fmap. by exists w.
Qed.

(** The size the source recomputes for a changed window. *)
Definition resized (changed : list N) (w : CounterWindow) : CounterWindow :=
  if bool_decide (cw_id w ∈ changed)
  then w <| cw_size_bytes := match cw_rows w with [] => 0%N | rows => window_size rows end |>
  else w.

Lemma resize_windows_spec changed ws pre :
  resize_windows changed ws (pre + sum_by cw_size_bytes ws)
  = (map (resized changed) ws, (pre + sum_by cw_size_bytes (map (resized changed) ws))%N).
Proof.
  revert pre. induction ws as [|w ws IH]; intros pre; cbn [resize_windows map].
  { unfold sum_by. done. }
  unfold resized at 1 3. unfold sum_by. cbn [map fold_right]. fold (sum_by cw_size_bytes ws).
  fold (sum_by cw_size_bytes (map (resized changed) ws)). case_bool_decide.
  - set (size := match cw_rows w with [] => _ | _ => _ end). unfold sat_sub.
    replace (pre + (cw_size_bytes w + sum_by cw_size_bytes ws) - cw_size_bytes w + size)%N
      with (pre + size + sum_by cw_size_bytes ws)%N by lia.
    rewrite IH. simpl. f_equal. unfold size. lia.
  - replace (pre + (cw_size_bytes w + sum_by cw_size_bytes ws))%N
      with (pre + cw_size_bytes w + sum_by cw_size_bytes ws)%N by lia.
    rewrite IH. simpl. f_equal. lia.
Qed.

(** What the source leaves of one window: its unsent rows, with their size. *)
Definition retired (refs : list (N * CounterKey)) (w : CounterWindow) : CounterWindow :=
  let rows := unsent refs (cw_id w) (cw_rows w) in
  w <| cw_rows := rows |> <| cw_size_bytes := match rows with [] => 0%N | _ => window_size rows end |>.

Lemma resized_retired refs changed w :
  wf_window w → (cw_id w ∉ changed → without_refs refs w = w) →
  resized changed (without_refs refs w) = retired refs w.
Proof.
  intros [_ Hsome Hsize] Hsame. unfold resized, retired. simpl. case_bool_decide as Hin; [by destruct (unsent _ _ _)|].
  specialize (Hsame Hin). rewrite Hsame.
  assert (unsent refs (cw_id w) (cw_rows w) = cw_rows w) as -> by apply (f_equal cw_rows Hsame).
  destruct w as [id start rows size]; simpl in *. by destruct rows; subst.
Qed.

Definition kept_events (ids : list N) (l : list BufferedEvent) : list BufferedEvent :=
  List.filter (λ b, negb (bool_decide (be_id b ∈ ids))) l.

(** The windows a retired batch leaves: unsent rows only, none empty. *)
Definition kept_windows (refs : list (N * CounterKey)) (ws : list CounterWindow)
    : list CounterWindow :=
  List.filter has_rows (map (retired refs) ws).

Lemma filter_sublist {A} (p : A → bool) l : List.filter p l `sublist_of` l.
Proof. induction l; simpl; [done|]. destruct (p _); by constructor. Qed.

Lemma empty_windows_free refs ws :
  sum_by cw_size_bytes (map (retired refs) ws) = sum_by cw_size_bytes (kept_windows refs ws).
Proof.
  unfold kept_windows, sum_by. induction ws as [|w ws IH]; [done|].
  cbn [map List.filter fold_right]. rewrite IH. unfold has_rows, retired. cbn [cw_rows modify].
  by destruct (unsent refs (cw_id w) (cw_rows w)).
Qed.

Lemma wf_windows_distinct rb s : wf_state rb s → Forall distinct_keys (closed_windows s).
Proof.
  intros Hwf. eapply Forall_impl; [exact (wf_windows _ _ Hwf)|]. by intros w [[? _] _ _].
Qed.

(** [remove_selected] leaves exactly what the batch did not name. *)
Lemma remove_selected_shape rb ids refs s :
  wf_state rb s →
  remove_selected ids refs s =
  s <| events := kept_events ids (events s) |>
    <| events_size_bytes := sum_by be_estimated_bytes (kept_events ids (events s)) |>
    <| closed_windows := kept_windows refs (closed_windows s) |>
    <| retained_window_bytes := sum_by cw_size_bytes (kept_windows refs (closed_windows s)) |>.
Proof.
  intros Hwf. unfold remove_selected.
  destruct (remove_rows_spec refs (closed_windows s) []) as (Hw&_&Hsame);
    [by destruct Hwf|by eapply wf_windows_distinct|].
  destruct (remove_rows refs (closed_windows s) []) as [ws changed]. simpl in Hw, Hsame. subst ws.
  assert (map (resized changed) (map (without_refs refs) (closed_windows s))
          = map (retired refs) (closed_windows s)) as Hres.
  { pose proof (wf_windows _ _ Hwf) as Hww. clear Hwf. rewrite map_map.
    induction Hsame as [|w ws Hw Hsame IH]; simpl; [done|]. apply Forall_cons in Hww as [? ?].
    f_equal; [by apply resized_retired|by apply IH]. }
  assert (retained_window_bytes s
          = (0 + sum_by cw_size_bytes (map (without_refs refs) (closed_windows s)))%N) as ->.
  { rewrite (wf_retained _ _ Hwf). unfold sum_by. by rewrite map_map. }
  rewrite resize_windows_spec, Hres, empty_windows_free. done.
Qed.

Lemma kept_windows_ids refs ws : map cw_id (kept_windows refs ws) `sublist_of` map cw_id ws.
Proof.
  unfold kept_windows. etrans; [apply fmap_sublist, filter_sublist|].
  change (cw_id <$> map (retired refs) ws) with (map cw_id (map (retired refs) ws)).
  by rewrite map_map.
Qed.

Lemma retired_wf refs w : wf_window w → has_rows (retired refs w) = true → wf_window (retired refs w).
Proof.
  intros [(Hnd&Hlen&Hf) _ _] Hr. pose proof (unsent_sublist refs (cw_id w) (cw_rows w)) as Hsub.
  unfold has_rows in Hr. split; simpl in *.
  - split_and!.
    + eapply sublist_NoDup; [exact Hnd|]. by apply fmap_sublist.
    + apply sublist_length in Hsub. lia.
    + rewrite Forall_forall in *. intros x Hx. apply Hf. by eapply elem_of_sublist.
  - by destruct (unsent _ _ _).
  - by destruct (unsent _ _ _).
Qed.

Lemma kept_windows_all (P Q : CounterWindow → Prop) refs ws :
  (∀ w, P w → has_rows (retired refs w) = true → Q (retired refs w)) →
  Forall P ws → Forall Q (kept_windows refs ws).
Proof.
  intros HPQ. unfold kept_windows. induction 1 as [|w ws Hw _ IH]; simpl; [constructor|].
  destruct (has_rows (retired refs w)) eqn:E; [|done]. constructor; auto.
Qed.

Lemma kept_windows_size `{!SerdeLaws Sd} refs ws :
  Forall wf_window ws →
  (sum_by cw_size_bytes (kept_windows refs ws) <= sum_by cw_size_bytes ws)%N.
Proof.
  rewrite <-empty_windows_free. unfold sum_by. induction 1 as [|w ws [_ _ Hsize] _ IH]; simpl; [done|].
  pose proof (rows_shrink _ _ (unsent_sublist refs (cw_id w) (cw_rows w))).
  destruct (unsent refs _ _) eqn:E; lia.
Qed.

Lemma remove_selected_wf `{!SerdeLaws Sd} rb ids refs s :
  wf_state rb s → wf_state rb (remove_selected ids refs s).
Proof.
  intros Hwf. rewrite (remove_selected_shape rb) by done.
  pose proof (filter_sublist (λ b, negb (bool_decide (be_id b ∈ ids))) (events s)) as Hsub.
  destruct Hwf. split; simpl; try done.
  - apply sublist_length in Hsub. unfold kept_events. lia.
  - by eapply nodup_sublist.
  - rewrite Forall_forall in *. intros x Hx. apply wf_events_next0. by eapply elem_of_sublist.
  - eapply sublist_NoDup; [done|]. apply kept_windows_ids.
  - eapply kept_windows_all; [|exact wf_windows_next0]. by intros w Hw _.
  - eapply kept_windows_all; [|exact wf_windows0]. apply retired_wf.
  - etrans; [by apply kept_windows_size|]. lia.
  - intros Hd. destruct (wf_disabled0 Hd) as (->&->&->). done.
Qed.

(** ** Responses *)

(** A policy moves three fields, each only in the direction of less traffic:
    a strictly lower rate, an interval from a strictly larger number of
    seconds, a later end of pause. *)
Definition less_traffic (policy : Value) (now : Duration) (s s' : State) : Prop :=
  (success_sample_rate s' = success_sample_rate s
   ∨ f64_leb f64_zero (success_sample_rate s') = true
     ∧ f64_ltb (success_sample_rate s') (success_sample_rate s) = true)
  ∧ (flush_interval s' = flush_interval s
     ∨ ∃ seconds, get "flush_seconds" policy >>? float_value = Some seconds
         ∧ f64_ltb (as_secs_f64 (flush_interval s)) seconds = true
         ∧ from_secs_f64 (f64_min seconds TELEMETRY_BACKOFF_MAX_SECONDS) = Some (flush_interval s'))
  ∧ (paused_until s <= paused_until s')%N
  ∧ s' = s <| success_sample_rate := success_sample_rate s' |>
           <| flush_interval := flush_interval s' |>
           <| paused_until := paused_until s' |>.

Lemma apply_rate_less policy s :
  ∃ r, apply_rate policy s = s <| success_sample_rate := r |>
    ∧ (r = success_sample_rate s
       ∨ f64_leb f64_zero r = true ∧ f64_ltb r (success_sample_rate s) = true).
Proof.
  unfold apply_rate. destruct (_ >>? _) as [r|].
  - destruct (_ && _) eqn:E; reflect; [by exists r; auto|]. exists (success_sample_rate s).
    by destruct s; auto.
  - exists (success_sample_rate s). by destruct s; auto.
Qed.

Lemma apply_flush_less policy s s' :
  apply_flush policy s = Some s' →
  ∃ d, s' = s <| flush_interval := d |>
    ∧ (d = flush_interval s
       ∨ ∃ seconds, get "flush_seconds" policy >>? float_value = Some seconds
           ∧ f64_ltb (as_secs_f64 (flush_interval s)) seconds = true
           ∧ from_secs_f64 (f64_min seconds TELEMETRY_BACKOFF_MAX_SECONDS) = Some d).
Proof.
  unfold apply_flush. destruct (_ >>? _) as [seconds|]; [destruct (f64_ltb _ _) eqn:E|].
  1: destruct (from_secs_f64 _) as [d|] eqn:Hd; [|done]; intros [= <-]; exists d; eauto 7.
  all: intros [= <-]; exists (flush_interval s); destruct s; auto.
Qed.

Lemma apply_pause_less policy now s s' :
  apply_pause policy now s = Some s' →
  ∃ t, s' = s <| paused_until := t |> ∧ (paused_until s <= t)%N.
Proof.
  unfold apply_pause. destruct (_ >>? _) as [seconds|]; [destruct (_ && _)|].
  1: destruct (from_secs_f64 _) as [d|] eqn:Hd; [|done]; intros [= <-];
    eexists; split; [done|simpl; lia].
  all: intros [= <-]; exists (paused_until s); by destruct s.
Qed.

Lemma apply_policy_less policy now s s' :
  apply_policy policy now s = Some s' → less_traffic policy now s s'.
Proof.
  unfold apply_policy. destruct (apply_rate_less policy s) as (r&->&Hr). intros H.
  destruct (apply_flush policy _) as [s1|] eqn:Hf; [|done]. simpl in H.
  apply apply_flush_less in Hf as (d&->&Hd). apply apply_pause_less in H as (t&->&Ht).
  done.
Qed.

Lemma less_traffic_wf rb policy now s s' :
  less_traffic policy now s s' → wf_state rb s → wf_state rb s'.
Proof. intros (_&_&_&->) Hwf. by destruct Hwf; split. Qed.

Lemma set_backoff_wf rb now ra s : wf_state rb s → wf_state rb (set_backoff now ra s).
Proof. intros []. split; simpl; try done. unfold backoff_min, backoff_max in *. lia. Qed.

Lemma disable_wf rb s : wf_state rb s → wf_state rb (disable s).
Proof.
  intros []. split; simpl; try done; try (unfold u64_max, TELEMETRY_MAX_EVENTS; lia).
  all: try apply NoDup_nil_2; try apply Forall_nil_2.
  split_and!; [apply NoDup_nil_2|simpl; lia|apply Forall_nil_2].
Qed.

Section responses.
Context `{HL : HttpLib}.

Lemma accept_batch_shape rb body now selected s s' :
  wf_state rb s → accept_batch body now selected s = Some s' →
  events s' = kept_events (sel_event_ids selected) (events s)
  ∧ closed_windows s' = kept_windows (sel_counter_refs selected) (closed_windows s)
  ∧ dropped_since_last s' = (dropped_since_last s - sel_dropped selected)%N
  ∧ current_counters s' = current_counters s ∧ backoff s' = backoff_min ∧ backoff_until s' = 0%N.
Proof.
  intros Hwf. unfold accept_batch. rewrite (remove_selected_shape rb) by done. cbv zeta.
  destruct (opt_filter _ _) as [policy|]; [|intros [= <-]; done].
  intros (_&_&_&->)%apply_policy_less. done.
Qed.

Lemma handle_response_wf `{!SerdeLaws Sd} rb status headers body now selected s s' :
  wf_state rb s → handle_response status headers body now selected s = Some s' → wf_state rb s'.
Proof.
  intros Hwf. unfold handle_response.
  destruct (telemetry_off headers); [intros [= <-]; by apply disable_wf|].
  destruct (status =? 202)%N.
  { unfold accept_batch. set (s1 := _ <| backoff_until := _ |>).
    assert (wf_state rb s1) as Hwf1.
    { apply (remove_selected_wf _ (sel_event_ids selected) (sel_counter_refs selected)) in Hwf.
      destruct Hwf; split; simpl; try done.
      unfold sat_sub. lia. }
    destruct (opt_filter _ _); [|intros [= <-]; done].
    intros ?%apply_policy_less. by eapply less_traffic_wf. }
  case_bool_decide; [intros [= <-]; by apply disable_wf|].
  destruct (status =? 413)%N; intros [= <-]; [|by apply set_backoff_wf].
  unfold refuse_batch.
  apply (remove_selected_wf _ (sel_event_ids selected) (sel_counter_refs selected)) in Hwf.
  destruct Hwf; split; simpl; try done. apply sat_add_bound.
Qed.

End responses.

(** ** Claims *)

(** Row [row] is waiting under [key] in closed window [id]. *)
Definition waiting (id : N) (key : CounterKey) (row : CounterRow) (s : State) : Prop :=
  ∃ w, w ∈ closed_windows s ∧ cw_id w = id ∧ (key, row) ∈ cw_rows w.

Lemma elem_of_list_filter_bool {A} (p : A → bool) l x :
  x ∈ List.filter p l ↔ x ∈ l ∧ p x = true.
Proof. by rewrite !list_elem_of_In, filter_In. Qed.

Lemma kept_events_spec ids l b : b ∈ kept_events ids l ↔ b ∈ l ∧ be_id b ∉ ids.
Proof.
  unfold kept_events. by rewrite elem_of_list_filter_bool, negb_true_iff, bool_decide_eq_false.
Qed.

Lemma kept_windows_spec refs ws id key row :
  (∃ w, w ∈ kept_windows refs ws ∧ cw_id w = id ∧ (key, row) ∈ cw_rows w)
  ↔ (∃ w, w ∈ ws ∧ cw_id w = id ∧ (key, row) ∈ cw_rows w) ∧ (id, key) ∉ refs.
Proof.
  unfold kept_windows. split.
  - intros (w&Hw&<-&Hin). apply elem_of_list_filter_bool in Hw as [Hw _].
    apply list_elem_of_fmap in Hw as (w0&->&Hw0). simpl in *. unfold unsent in Hin.
    apply elem_of_list_filter_bool in Hin as [Hin Hno].
    rewrite negb_true_iff, bool_decide_eq_false in Hno. split; [by exists w0|done].
  - intros [(w&Hw&<-&Hin) Hno].
    assert ((key, row) ∈ cw_rows (retired refs w)) as Hin'.
    { simpl. unfold unsent. apply elem_of_list_filter_bool.
      by rewrite negb_true_iff, bool_decide_eq_false. }
    exists (retired refs w). split_and!; [|done|done]. apply elem_of_list_filter_bool. split.
    + apply list_elem_of_fmap. by exists w.
    + unfold has_rows. destruct (cw_rows (retired refs w)); [|done].
      by apply not_elem_of_nil in Hin'.
Qed.

Section claims.
Context `{HL : HttpLib}.

(** C31. An answered batch is retired exactly and by identity: after a 202,
    or a 413, the events and counter rows that remain are the ones the batch
    did not carry, whatever was recorded while it was in flight, and the open
    window is untouched.  A refused batch is added to the drop count; an
    accepted one takes away what it reported as dropped. *)
Theorem answered_batch_retired_exactly rb status headers body now selected s s' :
  wf_state rb s → telemetry_off headers = false → status ∈ [202; 413]%N →
  handle_response status headers body now selected s = Some s' →
  (∀ b, b ∈ events s' ↔ b ∈ events s ∧ be_id b ∉ sel_event_ids selected)
  ∧ (∀ id key row, waiting id key row s' ↔
       waiting id key row s ∧ (id, key) ∉ sel_counter_refs selected)
  ∧ current_counters s' = current_counters s
  ∧ dropped_since_last s' =
      (if (status =? 202)%N then dropped_since_last s - sel_dropped selected
       else N.min (dropped_since_last s
                   + N.of_nat (length (sel_event_ids selected) + length (sel_counter_refs selected)))
                  u64_max)%N.
Proof.
  intros Hwf Hoff Hst. unfold handle_response. rewrite Hoff.
  rewrite elem_of_cons, list_elem_of_singleton in Hst. destruct Hst as [->| ->];
    cbn -[accept_batch refuse_batch N.of_nat].
  - intros (He&Hw&Hd&Hc&_)%(accept_batch_shape rb); [|done]. unfold waiting. rewrite He, Hw.
    split_and!; [by apply kept_events_spec|by intros; apply kept_windows_spec|done|done].
  - intros [= <-]. unfold refuse_batch, waiting. rewrite (remove_selected_shape rb) by done. simpl.
    split_and!; [by apply kept_events_spec|by intros; apply kept_windows_spec|done|done].
Qed.

(** An event evicted from the full buffer while its batch is in flight is
    counted as dropped then, and again when the batch is refused: the count
    exceeds by one the items that were lost. *)
Lemma evicted_in_flight_counted_twice selected s b :
  let items := N.of_nat (length (sel_event_ids selected) + length (sel_counter_refs selected)) in
  events s !! default 0 (position be_ok (events s)) = Some b → be_id b ∈ sel_event_ids selected →
  (dropped_since_last s + 1 + items <= u64_max)%N →
  dropped_since_last (refuse_batch selected (drop_buffered_event s))
  = (dropped_since_last s + 1 + items)%N.
Proof.
  intros items Hb _ Hmax. unfold drop_buffered_event. rewrite Hb.
  unfold refuse_batch, remove_selected. destruct (remove_rows _ _ _) as [ws changed].
  destruct (resize_windows _ _ _) as [ws' retained]. cbn -[N.add N.of_nat]. unfold sat_add.
  fold items. lia.
Qed.

(** C39. Every refusal is final and total: a 400, 401, 403, 404 or 410, or the
    [x-tr-telemetry: off] header on any status, disables the reporter and
    empties every buffer; a disabled reporter ignores further calls and never
    passes the flush gate. *)
Theorem refusal_disables rb status headers body now selected s s' :
  telemetry_off headers = true ∨ status ∈ [400; 401; 403; 404; 410]%N →
  handle_response status headers body now selected s = Some s' →
  disabled s' = true ∧ events s' = [] ∧ current_counters s' = [] ∧ closed_windows s' = []
  ∧ (∀ t, flush_gate t s' = false)
  ∧ (∀ t runtime sampled invalid counters,
       store rb t runtime sampled invalid counters s' = Some s').
Proof.
  intros Hcase Hh. assert (s' = disable s) as ->.
  { unfold handle_response in Hh. destruct (telemetry_off headers); [by simplify_eq|].
    destruct Hcase as [|Hst]; [done|]. rewrite (bool_decide_true _ Hst) in Hh.
    destruct (status =? 202)%N eqn:E; reflect; [|by simplify_eq].
    subst. by apply (bool_decide_eq_true_2 (202%N ∈ [400; 401; 403; 404; 410]%N)) in Hst. }
  assert (disabled (disable s) = true) as Hd by reflexivity.
  do 4 (split; [reflexivity|]). unfold flush_gate, store. by rewrite Hd.
Qed.

(** The state after [n] failed flushes at the given times. *)
Fixpoint failures (times : list (Duration * option Duration)) (s : State) : State :=
  match times with
  | [] => s
  | (now, ra) :: times => failures times (set_backoff now ra s)
  end.

Lemma failures_backoff times s n :
  backoff s = N.min (backoff_min * 2 ^ n) backoff_max →
  backoff (failures times s) =
  N.min (backoff_min * 2 ^ (n + N.of_nat (length times))) backoff_max.
Proof.
  revert s n. induction times as [|[now ra] times IH]; intros s n Hs; cbn [failures].
  { rewrite Hs. simpl. by rewrite N.add_0_r. }
  rewrite (IH _ (n + 1)%N).
  - cbn [length]. f_equal. f_equal. f_equal. lia.
  - cbn. rewrite Hs, N.pow_add_r. pose proof (N.pow_nonzero 2 n). simpl (2 ^ 1)%N.
    assert (backoff_min = from_secs 60) as -> by (vm_compute; reflexivity).
    assert (backoff_max = from_secs 600) as -> by (vm_compute; reflexivity).
    unfold from_secs, ns_per_s. lia.
Qed.

(** Failed flushes back off exponentially: from a fresh or just answered
    reporter, after [n] failures the next delay is 60 s doubled [n] times and
    never above 600 s, and each failure holds the next flush back by at least
    the delay in force or the server's [Retry-After], capped at 600 s. *)
Theorem backoff_doubles_to_ceiling times now ra s :
  backoff s = backoff_min →
  let s' := failures times s in
  backoff s' = N.min (from_secs 60 * 2 ^ N.of_nat (length times)) (from_secs 600)
  ∧ backoff_until (set_backoff now ra s')
    = (now + N.min (N.max (backoff s') (default 0%N ra)) (from_secs 600))%N
  ∧ flush_gate now (set_backoff now ra s') = false.
Proof.
  intros Hb. cbv zeta.
  assert (backoff_min = from_secs 60) as Hmin by (vm_compute; reflexivity).
  assert (backoff_max = from_secs 600) as Hmax by (vm_compute; reflexivity).
  pose proof (failures_backoff times s 0) as Hf. rewrite Hmin, Hmax in Hf.
  assert (backoff (failures times s)
          = N.min (from_secs 60 * 2 ^ N.of_nat (length times)) (from_secs 600)) as He.
  { rewrite Hf; [done|]. rewrite Hb, Hmin. vm_compute. done. }
  split_and!; [done| |].
  - simpl. rewrite Hmax. destruct ra; simpl; f_equal; lia.
  - unfold flush_gate, gate. cbn. apply negb_false_iff, orb_true_iff. right. apply N.ltb_lt.
    rewrite Hmax, He. pose proof (N.pow_nonzero 2 (N.of_nat (length times))).
    unfold from_secs, ns_per_s in *. destruct ra; lia.
Qed.

End claims.

End facts.
