(* ===== verification/BeaconFacts.v ===== *)
(** * The beacon as a system: what is sent, when, and what stays bounded

    Calls record into the reporter while at most one flush is gated or in
    flight ([flush_lock]); the worker polls and settles; a client may close.
    [step] interleaves these at the lock boundaries of the source, and
    [inv] holds in every reachable state. *)
From S2P Require Import Prelude Text F64 Json Http Config Vocab Recorder Identity Wire.
From S2P Require Import Reporter CounterFacts ReporterFacts.

Section beacon.
Context `{Sd : Serde}.

(** ** Trimming a batch *)

(** The batch cut to its first [n] events and [k] counters. *)
Definition cut (batch : WireBatch) (n k : nat) : WireBatch :=
  batch <| wb_events := take n (wb_events batch) |> <| wb_counters := take k (wb_counters batch) |>.

Definition fits (batch : WireBatch) : Prop :=
  ∃ body, batch_json batch = Some body ∧ (string_bytes body <= MAX_BATCH_BYTES)%N.

Lemma cut_event batch n k :
  S n ≤ length (wb_events batch) →
  cut batch (S n) k <| wb_events := removelast (wb_events (cut batch (S n) k)) |> = cut batch n k.
Proof. intros. unfold cut. cbn. by rewrite removelast_firstn. Qed.

Lemma cut_counter batch n k :
  S k ≤ length (wb_counters batch) →
  cut batch n (S k) <| wb_counters := removelast (wb_counters (cut batch n (S k))) |> = cut batch n k.
Proof. intros. unfold cut. cbn. by rewrite removelast_firstn. Qed.

(** The loop keeps the longest prefix that fits: counters are cut only once
    every event is gone. *)
Lemma trim_batch_spec batch ids refs dropped fuel n k :
  n + k < fuel → n ≤ length (wb_events batch) → k ≤ length (wb_counters batch) →
  length ids = length (wb_events batch) → length refs = length (wb_counters batch) →
  match trim_batch fuel (cut batch n k) (take n ids) (take k refs) dropped with
  | Some sel =>
      ∃ n' k', n' ≤ n ∧ k' ≤ k ∧ (n' = 0 ∨ k' = k)
        ∧ sel_event_ids sel = take n' ids ∧ sel_counter_refs sel = take k' refs
        ∧ sel_dropped sel = dropped
        ∧ batch_json (cut batch n' k') = Some (sel_body sel)
        ∧ (string_bytes (sel_body sel) <= MAX_BATCH_BYTES)%N
  | None => ∃ n' k', n' ≤ n ∧ k' ≤ k
        ∧ (batch_json (cut batch n' k') = None ∨ n' = 0 ∧ k' = 0 ∧ ¬ fits (cut batch 0 0))
  end.
Proof.
  revert n k. induction fuel as [|fuel IH]; intros n k Hfuel Hn Hk Hi Hr; [lia|].
  cbn [trim_batch]. destruct (batch_json (cut batch n k)) as [body|] eqn:Hb; cbn [mbind option_bind].
  2: { exists n, k. auto. }
  destruct (_ <=? _)%N eqn:Hsize; reflect; cbn [sel_event_ids sel_counter_refs sel_dropped sel_body].
  { exists n, k. split_and!; auto. }
  assert (∀ n k, length (wb_events (cut batch n k)) = n `min` length (wb_events batch)
              ∧ length (wb_counters (cut batch n k)) = k `min` length (wb_counters batch)) as Hlen
    by (intros; split; apply length_take).
  destruct (Hlen n k) as [Hle Hlc].
  destruct (wb_events (cut batch n k)) as [|e es] eqn:He.
  1: destruct (wb_counters (cut batch n k)) as [|c cs] eqn:Hc; simpl in Hle, Hlc.
  - assert (n = 0) as -> by lia. assert (k = 0) as -> by lia. exists 0, 0.
    split_and!; [done..|]. right. split_and!; [done..|].
    intros (body'&Hb'&Hfit). rewrite Hb in Hb'. simplify_eq. lia.
  - assert (n = 0) as -> by lia. destruct k as [|k]; [lia|].
    rewrite <-Hc, cut_counter, removelast_firstn by lia.
    specialize (IH 0 k ltac:(lia) ltac:(lia) ltac:(lia) Hi Hr).
    destruct (trim_batch _ _ _ _ _) as [sel|]; destruct IH as (n'&k'&?&?&IH); exists n', k'.
    + destruct IH as (?&?&?&?&?&?). split_and!; auto with lia.
    + split_and!; [lia..|done].
  - simpl in Hle. destruct n as [|n]; [lia|].
    rewrite <-He, cut_event, removelast_firstn by lia.
    specialize (IH n k ltac:(lia) ltac:(lia) ltac:(lia) Hi Hr).
    destruct (trim_batch _ _ _ _ _) as [sel|]; destruct IH as (n'&k'&?&?&IH); exists n', k'.
    + destruct IH as (?&?&?&?&?&?). split_and!; auto with lia.
    + split_and!; [lia..|done].
Qed.

(** ** Selecting a batch *)

(** Everything of the state but its counter windows and the drop count. *)
Definition outside (s : State) : State :=
  s <| current_window_start := None |> <| current_counters := [] |> <| closed_windows := [] |>
    <| next_window_id := 0%N |> <| retained_window_bytes := 0%N |> <| dropped_since_last := 0%N |>.

Lemma outside_drop w ws s : outside (drop_window w (s <| closed_windows := ws |>)) = outside s.
Proof. by destruct s. Qed.

Lemma outside_expired now ws s : outside (prune_expired now ws s) = outside s.
Proof.
  revert s. induction ws as [|w ws IH]; intros s; cbn [prune_expired]; [done|].
  destruct (_ <? _)%N; [|done]. by rewrite IH, outside_drop.
Qed.

Lemma outside_oversize rb ws s : outside (prune_oversize rb ws s) = outside s.
Proof.
  revert s. induction ws as [|w ws IH]; intros s; cbn [prune_oversize]; destruct (_ <? _)%N; try done.
  by rewrite IH, outside_drop.
Qed.

Lemma outside_prune now rb s : outside (prune_windows now rb s) = outside s.
Proof. unfold prune_windows. by rewrite outside_oversize, outside_expired. Qed.

Lemma outside_close now rb s : outside (close_current_window now rb s) = outside s.
Proof.
  unfold close_current_window. destruct (current_window_start s); [|done].
  destruct (current_counters s); [done|]. rewrite outside_prune. by destruct s.
Qed.

Lemma outside_roll now rb s : outside (roll_window now rb s) = outside s.
Proof.
  unfold roll_window. destruct (current_window_start s) eqn:E; [|by destruct s].
  destruct (_ <? _)%N; [|done]. pose proof (outside_close now rb s) as H.
  by destruct s, (close_current_window _ _ _).
Qed.

(** The windows as [select_batch] leaves them. *)
Definition settled (now : Duration) (rb : N) (s : State) : State :=
  prune_windows now rb (close_current_window now rb (roll_window now rb s)).

Lemma outside_settled now rb s : outside (settled now rb s) = outside s.
Proof. unfold settled. by rewrite outside_prune, outside_close, outside_roll. Qed.

Lemma outside_eq {A} (f : State → A) s s' :
  (∀ s, f (outside s) = f s) → outside s' = outside s → f s' = f s.
Proof. intros Hf H. by rewrite <-(Hf s'), H. Qed.

Lemma settled_wf now rb s : wf_state rb s → wf_state rb (settled now rb s).
Proof. intros. by eapply prune_windows_wf, close_current_window_wf, roll_window_wf. Qed.

Lemma current_prune now rb s : current_counters (prune_windows now rb s) = current_counters s.
Proof.
  unfold prune_windows.
  assert (∀ ws t, current_counters (prune_expired now ws t) = current_counters t) as He.
  { induction ws as [|w ws IH]; intros t; cbn [prune_expired]; [done|].
    destruct (_ <? _)%N; [|done]. by rewrite IH. }
  assert (∀ ws t, current_counters (prune_oversize rb ws t) = current_counters t) as Ho.
  { induction ws as [|w ws IH]; intros t; cbn [prune_oversize]; destruct (_ <? _)%N; try done.
    by rewrite IH. }
  by rewrite Ho, He.
Qed.

(** A flush closes the open window first. *)
Lemma settled_current now rb s : current_counters (settled now rb s) = [].
Proof.
  unfold settled. rewrite current_prune. set (s1 := roll_window now rb s).
  assert (is_Some (current_window_start s1)) as [start Hs].
  { unfold s1, roll_window. destruct (current_window_start s) eqn:E; [|by eexists].
    destruct (_ <? _)%N; by eexists. }
  unfold close_current_window. rewrite Hs. destruct (current_counters s1) eqn:Hc; [done|].
  rewrite current_prune. done.
Qed.

Definition wire_event_at (now : Duration) (b : BufferedEvent) : WireEvent :=
  aged (millis (sat_sub now (be_completed_at b))) (be_wire b).
Definition wire_counter_at (now : Duration) (wr : CounterWindow * (CounterKey * CounterRow))
    : WireCounter :=
  from_row wr.2.1 wr.2.2 (millis (sat_sub now (cw_window_start wr.1))).
Definition row_ref (wr : CounterWindow * (CounterKey * CounterRow)) : N * CounterKey :=
  (cw_id wr.1, wr.2.1).

(** The batch on the wire: the oldest [n] events and [k] rows of [s],
    identified by [selected]. *)
Definition carries (now : Duration) (s : State) (batch : WireBatch) (selected : Selected) (n k : nat)
    : Prop :=
  n ≤ TELEMETRY_MAX_BATCH_EVENTS ∧ k ≤ TELEMETRY_MAX_BATCH_COUNTERS
  ∧ wb_events batch = map (wire_event_at now) (take n (events s))
  ∧ wb_counters batch = map (wire_counter_at now) (take k (window_rows (closed_windows s)))
  ∧ sel_event_ids selected = map be_id (take n (events s))
  ∧ sel_counter_refs selected = map row_ref (take k (window_rows (closed_windows s)))
  ∧ wb_dropped_since_last batch = dropped_since_last s ∧ sel_dropped selected = dropped_since_last s
  ∧ batch_json batch = Some (sel_body selected)
  ∧ (string_bytes (sel_body selected) <= MAX_BATCH_BYTES)%N.

Lemma new_batch_sent_at ep bid iid sq sdk : (wb_sent_at_ms (new_batch ep bid iid sq sdk) <= u64_max)%N.
Proof.
  cbn. destruct ep as [d|]; cbn; [|done]. destruct (_ <=? _)%N eqn:E; cbn; reflect; [done|].
  unfold u64_max. lia.
Qed.

Lemma select_batch_spec now ep bid rb sdk s selected s' :
  select_batch now ep bid rb sdk s = (Some selected, s') →
  s' = settled now rb s <| seq := (seq s + 1)%N |>
  ∧ ∃ batch n k, carries now s' batch selected n k
      ∧ wb_seq batch = seq s ∧ wb_sdk batch = sdk ∧ wb_instance_id batch = instance_id s
      ∧ wb_batch_id batch = bid ∧ wb_schema_version batch = TELEMETRY_SCHEMA_VERSION
      ∧ (wb_sent_at_ms batch <= u64_max)%N.
Proof.
  unfold select_batch. fold (settled now rb s). set (s1 := settled now rb s).
  assert (outside s1 = outside s) as Ho by apply outside_settled.
  assert (seq s1 = seq s) as Hseq by (apply (outside_eq seq); [done|exact Ho]).
  assert (instance_id s1 = instance_id s) as Hid by (apply (outside_eq instance_id); [done|exact Ho]).
  cbv zeta. set (taken := take _ (events s1)). set (rows := take _ (window_rows _)).
  set (es := map _ taken). set (cs := map (λ wr, from_row _ _ _) rows).
  set (batch := _ <| wb_counters := cs |>).
  intros Hsel.
  assert (trim_batch (S (length es + length cs)) batch (map be_id taken) (map row_ref rows)
            (dropped_since_last s1) = Some selected ∧ s1 <| seq := (seq s1 + 1)%N |> = s') as [Ht <-].
  { by destruct es, cs; simplify_eq. }
  rewrite Hseq. split; [done|].
  pose proof (trim_batch_spec batch (map be_id taken) (map row_ref rows) (dropped_since_last s1)
    (S (length es + length cs)) (length es) (length cs)) as Hspec.
  assert (cut batch (length es) (length cs) = batch) as Hcut
    by (unfold cut; cbn; by rewrite !firstn_all).
  assert (length (map be_id taken) = length es) as Hl1 by (unfold es; by rewrite !length_map).
  assert (length (map row_ref rows) = length cs) as Hl2 by (unfold cs; by rewrite !length_map).
  rewrite Hcut, <-Hl1, <-Hl2, !firstn_all, Hl1, Hl2, Ht in Hspec.
  destruct Hspec as (n&k&Hn&Hk&_&Hids&Hrefs&Hd&Hb&Hle); [lia|done..|].
  assert (length es ≤ TELEMETRY_MAX_BATCH_EVENTS) as He1
    by (unfold es, taken; rewrite length_map, length_take; lia).
  assert (length cs ≤ TELEMETRY_MAX_BATCH_COUNTERS) as He2
    by (unfold cs, rows; rewrite length_map, length_take; lia).
  assert (n ≤ TELEMETRY_MAX_BATCH_EVENTS) as Hn' by lia.
  assert (k ≤ TELEMETRY_MAX_BATCH_COUNTERS) as Hk' by lia.
  exists (cut batch n k), n, k. split; [|split_and!; [done..|apply new_batch_sent_at]].
  assert (take n taken = take n (events s1)) as Hte
    by (unfold taken; by rewrite take_take, Nat.min_l).
  assert (take k rows = take k (window_rows (closed_windows s1))) as Hro
    by (unfold rows; by rewrite take_take, Nat.min_l).
  split_and!; try done.
  - change (take n es = map (wire_event_at now) (take n (events s1))).
    rewrite <-Hte. apply firstn_map.
  - change (take k cs = map (wire_counter_at now) (take k (window_rows (closed_windows s1)))).
    rewrite <-Hro. apply firstn_map.
  - rewrite Hids, firstn_map. by rewrite Hte.
  - rewrite Hrefs, firstn_map. by rewrite Hro.
Qed.

Lemma select_batch_none now ep bid rb sdk s s' :
  select_batch now ep bid rb sdk s = (None, s') →
  s' = settled now rb s ∨ s' = settled now rb s <| seq := (seq (settled now rb s) + 1)%N |>.
Proof.
  unfold select_batch. fold (settled now rb s). cbv zeta.
  destruct (map _ (take _ (events _))), (map _ (take _ (window_rows _))); intros H;
    apply (f_equal snd) in H; cbn [snd] in H; auto.
Qed.

(** ** The system *)

Section system.
Context `{HL : HttpLib} `{UL : UrlLib} `{BE : BuildEnv}.
Context (inner : Inner).

Inductive Phase :=
| Idle
| Gated (now : Duration)
| InFlight (selected : Selected) (request : BeaconRequest).

Definition Sys : Type := State * Phase.

(** Who acts: a call being recorded, a flush, the worker, a closing handle. *)
Inductive Actor := Recording | Flushing | Polling | Settling | Closing.

Inductive step : Actor → Sys → Sys → Prop :=
| step_record draw rate event counters now runtime s s' ph :
    store (in_retention_bytes inner) now runtime (sample draw event rate).1
      (sample draw event rate).2 counters s = Some s' →
    step Recording (s, ph) (s', ph)
| step_gate now s : flush_gate now s = true → step Flushing (s, Idle) (s, Gated now)
| step_select timeout now ep bid s selected request s' :
    flush_select inner timeout now ep bid s = (Some (selected, request), s') →
    step Flushing (s, Gated now) (s', InFlight selected request)
| step_nothing timeout now ep bid s s' :
    flush_select inner timeout now ep bid s = (None, s') → step Flushing (s, Gated now) (s', Idle)
| step_reply now reply accepted selected request s s' :
    flush_finish now selected reply s = Some (accepted, s') →
    step Flushing (s, InFlight selected request) (s', Idle)
| step_cancel selected request s : step Flushing (s, InFlight selected request) (s, Idle)
| step_no_client now s ph : step Flushing (s, ph) (set_backoff now None s, ph)
| step_poll now s ph : step Polling (s, ph) ((worker_poll now s).2, ph)
| step_settle now s ph : step Settling (s, ph) (worker_settle now s, ph)
| step_close s ph : step Closing (s, ph) ((close_begin s).2, ph).

(** A fresh reporter, before its first call. *)
Definition initial (sys : Sys) : Prop :=
  ∃ rate interval token s, new_state rate interval token = Some s ∧ sys = (s, Idle).

Definition reachable (sys : Sys) : Prop := ∃ sys0, initial sys0 ∧ rtc (λ a b, ∃ act, step act a b) sys0 sys.

(** Every buffered event came out of [from_event]. *)
Definition sourced (s : State) : Prop :=
  Forall (λ b, ∃ event reason rate, from_event event reason rate = Some (be_wire b)) (events s).

Definition batch_in_schema (batch : WireBatch) : Prop :=
  Forall (λ w, event_in_schema w = true) (wb_events batch)
  ∧ Forall counter_in_schema (wb_counters batch)
  ∧ length (wb_events batch) ≤ TELEMETRY_MAX_BATCH_EVENTS
  ∧ length (wb_counters batch) ≤ TELEMETRY_MAX_BATCH_COUNTERS
  ∧ wb_sdk batch = in_sdk inner.

(** What a request in flight carries. *)
Definition request_ok (selected : Selected) (request : BeaconRequest) : Prop :=
  br_url request = in_endpoint inner
  ∧ (∃ key, in_api_key inner = Some key ∧ key ≠ ""
       ∧ ("authorization", "Bearer " +:+ key) ∈ br_headers request)
  ∧ (∀ name value, (name, value) ∈ br_headers request →
       name ∈ ["authorization"; "user-agent"; "content-type"; "x-trustedrouter-workspace"])
  ∧ ∃ batch, batch_json batch = Some (br_body request) ∧ batch_in_schema batch
       ∧ (string_bytes (br_body request) <= MAX_BATCH_BYTES)%N
       ∧ length (sel_event_ids selected) = length (wb_events batch)
       ∧ length (sel_counter_refs selected) = length (wb_counters batch).

Definition inv (sys : Sys) : Prop :=
  wf_state (in_retention_bytes inner) sys.1 ∧ sourced sys.1
  ∧ match sys.2 with
    | Idle => True
    | Gated _ => disabled sys.1 = false
    | InFlight selected request => disabled sys.1 = false ∧ request_ok selected request
    end.

Lemma new_state_wf rate interval token s :
  new_state rate interval token = Some s → wf_state (in_retention_bytes inner) s.
Proof.
  unfold new_state. destruct (normalise_flush_interval interval) as [d|]; [|done].
  intros [= <-]. split; cbn; try done; try lia; try apply NoDup_nil_2; try apply Forall_nil_2.
  split_and!; [apply NoDup_nil_2|simpl; lia|apply Forall_nil_2].
Qed.

Lemma initial_inv sys : initial sys → inv sys.
Proof.
  intros (rate&interval&token&s&Hs&->). split_and!; [by eapply new_state_wf| |done].
  unfold new_state in Hs. destruct (normalise_flush_interval interval); [|done].
  simplify_eq/=. apply Forall_nil_2.
Qed.

(** ** Preservation *)

Lemma sourced_sublist s s' : events s' `sublist_of` events s → sourced s → sourced s'.
Proof.
  intros Hsub Hs. unfold sourced in *. rewrite Forall_forall in *. intros b Hb.
  apply Hs. by eapply elem_of_sublist.
Qed.

Lemma drop_event_sublist s : events (drop_buffered_event s) `sublist_of` events s.
Proof.
  unfold drop_buffered_event. destruct (events s !! _); [|done]. apply sublist_delete.
Qed.

Lemma append_event_sourced wire now s event reason rate :
  from_event event reason rate = Some wire → sourced s → sourced (append_event wire now s).
Proof.
  intros Hw Hs. unfold append_event. set (s1 := if (_ <=? _)%nat then _ else _).
  assert (sourced s1) as Hs1.
  { unfold s1. destruct (_ <=? _)%nat; [|done].
    eapply sourced_sublist; [apply drop_event_sublist|done]. }
  apply Forall_app. split; [exact Hs1|]. apply Forall_singleton. by exists event, reason, rate.
Qed.

Lemma append_event_disabled wire now s : disabled (append_event wire now s) = disabled s.
Proof.
  unfold append_event. destruct (_ <=? _)%nat; [|done].
  unfold drop_buffered_event. by destruct (_ !! _).
Qed.

Lemma sample_source draw event rate wire :
  (sample draw event rate).1 = Some wire → ∃ reason rate', from_event event reason rate' = Some wire.
Proof. unfold sample. destruct (sample_reason _ _ _) as [[reason r]|]; simpl; [eauto|done]. Qed.

Lemma start_worker_frame runtime now s :
  events (start_worker runtime now s) = events s
  ∧ disabled (start_worker runtime now s) = disabled s.
Proof. unfold start_worker. by destruct (_ || _). Qed.

Lemma store_frame rb draw event rate counters now runtime s s' :
  store rb now runtime (sample draw event rate).1 (sample draw event rate).2 counters s = Some s' →
  disabled s' = disabled s ∧ (sourced s → sourced s').
Proof.
  unfold store. destruct (disabled s || closed s); [by intros [= <-]|]. unfold merge_counters.
  assert (events (roll_window now rb s) = events s) as Hre
    by (apply (outside_eq events); [done|apply outside_roll]).
  assert (disabled (roll_window now rb s) = disabled s) as Hrd
    by (apply (outside_eq disabled); [done|apply outside_roll]).
  destruct (merge_all _ _) as [rows|]; [|done]. cbn [mbind option_bind].
  set (s1 := roll_window now rb s <| current_counters := rows |>).
  set (s2 := if (sample draw event rate).2 then _ else s1).
  assert (events s2 = events s ∧ disabled s2 = disabled s) as [He2 Hd2]
    by (unfold s2, s1; by destruct (sample draw event rate).2).
  set (s3 := match (sample draw event rate).1 with Some _ => _ | None => _ end).
  assert (disabled s3 = disabled s ∧ (sourced s → sourced s3)) as [Hd3 Hs3].
  { assert (sourced s → sourced s2) as Hs2 by (unfold sourced; by rewrite He2).
    unfold s3. destruct (sample draw event rate).1 as [wire|] eqn:Hw; [|done].
    apply sample_source in Hw as (reason&rate'&Hw). rewrite append_event_disabled.
    split; [done|]. intros. eapply append_event_sourced; eauto. }
  clearbody s3. destruct (start_worker_frame runtime now s3) as [He4 Hd4].
  intros [= <-]. destruct (urgent _); unfold sourced in *; cbn; rewrite He4, Hd4; auto.
Qed.

Lemma settled_frame now rb s :
  events (settled now rb s) = events s ∧ disabled (settled now rb s) = disabled s.
Proof.
  split; [apply (outside_eq events)|apply (outside_eq disabled)]; try done; apply outside_settled.
Qed.

Lemma bump_seq_wf rb s n : wf_state rb s → wf_state rb (s <| seq := n |>).
Proof. by intros []; split. Qed.

Lemma flush_select_inv timeout now ep bid s r s' :
  flush_select inner timeout now ep bid s = (r, s') →
  wf_state (in_retention_bytes inner) s → sourced s →
  wf_state (in_retention_bytes inner) s' ∧ sourced s' ∧ disabled s' = disabled s.
Proof.
  unfold flush_select. intros H Hwf Hs.
  destruct (opt_filter _ (in_api_key inner)) as [key|]; [|by simplify_eq].
  destruct (select_batch _ _ _ _ _ s) as [sel s1] eqn:Hsel.
  assert (s1 = s') as -> by (by simplify_eq). clear H.
  destruct (settled_frame now (in_retention_bytes inner) s) as [He Hd].
  pose proof (settled_wf now _ _ Hwf) as Hwf'.
  assert (∃ n, s' = settled now (in_retention_bytes inner) s <| seq := n |>
             ∨ s' = settled now (in_retention_bytes inner) s) as [n Hcase].
  { destruct sel.
    - apply select_batch_spec in Hsel as [-> _]. eexists. by left.
    - apply select_batch_none in Hsel as [->| ->]; [exists 0%N; by right|eexists; by left]. }
  unfold sourced in *. destruct Hcase as [->| ->];
    (split; [auto using bump_seq_wf|cbn; by rewrite He, Hd]).
Qed.

Lemma flush_select_request timeout now ep bid s selected request s' :
  flush_select inner timeout now ep bid s = (Some (selected, request), s') →
  sourced s → request_ok selected request.
Proof.
  unfold flush_select. intros H Hs.
  destruct (opt_filter _ (in_api_key inner)) as [key|] eqn:Hkey; [|done].
  apply opt_filter_Some in Hkey as [Hkey Hne].
  destruct (select_batch _ _ _ _ _ s) as [[sel|] s1] eqn:Hsel; [|done]. cbn in H.
  apply select_batch_spec in Hsel as (Hs1&batch&n&k&Hc&_&Hsdk&_).
  destruct Hc as (Hn&Hk&Hev&Hco&Hids&Hrefs&_&_&Hjson&Hsize).
  assert (events s1 = events s) as He1.
  { subst s1. apply (settled_frame now (in_retention_bytes inner) s). }
  simplify_eq. unfold request_ok. cbn [br_url br_headers br_body].
  split_and!; [done| | |].
  - exists key. split_and!; [done|by destruct key|by left].
  - intros name value Hin.
    destruct (opt_filter _ (in_workspace_id inner)); set_solver.
  - exists batch. split_and!; [done| |done| |].
    2: { by rewrite Hids, Hev, !length_map. }
    2: { by rewrite Hrefs, Hco, !length_map. }
    unfold batch_in_schema. rewrite Hev, Hco, !length_map, !length_take.
    split_and!; [| |apply Nat.min_le_iff; by left|apply Nat.min_le_iff; by left|done].
    + apply Forall_fmap, Forall_take. rewrite He1. eapply Forall_impl; [exact Hs|].
      intros b (event&reason&rate&Hw). by eapply from_event_in_schema.
    + apply Forall_fmap. apply Forall_true. intros. apply from_row_in_schema.
Qed.

Context `{!SerdeLaws Sd}.

Lemma flush_finish_inv now selected reply accepted s s' :
  flush_finish now selected reply s = Some (accepted, s') →
  wf_state (in_retention_bytes inner) s → sourced s →
  wf_state (in_retention_bytes inner) s' ∧ sourced s'.
Proof.
  intros H Hwf Hs. unfold flush_finish in H. destruct reply as [|status headers body].
  { simplify_eq. auto using set_backoff_wf. }
  destruct (handle_response _ _ _ _ _ _) as [s1|] eqn:Hh; [|done]. simplify_eq/=.
  split; [by eapply handle_response_wf|].
  unfold handle_response in Hh.
  destruct (telemetry_off headers); [simplify_eq; apply Forall_nil_2|].
  destruct (status =? 202)%N.
  { apply (accept_batch_shape (in_retention_bytes inner)) in Hh as (He&_); [|done].
    eapply sourced_sublist; [|exact Hs]. rewrite He. apply filter_sublist. }
  case_bool_decide; [simplify_eq; apply Forall_nil_2|].
  destruct (status =? 413)%N; simplify_eq; [|done].
  unfold refuse_batch. rewrite (remove_selected_shape (in_retention_bytes inner)) by done.
  eapply sourced_sublist; [|exact Hs]. apply filter_sublist.
Qed.

Lemma step_inv act sys sys' : step act sys sys' → inv sys → inv sys'.
Proof.
  intros Hstep (Hwf&Hs&Hph). destruct Hstep; simpl in *.
  - destruct (store_frame _ _ _ _ _ _ _ _ _ H) as [Hd Hs'].
    destruct (store_wf _ now runtime (sample draw event rate).1 (sample draw event rate).2 counters s
      Hwf) as (s1&Hs1&Hwf1). rewrite H in Hs1. simplify_eq.
    split_and!; [done|by apply Hs'|]. simpl. rewrite Hd. by destruct ph.
  - split_and!; [done..|]. unfold flush_gate in H. simpl. by destruct (disabled s).
  - destruct (flush_select_inv _ _ _ _ _ _ _ H Hwf Hs) as (?&?&Hd).
    split_and!; [done..|]. simpl. rewrite Hd. split; [done|]. by eapply flush_select_request.
  - destruct (flush_select_inv _ _ _ _ _ _ _ H Hwf Hs) as (?&?&Hd). done.
  - destruct (flush_finish_inv _ _ _ _ _ _ H Hwf Hs). done.
  - done.
  - split_and!; [by apply set_backoff_wf|done|by destruct ph].
  - unfold worker_poll. repeat (destruct (_ || _) || destruct (_ && _) || destruct (_ <? _)%N);
      simpl; try done. split_and!; [by destruct Hwf; split|done|by destruct ph].
  - split_and!; [by destruct Hwf; split|done|by destruct ph].
  - unfold close_begin. destruct (closed s); simpl; [done|].
    split_and!; [by destruct Hwf; split|done|by destruct ph].
Qed.

Lemma reachable_inv sys : reachable sys → inv sys.
Proof.
  intros (sys0&H0%initial_inv&Hr). induction Hr as [|??? [act Hst] Hr IH]; [done|].
  apply IH. by eapply step_inv.
Qed.

(** C5. The reporter stays within its bounds whatever calls, flushes, replies
    and closes are interleaved: at most 1000 buffered events and 256 counter
    keys, each key once, closed windows within the retention bytes, byte
    totals that match the buffers, back-off between 60 s and 600 s, and
    recording a call always succeeds. *)
Theorem beacon_bounded sys :
  reachable sys →
  let s := sys.1 in
  length (events s) ≤ TELEMETRY_MAX_EVENTS
  ∧ length (current_counters s) ≤ TELEMETRY_MAX_WINDOW_KEYS ∧ NoDup (keys (current_counters s))
  ∧ (retained_window_bytes s <= in_retention_bytes inner)%N
  ∧ retained_window_bytes s = sum_by cw_size_bytes (closed_windows s)
  ∧ events_size_bytes s = sum_by be_estimated_bytes (events s)
  ∧ (from_secs 60 <= backoff s <= from_secs 600)%N
  ∧ ∀ now runtime sampled invalid counters,
      is_Some (store (in_retention_bytes inner) now runtime sampled invalid counters s).
Proof.
  intros (Hwf&_&_)%reachable_inv. cbv zeta. pose proof (wf_current _ _ Hwf) as (?&?&?).
  assert (backoff_min = from_secs 60) as <- by (vm_compute; reflexivity).
  assert (backoff_max = from_secs 600) as <- by (vm_compute; reflexivity).
  do 7 (split; [by destruct Hwf|]). intros now runtime sampled invalid counters.
  destruct (store_wf (in_retention_bytes inner) now runtime sampled invalid counters sys.1 Hwf)
    as (s'&->&_). by eexists.
Qed.

(** Nothing but the closed schema leaves the process: a request in flight
    goes to the configured endpoint with a non-empty key of this client and
    no header outside four fixed names; its body is at most 65536 bytes and
    serialises a batch of at most 100 events and 200 counters, every one
    inside the closed schema, under the bounded SDK identity; and a disabled
    reporter has nothing in flight. *)
Theorem beacon_sends_closed_schema s selected request :
  reachable (s, InFlight selected request) → request_ok selected request ∧ disabled s = false.
Proof. intros (_&_&Hd&Hok)%reachable_inv. done. Qed.

(** ** Pacing *)

Definition scheduled (t : Duration) (s : State) : Prop :=
  worker_started s = true ∧ next_flush_at s = t ∧ urgent_not_before s = t.

Lemma scheduled_outside t s s' : outside s' = outside s → scheduled t s → scheduled t s'.
Proof.
  intros Ho. unfold scheduled.
  by rewrite (outside_eq worker_started s s'), (outside_eq next_flush_at s s'),
    (outside_eq urgent_not_before s s').
Qed.

Lemma store_scheduled t rb now runtime sampled invalid counters s s' :
  store rb now runtime sampled invalid counters s = Some s' → scheduled t s → scheduled t s'.
Proof.
  unfold store. destruct (disabled s || closed s); [by intros [= <-]|]. unfold merge_counters.
  intros H Hs. apply (scheduled_outside _ _ _ (outside_roll now rb s)) in Hs.
  destruct (merge_all _ _) as [rows|]; [|done]. cbn [mbind option_bind] in H.
  set (s1 := roll_window now rb s <| current_counters := rows |>) in H.
  set (s2 := if invalid then _ else s1) in H.
  assert (scheduled t s2) as Hs2 by (unfold s2, s1; by destruct invalid).
  set (s3 := match sampled with Some _ => _ | None => _ end) in H.
  assert (scheduled t s3) as Hs3.
  { unfold s3. destruct sampled; [|done]. unfold append_event.
    destruct (_ <=? _)%nat; [|done]. unfold drop_buffered_event. by destruct (_ !! _). }
  clearbody s3. assert (start_worker runtime now s3 = s3) as Hst.
  { unfold start_worker. by destruct Hs3 as [-> _]. }
  rewrite Hst in H. by destruct (urgent s3); simplify_eq.
Qed.

Lemma handle_scheduled t status headers body now selected s s' :
  handle_response status headers body now selected s = Some s' → scheduled t s → scheduled t s'.
Proof.
  unfold handle_response, accept_batch, refuse_batch, remove_selected.
  destruct (remove_rows _ _ _) as [ws changed]. destruct (resize_windows _ _ _) as [ws' retained].
  destruct (telemetry_off headers); [by intros [= <-]|].
  destruct (status =? 202)%N.
  { destruct (opt_filter _ _); [|by intros [= <-]]. by intros (_&_&_&->)%apply_policy_less. }
  case_bool_decide; [by intros [= <-]|]. by destruct (status =? 413)%N; intros [= <-].
Qed.

Lemma step_scheduled t act sys sys' :
  step act sys sys' → act ≠ Settling → scheduled t sys.1 → scheduled t sys'.1.
Proof.
  intros Hstep Hact Hs. destruct Hstep; simpl in *; try done.
  - by eapply store_scheduled.
  - unfold flush_select in H. destruct (opt_filter _ (in_api_key inner)); [|done].
    destruct (select_batch _ _ _ _ _ s) as [[sel|] s1] eqn:Hsel; [|done].
    apply select_batch_spec in Hsel as [-> _]. simplify_eq/=.
    by apply (scheduled_outside _ _ _ (outside_settled now (in_retention_bytes inner) s)) in Hs.
  - unfold flush_select in H. destruct (opt_filter _ (in_api_key inner)); [|by simplify_eq].
    destruct (select_batch _ _ _ _ _ s) as [[sel|] s1] eqn:Hsel; [done|]. simplify_eq/=.
    apply (scheduled_outside _ _ _ (outside_settled now (in_retention_bytes inner) s)) in Hs.
    by apply select_batch_none in Hsel as [->| ->].
  - unfold flush_finish in H. destruct reply; [by simplify_eq|].
    destruct (handle_response _ _ _ _ _ _) eqn:Hh; [|done]. simplify_eq/=.
    by eapply handle_scheduled.
  - unfold worker_poll. destruct (_ || _); [done|]. destruct (_ && _); [done|].
    by destruct (_ <? _)%N.
  - unfold close_begin. by destruct (closed s).
Qed.

(** Until the worker settles again, its schedule stands. *)
Lemma settled_scheduled t s0 sys :
  worker_started s0 = true →
  rtc (λ a b, ∃ act, act ≠ Settling ∧ step act a b) (worker_settle t s0, Idle) sys →
  scheduled (t + flush_interval s0)%N sys.1.
Proof.
  intros Hw Hr.
  assert (∀ a b, rtc (λ a b, ∃ act, act ≠ Settling ∧ step act a b) a b →
    scheduled (t + flush_interval s0)%N a.1 → scheduled (t + flush_interval s0)%N b.1) as Hind.
  { induction 1 as [|??? (act&Hact&Hst) _ IH]; [done|]. intros Hs. apply IH.
    by eapply step_scheduled. }
  by apply (Hind _ _ Hr).
Qed.

(** C33. After its first flush the worker is paced by the flush interval
    alone: once it has settled at time [t], it does not start another flush
    before a full interval has passed, nor inside a pause or a back-off,
    whatever is recorded or flushed meanwhile.  In particular fifty waiting
    events, or sixty kilobytes, do not bring the flush forward (the comment on
    [urgent_not_before] says so; the module's own documentation promises a
    flush "sooner when 50 events or ~60 KB are waiting").  Once the interval
    and the gate have passed it does flush, and when it waits, waking after
    that wait makes it flush. *)
Theorem worker_flushes_spaced t s0 sys now :
  worker_started s0 = true →
  rtc (λ a b, ∃ act, act ≠ Settling ∧ step act a b) (worker_settle t s0, Idle) sys →
  match (worker_poll now sys.1).1 with
  | Leave => closed sys.1 = true ∨ disabled sys.1 = true
  | Wait d => (0 < d)%N ∧ (worker_poll (now + d)%N sys.1).1 = Flush
  | Flush => (t + flush_interval s0 <= now)%N ∧ (gate sys.1 <= now)%N
  end
  ∧ (urgent sys.1 = true → (now < t + flush_interval s0)%N → (worker_poll now sys.1).1 ≠ Flush)
  ∧ (closed sys.1 = false → disabled sys.1 = false →
     (t + flush_interval s0 <= now)%N → (gate sys.1 <= now)%N → (worker_poll now sys.1).1 = Flush).
Proof.
  intros Hw Hr. pose proof (settled_scheduled t s0 sys Hw Hr) as (_&Hn&Hu).
  unfold worker_poll. rewrite Hn, Hu. destruct (closed sys.1 || disabled sys.1) eqn:Hcd.
  { apply orb_true_iff in Hcd. split_and!; [done..|]. destruct Hcd; congruence. }
  destruct (urgent_flush sys.1 && _ && _) eqn:Hurg; simpl; reflect.
  { split_and!; intros; lia || done. }
  destruct (now <? _)%N eqn:Hlt; simpl; reflect; [|split_and!; intros; lia || done].
  unfold sat_sub. split_and!; [lia| |done|lia].
  match goal with |- context [if ?b then _ else _] => destruct b; [done|] end.
  destruct (_ <? _)%N eqn:E; reflect; [lia|done].
Qed.

End system.
End beacon.
