(* ===== verification/Lifecycle.v ===== *)
(** * The reporter's threads ([telemetry/reporter.rs])

    [BeaconFacts] interleaves the critical sections of the reporter freely.
    Here is who runs them: the calls that record, the one worker task, and
    the thread of the first [close].  Each is a program counter between the
    points where the source releases a lock or awaits; a flush holds
    [flush_lock] from its gate to its reply.  A worker task can be dropped by
    its runtime at an await point.  The theorems: this program is an instance
    of that interleaving, and closing it ends it. *)
From S2P Require Import Prelude Text Bytes F64 Json Http Config Vocab Recorder Identity Wire.
From S2P Require Import Reporter CounterFacts ReporterFacts BeaconFacts.

(** [SEND_TIMEOUT], the deadline of the worker's own client. *)
Definition SEND_TIMEOUT : Duration := from_secs 5.

(** [hex_token]; the random bytes are its argument. *)
Definition hex_token (buffer : string) : string := hex buffer.

(** Who may flush. *)
Inductive Who := TheWorker | TheCloser.
#[global] Instance Who_eq_dec : EqDecision Who.
Proof. solve_decision. Defined.

Section lifecycle.
Context `{Sd : Serde} `{HL : HttpLib} `{UL : UrlLib} `{BE : BuildEnv}.

(** Where [flush_with] is: waiting for [flush_lock], past its gate, or with
    its request sent. *)
Inductive FlushPc :=
| WantLock
| Entered (now : Duration)
| Flight (selected : Selected) (request : BeaconRequest).

(** Where [Inner::worker] is. *)
Inductive WorkerPc :=
| NotStarted
| AtPoll
| Asleep (wait : Duration)
| InFlush (pc : FlushPc)
| AtSettle
| Gone.

(** Where the first [close] is: its thread starting, its flush, its end. *)
Inductive CloserPc :=
| NotClosed
| Starting
| LastFlush (pc : FlushPc)
| Finished.

Record Life := mkLife {
  l_state : State;
  l_worker : WorkerPc;
  l_closer : CloserPc;
  l_flush_lock : option Who;
  l_http : option bool;
  l_sent : list (Who * BeaconRequest);
  l_echo : list string;
}.
#[global] Instance Life_settable : Settable Life := λ l,
  mkLife (l_state l) (l_worker l) (l_closer l) (l_flush_lock l) (l_http l) (l_sent l) (l_echo l).

(** The fields of [Inner], the decimal digits of a status and the text of a
    transport error. *)
Context (inner : Inner) (decimal : N → string) (send_error : string).

Definition echo (line : string) (l : Life) : Life :=
  if in_debug inner then l <| l_echo := l_echo l ++ [line] |> else l.

(** The flush of [who], as its program counter. *)
Definition flush_pc (who : Who) (l : Life) : option FlushPc :=
  match who with
  | TheWorker => match l_worker l with InFlush pc => Some pc | _ => None end
  | TheCloser => match l_closer l with LastFlush pc => Some pc | _ => None end
  end.

Definition set_flush (who : Who) (pc : FlushPc) (l : Life) : Life :=
  match who with
  | TheWorker => l <| l_worker := InFlush pc |>
  | TheCloser => l <| l_closer := LastFlush pc |>
  end.

(** [flush_with] returns, and its guard releases the lock. *)
Definition end_flush (who : Who) (l : Life) : Life :=
  match who with
  | TheWorker => l <| l_worker := AtSettle |>
  | TheCloser => l <| l_closer := Finished |>
  end.

Definition release (l : Life) : Life := l <| l_flush_lock := None |>.

(** The timeout each passes to [flush_with]. *)
Definition flush_timeout (who : Who) (close_timeout : Duration) : option Duration :=
  match who with TheWorker => None | TheCloser => Some close_timeout end.

(** What [flush_with] echoes about a reply. *)
Definition reply_line (reply : Reply) : string :=
  match reply with
  | SendFailed => "trustedrouter telemetry send failed: " +:+ send_error
  | Replied status _ _ => "trustedrouter telemetry response: " +:+ decimal status
  end.

(** One step of a flush. *)
Inductive flush_step (who : Who) : Life → Life → Prop :=
| flush_enter now l :
    flush_pc who l = Some WantLock → l_flush_lock l = None → flush_gate now (l_state l) = true →
    flush_step who l (set_flush who (Entered now) (l <| l_flush_lock := Some who |>))
| flush_shut now l :
    flush_pc who l = Some WantLock → l_flush_lock l = None → flush_gate now (l_state l) = false →
    flush_step who l (end_flush who l)
| flush_send close_timeout now ep bytes selected request s' l :
    flush_pc who l = Some (Entered now) → String.length bytes = 16 →
    flush_select inner (flush_timeout who close_timeout) now ep (hex_token bytes) (l_state l)
      = (Some (selected, request), s') →
    flush_step who l
      (set_flush who (Flight selected request)
         (echo ("trustedrouter telemetry batch: " +:+ sel_body selected) l
            <| l_state := s' |> <| l_sent := l_sent l ++ [(who, request)] |>))
| flush_nothing close_timeout now ep bytes s' l :
    flush_pc who l = Some (Entered now) → String.length bytes = 16 →
    flush_select inner (flush_timeout who close_timeout) now ep (hex_token bytes) (l_state l)
      = (None, s') →
    flush_step who l (end_flush who (release (l <| l_state := s' |>)))
| flush_reply now reply accepted selected request s' l :
    flush_pc who l = Some (Flight selected request) →
    flush_finish now selected reply (l_state l) = Some (accepted, s') →
    flush_step who l (end_flush who (release (echo (reply_line reply) l <| l_state := s' |>))).

(** [start_worker] spawned the task when it set the flag. *)
Definition spawned (before after : State) (pc : WorkerPc) : WorkerPc :=
  if negb (worker_started before) && worker_started after then AtPoll else pc.

(** [self.http()]: built once, on first use. *)
Definition http (built : bool) (l : Life) : bool := default built (l_http l).

(** Where the worker's poll leaves it. *)
Definition worker_next (step : WorkerStep) (has_http : bool) : WorkerPc :=
  match step with
  | Leave => Gone
  | Wait d => Asleep d
  | Flush => if has_http then InFlush WantLock else AtSettle
  end.

(** One pass of the loop up to its flush, its sleep or its return. *)
Definition poll_once (now now' : Duration) (built : bool) (l : Life) : Life :=
  let '(step, s') := worker_poll now (l_state l) in
  let has_http := http built l in
  match step with
  | Flush =>
      l <| l_state := if has_http then s' else set_backoff now' None s' |>
        <| l_http := Some has_http |>
        <| l_worker := worker_next step has_http |>
  | _ => l <| l_state := s' |> <| l_worker := worker_next step has_http |>
  end.

Inductive worker_step : Life → Life → Prop :=
| worker_polls now now' built l : l_worker l = AtPoll → worker_step l (poll_once now now' built l)
| worker_wakes d l : l_worker l = Asleep d → worker_step l (l <| l_worker := AtPoll |>)
| worker_flushes l l' : flush_step TheWorker l l' → worker_step l l'
| worker_settles now l :
    l_worker l = AtSettle →
    worker_step l (l <| l_state := worker_settle now (l_state l) |> <| l_worker := AtPoll |>)
| worker_orphaned l :
    l_worker l = AtPoll → closed (l_state l) = true → worker_step l (l <| l_worker := Gone |>).

(** The runtime drops the task at an await point, and with it the guard. *)
Inductive cancel_step : Life → Life → Prop :=
| cancel_idle l :
    (l_worker l = AtPoll ∨ (∃ d, l_worker l = Asleep d) ∨ l_worker l = InFlush WantLock) →
    cancel_step l (l <| l_worker := Gone |>)
| cancel_flight selected request l :
    l_worker l = InFlush (Flight selected request) →
    cancel_step l (release l <| l_worker := Gone |>).

(** [close], of which only the first goes on. *)
Inductive closer_step : Life → Life → Prop :=
| close_first l :
    l_closer l = NotClosed → (close_begin (l_state l)).1 = true →
    closer_step l (l <| l_state := (close_begin (l_state l)).2 |> <| l_closer := Starting |>)
| close_again l : (close_begin (l_state l)).1 = false → closer_step l l
| close_unable l : l_closer l = Starting → closer_step l (l <| l_closer := Finished |>)
| close_ready l : l_closer l = Starting → closer_step l (l <| l_closer := LastFlush WantLock |>)
| close_flushes l l' : flush_step TheCloser l l' → closer_step l l'.

(** A recorded call. *)
Inductive record_step : Life → Life → Prop :=
| record_call draw rate event counters now runtime s' l :
    store (in_retention_bytes inner) now runtime (sample draw event rate).1
      (sample draw event rate).2 counters (l_state l) = Some s' →
    record_step l (l <| l_state := s' |> <| l_worker := spawned (l_state l) s' (l_worker l) |>).

Inductive life_step : Life → Life → Prop :=
| life_record l l' : record_step l l' → life_step l l'
| life_work l l' : worker_step l l' → life_step l l'
| life_cancel l l' : cancel_step l l' → life_step l l'
| life_close l l' : closer_step l l' → life_step l l'.

(** A fresh reporter. *)
Definition born (l : Life) : Prop :=
  ∃ rate interval bytes s,
    String.length bytes = 8 ∧ new_state rate interval (hex_token bytes) = Some s
    ∧ l = mkLife s NotStarted NotClosed None None [] [].

Definition alive (l : Life) : Prop := ∃ l0, born l0 ∧ rtc life_step l0 l.

(** ** The program is an instance of the interleaving *)

Definition phase_of (pc : FlushPc) : Phase :=
  match pc with
  | WantLock => Idle
  | Entered now => Gated now
  | Flight selected request => InFlight selected request
  end.

(** Past the gate, with the lock. *)
Definition critical (pc : FlushPc) : bool := match pc with WantLock => false | _ => true end.
Definition worker_inside (pc : WorkerPc) : bool := match pc with InFlush f => critical f | _ => false end.
Definition closer_inside (pc : CloserPc) : bool := match pc with LastFlush f => critical f | _ => false end.

Definition holder (w : WorkerPc) (c : CloserPc) : option Who :=
  if worker_inside w then Some TheWorker else if closer_inside c then Some TheCloser else None.

(** The flush that is past its gate, if there is one. *)
Definition worker_phase (pc : WorkerPc) : Phase := match pc with InFlush f => phase_of f | _ => Idle end.
Definition closer_phase (pc : CloserPc) : Phase := match pc with LastFlush f => phase_of f | _ => Idle end.
Definition phase (w : WorkerPc) (c : CloserPc) : Phase :=
  if worker_inside w then worker_phase w else closer_phase c.

(** What [BeaconFacts] sees of a life. *)
Definition abs (l : Life) : Sys := (l_state l, phase (l_worker l) (l_closer l)).

(** The lock is held by whoever is past its gate, by one of them; the flags
    of the state say which threads exist. *)
Record life_inv (l : Life) : Prop := {
  li_lock : l_flush_lock l = holder (l_worker l) (l_closer l);
  li_excl : worker_inside (l_worker l) && closer_inside (l_closer l) = false;
  li_closed : closed (l_state l) = match l_closer l with NotClosed => false | _ => true end;
  li_started : worker_started (l_state l) = match l_worker l with NotStarted => false | _ => true end;
}.

Lemma born_inv l : born l → life_inv l.
Proof.
  intros (rate&interval&bytes&s&_&Hs&->). unfold new_state in Hs.
  destruct (normalise_flush_interval interval); [|done]. apply (inj Some) in Hs. by subst s.
Qed.

(** The two flags the threads read, and the instance's token, through every
    critical section. *)
Definition flags (s : State) : bool * bool * string := (closed s, worker_started s, instance_id s).

Lemma flush_select_flags timeout now ep bid s r s' :
  flush_select inner timeout now ep bid s = (r, s') → flags s' = flags s.
Proof.
  unfold flush_select. destruct (opt_filter _ (in_api_key inner)); [|by intros [= _ <-]].
  destruct (select_batch _ _ _ _ _ s) as [sel s1] eqn:Hsel. intros [= _ <-].
  pose proof (outside_eq flags _ _ (λ _, eq_refl) (outside_settled now (in_retention_bytes inner) s)) as Hf.
  destruct sel.
  - by apply select_batch_spec in Hsel as [-> _].
  - by apply select_batch_none in Hsel as [->| ->].
Qed.

Lemma flush_finish_flags now selected reply accepted s s' :
  flush_finish now selected reply s = Some (accepted, s') → flags s' = flags s.
Proof.
  unfold flush_finish. destruct reply as [|status headers body]; [by intros [= _ <-]|].
  intros (s1&Hh&[= _ <-])%bind_Some. revert Hh.
  unfold handle_response, accept_batch, refuse_batch, remove_selected.
  destruct (remove_rows _ _ _) as [ws changed]. destruct (resize_windows _ _ _) as [ws' retained].
  destruct (telemetry_off headers); [by intros [= <-]|].
  destruct (status =? 202)%N.
  { destruct (opt_filter _ _); [|by intros [= <-]]. by intros (_&_&_&->)%apply_policy_less. }
  case_bool_decide; [by intros [= <-]|]. by destruct (status =? 413)%N; intros [= <-].
Qed.

Lemma worker_poll_flags now s : flags (worker_poll now s).2 = flags s.
Proof. unfold worker_poll. by repeat case_match. Qed.

Lemma close_begin_flags s : flags (close_begin s).2 = (true, worker_started s, instance_id s).
Proof. unfold close_begin. destruct (closed s) eqn:E; unfold flags; cbn; by rewrite ?E. Qed.

Lemma store_flags rb now runtime sampled invalid counters s s' :
  store rb now runtime sampled invalid counters s = Some s' →
  closed s' = closed s ∧ instance_id s' = instance_id s
  ∧ (worker_started s = true → worker_started s' = true).
Proof.
  unfold store. destruct (disabled s || closed s); [by intros [= <-]|]. unfold merge_counters.
  pose proof (outside_eq flags _ _ (λ _, eq_refl) (outside_roll now rb s)) as [= Hc Hw Hi].
  destruct (merge_all _ _) as [rows|]; [|done]. cbn [mbind option_bind].
  set (s1 := roll_window now rb s <| current_counters := rows |>).
  set (s2 := if invalid then _ else s1).
  assert (flags s2 = flags s) as Hs2 by (unfold s2, s1, flags; destruct invalid; cbn; by rewrite Hc, Hw, Hi).
  set (s3 := match sampled with Some _ => _ | None => _ end).
  assert (flags s3 = flags s) as [= Hc3 Hw3 Hi3].
  { rewrite <-Hs2. unfold s3. destruct sampled; [|done]. unfold append_event.
    destruct (_ <=? _)%nat; [|done]. unfold drop_buffered_event. by destruct (_ !! _). }
  clearbody s3. rewrite <-Hc3, <-Hw3, <-Hi3.
  assert (closed (start_worker runtime now s3) = closed s3
    ∧ instance_id (start_worker runtime now s3) = instance_id s3
    ∧ (worker_started s3 = true → worker_started (start_worker runtime now s3) = true)) as Hstart.
  { unfold start_worker. by destruct (_ || _). }
  intros [= <-]. by destruct (urgent _).
Qed.

Ltac open_life l :=
  let s := fresh "s" in let w := fresh "w" in let c := fresh "c" in let k := fresh "lock" in
  let h := fresh "h" in let sent := fresh "sent" in let lines := fresh "lines" in
  destruct l as [s w c k h sent lines]; cbn [l_state l_worker l_closer l_flush_lock flush_pc] in *.

(** The invariant is on program counters and flags: case analysis decides it. *)
Ltac pc_cases :=
  unfold holder in *; cbn in *; repeat (case_match; simplify_eq/=);
  first [congruence | apply andb_false_r].

Lemma echo_frame line l :
  l_state (echo line l) = l_state l ∧ l_worker (echo line l) = l_worker l
  ∧ l_closer (echo line l) = l_closer l ∧ l_flush_lock (echo line l) = l_flush_lock l
  ∧ l_sent (echo line l) = l_sent l.
Proof. unfold echo. by destruct (in_debug inner). Qed.

Lemma life_inv_eq l l' :
  life_inv l → flags (l_state l') = flags (l_state l) → l_worker l' = l_worker l →
  l_closer l' = l_closer l → l_flush_lock l' = l_flush_lock l → life_inv l'.
Proof.
  intros [] [= Hc Hw _] H1 H2 H3. by split; rewrite ?H1, ?H2, ?H3, ?Hc, ?Hw.
Qed.

(** The flush steps, on the program counters. *)
Lemma flush_step_inv who l l' : flush_step who l l' → life_inv l → life_inv l'.
Proof.
  intros Hstep [Hl He Hc Hs].
  destruct Hstep as [now l Hpc Hfree _|now l Hpc Hfree _|ct now ep bytes sel req s' l Hpc _ Hsel
    |ct now ep bytes s' l Hpc _ Hsel|now reply acc sel req s' l Hpc Hfin].
  3,4: apply flush_select_flags in Hsel as [= Hc' Hs' Hi'].
  5: apply flush_finish_flags in Hfin as [= Hc' Hs' Hi'].
  all: unfold echo in *; destruct (in_debug inner), who; open_life l; repeat case_match; simplify_eq/=;
    split; pc_cases.
Qed.

Lemma record_step_inv l l' : record_step l l' → life_inv l → life_inv l'.
Proof.
  intros [draw rate event counters now runtime s' l0 Hst] [Hl He Hc Hs].
  apply store_flags in Hst as (Hc'&_&Hs'). unfold spawned.
  open_life l0. destruct (worker_started s) eqn:E1, (worker_started s') eqn:E2; cbn;
    try by specialize (Hs' eq_refl).
  all: split; pc_cases.
Qed.

Lemma poll_once_inv now now' built l : l_worker l = AtPoll → life_inv l → life_inv (poll_once now now' built l).
Proof.
  intros Hw [Hl He Hc Hs]. unfold poll_once. pose proof (worker_poll_flags now (l_state l)) as Hf.
  destruct (worker_poll now (l_state l)) as [step s'] eqn:Hp. injection Hf as Hc' Hs' Hi'.
  open_life l. subst. destruct step; [| |set (has := http built _); destruct has]; split; pc_cases.
Qed.

Lemma worker_step_inv l l' : worker_step l l' → life_inv l → life_inv l'.
Proof.
  intros [] Hinv.
  - by apply poll_once_inv.
  - destruct Hinv. open_life l0. split; pc_cases.
  - by eapply flush_step_inv.
  - destruct Hinv. open_life l0. split; pc_cases.
  - destruct Hinv. open_life l0. split; pc_cases.
Qed.

Lemma cancel_step_inv l l' : cancel_step l l' → life_inv l → life_inv l'.
Proof.
  intros [l0 [Hw|[[d Hw]|Hw]]|sel req l0 Hw] []; open_life l0; subst; split; pc_cases.
Qed.

Lemma closer_step_inv l l' : closer_step l l' → life_inv l → life_inv l'.
Proof.
  intros [l0 Hw Hb|l0 Hb|l0 Hw|l0 Hw|l0 l1 Hf] Hinv; [|done| | |by eapply flush_step_inv].
  - pose proof (close_begin_flags (l_state l0)) as [= Hc' Hs' Hi']. destruct Hinv. open_life l0. subst.
    split; pc_cases.
  - destruct Hinv. open_life l0. subst. split; pc_cases.
  - destruct Hinv. open_life l0. subst. split; pc_cases.
Qed.

Lemma life_step_inv l l' : life_step l l' → life_inv l → life_inv l'.
Proof.
  intros []; eauto using record_step_inv, worker_step_inv, cancel_step_inv, closer_step_inv.
Qed.

Lemma alive_inv l : alive l → life_inv l.
Proof. intros (l0&H0%born_inv&Hr). induction Hr; eauto using life_step_inv. Qed.

(** Whether the flush other than [who]'s is past its gate. *)
Definition other_inside (who : Who) (w : WorkerPc) (c : CloserPc) : bool :=
  match who with TheWorker => closer_inside c | TheCloser => worker_inside w end.

Lemma alone who pc l :
  life_inv l → flush_pc who l = Some pc → critical pc = true ∨ l_flush_lock l = None →
  other_inside who (l_worker l) (l_closer l) = false.
Proof.
  intros [Hl He _ _] Hpc Hor. open_life l. unfold holder in Hl.
  destruct who; [destruct w|destruct c]; simplify_eq/=.
  - destruct (critical pc); [done|]. destruct Hor as [|Hn]; [done|]. by destruct (closer_inside c).
  - destruct (worker_inside w); [|done]. cbn in He. destruct Hor; congruence.
Qed.

Lemma outside_idle w c :
  (worker_inside w = false → worker_phase w = Idle) ∧ (closer_inside c = false → closer_phase c = Idle).
Proof. by destruct w as [| | |[]| |], c as [| |[]|]. Qed.

(** The phase, when only [who]'s flush can be past its gate. *)
Lemma phase_alone who pc l :
  other_inside who (l_worker l) (l_closer l) = false → flush_pc who l = Some pc →
  phase (l_worker l) (l_closer l) = phase_of pc.
Proof.
  intros Ho Hpc. open_life l. unfold phase.
  destruct who; [destruct w|destruct c]; simplify_eq/=; [|by rewrite Ho].
  destruct pc; cbn; [by apply (outside_idle Gone)|done..].
Qed.

Lemma phase_ended who l :
  other_inside who (l_worker l) (l_closer l) = false →
  phase (l_worker (end_flush who l)) (l_closer (end_flush who l)) = Idle.
Proof.
  intros Ho. open_life l. unfold phase. destruct who; cbn in *; [by apply (outside_idle Gone)|by rewrite Ho].
Qed.

Lemma other_inside_set who pc l :
  other_inside who (l_worker (set_flush who pc l)) (l_closer (set_flush who pc l))
  = other_inside who (l_worker l) (l_closer l).
Proof. by destruct who. Qed.

Lemma state_set who pc l : l_state (set_flush who pc l) = l_state l.
Proof. by destruct who. Qed.
Lemma state_end who l : l_state (end_flush who l) = l_state l.
Proof. by destruct who. Qed.
Lemma flush_pc_set who pc l : flush_pc who (set_flush who pc l) = Some pc.
Proof. by destruct who. Qed.

(** A step of the interleaving, by whoever. *)
Definition any_step (a b : Sys) : Prop := ∃ act, step inner act a b.


Lemma abs_set who pc l :
  other_inside who (l_worker l) (l_closer l) = false →
  abs (set_flush who pc l) = (l_state l, phase_of pc).
Proof.
  intros Ho. unfold abs. rewrite state_set. f_equal. apply (phase_alone who); [|apply flush_pc_set].
  by rewrite other_inside_set.
Qed.

Lemma abs_end who l :
  other_inside who (l_worker l) (l_closer l) = false → abs (end_flush who l) = (l_state l, Idle).
Proof. intros Ho. unfold abs. by rewrite state_end, phase_ended. Qed.

Lemma abs_at who pc l :
  other_inside who (l_worker l) (l_closer l) = false → flush_pc who l = Some pc →
  abs l = (l_state l, phase_of pc).
Proof. intros Ho Hpc. unfold abs. by rewrite (phase_alone who pc). Qed.

Lemma flush_step_sim who l l' :
  flush_step who l l' → life_inv l → abs l' = abs l ∨ any_step (abs l) (abs l').
Proof.
  intros Hstep Hinv.
  destruct Hstep as [now l Hpc Hfree Hg|now l Hpc Hfree _|ct now ep bytes sel req s' l Hpc _ Hsel
    |ct now ep bytes s' l Hpc _ Hsel|now reply acc sel req s' l Hpc Hfin];
    pose proof (alone _ _ _ Hinv Hpc ltac:(auto)) as Ho; rewrite (abs_at _ _ _ Ho Hpc).
  - right. rewrite abs_set by done. exists Flushing. by apply step_gate.
  - left. by rewrite abs_end.
  - right. rewrite abs_set by (by unfold echo; destruct (in_debug inner)). exists Flushing. by eapply step_select.
  - right. rewrite abs_end by done. exists Flushing. by eapply step_nothing.
  - right. rewrite abs_end by (by unfold echo; destruct (in_debug inner)). exists Flushing. by eapply step_reply.
Qed.

(** Leaving out the worker's own steps, its program counter is outside. *)
Lemma abs_worker l w s :
  worker_inside (l_worker l) = false → worker_inside w = false →
  abs (l <| l_state := s |> <| l_worker := w |>) = (s, (abs l).2).
Proof. intros H1 H2. unfold abs, phase. cbn. by rewrite H1, H2. Qed.

Lemma life_step_sim l l' : life_step l l' → life_inv l → rtc any_step (abs l) (abs l').
Proof.
  assert (∀ a b, b = a ∨ any_step a b → rtc any_step a b) as Hone
    by (intros a b [->|Hs]; [done|by apply rtc_once]).
  intros [l0 l1 Hst|l0 l1 Hst|l0 l1 Hst|l0 l1 Hst] Hinv.
  - destruct Hst as [draw rate event counters now runtime s' l0 Hst]. apply rtc_once. exists Recording.
    pose proof (store_flags _ _ _ _ _ _ _ _ Hst) as (_&_&Hs'). destruct Hinv as [_ _ _ Hs].
    assert (phase (spawned (l_state l0) s' (l_worker l0)) (l_closer l0) = phase (l_worker l0) (l_closer l0))
      as Hph.
    { unfold spawned. destruct (worker_started (l_state l0)); [done|]. cbn. destruct (worker_started s'); [|done].
      by destruct (l_worker l0). }
    unfold abs at 2. cbn. rewrite Hph. unfold abs. by eapply step_record.
  - destruct Hst as [now now' built l0 Hw|d l0 Hw|l0 l1 Hf|now l0 Hw|l0 Hw Hc].
    + unfold poll_once. pose proof (step_poll inner now (l_state l0) (abs l0).2) as Hp.
      destruct (worker_poll now (l_state l0)) as [step s'] eqn:Hpoll. cbn in Hp.
      assert (rtc any_step (abs l0) (s', (abs l0).2)) as Hr by (apply rtc_once; by eexists).
      destruct step; [| |set (has := http built l0); destruct has];
        try (etrans; [exact Hr|]; apply Hone; left; unfold abs, phase; cbn; by rewrite Hw).
      etrans; [exact Hr|]. apply rtc_once. exists Flushing.
      pose proof (step_no_client inner now' s' (abs l0).2) as Hn. unfold abs, phase in *. cbn.
      by rewrite Hw in *.
    + apply Hone. left. unfold abs, phase. cbn. by rewrite Hw.
    + apply Hone. by apply (flush_step_sim TheWorker).
    + apply rtc_once. exists Settling. unfold abs, phase. cbn. rewrite Hw. apply step_settle.
    + apply Hone. left. unfold abs, phase. cbn. by rewrite Hw.
  - destruct Hst as [l0 [Hw|[[d Hw]|Hw]]|sel req l0 Hw]; apply Hone;
      [left; unfold abs, phase; cbn; by rewrite Hw..|]. right. exists Flushing.
    destruct Hinv as [_ He _ _]. unfold abs, phase. cbn. rewrite Hw in *. cbn in *.
    replace (closer_phase (l_closer l0)) with (Idle : Phase) by (symmetry; by apply (outside_idle Gone)).
    apply step_cancel.
  - destruct Hst as [l0 Hw Hb|l0 Hb|l0 Hw|l0 Hw|l0 l1 Hf]; [|done|..|apply Hone; by apply (flush_step_sim TheCloser)].
    + apply rtc_once. exists Closing. unfold abs, phase. cbn. rewrite Hw. apply step_close.
    + apply Hone. left. unfold abs, phase. cbn. by rewrite Hw.
    + apply Hone. left. unfold abs, phase. cbn. by rewrite Hw.
Qed.

Lemma alive_reachable l : alive l → reachable inner (abs l).
Proof.
  intros (l0&Hb&Hr). pose proof (born_inv _ Hb) as Hinv.
  assert (reachable inner (abs l0)) as H0.
  { destruct Hb as (rate&interval&bytes&s&_&Hs&->). exists (s, Idle). split; [|done].
    by exists rate, interval, (hex_token bytes), s. }
  clear Hb. induction Hr as [|l l1 l2 Hst _ IH]; [done|]. apply IH; [by eapply life_step_inv|].
  destruct H0 as (sys0&Hi&Hr0). exists sys0. split; [done|]. etrans; [exact Hr0|].
  by apply life_step_sim.
Qed.

(** ** What is printed *)

Lemma echo_silent line l : in_debug inner = false → l_echo (echo line l) = l_echo l.
Proof. unfold echo. by intros ->. Qed.

Lemma life_step_silent l l' : in_debug inner = false → life_step l l' → l_echo l' = l_echo l.
Proof.
  assert (∀ who l l', in_debug inner = false → flush_step who l l' → l_echo l' = l_echo l) as Hflush.
  { intros who a b Hd []; destruct who; cbn; by rewrite ?echo_silent. }
  intros Hd [? ? []|? ? Hst|? ? []|? ? Hst]; try done.
  - destruct Hst; try done; [|by eapply Hflush]. unfold poll_once.
    destruct (worker_poll _ _) as [[] ?]; done.
  - destruct Hst; try done. by eapply Hflush.
Qed.

(** C7. The reporter's threads, the calls that record, the worker, the thread
    of the first [close], and a runtime that drops the worker at an await,
    only ever take the steps of the interleaving, so its bounds and its
    closed schema hold of them; at most one flush is past its gate, and it is
    the one that holds the flush lock; a worker runs once a call has started
    it; and nothing is printed unless debugging. *)
Theorem lifecycle_refines l :
  alive l →
  reachable inner (abs l)
  ∧ (∀ l', life_step l l' → rtc (λ a b, ∃ act, step inner act a b) (abs l) (abs l'))
  ∧ (∀ who pc, flush_pc who l = Some pc → critical pc = true → l_flush_lock l = Some who)
  ∧ worker_inside (l_worker l) && closer_inside (l_closer l) = false
  ∧ (worker_started (l_state l) = true ↔ l_worker l ≠ NotStarted)
  ∧ (in_debug inner = false → l_echo l = []).
Proof.
  intros Ha. pose proof (alive_inv _ Ha) as Hinv. split_and!.
  - by apply alive_reachable.
  - intros l' Hst. by apply life_step_sim.
  - intros who pc Hpc Hcr. pose proof (alone _ _ _ Hinv Hpc (or_introl Hcr)) as Ho.
    destruct Hinv as [Hl _ _ _]. open_life l. unfold holder in *.
    destruct who; [destruct w|destruct c]; simplify_eq/=; by rewrite ?Ho, Hcr.
  - apply Hinv.
  - rewrite (li_started _ Hinv). by destruct (l_worker l).
  - intros Hd. destruct Ha as (l0&(?&?&?&?&_&_&->)&Hr).
    remember (mkLife _ _ _ _ _ _ _) as l0 eqn:E. assert (l_echo l0 = []) as H0 by (by subst).
    clear E Hinv. induction Hr as [|l l1 l2 Hst _ IH]; [done|]. apply IH.
    by rewrite (life_step_silent _ _ Hd Hst).
Qed.

(** ** History *)

(** What a step adds to the requests sent. *)
Lemma flush_step_sent who l l' :
  flush_step who l l' →
  instance_id (l_state l') = instance_id (l_state l)
  ∧ (l_sent l' = l_sent l
     ∨ ∃ ct now ep bytes selected request s', String.length bytes = 16
         ∧ flush_select inner (flush_timeout who ct) now ep (hex_token bytes) (l_state l)
           = (Some (selected, request), s')
         ∧ l_sent l' = l_sent l ++ [(who, request)]).
Proof.
  intros [now l0 _ _ _|now l0 _ _ _|ct now ep bytes sel req s' l0 _ Hb Hsel
    |ct now ep bytes s' l0 _ Hb Hsel|now reply acc sel req s' l0 _ Hfin].
  - by destruct who; auto.
  - by destruct who; auto.
  - pose proof (flush_select_flags _ _ _ _ _ _ _ Hsel) as [= _ _ Hi].
    split; [by destruct who|]. right. exists ct, now, ep, bytes, sel, req, s'.
    by destruct who.
  - pose proof (flush_select_flags _ _ _ _ _ _ _ Hsel) as [= _ _ Hi]. destruct who; auto.
  - pose proof (flush_finish_flags _ _ _ _ _ _ Hfin) as [= _ _ Hi].
    unfold echo. destruct (in_debug inner), who; auto.
Qed.

Lemma life_step_sent l l' :
  life_step l l' →
  instance_id (l_state l') = instance_id (l_state l)
  ∧ (l_sent l' = l_sent l
     ∨ ∃ who ct now ep bytes selected request s', String.length bytes = 16
         ∧ flush_select inner (flush_timeout who ct) now ep (hex_token bytes) (l_state l)
           = (Some (selected, request), s')
         ∧ l_sent l' = l_sent l ++ [(who, request)]).
Proof.
  assert (∀ who l l', flush_step who l l' →
    instance_id (l_state l') = instance_id (l_state l)
    ∧ (l_sent l' = l_sent l
       ∨ ∃ who ct now ep bytes selected request s', String.length bytes = 16
           ∧ flush_select inner (flush_timeout who ct) now ep (hex_token bytes) (l_state l)
             = (Some (selected, request), s')
           ∧ l_sent l' = l_sent l ++ [(who, request)])) as Hflush.
  { intros who a b [Hi [Hs|Hs]]%flush_step_sent; eauto. }
  intros [? ? [? ? ? ? ? ? ? ? Hst]|? ? Hw|? ? []|? ? Hcl]; auto.
  - by apply store_flags in Hst as (_&Hi&_); auto.
  - destruct Hw as [now now' built l0 _| |? ? Hf| |]; auto; [|by apply (Hflush TheWorker)].
    pose proof (worker_poll_flags now (l_state l0)) as Hf. unfold poll_once.
    destruct (worker_poll _ _) as [step s']. injection Hf as _ _ Hi.
    destruct step; cbn; [auto|auto|]. destruct (http built l0); auto.
  - destruct Hcl as [l0 _ _| | | |? ? Hf]; auto; [|by apply (Hflush TheCloser)].
    pose proof (close_begin_flags (l_state l0)) as [= _ _ Hi]. auto.
Qed.

(** ** Closing *)

Definition worker_rank (pc : WorkerPc) : nat :=
  match pc with
  | NotStarted | Gone => 0
  | AtPoll => 1
  | Asleep _ => 2
  | AtSettle => 3
  | InFlush (Flight _ _) => 4
  | InFlush (Entered _) => 5
  | InFlush WantLock => 6
  end.

Definition closer_rank (pc : CloserPc) : nat :=
  match pc with
  | NotClosed => 5
  | Starting => 4
  | LastFlush WantLock => 3
  | LastFlush (Entered _) => 2
  | LastFlush (Flight _ _) => 1
  | Finished => 0
  end.

(** The steps a closed reporter has left. *)
Definition rank (l : Life) : nat := worker_rank (l_worker l) + closer_rank (l_closer l).

(** The requests [who] has sent. *)
Definition sent_by (who : Who) (l : Life) : nat :=
  length (List.filter (λ wr, bool_decide (wr.1 = who)) (l_sent l)).

(** The requests a closed reporter may still send. *)
Definition pending (who : Who) (l : Life) : nat :=
  match who, l_worker l, l_closer l with
  | TheWorker, InFlush WantLock, _ | TheWorker, InFlush (Entered _), _ => 1
  | TheCloser, _, (NotClosed | Starting | LastFlush WantLock | LastFlush (Entered _)) => 1
  | _, _, _ => 0
  end.

Lemma sent_by_snoc who w request (l : Life) :
  length (List.filter (λ wr, bool_decide (wr.1 = who)) (l_sent l ++ [(w, request)]))
  = sent_by who l + (if bool_decide (w = who) then 1 else 0).
Proof.
  unfold sent_by. rewrite List.filter_app, length_app. cbn. by case_bool_decide.
Qed.

Lemma sent_echo who line l : sent_by who (echo line l) = sent_by who l.
Proof. unfold sent_by, echo. by destruct (in_debug inner). Qed.

(** A flush goes forward and sends at most once. *)
Lemma flush_step_forward who l l' :
  flush_step who l l' →
  rank l' < rank l ∧ ∀ w, sent_by w l' + pending w l' ≤ sent_by w l + pending w l.
Proof.
  intros [now l0 Hpc _ _|now l0 Hpc _ _|ct now ep bytes sel req s' l0 Hpc _ _
    |ct now ep bytes s' l0 Hpc _ _|now reply acc sel req s' l0 Hpc _];
    (split; [|intros w]).
  all: unfold flush_pc in Hpc; destruct who; [destruct (l_worker l0) eqn:Ew|destruct (l_closer l0) eqn:Ec];
    simplify_eq; unfold rank, pending; unfold echo in *; try destruct (in_debug inner); cbn;
    rewrite ?Ew, ?Ec; cbn; try lia.
  all: unfold sent_by in *; cbn; rewrite ?List.filter_app, ?length_app; cbn;
    destruct w; cbn; repeat case_match; simplify_eq; cbn in *; try lia.
Qed.

Lemma record_closed l l' : closed (l_state l) = true → record_step l l' → l' = l.
Proof.
  intros Hc Hr. destruct Hr as [draw rate event counters now runtime s' l0 Hst]. unfold store in Hst.
  rewrite Hc, orb_true_r in Hst. apply (inj Some) in Hst as <-. unfold spawned.
  destruct l0 as [s w c k h sent lines]. cbn. by destruct (worker_started s).
Qed.

Lemma poll_closed now now' built l :
  closed (l_state l) = true → l_worker l = AtPoll → poll_once now now' built l = l <| l_worker := Gone |>.
Proof. intros Hc Hw. unfold poll_once, worker_poll. rewrite Hc. by destruct l. Qed.

(** A closed reporter stands still or goes forward. *)
Lemma closed_forward l l' :
  life_inv l → closed (l_state l) = true → life_step l l' →
  l' = l ∨ rank l' < rank l ∧ ∀ w, sent_by w l' + pending w l' ≤ sent_by w l + pending w l.
Proof.
  intros Hinv Hc Hlife. destruct Hlife as [l0 l1 Hst|l0 l1 Hst|l0 l1 Hst|l0 l1 Hst].
  - left. by apply record_closed.
  - right. destruct Hst as [now now' built l0 Hw|d l0 Hw|l0 l1 Hf|now l0 Hw|l0 Hw _];
      [rewrite poll_closed by done| |by apply (flush_step_forward TheWorker)|..];
      unfold rank, pending, sent_by; cbn; rewrite Hw; (split; [cbn; lia|by intros []]).
  - right. destruct Hst as [l0 [Hw|[[d Hw]|Hw]]|sel req l0 Hw];
      unfold rank, pending, sent_by; cbn; rewrite Hw; (split; [cbn; lia|intros []; cbn; lia]).
  - destruct Hst as [l0 Hw Hb|l0 Hb|l0 Hw|l0 Hw|l0 l1 Hf]; [|by left|right..].
    + exfalso. rewrite (li_closed _ Hinv), Hw in Hc. done.
    + unfold rank, pending, sent_by. cbn. rewrite Hw. split; [cbn; lia|intros []; cbn; lia].
    + unfold rank, pending, sent_by. cbn. rewrite Hw. split; [cbn; lia|intros []; cbn; lia].
    + by apply (flush_step_forward TheCloser).
Qed.

(** A flush is never stuck but for the lock. *)
Lemma flush_progress who pc l :
  flush_pc who l = Some pc → critical pc = true ∨ l_flush_lock l = None → ∃ l', flush_step who l l'.
Proof.
  intros Hpc Hor. destruct pc as [|now|sel req].
  - destruct Hor as [|Hfree]; [done|]. destruct (flush_gate 0%N (l_state l)) eqn:E.
    + eexists. by eapply flush_enter.
    + eexists. by eapply flush_shut.
  - set (bytes := hex "12345678").
    destruct (flush_select inner (flush_timeout who 0%N) now None (hex_token bytes) (l_state l))
      as [[[sel req]|] s'] eqn:E.
    + eexists. eapply flush_send; [exact Hpc|exact (length_hex "12345678")|exact E].
    + eexists. eapply flush_nothing; [exact Hpc|exact (length_hex "12345678")|exact E].
  - eexists. by eapply (flush_reply who 0%N SendFailed).
Qed.

(** Whoever holds the lock can go on. *)
Lemma holder_progress who l : life_inv l → l_flush_lock l = Some who → ∃ l', flush_step who l l'.
Proof.
  intros [Hl _ _ _] Hk. rewrite Hl in Hk. unfold holder in Hk.
  destruct (worker_inside (l_worker l)) eqn:Ew; [|destruct (closer_inside (l_closer l)) eqn:Ec]; simplify_eq.
  - destruct (l_worker l) as [| | |pc| |] eqn:E; try done. apply (flush_progress _ pc); [|by left].
    cbn. by rewrite E.
  - destruct (l_closer l) as [| |pc|] eqn:E; try done. apply (flush_progress _ pc); [|by left].
    cbn. by rewrite E.
Qed.

Lemma flush_life who l l' : flush_step who l l' → life_step l l'.
Proof. destruct who; intros; [apply life_work; by constructor|apply life_close; by constructor]. Qed.

Lemma closed_progress l :
  life_inv l → closed (l_state l) = true → rank l ≠ 0 → ∃ l', life_step l l' ∧ rank l' < rank l.
Proof.
  intros Hinv Hc Hr.
  assert (∀ who l', flush_step who l l' → ∃ l', life_step l l' ∧ rank l' < rank l) as Hflush.
  { intros who l' Hf. exists l'. split; [by eapply flush_life|by apply (flush_step_forward who)]. }
  assert (∀ who pc, flush_pc who l = Some pc → ∃ l', life_step l l' ∧ rank l' < rank l) as Hany.
  { intros who pc Hpc. destruct (l_flush_lock l) as [w|] eqn:Hk.
    - destruct (holder_progress w l Hinv Hk) as [l' Hf]. by eapply Hflush.
    - destruct (flush_progress who pc l Hpc (or_intror Hk)) as [l' Hf]. by eapply Hflush. }
  destruct (l_worker l) as [| |d|pc| |] eqn:Ew.
  2: { exists (l <| l_worker := Gone |>). split; [apply life_work; by apply worker_orphaned|].
       unfold rank. cbn. rewrite Ew. cbn. lia. }
  2: { exists (l <| l_worker := AtPoll |>). split; [apply life_work; by eapply worker_wakes|].
       unfold rank. cbn. rewrite Ew. cbn. lia. }
  2: { apply (Hany TheWorker pc). cbn. by rewrite Ew. }
  2: { eexists. split; [apply life_work; by apply (worker_settles 0%N)|].
       unfold rank. cbn. rewrite Ew. cbn. lia. }
  all: destruct (l_closer l) as [| |pc|] eqn:Ec;
    [by rewrite (li_closed _ Hinv), Ec in Hc| | |by unfold rank in Hr; rewrite Ew, Ec in Hr].
  all: first [apply (Hany TheCloser pc); cbn; by rewrite Ec
    | exists (l <| l_closer := Finished |>); split; [apply life_close; by apply close_unable|];
      unfold rank; cbn; rewrite Ec; cbn; lia].
Qed.

Lemma closed_stays l l' : closed (l_state l) = true → life_inv l → life_step l l' → closed (l_state l') = true.
Proof.
  intros Hc Hinv Hst. pose proof (life_step_inv _ _ Hst Hinv) as Hinv'.
  rewrite (li_closed _ Hinv) in Hc. rewrite (li_closed _ Hinv').
  destruct (l_closer l') eqn:E'; [|done..]. exfalso.
  destruct Hst as [? ? []|? ? Hw|? ? []|? ? Hcl]; cbn in E'; try (by rewrite E' in Hc).
  - destruct Hw as [| |? ? Hf| |]; cbn in E'; try (by rewrite E' in Hc).
    + unfold poll_once in E'. destruct (worker_poll _ _) as [[] ?]; cbn in E'; by rewrite E' in Hc.
    + destruct Hf; unfold echo in E'; destruct (in_debug inner); cbn in E'; by rewrite E' in Hc.
  - destruct Hcl as [| | | |? ? Hf]; cbn in E'; try (by rewrite E' in Hc); try done.
    destruct Hf; cbn in E'; done.
Qed.

(** The closing thread sends once in its life. *)
Lemma closer_once l : alive l → sent_by TheCloser l + pending TheCloser l ≤ 1.
Proof.
  intros (l0&(?&?&?&?&_&_&->)&Hr).
  assert (∀ a b, life_step a b →
    sent_by TheCloser b + pending TheCloser b ≤ sent_by TheCloser a + pending TheCloser a) as Hstep.
  { intros a b [? ? []|? ? Hw|? ? []|? ? Hcl]; try (unfold pending, sent_by; cbn; lia).
    - destruct Hw as [| |? ? Hf| |]; try (unfold pending, sent_by; cbn; lia).
      + unfold poll_once. destruct (worker_poll _ _) as [[] ?]; unfold pending, sent_by; cbn; lia.
      + by apply flush_step_forward in Hf as [_ Hf].
    - destruct Hcl as [? Hn|? _|? Hn|? Hn|? ? Hf]; try (unfold pending, sent_by; cbn; rewrite ?Hn; lia).
      by apply flush_step_forward in Hf as [_ Hf]. }
  remember (mkLife _ _ _ _ _ _ _) as l0 eqn:E.
  assert (sent_by TheCloser l0 + pending TheCloser l0 ≤ 1) as H0 by (subst; cbn; lia). clear E.
  induction Hr as [|a b c Hst _ IH]; [done|]. apply IH. apply Hstep in Hst. lia.
Qed.

(** C30. Closing ends the reporter.  After the first [close], whatever calls
    are still being recorded, every step leaves it as it is or brings it
    closer to its end; until the worker is gone and the last flush is over
    some thread can go on, so both are reached; the closing thread sends at
    most one request in its whole life, and the worker at most one more. *)
Theorem close_ends l :
  alive l → closed (l_state l) = true →
  (∀ l', life_step l l' → l' = l ∨ rank l' < rank l)
  ∧ (rank l ≠ 0 → ∃ l', life_step l l' ∧ rank l' < rank l)
  ∧ (rank l = 0 ↔ (l_worker l = Gone ∨ l_worker l = NotStarted) ∧ l_closer l = Finished)
  ∧ ∀ l', rtc life_step l l' →
      sent_by TheWorker l' ≤ sent_by TheWorker l + 1
      ∧ sent_by TheCloser l' ≤ 1.
Proof.
  intros Ha Hc. pose proof (alive_inv _ Ha) as Hinv. split_and!.
  - intros l' Hst. destruct (closed_forward _ _ Hinv Hc Hst) as [|[? _]]; auto.
  - by apply closed_progress.
  - unfold rank. destruct (l_worker l) as [| | |[]| |], (l_closer l) as [| |[]|]; cbn; naive_solver lia.
  - intros l' Hr.
    assert (∀ w, sent_by w l' + pending w l' ≤ sent_by w l + pending w l) as Hle.
    { clear Ha. induction Hr as [|a b d Hst _ IH]; [done|]. intros w.
      pose proof (IH (closed_stays _ _ Hc Hinv Hst) (life_step_inv _ _ Hst Hinv) w) as Hd.
      destruct (closed_forward _ _ Hinv Hc Hst) as [->|[_ Hb]]; [done|]. specialize (Hb w). lia. }
    assert (pending TheWorker l ≤ 1) as Hp
      by (unfold pending; destruct (l_worker l) as [| | |[]| |]; lia).
    pose proof (closer_once l Ha). pose proof (Hle TheWorker). pose proof (Hle TheCloser). lia.
Qed.
End lifecycle.
