(* ===== verification/ReporterTests.v ===== *)
(** * The crate's own tests of the beacon reporter, run on the model

    The unit tests of [telemetry/reporter.rs], one definition per test under
    the test's name, each evaluated to [true].  The manual clock is the [now]
    of each operation, a mock server is the reply to the n-th request, and
    the documents are printed by [ConcreteJson]. *)
From S2P Require Import Prelude Text Bytes F64 Json StrictJson Http Error Policy Config Routing Vocab.
From S2P Require Import Identity Recorder Headers Engine Transport Sse Wire Reporter WireJson.
From S2P Require Import SseFacts ClientApi Lifecycle.

Module ReporterTests.
Import ConcreteJson.
#[local] Instance dates : HttpDateLib := λ _, None.
#[local] Instance build : BuildEnv :=
  {| CARGO_PKG_VERSION := "0.6.0"; TRUSTED_ROUTER_RUSTC_RELEASE := Some "1.80.0";
     target_os := "linux"; target_arch := "x86_64" |}.

(** ** Fixtures *)

Definition rate (n d : Z) : f64 := f64_div (f64_of_Z n) (f64_of_Z d).
Definition same (a b : f64) : bool := f64_leb a b && f64_leb b a.

(** The bodies of the mock servers, and a reader that knows them. *)
Definition no_policy : Value := VObject [("policy", VObject [])].
Definition reduced_policy : Value := VObject [("policy", VObject
  [("success_sample_rate", VNumber (Float (rate 5 1000))); ("flush_seconds", VNumber (PosInt 60));
   ("pause_seconds", VNumber (PosInt 120))])].
#[local] Instance json_io : JsonIo :=
  {| print := text_of;
     parse s := find_map (λ v, if bool_decide (text_of v = s) then Some v else None)
                  [no_policy; reduced_policy] |}.

Definition seconds (n : N) : Duration := from_secs n.
Definition config : ReporterConfig :=
  config_new (Concrete.mkUrl "http" "127.0.0.1" "/v1/") None sdk_identity
    <| rc_flush_interval := seconds 600 |>.
Definition network_config : ReporterConfig :=
  config <| rc_api_key := Some "sk-tr-test" |> <| rc_workspace_id := Some "ws_test" |>.

(** A reporter: what it reads, its state and what it has sent.  [None] is a
    panic. *)
Record Run := mkRun { inner : Inner; state : State; posts : list BeaconRequest }.
#[local] Instance Run_settable : Settable Run := λ r, mkRun (inner r) (state r) (posts r).
Definition start (c : ReporterConfig) : option Run :=
  let '(i, s) := reporter_new c (hex_token "01234567") in
  s ← s; Some (mkRun i s []).

(** [on_request] without a runtime. *)
Definition record (now : Duration) (draw : f64) (e : RequestEvent) (counters : Rows) (r : Run)
    : option Run :=
  s ← on_request (in_retention_bytes (inner r)) now draw false e counters (state r);
  Some (r <| state := s |>).
Definition record_all (now : Duration) (draw : f64) (es : list RequestEvent) (r : Run) : option Run :=
  foldl (λ r e, r ≫= record now draw e []) (Some r) es.

(** [flush_once] against a server that answers its n-th request. *)
Definition Server : Type := nat → Reply.
Definition flush_once (now : Duration) (server : Server) (r : Run) : option (bool * Run) :=
  if flush_gate now (state r)
  then
    match flush_select (inner r) None now (Some (seconds 1700000000)) (hex_token "0123456789abcdef")
            (state r) with
    | (None, s) => Some (false, r <| state := s |>)
    | (Some (selected, request), s) =>
        '(accepted, s) ← flush_finish now selected (server (length (posts r))) s;
        Some (accepted, r <| state := s |> <| posts := posts r ++ [request] |>)
    end
  else Some (false, r).
Definition answer (status : N) (headers : list (string * string)) (body : Value) : Reply :=
  Replied status (foldl (λ m kv, hm_insert m kv.1 kv.2) hm_new headers) (Some (text_of body)).
Definition always (reply : Reply) : Server := λ _, reply.

(** Runs a test body that may panic. *)
Definition test (body : option bool) : bool := default false body.

Definition attempt (outcome : AttemptOutcome.t) : AttemptRecord :=
  {| ar_index := 0; ar_host := Host.Apex; ar_outcome := outcome;
     ar_http_status := Some (if bool_decide (outcome = AttemptOutcome.Ok) then 200 else 503)%N;
     ar_error_class := None; ar_error_source := None; ar_should_retry := ShouldRetry.Absent;
     ar_retry_after_ms := None; ar_elapsed_ms := 25; ar_ttfb_ms := Some 20%N;
     ar_request_id := Some "rlog_0123456789abcdef0123456789abcdef"; ar_moved := false;
     ar_phase := TimeoutPhase.NoPhase |}.

Definition event_of (attempts : list AttemptRecord) (outcome : AttemptOutcome.t) (model : string)
    : RequestEvent :=
  {| ev_endpoint := Endpoint.Responses; ev_method := POST; ev_streaming := false;
     ev_provider_pinned := false; ev_model := Some model; ev_attempts := attempts;
     ev_final_outcome := FinalOutcome.Outcome outcome;
     ev_final_http_status := ar_http_status (attempt outcome); ev_total_ms := 25; ev_ttft_ms := None;
     ev_failover_used := false; ev_timeout_phase := TimeoutPhase.NoPhase;
     ev_configured_timeout_ms := None |}.
Definition event (outcome : AttemptOutcome.t) (model : string) : RequestEvent :=
  event_of [attempt outcome] outcome model.
Definition failure : RequestEvent := event AttemptOutcome.HttpError "failure".

Definition key : CounterKey :=
  mkCounterKey Level.Request Endpoint.Responses false Host.Apex AttemptOutcome.Ok None
    HttpStatusClass.Success TimeoutPhase.NoPhase false false.
Definition row : CounterRow :=
  mkCounterRow 1 1 0 1 {[LatencyBucket.Lt100 := 1%N]} {[LatencyBucket.Lt100 := 1%N]}.

(** ** Tests *)

Definition sampling_and_event_eviction_match_python : bool :=
  test
    (zero ← start (config <| rc_success_sample_rate := f64_zero |>);
     zero ← record_all (seconds 1) (rate 1 2)
              [failure; event AttemptOutcome.Ok "unsampled"] zero;
     all ← start (config <| rc_success_sample_rate := f64_one |>);
     all ← record_all (seconds 1) f64_zero
             (event AttemptOutcome.HttpError "old-failure"
              :: map (λ i, event AttemptOutcome.Ok ("success-" +:+ show_N (N.of_nat i))) (List.seq 0 999)
              ++ [event AttemptOutcome.HttpError "new-failure"]) all;
     let labels := map (λ b, we_model (be_wire b)) (events (state all)) in
     Some (match map be_wire (events (state zero)) with
           | [w] => bool_decide (we_sample_reason w = "failure") && same (we_sample_rate w) f64_one
           | _ => false
           end
           && (length labels =? TELEMETRY_MAX_EVENTS)%nat
           && bool_decide (labels !! 0 = Some (Some "old-failure"))
           && bool_decide (Some "success-0" ∉ labels)
           && (dropped_since_last (state all) =? 1)%N)).

Definition closed_counter_windows_expire_after_24_hours_oldest_first : bool :=
  test
    (r ← start config;
     r ← record 0%N f64_one (event AttemptOutcome.Ok "ignored") [(key, row)] r;
     r ← record (seconds 60) f64_one (event AttemptOutcome.Ok "ignored") [] r;
     let pruned := prune_windows (seconds 86461) (in_retention_bytes (inner r)) (state r) in
     Some (bool_decide (map (λ w, (cw_window_start w, length (cw_rows w))) (closed_windows (state r))
                        = [(0%N, 1)])
           && (0 <? retained_window_bytes (state r))%N
           && (length (closed_windows pruned) =? 0)%nat && (retained_window_bytes pruned =? 0)%N
           && (dropped_since_last pruned =? 1)%N)).

Definition failed_flush_retains_24h_counters_and_retry_after_gates_the_next_post : bool :=
  let server : Server := λ call, if (call =? 0)%nat then answer 429 [("retry-after", "120")] VNull
                                 else answer 202 [] no_policy in
  test
    (r ← start network_config;
     r ← record 0%N f64_zero failure [(key, row)] r;
     '(first, r1) ← flush_once 0%N server r;
     '(early, r2) ← flush_once (seconds 119) server r1;
     '(last, r3) ← flush_once (seconds 120) server r2;
     second ← posts r3 !! 1;
     Some (negb first && (length (closed_windows (state r1)) =? 1)%nat && negb early
           && (length (posts r2) =? 1)%nat && last && (length (posts r3) =? 2)%nat
           && contains (quoted "window_start_age_ms" +:+ ":120000,") (br_body second)
           && (length (closed_windows (state r3)) =? 0)%nat)).

Definition endpoints : list Endpoint.t :=
  [Endpoint.ChatCompletions; Endpoint.Messages; Endpoint.Responses; Endpoint.Embeddings;
   Endpoint.Images; Endpoint.Videos; Endpoint.Models; Endpoint.Fusion; Endpoint.ControlOther;
   Endpoint.InferenceOther].
Definition hosts : list Host.t :=
  [Host.Apex; Host.Ally; Host.Uptime; Host.UsCentral1; Host.UsEast4; Host.EuropeWest4; Host.Control;
   Host.Custom].
Definition outcomes : list AttemptOutcome.t :=
  [AttemptOutcome.Ok; AttemptOutcome.HttpError; AttemptOutcome.TransportError; AttemptOutcome.Timeout;
   AttemptOutcome.StreamBroken; AttemptOutcome.Aborted].
Definition nth_key (index : nat) : CounterKey :=
  key <| ck_endpoint := nth (index mod 10) endpoints Endpoint.Responses |>
      <| ck_host := nth (index / 10 mod 8) hosts Host.Apex |>
      <| ck_outcome := nth (index / 80 mod 6) outcomes AttemptOutcome.Ok |>
      <| ck_error_class := Some ErrorClass.Dns |>.
Definition full_window : Rows := map (λ i, (nth_key i, row)) (List.seq 0 TELEMETRY_MAX_WINDOW_KEYS).
Definition merged (increments : list Rows) : option State :=
  r ← start config; foldl (λ s rows, s ≫= merge_counters rows) (Some (state r)) increments.

Definition counter_cap_uses_the_complete_python_fold_ladder_without_drops : bool :=
  let mixed := λ index, nth_key index <| ck_level := Level.Attempt |>
    <| ck_error_class := Some (if (index mod 2 =? 0)%nat then ErrorClass.ConnectError else ErrorClass.Reset) |>
    <| ck_streaming := (index mod 3 =? 0)%nat |> <| ck_provider_pinned := (index mod 5 =? 0)%nat |> in
  let compatible := key <| ck_endpoint := Endpoint.ChatCompletions |>
                        <| ck_error_class := Some ErrorClass.Dns |> in
  let seeded := (compatible, row) :: map (λ i, (mixed i, row)) (List.seq 1 (TELEMETRY_MAX_WINDOW_KEYS - 1)) in
  test
    (folded ← merged [full_window; [(nth_key 0 <| ck_error_class := Some ErrorClass.Tls |>, row)]];
     endpoint_fold ← merged [seeded; [(compatible <| ck_endpoint := Endpoint.Responses |>
                                                 <| ck_error_class := Some ErrorClass.Tls |>, row)]];
     fallback ← merged [full_window; [(key <| ck_level := Level.Attempt |>
                                           <| ck_error_class := Some ErrorClass.PoolTimeout |>, row)]];
     Some ((length (current_counters folded) =? TELEMETRY_MAX_WINDOW_KEYS)%nat
           && (fold_right N.add 0 (map (λ kr, cr_requests kr.2) (current_counters folded)) =? 257)%N
           && existsb (λ kr, bool_decide (ck_error_class kr.1 = Some ErrorClass.Unknown)
                             && (cr_requests kr.2 =? 2)%N) (current_counters folded)
           && (dropped_since_last folded =? 0)%N
           && existsb (λ kr, bool_decide (ck_level kr.1 = Level.Request)
                             && bool_decide (ck_endpoint kr.1 = Endpoint.InferenceOther)
                             && bool_decide (ck_error_class kr.1 = Some ErrorClass.Unknown)
                             && (cr_requests kr.2 =? 2)%N) (current_counters endpoint_fold)
           && (length (current_counters fallback) =? TELEMETRY_MAX_WINDOW_KEYS)%nat
           && bool_decide ((λ kr, cr_requests kr.2) <$>
                List.find (λ kr, bool_decide (kr.1 = nth_key 0)) (current_counters fallback) = Some 2%N)
           && (dropped_since_last fallback =? 0)%N)).

(** A reporter with one failure, after one flush. *)
Definition answered (reply : Reply) (counters : Rows) : option (bool * State) :=
  r ← start network_config;
  r ← record 0%N f64_zero failure counters r;
  '(accepted, r) ← flush_once 0%N (always reply) r;
  Some (accepted, state r).

Definition permanent_errors_off_header_and_policy_only_reduce_volume : bool :=
  let reducing := always (answer 202 [] reduced_policy) in
  test
    (r ← start (network_config <| rc_success_sample_rate := f64_hundredth |>
                               <| rc_flush_interval := seconds 30 |>);
     r ← record 0%N f64_zero failure [] r;
     '(first, r1) ← flush_once 0%N reducing r;
     raised ← apply_policy (VObject [("success_sample_rate", VNumber (Float (rate 1 2)));
                                     ("flush_seconds", VNumber (PosInt 1))]) 0%N (state r1);
     r2 ← record 0%N f64_zero (event AttemptOutcome.HttpError "paused") [] (r1 <| state := raised |>);
     '(paused, r2) ← flush_once 0%N reducing r2;
     '(later, _) ← flush_once (seconds 120) reducing r2;
     '(_, refused) ← answered (answer 400 [] VNull) [];
     '(_, off) ← answered (answer 202 [("x-tr-telemetry", "off")] VNull) [];
     '(kept, large) ← answered (answer 413 [] VNull) [(key, row)];
     Some (first
           && forallb (λ s, same (success_sample_rate s) (rate 5 1000)
                            && (flush_interval s =? seconds 60)%N) [state r1; raised]
           && negb paused && later
           && forallb (λ s, disabled s && (length (events s) =? 0)%nat) [refused; off]
           && negb kept && (length (events large) =? 0)%nat && (length (closed_windows large) =? 0)%nat
           && (dropped_since_last large =? 2)%N)).

Definition construction_is_lazy_and_no_runtime_leaves_final_flush_as_the_fallback : bool :=
  test
    (r ← start config;
     r1 ← record 0%N f64_zero failure [] r;
     Some (negb (worker_started (state r)) && negb (worker_started (state r1))
           && (length (events (state r1)) =? 1)%nat))
  && match ClientApi.build (λ _, Ok tt) (λ _ _, Ok tt) (λ _, None)
             (set (set (builder_default (λ _, None)) (ApiKey "sk-test")) (Telemetry false)) "" with
     | Ok (c, reporter) => negb (Client.telemetry c) && negb (Client.has_sink c)
                           && match reporter with None => true | Some _ => false end
     | Err _ => false
     end.

(** ** Whole clients *)

Definition map_get_text (l : list (string * string)) (name : string) : option string :=
  find_map (λ kv, if bool_decide (kv.1 = name) then Some kv.2 else None) l.

Definition ENGINE : string := "http://engine.invalid".
Definition built (settings : list Setting) : option (Client.t * Run) :=
  match ClientApi.build (λ _, Ok tt) (λ _ _, Ok tt) (λ _, None)
          (foldl set (builder_default (λ _, None)) settings) (hex_token "01234567") with
  | Ok (c, Some (i, Some s)) => Some (c, mkRun i s [])
  | _ => None
  end.
Definition streaming_client : option (Client.t * Run) :=
  built [ApiKey "sk-tr-test"; ApiBaseUrl (ENGINE +:+ "/v1"); ControlBaseUrl "http://beacon.invalid/v1";
         Telemetry true; TelemetrySampleRate f64_one; MaxRetries 0].
Definition private_client : option (Client.t * Run) :=
  built [ApiKey "sk-tr-test"; WorkspaceId "ws_test"; ApiBaseUrl (ENGINE +:+ "/v1");
         ControlBaseUrl "http://beacon.invalid/v1"; HttpClient; Telemetry true;
         TelemetrySampleRate f64_one; MaxRetries 0].

Definition engine (status : N) (error : option Value) : Env :=
  {| execute_request _ rq :=
       mkFut (from_millis 3) (Ok (mkResponse _ _ status hm_new (rq_url rq) (mkFut 0%N (Ok "{}"))));
     build_headers _ _ headers _ := Ok headers;
     parse_json _ := error;
     gen_range _ ceiling := ceiling;
     wall_clock now := now |}.

(** What the recorder hands to the sink, recorded; then the client is
    dropped: its last flush. *)
Definition drop_client (now : Duration) (recorder : RequestRecorder) (r : Run) : option BeaconRequest :=
  r ← foldl (λ r e, r ≫= record now f64_zero e.1 e.2) (Some r) (sink recorder);
  let '(first, s) := close_begin (state r) in
  '(_, r) ← (if first then flush_once now (always (answer 202 [] no_policy)) (r <| state := s |>)
             else None);
  match posts r with [post] => Some post | _ => None end.

Definition member (name value : string) : string := quoted name +:+ ":" +:+ value.

Definition wire_is_private_schema_bounded_and_uses_the_reporters_own_client : bool :=
  let secret := "private prompt text that must not leave" in
  let body := VObject [("messages", VArray [VObject [("content", VString secret); ("role", VString "user")]]);
                       ("model", VString secret)] in
  test
    ('(c, r) ← private_client;
     let '(result, s) :=
       request_bytes
         (engine 401 (Some (VObject [("error", VObject [("message", VString "bad key");
                                                        ("source", VString "router")])])))
         c Inference POST "/chat/completions" (Some body) CallOptions.default 0%N in
     recorder ← st_recorder s;
     post ← drop_client (st_now s) recorder r;
     Some (is_some_and (λ r, negb (is_ok r)) result && (length (st_sent s) =? 1)%nat
           && bool_decide (url_path (br_url post) = "/v1/client-events")
           && bool_decide (map_get_text (br_headers post) "authorization" = Some "Bearer sk-tr-test")
           && bool_decide (map_get_text (br_headers post) "x-trustedrouter-workspace" = Some "ws_test")
           && bool_decide (map_get_text (br_headers post) "x-user-transport" = None)
           && (string_bytes (br_body post) <=? MAX_BATCH_BYTES)%N
           && negb (contains secret (br_body post)) && negb (contains ENGINE (br_body post))
           && contains (member "host" (quoted "custom")) (br_body post)
           && contains (member "model" "null") (br_body post))).

(** ** Streams *)

Definition delta : Value := VObject [("choices", VArray [VObject [("delta", VObject [("content", VString "hi")])]])].
Definition from_str (s : string) : result string Value :=
  if bool_decide (s = text_of delta) then Ok delta else Err "expected value".

(** One event per chunk of the body. *)
Definition eventsource (chunks : list (result SseWireError string)) : list StreamItem :=
  map (λ chunk, match chunk with Ok data => Decoded "" data "" | Err e => WireFailed e end) chunks.
Definition body_of (chunks : list (result ReqwestError string)) (_ : Response)
    : list (Fut (result ReqwestError string)) * Duration :=
  (map (λ chunk, mkFut (from_millis 20) chunk) chunks, 0%N).
Definition truncated : ReqwestError :=
  mkReqwestError false false (mkErrorLink None "error reading a body from connection")
    [mkErrorLink (Some OtherKind) "unexpected EOF during chunk size line"].

(** A stream is opened, polled some number of times and dropped, and then the
    client: the items it gave and the one batch. *)
Definition streamed {A} (open : Client.t → option (Result Valid))
    (next : Instant → Valid → option (Result A) * Valid) (polls : nat)
    : option (list bool * BeaconRequest) :=
  '(c, r) ← streaming_client;
  match open c with
  | Some (Ok stream) =>
      let '(items, stream) := collect next (map N.of_nat (List.seq 10 polls)) stream in
      recorder ← src_recorder (drop_stream 99%N (v_src stream));
      post ← drop_client (seconds 1) (stream_recorder recorder) r;
      Some (map is_ok items, post)
  | _ => None
  end.
Definition chat (chunks : list (result ReqwestError string)) (polls : nat)
    : option (list bool * BeaconRequest) :=
  streamed (λ c, chat_completions_stream (body_of chunks) eventsource (engine 200 None) c "u1"
                   (Ok (VObject [("model", VString "model/a")])) CallOptions.default 0%N)
    (next_chat from_str) polls.

Definition responses (chunks : list (result ReqwestError string)) (polls : nat)
    : option (list bool * BeaconRequest) :=
  streamed (λ c, responses_stream (body_of chunks) eventsource (engine 200 None) c "u1"
                   (Ok (VObject [("model", VString "model/a")])) CallOptions.default 0%N)
    (next_responses from_str) polls.

Definition real_engine_streams_record_first_event_mid_body_breakage_and_abort : bool :=
  test
    ('(complete, whole) ← chat [Ok (text_of delta); Ok "[DONE]"] 5;
     '(_, aborted) ← responses [Ok (text_of delta)] 0;
     '(broken, cut) ← chat [Ok (text_of delta); Err truncated] 5;
     Some (bool_decide (complete = [true])
           && contains (member "final_outcome" (quoted "ok")) (br_body whole)
           && negb (contains (member "ttft_ms" "null") (br_body whole))
           && contains (member "final_outcome" (quoted "aborted")) (br_body aborted)
           && bool_decide (broken = [true; false])
           && contains (member "final_outcome" (quoted "stream_broken")) (br_body cut)
           && negb (contains (member "ttft_ms" "null") (br_body cut)))).

Definition close_attempts_one_final_flush_and_returns_within_the_bound : bool :=
  test
    (r ← start network_config;
     r ← record 0%N f64_zero failure [] r;
     let '(first, s) := close_begin (state r) in
     let '(again, _) := close_begin s in
     match flush_select (inner r) (Some (from_millis 100)) 0%N None (hex_token "0123456789abcdef") s with
     | (Some (_, request), _) => Some (first && negb again && bool_decide (br_timeout request = Some (from_millis 100)))
     | _ => None
     end).

Example reporter_tests :
  forallb id
    [sampling_and_event_eviction_match_python;
     counter_cap_uses_the_complete_python_fold_ladder_without_drops;
     closed_counter_windows_expire_after_24_hours_oldest_first;
     failed_flush_retains_24h_counters_and_retry_after_gates_the_next_post;
     permanent_errors_off_header_and_policy_only_reduce_volume;
     wire_is_private_schema_bounded_and_uses_the_reporters_own_client;
     real_engine_streams_record_first_event_mid_body_breakage_and_abort;
     construction_is_lazy_and_no_runtime_leaves_final_flush_as_the_fallback;
     close_attempts_one_final_flush_and_returns_within_the_bound] = true.
Proof. vm_compute. reflexivity. Qed.
End ReporterTests.
