(* ===== verification/BeaconDocs.v ===== *)
(** * What the beacon says

    Every document the reporter has ever sent conforms to the closed schema,
    and every string in it is a word of a fixed vocabulary or in one of the
    bounded grammars: there is no free text. *)
From S2P Require Import Prelude Text Bytes F64 Json StrictJson Http Config Vocab Recorder Identity Wire.
From S2P Require Import Reporter CounterFacts ReporterFacts BeaconFacts Lifecycle WireJson.

(** ** Conforming, member by member *)

Lemma record_cons name optional σ members v e :
  conforms σ v = true → conforms (SRecord members) (VObject e) = true →
  conforms (SRecord ((name, (optional, σ)) :: members)) (VObject ((name, v) :: e)) = true.
Proof. intros Hv He. cbn in *. by rewrite bool_decide_eq_true_2, Hv. Qed.

Lemma record_nil : conforms (SRecord []) (VObject []) = true.
Proof. done. Qed.

Lemma record_absent name σ members :
  conforms (SRecord members) (VObject []) = true →
  conforms (SRecord ((name, (true, σ)) :: members)) (VObject []) = true.
Proof. done. Qed.

Lemma conforms_words l s : s ∈ l → conforms (words l) (VString s) = true.
Proof. intros Hs. cbn. unfold word_in. by rewrite bool_decide_eq_true_2. Qed.

Lemma conforms_grammar p s : p s = true → conforms (grammar p) (VString s) = true.
Proof. intros Hs. cbn. unfold word_in. by rewrite Hs, orb_true_r. Qed.

Lemma conforms_null {A} σ (f : A → Value) o :
  (∀ x, o = Some x → conforms σ (f x) = true) → conforms (SNull σ) (or_null f o) = true.
Proof. intros Ho. destruct o as [x|]; [|done]. cbn. specialize (Ho x eq_refl). by destruct (f x). Qed.

Lemma conforms_nat lo hi n : (lo <= n <= hi)%N → conforms (SNat lo hi) (number n) = true.
Proof. intros Hn. by apply in_range_true. Qed.

Lemma conforms_list min max σ l :
  (min <= length l <= max)%nat → Forall (λ v, conforms σ v = true) l →
  conforms (SList min max σ) (VArray l) = true.
Proof.
  intros [H1 H2] Hl. cbn. rewrite (proj2 (Nat.leb_le _ _) H1), (proj2 (Nat.leb_le _ _) H2).
  apply forallb_forall. intros v Hv. rewrite Forall_forall in Hl. apply Hl. by apply list_elem_of_In.
Qed.

(** ** The documents of a call and of a counter row *)

Lemma bounded_nat n lo hi : (lo <= hi)%N → conforms (SNat lo hi) (number (bounded n lo hi)) = true.
Proof. intros. apply conforms_nat. by apply clamp_bounds. Qed.

Lemma filtered_nat (lo hi : N) o :
  conforms (SNull (SNat lo hi)) (or_null number (opt_filter (in_range lo hi) o)) = true.
Proof.
  apply conforms_null. intros n [_ Hn]%opt_filter_Some. by apply conforms_nat, in_range_true.
Qed.

Lemma filtered_text p o :
  conforms (SNull (grammar p)) (or_null VString (opt_filter p o)) = true.
Proof. apply conforms_null. intros s [_ Hs]%opt_filter_Some. by apply conforms_grammar. Qed.

Lemma option_words {A} (f : A → string) l o :
  (∀ x, f x ∈ l) → conforms (SNull (words l)) (or_null VString (f <$> o)) = true.
Proof. intros Hf. apply conforms_null. intros s (x&_&->)%fmap_Some. by apply conforms_words. Qed.

(** A word by evaluation of its vocabulary. *)
Ltac in_words := first [apply vocabulary_closed | set_solver].

(** One member: by the lemma of its shape. *)
Ltac member_conforms :=
  first
    [ apply filtered_nat
    | apply filtered_text
    | by apply bounded_nat
    | apply conforms_words; in_words
    | apply option_words; first [apply vocabulary_closed | intros []; set_solver]
    | done ].

(** The members of a record, in order, up to one that needs an argument. *)
Ltac record_conforms := repeat (apply record_cons; [member_conforms|]).

Lemma attempt_conforms a : conforms attempt_schema (attempt_value (from_record a)) = true.
Proof.
  unfold attempt_schema, attempt_value, req, opt. cbn [app]. record_conforms.
  by destruct (wa_should_retry _).
Qed.

Lemma from_event_shape event reason rate w :
  from_event event reason rate = Some w →
  ∃ method, (method = "GET" ∨ method = "POST") ∧ rate_in_schema rate = true
    ∧ we_attempts w = map from_record (take MAX_WIRE_ATTEMPTS (ev_attempts event))
    ∧ we_attempts w ≠ [] ∧ we_method w = method ∧ we_sample_rate w = rate
    ∧ we_plane w = "inference" ∧ we_endpoint w = Endpoint.as_str (ev_endpoint event)
    ∧ we_model w = opt_filter valid_model (ev_model event)
    ∧ we_final_outcome w = FinalOutcome.as_str (ev_final_outcome event)
    ∧ we_final_http_status w = wire_status (ev_final_http_status event)
    ∧ we_total_ms w = bounded (ev_total_ms event) 0 MAX_DURATION_MS
    ∧ we_ttft_ms w = bounded_optional (ev_ttft_ms event) 0 MAX_DURATION_MS
    ∧ we_timeout_phase w = TimeoutPhase.as_str (ev_timeout_phase event)
    ∧ we_configured_timeout_ms w = bounded_optional (ev_configured_timeout_ms event) 1 MAX_DURATION_MS
    ∧ we_sample_reason w = SampleReason.as_str reason.
Proof.
  unfold from_event. cbv zeta. destruct (_ || _) eqn:Hor; [done|].
  apply orb_false_iff in Hor as [Hne Hrate]. apply negb_false_iff in Hrate.
  destruct (wire_method (ev_method event)) as [m|] eqn:Hm; [|done].
  intros <-%(inj Some). exists m. split_and!; try done.
  - destruct (ev_method event); simplify_eq/=; auto.
  - cbn [we_attempts]. by destruct (map _ _).
Qed.

Lemma rate_conforms rate :
  rate_in_schema rate = true → conforms SRate (or_null VNumber (number_from_f64 rate)) = true.
Proof.
  intros Hr. unfold number_from_f64. assert (f64_is_finite rate = true) as ->; [|exact Hr].
  unfold rate_in_schema in Hr. by destruct (f64_is_finite rate).
Qed.

Lemma event_conforms event reason rate w age :
  from_event event reason rate = Some w → conforms event_schema (event_value (aged age w)) = true.
Proof.
  intros (m&Hm&Hr&Ha&Hne&H1&H2&H3&H4&H5&H6&H7&H8&H9&H10&H11&H12)%from_event_shape.
  unfold event_schema, event_value, req.
  cbn [aged we_age_ms we_plane we_endpoint we_method we_streaming we_provider_pinned we_model
    we_attempts we_final_outcome we_final_http_status we_total_ms we_ttft_ms we_failover_used
    we_timeout_phase we_configured_timeout_ms we_sample_rate we_sample_reason modify].
  rewrite H1, H2, H3, H4, H5, H6, H7, H8, H9, H10, H11, H12.
  record_conforms.
  - apply record_cons; [|record_conforms; apply record_cons; [by apply rate_conforms|]].
    + apply conforms_list; rewrite ?length_map.
      * split; [destruct (we_attempts w); cbn; [done|lia]|]. rewrite Ha, length_map, length_take. lia.
      * rewrite Ha. apply Forall_fmap, Forall_fmap, Forall_true. intros a. apply attempt_conforms.
    + apply record_cons; [|apply record_nil]. apply conforms_words. destruct reason; set_solver.
Qed.

Lemma map_insert_Forall (P : string * Value → Prop) k v e :
  P (k, v) → Forall P e → Forall P (map_insert k v e).
Proof.
  intros Hp. induction 1 as [|[k' w] e Hw He IH]; cbn; [auto|].
  destruct (String.compare k k') eqn:E; [|auto..].
  apply String.compare_eq_iff in E as ->. auto.
Qed.

Lemma insert_all_Forall (P : string * Value → Prop) l e :
  Forall P l → Forall P e → Forall P (insert_all l e).
Proof.
  unfold insert_all. intros Hl. revert e.
  induction Hl as [|[k v] l Hp _ IH]; intros e He; cbn; [done|]. by apply IH, map_insert_Forall.
Qed.

Lemma histogram_conforms h :
  conforms (STable TELEMETRY_LATENCY_BUCKETS count_schema) (histogram_value (wire_histogram h)) = true.
Proof.
  unfold histogram_value. cbn. apply forallb_forall. intros [k v] Hin%list_elem_of_In.
  assert (Forall (λ kv, bool_decide (kv.1 ∈ TELEMETRY_LATENCY_BUCKETS) && conforms count_schema kv.2 = true)
    (insert_all (map (λ kc, (kc.1, number kc.2)) (map_to_list (wire_histogram h))) [])) as Hall.
  { apply insert_all_Forall; [|apply Forall_nil_2]. apply Forall_fmap, Forall_forall.
    intros [name count] Hin'. apply elem_of_map_to_list in Hin'. unfold wire_histogram in Hin'.
    apply elem_of_list_to_map_2, list_elem_of_fmap in Hin' as ([b n]&[= -> ->]&_).
    apply andb_true_iff. split; [apply bool_decide_eq_true_2; apply vocabulary_closed|by apply bounded_nat]. }
  rewrite Forall_forall in Hall. exact (Hall _ Hin).
Qed.

Lemma counter_conforms key row age : conforms counter_schema (counter_value (from_row key row age)) = true.
Proof.
  unfold counter_schema, counter_value, req.
  cbn [from_row wc_window_start_age_ms wc_level wc_endpoint wc_streaming wc_host wc_outcome
    wc_error_class wc_http_status_class wc_timeout_phase wc_timeout_floor_met wc_provider_pinned
    wc_requests wc_attempts wc_failover_used wc_first_attempt_success wc_total_ms_hist
    wc_first_event_ms_hist].
  apply record_cons; [member_conforms|].
  apply record_cons; [apply conforms_words; destruct (ck_level key); set_solver|]. record_conforms.
  apply record_cons; [apply conforms_words; destruct (ck_http_status_class key); set_solver|].
  record_conforms. apply record_cons; [apply histogram_conforms|].
  apply record_cons; [apply histogram_conforms|apply record_nil].
Qed.

Lemma identity_conforms `{BuildEnv} : conforms identity_schema (identity_value sdk_identity) = true.
Proof.
  destruct sdk_identity_in_grammar as (Hv&Hr&Ho&Ha). unfold identity_schema, identity_value, req.
  apply record_cons; [done|]. apply record_cons; [by apply conforms_grammar|].
  apply record_cons; [done|]. apply record_cons; [by apply conforms_grammar|].
  apply record_cons; [by apply conforms_words|]. apply record_cons; [by apply conforms_words|].
  apply record_nil.
Qed.

(** ** No free text *)

(** The strings of a document, member names apart. *)
Fixpoint strings (v : Value) : list string :=
  match v with
  | VString s => [s]
  | VArray l => flat_map strings l
  | VObject e => flat_map (λ kv, strings kv.2) e
  | _ => []
  end.

Section texts.
Context (P : string → Prop).

(** Every text a schema allows has [P]. *)
Fixpoint texts (σ : Schema) : Prop :=
  match σ with
  | SText words grammar => ∀ s, word_in words grammar s = true → P s
  | SNull σ | SList _ _ σ | STable _ σ => texts σ
  | SRecord members => fold_right (λ m, and (texts m.2.2)) True members
  | _ => True
  end.

Lemma flat_strings {A} (f : A → list string) l :
  Forall (λ x, Forall P (f x)) l → Forall P (flat_map f l).
Proof. induction 1; cbn; [constructor|]. by apply Forall_app. Qed.

Fixpoint conforms_strings (σ : Schema) {struct σ} :
  ∀ v, texts σ → conforms σ v = true → Forall P (strings v).
Proof.
  destruct σ as [words grammar|lo hi| | | |σ|min max σ|members|keys σ]; intros v Ht Hc.
  - destruct v; try done. cbn in *. auto.
  - by destruct v as [| |[]| | |].
  - by destruct v as [| |[]| | |].
  - by destruct v as [| |[]| | |].
  - by destruct v.
  - destruct v; try exact (conforms_strings σ _ Ht Hc). done.
  - destruct v as [| | | |l|]; try done. cbn [conforms] in Hc. apply andb_true_iff in Hc as [_ Hc].
    apply flat_strings, Forall_forall. intros v Hv. rewrite forallb_forall in Hc.
    apply (conforms_strings σ); [done|]. apply Hc. by apply list_elem_of_In.
  - destruct v as [| | | | |e]; try done. apply flat_strings. revert e Hc.
    induction members as [|[name [optional σ]] members IHm]; intros e Hc; cbn in Hc.
    + by destruct e.
    + destruct Ht as [Hσ Ht]. cbn in Hσ. destruct e as [|[k v] e]; [constructor|].
      destruct (bool_decide (k = name)).
      * apply andb_true_iff in Hc as [Hv He]. constructor; [exact (conforms_strings σ v Hσ Hv)|].
        by apply IHm.
      * apply andb_true_iff in Hc as [_ He]. by apply IHm.
  - destruct v as [| | | | |e]; try done. apply flat_strings, Forall_forall. intros [k v] Hv.
    cbn [conforms] in Hc. rewrite forallb_forall in Hc. apply list_elem_of_In in Hv. apply Hc in Hv.
    apply andb_true_iff in Hv as [_ Hv]. exact (conforms_strings σ v Ht Hv).
Qed.
End texts.

(** Every fixed word the beacon uses. *)
Definition beacon_words : list string :=
  TELEMETRY_HOSTS ++ TELEMETRY_ENDPOINTS ++ TELEMETRY_FINAL_OUTCOMES ++ TELEMETRY_ERROR_CLASSES
  ++ TELEMETRY_TIMEOUT_PHASES
  ++ ["router"; "provider"; "inference"; "GET"; "POST"; "failure"; "retried"; "slow"; "random";
      "attempt"; "request"; "none"; "2xx"; "4xx"; "429"; "5xx"; "tr-rust"; "rust"; "linux"; "macos";
      "windows"; "ios"; "android"; "freebsd"; "other"; "x64"; "x32"; "arm64"; "arm"; "wasm"].

(** A fixed word, a model name, a server's log id, a version, a runtime or a
    random token. *)
Definition content_free (s : string) : Prop :=
  s ∈ beacon_words ∨ valid_model s = true ∨ valid_request_id s = true ∨ valid_semver s = true
  ∨ valid_runtime s = true ∨ hex_text 32 s = true ∨ hex_text 16 s = true.

Lemma words_content_free l :
  bool_decide (l ⊆ beacon_words) = true → ∀ s, word_in l (λ _, false) s = true → content_free s.
Proof.
  intros Hl%bool_decide_eq_true_1 s Hs. unfold word_in in Hs. rewrite orb_false_r in Hs.
  apply bool_decide_eq_true_1 in Hs. left. by apply Hl.
Qed.

Lemma grammar_content_free p :
  (∀ s, p s = true → content_free s) → ∀ s, word_in [] p s = true → content_free s.
Proof. intros Hp s Hs. unfold word_in in Hs. rewrite bool_decide_eq_false_2 in Hs by set_solver. auto. Qed.

Lemma batch_schema_closed : texts content_free batch_schema.
Proof.
  repeat (hnf; lazymatch goal with
    | |- _ ∧ _ => split
    | |- True => exact I
    | |- ∀ s, word_in [] _ s = true → _ => apply grammar_content_free; unfold content_free; auto 10
    | |- ∀ s, word_in _ _ s = true → _ => apply words_content_free; vm_compute; reflexivity
    end).
Qed.

(** ** The batch *)

Definition batch_sourced (batch : WireBatch) : Prop :=
  Forall (λ w, ∃ event reason rate w0 age, from_event event reason rate = Some w0 ∧ w = aged age w0)
    (wb_events batch)
  ∧ Forall (λ c, ∃ key row age, c = from_row key row age) (wb_counters batch)
  ∧ length (wb_events batch) ≤ TELEMETRY_MAX_BATCH_EVENTS
  ∧ length (wb_counters batch) ≤ TELEMETRY_MAX_BATCH_COUNTERS.

Lemma batch_conforms `{BuildEnv} batch :
  batch_sourced batch → wb_sdk batch = sdk_identity →
  wb_schema_version batch = TELEMETRY_SCHEMA_VERSION → (wb_sent_at_ms batch <= u64_max)%N →
  hex_text 32 (wb_batch_id batch) = true → hex_text 16 (wb_instance_id batch) = true →
  conforms batch_schema (batch_value batch) = true.
Proof.
  intros (He&Hc&Hle&Hlc) Hsdk Hv Ht Hb Hi. unfold batch_schema, batch_value, req.
  apply record_cons; [by rewrite Hv|]. apply record_cons; [by apply conforms_grammar|].
  apply record_cons; [by apply conforms_grammar|]. apply record_cons; [done|].
  apply record_cons; [apply conforms_nat; lia|].
  apply record_cons; [rewrite Hsdk; apply identity_conforms|].
  apply record_cons; [done|]. apply record_cons; [done|].
  apply record_cons; [|apply record_cons; [|apply record_nil]];
    (apply conforms_list; rewrite ?length_map; [lia|]); apply Forall_fmap.
  - eapply Forall_impl; [exact He|]. intros w (event&reason&rate&w0&age&Hw&->). by eapply event_conforms.
  - eapply Forall_impl; [exact Hc|]. intros c (key&row&age&->). apply counter_conforms.
Qed.

Lemma hex_text_token bytes : hex_text (2 * String.length bytes) (hex_token bytes) = true.
Proof.
  unfold hex_text, hex_token. rewrite length_hex, Nat.eqb_refl. cbn [andb].
  induction bytes as [|c bytes IH]; [done|]. cbn [hex all_bytes]. rewrite IH, andb_true_r.
  by destruct c as [[][][][][][][][]].
Qed.

(** ** Every document ever sent *)

Section documents.
Context `{Io : JsonIo} `{HL : HttpLib} `{UL : UrlLib} `{BE : BuildEnv}.
Context (inner : Inner) (decimal : N → string) (send_error : string).
Context `{!SerdeLaws wire_serde}.

(** What a request says and where it goes. *)
Definition document_ok (request : BeaconRequest) : Prop :=
  br_url request = in_endpoint inner
  ∧ (∃ key, in_api_key inner = Some key ∧ key ≠ ""
       ∧ ("authorization", "Bearer " +:+ key) ∈ br_headers request)
  ∧ (∀ name value, (name, value) ∈ br_headers request →
       name ∈ ["authorization"; "user-agent"; "content-type"; "x-trustedrouter-workspace"])
  ∧ ∃ document, br_body request = print document ∧ conforms batch_schema document = true
       ∧ Forall content_free (strings document)
       ∧ (string_bytes (br_body request) <= MAX_BATCH_BYTES)%N.

Lemma flush_select_document timeout now ep bytes s selected request s' :
  flush_select inner timeout now ep (hex_token bytes) s = (Some (selected, request), s') →
  String.length bytes = 16 → hex_text 16 (instance_id s) = true → in_sdk inner = sdk_identity →
  sourced s → document_ok request.
Proof.
  intros H Hlen Hid Hsdk Hs. pose proof (flush_select_request _ _ _ _ _ _ _ _ _ H Hs) as Hok.
  destruct Hok as (Hu&Hk&Hh&_). split_and!; [done..|].
  unfold flush_select in H. destruct (opt_filter _ (in_api_key inner)) as [key|]; [|done].
  destruct (select_batch _ _ _ _ _ s) as [[sel|] s1] eqn:Hsel; [|done]. cbn in H.
  apply select_batch_spec in Hsel as (Hs1&batch&n&k&Hc&_&Hbs&Hbi&Hbb&Hbv&Hbt).
  destruct Hc as (Hn&Hk'&Hev&Hco&_&_&_&_&Hjson&Hsize).
  assert (events s1 = events s) as He1 by (subst s1; apply (settled_frame now (in_retention_bytes inner) s)).
  simplify_eq. cbn [br_body]. apply (inj Some) in Hjson. exists (batch_value batch).
  assert (conforms batch_schema (batch_value batch) = true) as Hconf.
  { apply batch_conforms; [|by rewrite Hbs|done|done| |by rewrite Hbi].
    - unfold batch_sourced. rewrite Hev, Hco, !length_map, !length_take.
      split_and!; [| |apply Nat.min_le_iff; by left|apply Nat.min_le_iff; by left].
      + apply Forall_fmap, Forall_take. rewrite He1. eapply Forall_impl; [exact Hs|].
        intros b (event&reason&rate&Hw). unfold wire_event_at. by eexists _, _, _, _, _.
      + apply Forall_fmap, Forall_true. intros wr. by eexists _, _, _.
    - rewrite Hbb. pose proof (hex_text_token bytes) as Hx. by rewrite Hlen in Hx. }
  split_and!; [done|done| |done]. eapply conforms_strings; [apply batch_schema_closed|exact Hconf].
Qed.

(** C6. Whatever the reporter has sent in its life, on any interleaving of
    its threads, went to the configured endpoint with the client's own
    non-empty key and no header outside four names; its body is the text, of
    at most 65536 bytes, of a JSON document that conforms to the closed
    schema member by member, and in which every string is a fixed word, a
    model name, a server's log id, a version, a runtime or a random token:
    no prompt, output or free text. *)
Theorem sent_documents_conform l :
  in_sdk inner = sdk_identity → alive inner decimal send_error l →
  Forall (λ wr, document_ok wr.2) (l_sent l).
Proof.
  intros Hsdk Ha.
  assert (hex_text 16 (instance_id (l_state l)) = true ∧ Forall (λ wr, document_ok wr.2) (l_sent l)) as [_ ?];
    [|done].
  destruct Ha as (l0&Hb&Hr).
  assert (alive inner decimal send_error l0) as Ha0 by (by exists l0).
  assert (hex_text 16 (instance_id (l_state l0)) = true ∧ Forall (λ wr, document_ok wr.2) (l_sent l0)) as H0.
  { destruct Hb as (rate&interval&bytes&s&Hlen&Hs&->). split; [|apply Forall_nil_2].
    unfold new_state in Hs. destruct (normalise_flush_interval interval); [|done].
    apply (inj Some) in Hs. subst s. pose proof (hex_text_token bytes) as Hx. by rewrite Hlen in Hx. }
  clear Hb. induction Hr as [|a b c Hst Hr IH]; [done|]. apply IH.
  { destruct Ha0 as (a0&?&?). exists a0. split; [done|]. by eapply rtc_r. }
  destruct H0 as [Hid Hall]. destruct (life_step_sent _ _ _ _ _ Hst) as [Hi Hsent]. rewrite Hi.
  split; [done|].
  destruct Hsent as [->|(who&ct&now&ep&bytes&sel&req&s'&Hlen&Hsel&->)]; [done|].
  apply Forall_app. split; [done|]. apply Forall_singleton.
  pose proof (reachable_inv inner _ (alive_reachable _ _ _ _ Ha0)) as (_&Hsrc&_).
  by eapply flush_select_document.
Qed.

End documents.
