(* ===== verification/Witnesses.v ===== *)
(** * Concrete runs: every hypothesis of the claims can hold

    A client with the three default hosts, a server that answers 503 and
    then 200, a recorder of that call and a reporter fed with it.  Each
    witness applies one claim to these values. *)
From S2P Require Import Prelude Text F64 Json Http Error Policy Config Routing Vocab.
From S2P Require Import Recorder RecorderFacts Identity Headers Engine EngineFacts.
From S2P Require Import Transport Sse SseFacts.
From S2P Require Import Wire Reporter ClientApi CounterFacts ReporterFacts BeaconFacts.
From S2P Require Import TypedApi.

Module Scenario.

#[local] Instance dates : HttpDateLib := λ _, None.
#[local] Instance build : BuildEnv :=
  {| CARGO_PKG_VERSION := "0.6.0"; TRUSTED_ROUTER_RUSTC_RELEASE := Some "1.80.0";
     target_os := "linux"; target_arch := "x86_64" |}.

Definition base (host : string) : Url := Concrete.mkUrl "https" host "/v1/".

Definition client : Client.t :=
  Client.mk _ (Some "sk-test") (base "api.trustedrouter.com")
    [base "api.trustedrouter.com"; base "api.allyrouter.com"; base "api.uptimerouter.com"]
    (base "trustedrouter.com") None (Some DEFAULT_REQUEST_TIMEOUT) DEFAULT_MAX_RETRIES true true
    [("x-app", "demo"); ("X-TR-Client", "forged")] OwnedTransport.

Definition options : CallOptions.t :=
  CallOptions.default <| CallOptions.idempotency_key := Some "tr-req-1" |>.

(** 503 on the first attempt, 200 afterwards; the body arrives at once. *)
Definition env : Env :=
  {| execute_request attempt rq :=
       mkFut (from_millis 40)
         (Ok (mkResponse _ _ (if (attempt =? 0)%nat then 503 else 200)%N hm_new (rq_url rq)
                (mkFut (from_millis 5) (Ok "{}"))));
     build_headers _ _ headers _ := Ok (hm_insert headers "content-type" "application/json");
     parse_json _ := None;
     gen_range _ ceiling := N.div ceiling 2;
     wall_clock now := now |}.

Definition call : Outcome :=
  execute env client options Inference POST "/chat/completions" (Some (VObject [])) false 0%N.

Lemma gen_ok : ∀ k, gen_range_ok (gen_range env k).
Proof. intros k ceiling. simpl. apply N.Div0.div_le_upper_bound. lia. Qed.

Lemma builds_ok : build_headers_ok env.
Proof.
  intros m url h body built n Hb Hn. injection Hb as <-.
  etrans; [apply (get_insert h)|]. case_decide; [set_solver|done].
Qed.

Lemma retry_delay_bounded_witness :
  gen_range_ok (λ c, c) ∧ (retry_delay (λ c, c) 9 (Some (from_secs 500)) <= MAX_RETRY_AFTER)%N.
Proof.
  split; [intros c; lia|].
  apply (proj1 (retry_delay_bounded (λ c, c) 9 (Some (from_secs 500)) ltac:(intros c; lia))).
Defined.

Ltac respelled :=
  repeat first
    [ apply respell_end
    | apply respell_byte; [reflexivity|discriminate|discriminate|]
    | eapply respell_escape; [discriminate|reflexivity|reflexivity|reflexivity|] ].

Lemma semantic_route_respelled_witness :
  respells "/v1/attestation" "/V1//%61ttestation"
  ∧ semantic_route "/V1//%61ttestation" = semantic_route "/v1/attestation".
Proof.
  assert (respells "/v1/attestation" "/V1//%61ttestation") as H.
  { do 3 (apply respell_byte; [reflexivity|discriminate|discriminate|]).
    apply respell_slash. respelled. }
  split; [exact H|]. exact (proj1 (semantic_route_respelled _ _ H)).
Defined.

Lemma excluded_routes_untracked_witness :
  tracked_inference_path "/V1//%61ttestation" = false.
Proof.
  apply (excluded_routes_untracked "/v1" "attestation").
  - by left.
  - reflexivity.
  - simpl. do 3 (apply respell_byte; [reflexivity|discriminate|discriminate|]).
    apply respell_slash. respelled.
Defined.

(** ** The recorder *)

Definition spec : RecorderSpec :=
  mkRecorderSpec Endpoint.ChatCompletions POST true false (Some "openai/gpt-5") (Some (from_secs 120)).
Definition begun : RequestRecorder :=
  begin_attempt (from_millis 10) (base "api.trustedrouter.com") (new_recorder spec).
Definition failed : RequestRecorder :=
  on_transport_error (from_millis 60) ErrorClass.ConnectRefused false false false begun.

Lemma begun_wf : wf_recorder begun.
Proof. apply begin_attempt_wf, wf_new. Qed.
Lemma failed_wf : wf_recorder failed.
Proof. apply on_transport_error_wf, begun_wf. Qed.

Lemma recorder_reports_at_most_once_witness :
  length (sink (drop_recorder 9%N (finish (from_millis 70) false failed))) ≤ 1.
Proof.
  refine (proj1 (proj2 (recorder_reports_at_most_once spec
    (drop_recorder 9%N (finish (from_millis 70) false failed)) _))).
  apply (rtc_r _ (finish (from_millis 70) false failed) _); [|apply step_drop].
  apply (rtc_r _ failed _); [|apply step_finish].
  apply (rtc_r _ begun _); [|apply step_error].
  apply rtc_once, step_begin.
Defined.

Lemma finish_reports_exactly_witness :
  ∃ ev counters, sink (finish (from_millis 70) true failed) = [(ev, counters)]
    ∧ exact_counters (configured_timeout failed) ev counters.
Proof.
  destruct (last (attempts failed)) as [final|] eqn:Hl; [|by vm_compute in Hl].
  destruct (finish_reports_exactly (from_millis 70) true failed final failed_wf eq_refl eq_refl Hl)
    as (ev&counters&first&H1&_&_&_&_&_&_&_&_&_&_&_&_&H2).
  exists ev, counters. exact (conj H1 H2).
Defined.

Lemma abandoned_call_reports_aborted_witness :
  ∃ ev counters, sink (drop_recorder (from_millis 90) begun) = [(ev, counters)]
    ∧ ev_final_outcome ev = FinalOutcome.Outcome AttemptOutcome.Aborted.
Proof.
  destruct (abandoned_call_reports_aborted (from_millis 90) begun 0 begun_wf eq_refl eq_refl eq_refl)
    as (ev&counters&H1&H2&_).
  exists ev, counters. exact (conj H1 H2).
Defined.

Lemma header_value_bounded_witness :
  is_Some (header_value begun)
  ∧ match header_value begun with
    | Some header => Host.Apex ≠ Host.Custom ∧ 0 ≤ 99 ∧ String.length header ≤ MAX_HEADER_BYTES
    | None => Host.Apex = Host.Custom ∨ 99 < 0
    end.
Proof.
  split; [eexists; vm_compute; reflexivity|].
  exact (header_value_bounded begun Host.Apex 0 begun_wf eq_refl eq_refl).
Defined.

Lemma wire_failure_outcome_witness :
  let s := on_event (from_millis 20) (new_stream begun) in
  ∃ a, attempts (stream_recorder (on_wire_failure (from_millis 80) ErrorClass.Reset false s)) !! 0
         = Some a ∧ ar_outcome a = AttemptOutcome.StreamBroken.
Proof.
  cbv zeta. set (s := on_event (from_millis 20) (new_stream begun)).
  assert (wf_recorder (stream_recorder s)) as Hwf by (apply on_first_event_wf, begun_wf).
  destruct (wire_failure_outcome (from_millis 80) (from_millis 90) ErrorClass.Reset false s
    (from_millis 10) Host.Apex 0 eq_refl Hwf) as [(a&H1&H2&_) _].
  exists a. exact (conj H1 H2).
Defined.

(** ** The engine *)

Lemma call_retried : length (out_trace call) = 2 ∧ length (st_sent (out_st call)) = 2.
Proof. by vm_compute. Qed.

Lemma two_elements {A} (l : list A) : length l = 2 → ∃ a b, l = [a; b].
Proof. destruct l as [|a [|b [|]]]; naive_solver. Qed.

Lemma call_sent : ∃ rq1 rq2, st_sent (out_st call) = [rq1; rq2].
Proof. apply two_elements, call_retried. Qed.

Lemma request_headers_own_slots_witness :
  ∃ headers, request_headers client options (Some begun) = Ok headers
    ∧ hm_get headers "x-tr-client" = expected_telemetry (Some begun)
    ∧ hm_get headers "idempotency-key" = Some "tr-req-1".
Proof.
  destruct (is_ok_inv (request_headers client options (Some begun))) as [headers H];
    [vm_compute; reflexivity|].
  exists headers. split; [exact H|].
  destruct (request_headers_own_slots client options (Some begun) headers H)
    as (H1&_&_&_&H2).
  split; [exact H1|]. exact (H2 "tr-req-1" eq_refl eq_refl).
Defined.

Lemma execute_refines_retry_machine_witness :
  run_spec 3 2 true 0 0 (out_trace call) ∧ length (out_trace call) = 2.
Proof.
  split; [|apply call_retried].
  exact (proj1 (execute_refines_retry_machine env client options Inference POST
    "/chat/completions" (Some (VObject [])) false 0%N ltac:(discriminate))).
Defined.

Lemma execute_bounded_witness :
  length (out_trace call) ≤ 3 ∧ Forall (λ d, d <= MAX_RETRY_AFTER)%N (out_sleeps call).
Proof.
  destruct (execute_bounded env client options Inference POST "/chat/completions"
    (Some (VObject [])) false 0%N ltac:(discriminate) gen_ok) as (_&H1&_&_&_&H2).
  split; [exact H1|exact H2].
Defined.

Lemma execute_replays_verbatim_witness :
  ∃ rq1 rq2, st_sent (out_st call) = [rq1; rq2]
    ∧ hm_get (rq_headers rq1) "idempotency-key" = Some "tr-req-1"
    ∧ hm_get (rq_headers rq1) "x-app" = hm_get (rq_headers rq2) "x-app".
Proof.
  pose proof (execute_replays_verbatim env client options Inference POST "/chat/completions"
    (Some (VObject [])) false 0%N) as Hv.
  destruct call_sent as (rq1&rq2&Hs).
  destruct (Hv rq1 rq2 builds_ok) as (_&_&H1&H2);
    [fold call; rewrite Hs; by left|fold call; rewrite Hs; by right; left|].
  exists rq1, rq2. split; [exact Hs|]. split; [exact (H2 "tr-req-1" eq_refl eq_refl)|].
  apply H1. apply (bool_decide_unpack _). vm_compute. exact I.
Defined.

Lemma execute_recorder_state_witness :
  match out_result call with
  | Returns (Ok _) => recorder_with false (out_st call)
  | Returns (Err _) => recorder_with true (out_st call)
  | _ => False
  end.
Proof.
  exact (execute_recorder_state env client options Inference POST "/chat/completions"
    (Some (VObject [])) false 0%N ltac:(discriminate)).
Defined.

(** ** The reporter *)

Fixpoint stars (n : nat) : string :=
  match n with O => EmptyString | S n => String "*" (stars n) end.

Lemma stars_length n : String.length (stars n) = n.
Proof. induction n; simpl; auto. Qed.

#[local] Instance serde : Serde :=
  {| event_json _ := Some (stars 300);
     counters_json l := Some (stars (length l));
     batch_json b := Some (stars (length (wb_events b) + length (wb_counters b)));
     value_from_slice _ := None |}.

#[local] Instance serde_laws : SerdeLaws serde.
Proof.
  split. intros rows rows' Hs%sublist_length. unfold window_size, string_bytes. simpl.
  rewrite !length_map, !stars_length. lia.
Qed.

Definition inner : Inner :=
  mkInner (base "trustedrouter.com") (Some "sk-test") None sdk_identity false 524288 (mkTransport [] []).

(** What the recorder of a failed call reports. *)
Definition reported : Emission :=
  default (mkRequestEvent Endpoint.Models GET false false None [] FinalOutcome.Exhausted None 0 None
             false TimeoutPhase.NoPhase None, [])
    (head (sink (finish (from_millis 70) false failed))).

Lemma is_some_and_inv {A} (p : A → bool) o : is_some_and p o = true → ∃ a, o = Some a ∧ p a = true.
Proof. destruct o; simpl; [eauto|done]. Qed.

Definition one_event (p : option (Selected * BeaconRequest) * State) : bool :=
  match p with
  | (Some batch, flushed) =>
      (length (events flushed) =? 1)%nat && (length (sel_event_ids batch.1) =? 1)%nat
  | (None, _) => false
  end.

Lemma one_event_inv p :
  one_event p = true →
  ∃ sel rq flushed, p = (Some (sel, rq), flushed) ∧ length (events flushed) = 1
    ∧ length (sel_event_ids sel) = 1.
Proof.
  destruct p as [[[sel rq]|] flushed]; simpl; [|done].
  intros [H1%Nat.eqb_eq H2%Nat.eqb_eq]%andb_true_iff. by exists sel, rq, flushed.
Qed.

Definition two_requests (s : State) : bool :=
  flush_gate (from_secs 95) s && worker_started s && (total Requests (current_counters s) =? 2)%N
  && (length (current_counters s) =? 2)%nat.

Lemma two_requests_inv s :
  two_requests s = true →
  flush_gate (from_secs 95) s = true ∧ worker_started s = true
  ∧ total Requests (current_counters s) = 2%N ∧ length (current_counters s) = 2.
Proof.
  unfold two_requests. rewrite !andb_true_iff, N.eqb_eq, Nat.eqb_eq. tauto.
Qed.

(** A fresh reporter records the call at 61 s and flushes it at 95 s. *)
Lemma scenario_runs :
  is_some_and (λ fresh,
    (backoff fresh =? backoff_min)%N
    && is_some_and (λ recorded,
         two_requests recorded
         && one_event (flush_select inner None (from_secs 95) (Some (from_secs 1700000000)) "0a"
                         recorded))
       (store (in_retention_bytes inner) (from_secs 61) true (sample f64_zero reported.1 f64_hundredth).1
          (sample f64_zero reported.1 f64_hundredth).2 reported.2 fresh))
    (new_state f64_hundredth (from_secs 30) "00ff") = true.
Proof. vm_compute. reflexivity. Qed.

(** The three states of the run. *)
Lemma scenario_facts : ∃ fresh recorded flushed sel rq,
  backoff fresh = backoff_min ∧ wf_state (in_retention_bytes inner) recorded ∧ worker_started recorded = true
  ∧ total Requests (current_counters recorded) = 2%N ∧ length (current_counters recorded) = 2
  ∧ reachable inner (flushed, InFlight sel rq) ∧ length (events flushed) = 1
  ∧ length (sel_event_ids sel) = 1.
Proof.
  destruct (is_some_and_inv _ _ scenario_runs) as (fresh&H0&Hc).
  apply andb_true_iff in Hc as [Hb%N.eqb_eq Hc].
  apply is_some_and_inv in Hc as (recorded&H1&Hc).
  apply andb_true_iff in Hc as [(Hg&Hw&Ht&Hl)%two_requests_inv Hc].
  apply one_event_inv in Hc as (sel&rq&flushed&H2&He&Hi).
  exists fresh, recorded, flushed, sel, rq.
  assert (wf_state (in_retention_bytes inner) recorded) as Hwf.
  { destruct (store_wf (in_retention_bytes inner) (from_secs 61) true (sample f64_zero reported.1 f64_hundredth).1
      (sample f64_zero reported.1 f64_hundredth).2 reported.2 fresh) as (s'&Hs&Hwf).
    - exact (new_state_wf inner _ _ _ _ H0).
    - rewrite Hs in H1. injection H1 as <-. exact Hwf. }
  do 5 (split; [assumption|]). split; [|split; assumption].
  exists (fresh, Idle). split.
  { exists f64_hundredth, (from_secs 30), "00ff", fresh. exact (conj H0 eq_refl). }
  apply (rtc_l _ _ (recorded, Idle)); [exists Recording; exact (step_record _ _ _ _ _ _ _ _ _ _ H1)|].
  apply (rtc_l _ _ (recorded, Gated (from_secs 95)));
    [exists Flushing; exact (step_gate _ _ _ Hg)|].
  apply rtc_once. exists Flushing. exact (step_select _ _ _ _ _ _ _ _ _ H2).
Qed.

Lemma beacon_bounded_witness :
  ∃ s, length (events s) = 1 ∧ length (events s) ≤ TELEMETRY_MAX_EVENTS.
Proof.
  destruct scenario_facts as (_&_&s&sel&rq&_&_&_&_&_&Hr&Hl&_). exists s.
  split; [exact Hl|]. exact (proj1 (beacon_bounded inner (s, InFlight sel rq) Hr)).
Defined.

Lemma beacon_sends_closed_schema_witness :
  ∃ sel rq, length (sel_event_ids sel) = 1 ∧ request_ok inner sel rq.
Proof.
  destruct scenario_facts as (_&_&s&sel&rq&_&_&_&_&_&Hr&_&Hl). exists sel, rq.
  split; [exact Hl|]. exact (proj1 (beacon_sends_closed_schema inner s sel rq Hr)).
Defined.

Lemma worker_flushes_spaced_witness :
  ∃ s, worker_started s = true
    ∧ match (worker_poll (from_secs 100) (worker_settle (from_secs 95) s)).1 with
      | Leave => closed s = true ∨ disabled s = true
      | Wait d => (0 < d)%N
      | Flush => (from_secs 95 + flush_interval s <= from_secs 100)%N
      end.
Proof.
  destruct scenario_facts as (_&s&_&_&_&_&_&Hw&_). exists s. split; [exact Hw|].
  pose proof (proj1 (worker_flushes_spaced inner (from_secs 95) s (worker_settle (from_secs 95) s, Idle)
    (from_secs 100) Hw (rtc_refl _ _))) as H.
  cbn [fst] in H. destruct (worker_poll _ _) as [[] s']; cbn [fst] in *; tauto.
Defined.

Lemma merge_counts_commute_witness :
  ∃ row, metric Attempts row = 1%N
    ∧ metric Attempts (merge_counter_increment CounterRow_default row) = 1%N.
Proof.
  set (row := mkCounterRow 1 1 0 1 ∅ ∅). exists row. split; [reflexivity|].
  apply (proj2 (merge_counts_commute CounterRow_default row row Attempts row_fits_default));
    vm_compute; discriminate.
Defined.

Definition increment : Rows :=
  [(mkCounterKey Level.Request Endpoint.Models true Host.Ally AttemptOutcome.Ok None
      HttpStatusClass.NoClass TimeoutPhase.NoPhase false false, mkCounterRow 3 3 0 3 ∅ ∅)].

Lemma merge_counters_conserves_witness :
  ∃ s s', merge_counters increment s = Some s'
    ∧ total Requests (current_counters s) = 2%N ∧ total Requests (current_counters s') = 5%N.
Proof.
  destruct scenario_facts as (_&s&_&_&_&_&Hwf&_&Ht&_).
  destruct (merge_counters_conserves increment s (wf_current _ _ Hwf)) as (s'&H1&_&H2).
  exists s, s'. split; [exact H1|]. split; [exact Ht|].
  rewrite H2, Ht; [reflexivity|]. rewrite Ht. vm_compute. discriminate.
Defined.

Lemma counter_target_coarsest_last_witness :
  ∃ rows key, length rows = 2 ∧ counter_target rows key = Some (key, rows).
Proof.
  destruct scenario_facts as (_&s&_&_&_&_&Hwf&_&_&Hl&_).
  set (key := mkCounterKey Level.Request Endpoint.Models true Host.Ally AttemptOutcome.Ok None
                HttpStatusClass.NoClass TimeoutPhase.NoPhase false false).
  destruct (counter_target_coarsest_last (current_counters s) key (wf_current _ _ Hwf))
    as (target&rows'&H1&_&H2&_).
  exists (current_counters s), key. split; [exact Hl|].
  destruct H2 as [-> ->]; [|exact H1]. rewrite Hl. apply Nat.ltb_lt. vm_compute. reflexivity.
Defined.

(** A batch naming the first event. *)
Definition first_event : Selected := mkSelected "{}" [0%N] [] 0.

Lemma answered_batch_retired_exactly_witness :
  ∃ s s', handle_response 413 hm_new "" (from_secs 96) first_event s = Some s'
    ∧ ∀ b, b ∈ events s' ↔ b ∈ events s ∧ be_id b ∉ [0%N].
Proof.
  destruct scenario_facts as (_&s&_&_&_&_&Hwf&_).
  exists s, (refuse_batch first_event s).
  assert (handle_response 413 hm_new "" (from_secs 96) first_event s
          = Some (refuse_batch first_event s)) as Hh by reflexivity.
  split; [exact Hh|].
  refine (proj1 (answered_batch_retired_exactly (in_retention_bytes inner) 413 hm_new "" (from_secs 96) first_event s
    (refuse_batch first_event s) Hwf eq_refl _ Hh)).
  right. left.
Defined.

Lemma refusal_disables_witness :
  ∃ s s', handle_response 410 hm_new "" (from_secs 96) first_event s = Some s' ∧ disabled s' = true.
Proof.
  destruct scenario_facts as (_&s&_). exists s, (disable s).
  assert (handle_response 410 hm_new "" (from_secs 96) first_event s = Some (disable s)) as Hh
    by reflexivity.
  split; [exact Hh|].
  refine (proj1 (refusal_disables 524288 410 hm_new "" (from_secs 96) first_event s (disable s) _ Hh)).
  right. do 4 right. left.
Defined.

Lemma backoff_doubles_to_ceiling_witness :
  ∃ s, backoff s = backoff_min
    ∧ backoff (failures [(from_secs 95, None); (from_secs 200, None)] s) = from_secs 240.
Proof.
  destruct scenario_facts as (fresh&_&_&_&_&Hb&_). exists fresh. split; [exact Hb|].
  etrans; [exact (proj1 (backoff_doubles_to_ceiling
    [(from_secs 95, None); (from_secs 200, None)] 0%N None fresh Hb))|].
  vm_compute. reflexivity.
Defined.

(** ** Entry points, streams and the client *)

Lemma request_bytes_settles_witness :
  ∃ r s, request_bytes env client Inference POST "/chat/completions" (Some (VObject [])) options 0%N
         = (Some r, s) ∧ recorder_with true s.
Proof.
  exact (request_bytes_settles env client Inference POST "/chat/completions" (Some (VObject []))
    options 0%N ltac:(discriminate)).
Defined.

(** A caller that configured credentials in every way it can. *)
Definition leaky_client : Client.t :=
  client <| Client.headers := [("Cookie", "session=1"); ("X-Api-Key", "k"); ("x-app", "demo")] |>.
Definition leaky_options : CallOptions.t :=
  options <| CallOptions.api_key := Some "sk-other" |>
          <| CallOptions.headers := [("Authorization", "Bearer x")] |>.

Lemma credential_free_carries_none_witness :
  ∃ headers, request_headers (credential_free_clone leaky_client)
               (credential_free_options leaky_options) None = Ok headers
    ∧ hm_get headers "authorization" = None.
Proof.
  destruct (is_ok_inv (request_headers (credential_free_clone leaky_client)
    (credential_free_options leaky_options) None)) as [headers H]; [vm_compute; reflexivity|].
  exists headers. split; [exact H|].
  exact (proj1 (credential_free_carries_none leaky_client leaky_options headers "authorization" H
    ltac:(left))).
Defined.

Lemma one_element {A} (l : list A) n : length l = S n → ∃ a, a ∈ l.
Proof. destruct l; simpl; [lia|eexists; by left]. Qed.

(** An HTTP client the caller injected, with headers of its own. *)
Definition injected_defaults (t : Transport) : HeaderMap :=
  match t with
  | OwnedTransport => hm_new
  | InjectedTransport => hm_insert (hm_insert hm_new "cookie" "session=9") "x-tr-client" "v=9;a=9;s=9"
  end.

Lemma builds_authorized : builder_authorizes env (λ _, None).
Proof.
  intros m url h body built Hb. injection Hb as <-.
  etrans; [apply (get_insert h)|]. case_decide; [discriminate|]. by destruct (hm_get h "authorization").
Qed.

Lemma injected_plain : plain_defaults injected_defaults.
Proof. intros n _. reflexivity. Qed.

Lemma credential_free_requests_clean_witness :
  ∃ rq, rq ∈ st_sent (credential_free_plane_bytes env leaky_client Control GET "/models" None
                        leaky_options 0%N).2
    ∧ wire_header injected_defaults rq "authorization" = None
    ∧ wire_header injected_defaults rq "cookie" = None.
Proof.
  destruct (one_element (st_sent (credential_free_plane_bytes env leaky_client Control GET "/models"
    None leaky_options 0%N).2) 1) as [rq Hrq]; [vm_compute; reflexivity|].
  exists rq. split; [exact Hrq|].
  destruct (credential_free_requests_clean env injected_defaults (λ _, None) leaky_client leaky_options
    Control GET "/models" None 0%N rq builds_ok builds_authorized injected_plain Hrq) as (_&Ha&Hn&_).
  split; [exact Ha|]. apply Hn; [|discriminate]. apply (bool_decide_unpack _). vm_compute. exact I.
Defined.

(** A recorder whose response arrived and whose body is being streamed. *)
Definition open_recorder : RequestRecorder :=
  on_response (from_millis 30) (from_secs 1700000000) 200 hm_new None begun.
Definition open_state : StreamState := new_stream open_recorder.

Lemma open_tracked : tracked (stream_recorder open_state).
Proof.
  split; [apply on_response_wf, begun_wf|reflexivity|by vm_compute|by eexists|by vm_compute].
Qed.

Definition from_str (data : string) : result string Value :=
  if is_empty data then Err "EOF" else Ok (VObject [("type", VString data)]).

Definition chat_items : list StreamItem :=
  [Decoded "" "chunk" ""; Decoded "" "[DONE]" ""; Decoded "" "late" ""].
Definition response_items : list StreamItem :=
  [Decoded "" "response.output_text.delta" ""; Decoded "" "response.completed" ""].
Definition ticks : list Instant := [1; 2; 3; 4; 5]%N.

Lemma streams_never_truncate_witness :
  (collect (next_chat from_str) ticks (mkValid (mkSse chat_items (Some open_state)) Reading)).1
  = [Ok (VObject [("type", VString "chunk")])]
  ∧ length (collect (next_responses from_str) ticks
      (mkValid (mkSse response_items (Some open_state)) Reading)).1 = 2.
Proof.
  split.
  - etrans; [exact (proj1 (proj1 (streams_never_truncate from_str chat_items (Some open_state) ticks
      ltac:(vm_compute; lia))))|].
    vm_compute. reflexivity.
  - etrans; [exact (f_equal length (proj1 (proj1 (proj2 (proj2 (streams_never_truncate from_str
      response_items (Some open_state) ticks ltac:(vm_compute; lia)))))))|].
    vm_compute. reflexivity.
Defined.

Lemma stream_reports_exactly_once_witness :
  reports 9%N (v_src (collect (next_chat from_str) [1%N]
    (mkValid (mkSse chat_items (Some open_state)) Reading)).2) = Some 1.
Proof.
  exact (proj1 (proj2 (stream_reports_exactly_once from_str chat_items open_state [1%N] 9%N
    open_tracked))).
Defined.

Lemma terminal_event_then_drop_is_aborted_witness :
  ∃ final, last (attempts open_recorder) = Some final
    ∧ final_outcomes (drop_stream 9%N (v_src (next_responses from_str 8%N
        (mkValid (mkSse [Decoded "" "response.completed" ""] (Some open_state)) Reading)).2))
      = [FinalOutcome.Outcome AttemptOutcome.Aborted].
Proof.
  destruct (last (attempts open_recorder)) as [final|] eqn:Hl; [|by vm_compute in Hl].
  exists final. split; [reflexivity|].
  exact (proj1 (proj2 (terminal_event_then_drop_is_aborted from_str 8%N 9%N "" "response.completed" ""
    [] open_state (VObject [("type", VString "response.completed")]) final
    open_tracked eq_refl Hl eq_refl eq_refl eq_refl))).
Defined.

Lemma endpoint_calls_replay_safe_witness :
  request_replay_safe DELETE (call_options
    (mkCall Control DELETE "/broadcast/destinations/7" None (keyed "u1" CallOptions.default))) = true.
Proof.
  refine (proj1 (endpoint_calls_replay_safe (λ _, "q") "u1"
    (mkCall Control DELETE "/broadcast/destinations/7" None (keyed "u1" CallOptions.default)) _) _).
  - apply (ep_delete _ _ "7" CallOptions.default). reflexivity.
  - discriminate.
Defined.

(** A reader of one document. *)
#[local] Instance reader : JsonReader :=
  {| read_text s := if bool_decide (s = "{}") then Ok (VObject []) else Err "expected value";
     mismatch _ := "missing field" |}.


(** Telemetry asked for by the environment, refused by the builder, over an
    injected HTTP client with a telemetry header among its defaults
    ([tests/telemetry_header.rs]). *)
Definition variables (name : string) : option string :=
  if bool_decide (name = "TRUSTEDROUTER_TELEMETRY") then Some "on" else None.
Definition refusing : ClientBuilder :=
  fold_left set [Header "X-TR-Client" "forged"; Telemetry false; HttpClient]
    (builder_default variables).

Lemma opted_out_silent_witness :
  ∃ c reporter, ClientApi.build (λ _, Ok ()) (λ _ _, Ok ()) variables refusing "0a" = Ok (c, reporter)
    ∧ reporter = None
    ∧ telemetry_free injected_defaults (Some "v=9;a=9;s=9")
        (request_bytes env c Inference POST "/responses" None options 0%N).2.
Proof.
  destruct (is_ok_inv (ClientApi.build (λ _, Ok ()) (λ _ _, Ok ()) variables refusing "0a"))
    as [[c reporter] H]; [vm_compute; reflexivity|].
  exists c, reporter. split; [exact H|].
  destruct (opted_out_silent (λ _, Ok ()) (λ _ _, Ok ()) variables injected_defaults refusing "0a" c
    reporter (opt_explicit variables refusing eq_refl) H eq_refl) as (H1&H2&_).
  split; [exact H1|exact (H2 env Inference POST "/responses" None options 0%N)].
Defined.

End Scenario.
