(* ===== verification/BeaconWitnesses.v ===== *)
(** * Concrete runs of the reporter's threads

    A reporter that records one failed call, is started, flushes it and is
    closed.  Each witness applies one claim. *)
From S2P Require Import Prelude Text Bytes F64 Json StrictJson Http Error Policy Config Routing Vocab.
From S2P Require Import Recorder RecorderFacts Identity Wire Reporter CounterFacts ReporterFacts.
From S2P Require Import BeaconFacts Lifecycle WireJson BeaconDocs Witnesses.

Module Threads.
Import ConcreteJson.

#[local] Instance build : BuildEnv :=
  {| CARGO_PKG_VERSION := "0.6.0"; TRUSTED_ROUTER_RUSTC_RELEASE := Some "1.80.0";
     target_os := "linux"; target_arch := "x86_64" |}.

(** ** JSON text *)

#[local] Instance io : JsonIo := {| print := text_of; parse _ := None |}.

Lemma join_cons sep s l : String.length s + String.length (join sep l) <= String.length (join sep (s :: l)).
Proof. destruct l; cbn [join]; rewrite ?length_append; cbn; lia. Qed.

Lemma join_sublist sep l l' :
  l' `sublist_of` l → String.length (join sep l') <= String.length (join sep l).
Proof.
  induction 1 as [|x l1 l2 Hs IH|x l1 l2 Hs IH]; [done| |].
  - destruct l1 as [|y l1]; [|destruct l2 as [|z l2]].
    + etrans; [|apply join_cons]. cbn [join]. lia.
    + by apply sublist_nil_r in Hs.
    + change (String.length (x +:+ sep +:+ join sep (y :: l1)) <= String.length (x +:+ sep +:+ join sep (z :: l2))).
      rewrite !length_append. lia.
  - etrans; [exact IH|]. pose proof (join_cons sep x l2). lia.
Qed.

#[local] Instance laws : SerdeLaws wire_serde.
Proof.
  split. intros rows rows' Hs. unfold window_size, string_bytes, wire_serde, counters_json.
  cbn [from_option print io text_of]. rewrite !length_append.
  enough (String.length (join "," (map text_of (map counter_value (map (λ kr, from_row kr.1 kr.2 0) rows'))))
    <= String.length (join "," (map text_of (map counter_value (map (λ kr, from_row kr.1 kr.2 0) rows)))))
    by (cbn [String.length]; lia).
  apply join_sublist. by do 3 apply fmap_sublist.
Qed.

(** ** A life *)

Definition inner : Inner := Scenario.inner.
Definition seed8 : string := "01234567".
Definition seed16 : string := "0123456789abcdef".
Definition late : Duration := from_secs 95.
Definition epoch : option Duration := Some (from_secs 1700000000).

Definition started_by (fresh recorded : State) : bool :=
  negb (worker_started fresh) && worker_started recorded.

(** The worker, polled at 95 s, flushes what was recorded at 61 s. *)
Definition flushes_at (s : State) : bool :=
  match worker_poll late s with
  | (Flush, s') =>
      flush_gate late s'
      && match flush_select inner None late epoch (hex_token seed16) s' with
         | (Some _, _) => true
         | (None, _) => false
         end
  | _ => false
  end.

Definition record_at (fresh : State) : option State :=
  store (in_retention_bytes inner) (from_secs 61) true
    (sample f64_zero Scenario.reported.1 f64_hundredth).1
    (sample f64_zero Scenario.reported.1 f64_hundredth).2 Scenario.reported.2 fresh.

Lemma life_runs :
  is_some_and (λ fresh,
    is_some_and (λ recorded, started_by fresh recorded && flushes_at recorded) (record_at fresh))
    (new_state f64_hundredth (from_secs 30) (hex_token seed8)) = true.
Proof. vm_compute. reflexivity. Qed.

Abbreviation alive := (alive inner show_N "timed out").
Abbreviation life_step := (life_step inner show_N "timed out").

Lemma alive_step l l' : alive l → life_step l l' → alive l'.
Proof. intros (l0&Hb&Hr) Hst. exists l0. split; [done|]. by eapply rtc_r. Qed.

(** The request is on its way. *)
Lemma life_sends : ∃ l, alive l ∧ length (l_sent l) = 1 ∧ l_closer l = NotClosed.
Proof.
  destruct (Scenario.is_some_and_inv _ _ life_runs) as (fresh&H0&Hc).
  apply Scenario.is_some_and_inv in Hc as (recorded&H1&Hc). apply andb_true_iff in Hc as [Hst Hfl].
  unfold flushes_at in Hfl. destruct (worker_poll late recorded) as [[] s1] eqn:Hpoll; try done.
  apply andb_true_iff in Hfl as [Hg Hsel].
  destruct (flush_select inner None late epoch (hex_token seed16) s1) as [[[sel rq]|] s2] eqn:Hs2; [|done].
  set (l0 := mkLife fresh NotStarted NotClosed None None [] []).
  assert (alive l0) as A0.
  { exists l0. split; [|done]. by exists f64_hundredth, (from_secs 30), seed8, fresh. }
  set (l1 := mkLife recorded AtPoll NotClosed None None [] []).
  assert (alive l1) as A1.
  { eapply alive_step; [exact A0|]. apply life_record.
    assert (l1 = l0 <| l_state := recorded |> <| l_worker := spawned fresh recorded NotStarted |>) as ->.
    { unfold spawned. unfold started_by in Hst. by rewrite Hst. }
    eapply (record_call inner f64_zero f64_hundredth); exact H1. }
  set (l2 := mkLife s1 (InFlush WantLock) NotClosed None (Some true) [] []).
  assert (alive l2) as A2.
  { eapply alive_step; [exact A1|]. apply life_work.
    assert (l2 = poll_once late late true l1) as -> by (unfold poll_once; cbn; by rewrite Hpoll).
    by apply worker_polls. }
  set (l3 := mkLife s1 (InFlush (Entered late)) NotClosed (Some TheWorker) (Some true) [] []).
  assert (alive l3) as A3.
  { eapply alive_step; [exact A2|]. apply life_work, worker_flushes.
    by apply (flush_enter inner show_N "timed out" TheWorker late l2). }
  exists (mkLife s2 (InFlush (Flight sel rq)) NotClosed (Some TheWorker) (Some true) [(TheWorker, rq)] []).
  split; [|done]. eapply alive_step; [exact A3|]. apply life_work, worker_flushes.
  by apply (flush_send inner show_N "timed out" TheWorker 0%N late epoch seed16 sel rq s2 l3).
Qed.

Lemma lifecycle_refines_witness : ∃ l, length (l_sent l) = 1 ∧ reachable inner (abs l).
Proof.
  destruct life_sends as (l&Ha&Hl&_). exists l. split; [exact Hl|].
  exact (proj1 (lifecycle_refines inner show_N "timed out" l Ha)).
Defined.

Lemma sent_documents_conform_witness :
  ∃ l, length (l_sent l) = 1 ∧ Forall (λ wr, document_ok inner wr.2) (l_sent l).
Proof.
  destruct life_sends as (l&Ha&Hl&_). exists l. split; [exact Hl|].
  exact (sent_documents_conform inner show_N "timed out" l eq_refl Ha).
Defined.

(** Closing it while the request is in flight. *)
Lemma close_ends_witness :
  ∃ l, closed (l_state l) = true ∧ length (l_sent l) = 1 ∧ (rank l ≠ 0 → ∃ l', life_step l l' ∧ rank l' < rank l).
Proof.
  destruct life_sends as (l&Ha&Hl&Hc).
  assert (closed (l_state l) = false) as Hopen.
  { pose proof (alive_inv inner show_N "timed out" l Ha) as Hinv.
    rewrite (li_closed _ Hinv), Hc. reflexivity. }
  set (l' := l <| l_state := (close_begin (l_state l)).2 |> <| l_closer := Starting |>).
  assert (alive l') as Ha'.
  { eapply alive_step; [exact Ha|]. apply life_close, close_first; [exact Hc|].
    unfold close_begin. rewrite Hopen. reflexivity. }
  assert (closed (l_state l') = true) as Hclosed.
  { cbn. unfold close_begin. rewrite Hopen. reflexivity. }
  exists l'. split; [exact Hclosed|]. split; [exact Hl|].
  exact (proj1 (proj2 (close_ends inner show_N "timed out" l' Ha' Hclosed))).
Defined.

End Threads.
