(* ===== verification/EvidenceWitnesses.v ===== *)
(** * Concrete runs of the evidence: attestation, receipts, OAuth, the C ABI

    A token of a production workload, a signing key it commits to, a compact
    receipt over one exchange and a flattened one in a stream, a loopback
    sign-in, and a C caller.  Each witness applies one claim to these. *)
From S2P Require Import Prelude Text Bytes F64 Json StrictJson Http UrlParts Error Crypto Policy.
From S2P Require Import Config Routing Vocab Recorder RecorderFacts Identity Attestation.
From S2P Require Import AttestationFacts ReceiptStream ReceiptStreamFacts ReceiptRoundtrip Receipts.
From S2P Require Import ReceiptFacts Headers Engine EngineFacts Transport Sse SseFacts Wire Reporter.
From S2P Require Import ClientApi OAuthFlow Blocking Ffi Serde Types Tools TypesFacts Witnesses.

Module Evidence.

#[local] Existing Instances FullUrl.urls FullUrl.parts FullUrl.parts_laws.
#[local] Instance dates : HttpDateLib := λ _, None.
#[local] Instance build : BuildEnv :=
  {| CARGO_PKG_VERSION := "0.6.0"; TRUSTED_ROUTER_RUSTC_RELEASE := Some "1.80.0";
     target_os := "linux"; target_arch := "x86_64" |}.

(** [Debug] and [Display], of which the runs need nothing. *)
Definition debug (s : string) : string := s.
Definition value_text (v : Value) : string := default "?" (as_str v).

(** ** A signing key, its token and the library that checks it *)

Definition public_key : string := ConcreteCrypto.pad 32 "the gateway's signing key".
Definition nonce : string := hex "0123456789abcdef".
Definition certificate : string := "DER of the leaf".
Definition image : string := "sha256:feed".

Definition claims : Value := VObject
  [("swname", VString "CONFIDENTIAL_SPACE"); ("secboot", VBool true);
   ("hwmodel", VString "GCP_AMD_SEV"); ("dbgstat", VString "disabled-since-boot");
   ("iss", VString GCP_ISSUER); ("aud", VString "quill-cloud"); ("exp", VNumber (PosInt 1800000000));
   ("eat_nonce", VArray [VString nonce; VString (hex (sha256 certificate));
                         VString (hex (key_commitment public_key))]);
   ("submods", VObject [("container", VObject [("image_digest", VString image)])])].

Definition document : string := "header.claims.signature".

(** The key set has one key, and one token is signed by it. *)
Definition signed (token key : string) (c : Value) : Prop :=
  token = document ∧ key = "modulus" ∧ c = claims.

#[local] Instance jwt : JwtLib := {|
  decode_header _ := Ok (mkJwtHeader RS256 (Some "k1"));
  DecodingKey := string;
  from_rsa_components n _ := Ok n;
  jwt_decode token key v :=
    if bool_decide (token = document) && bool_decide (key = "modulus")
       && forallb (λ name, bool_decide (is_Some (get name claims))) (val_required v)
       && bool_decide (GCP_ISSUER ∈ val_issuers v)
    then Ok claims else Err "InvalidSignature";
|}.

#[local] Instance jwt_laws : JwtLaws jwt signed.
Proof.
  split; cbn [jwt_decode jwt DecodingKey]; intros token key v c.
  - destruct (_ && _) eqn:H; [|done]. intros [= <-]. reflect. by split_and!.
  - intros name. destruct (_ && _) eqn:H; [|done]. intros [= <-] Hn. reflect.
    match goal with H : forallb _ _ = true |- _ => rename H into Hf end.
    rewrite forallb_forall in Hf. apply list_elem_of_In, Hf, bool_decide_eq_true in Hn. done.
  - intros issuer. destruct (_ && _) eqn:H; [|done]. intros [= <-] Hi. reflect.
    cbv in Hi. by injection Hi as <-.
Qed.

Definition key_set : Value := VObject
  [("keys", VArray [VObject [("kid", VString "k1"); ("kty", VString "RSA"); ("n", VString "modulus");
                             ("e", VString "AQAB")]])].

#[local] Instance fetch : KeyFetch := {|
  owned_client := Ok ();
  get_jwks _ _ := Ok (mkFetched 200 "200 OK" (Ok key_set));
|}.

Definition policy : AttestationPolicy :=
  mkAttestationPolicy "quill-cloud" None (Some image) [] None [] false.

Definition live_options : AttestationVerificationOptions :=
  mkAttestationOptions policy (Some nonce) (Some certificate) None None None false.

Lemma gateway_attestation_sound_witness :
  ∃ ga, verify_gateway_attestation document live_options = Ok ga
    ∧ ga_binding ga = AttestationBinding.TlsCert
    ∧ binding_earned (ga_raw_claims ga) live_options (ga_binding ga) (ga_cert_sha256 ga).
Proof.
  destruct (is_ok_inv (verify_gateway_attestation document live_options)) as [ga H];
    [vm_compute; reflexivity|].
  exists ga. split; [exact H|]. split.
  - vm_compute in H. injection H as <-. reflexivity.
  - destruct (gateway_attestation_sound (JL := jwt) signed document live_options ga H) as (_&_&_&_&_&_&Hb).
    exact Hb.
Defined.

Definition document_options : DocumentVerificationOptions :=
  mkDocumentOptions policy nonce (Some key_set) None true.

Lemma document_attestation_unbound_witness :
  ∃ d, verify_document document document_options = Ok d
    ∧ gd_binding d = AttestationBinding.NoBinding
    ∧ nonce_bound (gd_raw_claims d) (gd_nonce d) Document.
Proof.
  destruct (is_ok_inv (verify_document document document_options)) as [d H];
    [vm_compute; reflexivity|].
  exists d. split; [exact H|].
  destruct (document_attestation_unbound (JL := jwt) signed document document_options d H) as (Hb&_&_&Hn&_).
  split; [exact Hb|exact Hn].
Defined.

(** ** Receipts

    Documents are named by short texts that the JSON library reads. *)

Definition header_members : list (string * Raw) :=
  [("alg", RStr "EdDSA"); ("typ", RStr RECEIPT_TYPE); ("kid", RStr (b64_encode (sha256 public_key)));
   ("jwk", RMap [("kty", RStr "OKP"); ("crv", RStr "Ed25519"); ("x", RStr (b64_encode public_key))]
             None)].

Definition digest_record (content domain : string) (events : list (string * Raw)) : Raw :=
  RMap ([("alg", RStr "sha256"); ("hash", RStr (b64_encode (sha256 content))); ("of", RStr domain)]
        ++ events) None.

Definition claim_members (resp : Raw) : list (string * Raw) :=
  [("rv", RU64 1); ("iss", RStr "https://api.trustedrouter.com"); ("iat", RU64 1000);
   ("jti", RStr "j1"); ("route", RStr "chat.completions"); ("nonce", RStr "n1");
   ("att_sha256", RStr (b64_encode (sha256 document)));
   ("model", RMap [("requested", RStr "fast"); ("selected", RStr "m"); ("provider", RStr "p");
                   ("endpoint", RStr "e")] None);
   ("upstream", RMap [("tier", RStr "tee-verified"); ("policy", RStr "pinned");
                      ("verified_at", RU64 900); ("verification_expires_at", RU64 2000)] None);
   ("req", digest_record "ping" "body" []); ("resp", resp)].

Definition sign (protected payload : string) : string :=
  b64_encode (public_key +:+ sha256 (protected +:+ "." +:+ payload)).

Definition compact : string :=
  let protected := b64_encode "compact header" in
  let payload := b64_encode "body claims" in
  protected +:+ "." +:+ payload +:+ "." +:+ sign protected payload.

Definition flattened_members : list (string * string) :=
  let protected := b64_encode "flattened header" in
  let payload := b64_encode "stream claims" in
  [("payload", payload); ("protected", protected); ("signature", sign protected payload)].

#[local] Instance json : JsonText := {|
  deserialize data :=
    let flattened := RMap (map (λ kv, (kv.1, RStr kv.2)) flattened_members) None in
    if bool_decide (data = "compact header") then RMap header_members None
    else if bool_decide (data = "flattened header")
    then RMap (header_members ++ [("att_kind", RStr "gcp-cs-jwt"); ("att", RStr document)]) None
    else if bool_decide (data = "body claims")
    then RMap (claim_members (digest_record "pong" "body" [])) None
    else if bool_decide (data = "stream claims")
    then RMap (claim_members (digest_record ("po" +:+ newline +:+ "ng" +:+ newline) "sse-data-v1"
                                [("events", RU64 2)])) None
    else if bool_decide (data = "{receipt}") then flattened
    else if bool_decide (data = "receipt event") then RMap [("inference_receipt", flattened)] None
    else RFail "expected value";
  deserializer_end _ := None;
  json_error _ _ := "error at line 1";
|}.

Definition traffic : ReceiptVerificationOptions :=
  mkReceiptOptions (Some "ping") (Some "pong") None (Some "n1") (Some 60%N) (Some 1030%Z)
    (Some document) true true.

Definition release : TrustRelease :=
  mkTrustRelease "gcp" "" ∅ "" "" [] image [] GCP_ISSUER "quill-cloud" "" None None ∅.
Definition get_release (url : string) : result string (Fetched TrustRelease) :=
  Ok (mkFetched 200 "200 OK" (Ok release)).

Definition settled_ok {E A} (o : option (result E A)) : bool :=
  match o with Some (Ok _) => true | _ => false end.

Lemma settled_ok_inv {E A} (o : option (result E A)) : settled_ok o = true → ∃ a, o = Some (Ok a).
Proof. destruct o as [[]|]; [by eexists|done..]. Qed.

Lemma receipt_sound_witness :
  ∃ c, verify_receipt debug value_text get_release (Err "unused") compact
         "https://API.trustedrouter.com:443" traffic = Some (Ok c)
    ∧ ∃ envelope header signed_claims, parse_envelope compact = Ok envelope
        ∧ authentic envelope header signed_claims.
Proof.
  destruct (settled_ok_inv (verify_receipt debug value_text get_release (Err "unused") compact
    "https://API.trustedrouter.com:443" traffic)) as [c H]; [vm_compute; reflexivity|].
  exists c. split; [exact H|].
  destruct (receipt_sound debug value_text _ _ _ _ _ _ H) as (envelope&header&cs&Hp&Ha&_).
  exists envelope, header, cs. exact (conj Hp Ha).
Defined.

Lemma verified_receipt_from_published_image_witness :
  ∃ c, verify_receipt debug value_text get_release (Err "unused") compact
         "https://api.trustedrouter.com" traffic = Some (Ok c)
    ∧ ∃ attested_document key, key_attested (JL := jwt) get_release signed attested_document key.
Proof.
  destruct (settled_ok_inv (verify_receipt debug value_text get_release (Err "unused") compact
    "https://api.trustedrouter.com" traffic)) as [c H]; [vm_compute; reflexivity|].
  exists c. split; [exact H|].
  destruct (verified_receipt_from_published_image (JL := jwt) debug value_text get_release signed _ _ _ _ _ H)
    as (envelope&header&cs&d&_&_&_&Hk).
  - vm_compute in H. injection H as <-. reflexivity.
  - exists d, (ph_public_key header). exact Hk.
Defined.

Definition events : list (string * string) := [("", "po"); ("", "ng")].

Definition captured : ReceiptCapture :=
  mkReceiptCapture
    (concat_strings (map render (events ++ [("", "receipt event"); ("", "[DONE]")])))
    (Some (VObject (map (λ kv, (kv.1, VString kv.2)) flattened_members))).

Definition sent_only : ReceiptVerificationOptions :=
  mkReceiptOptions (Some "ping") None None None None (Some 1030%Z) None true true.

Lemma captured_receipt_sound_witness :
  ∃ c, capture_verify debug value_text get_release (λ _, Ok "{receipt}") (Err "unused") captured
         "https://api.trustedrouter.com" sent_only = Some (Ok c)
    ∧ ∃ raws, framed (cap_wire captured) raws "".
Proof.
  destruct (settled_ok_inv (capture_verify debug value_text get_release (λ _, Ok "{receipt}")
    (Err "unused") captured "https://api.trustedrouter.com" sent_only)) as [c H];
    [vm_compute; reflexivity|].
  exists c. split; [exact H|].
  destruct (captured_receipt_sound debug value_text _ _ _ _ _ _ _ H)
    as (?&?&?&?&?&raws&?&_&_&_&_&Hf&_).
  exists raws. exact Hf.
Defined.

Lemma stream_roundtrip_witness :
  stream_digest debug (cap_wire captured) "sse-data-v1" (cap_receipt captured)
  = Some (Ok (sha256 ("po" +:+ newline +:+ "ng" +:+ newline), 2%N)).
Proof.
  refine (stream_roundtrip debug "sse-data-v1" events "receipt event"
    (VObject (map (λ kv, (kv.1, VString kv.2)) flattened_members))
    (VObject (map (λ kv, (kv.1, VString kv.2)) flattened_members)) _ _ _ _ _).
  - repeat constructor; vm_compute; done.
  - vm_compute. done.
  - discriminate.
  - vm_compute. reflexivity.
  - vm_compute. reflexivity.
Defined.

(** ** A client, and a server that answers *)

Definition base (host : string) : Url := FullUrl.mkUrl "https" host None "/v1/" [].

Definition client : Client.t :=
  Client.mk _ (Some "sk-test") (base "api.trustedrouter.com") [base "api.trustedrouter.com"]
    (base "trustedrouter.com") None (Some DEFAULT_REQUEST_TIMEOUT) 2 true true
    [("Cookie", "session=1")] OwnedTransport.

Definition env : Env :=
  {| execute_request _ rq :=
       mkFut (from_millis 40)
         (Ok (mkResponse _ _ 200%N hm_new (rq_url rq) (mkFut (from_millis 5) (Ok "{}"))));
     build_headers _ _ headers _ := Ok (hm_insert headers "content-type" "application/json");
     parse_json _ := None;
     gen_range _ ceiling := N.div ceiling 2;
     wall_clock now := now |}.

Lemma server_builds_ok : build_headers_ok env.
Proof.
  intros m url h body built n Hb Hn. injection Hb as <-.
  etrans; [apply (get_insert h)|]. case_decide; [set_solver|done].
Qed.

(** ** OAuth *)

Definition loopback_url : string := "http://localhost:3000/callback".
Definition landing : FullUrl.url := FullUrl.mkUrl "http" "localhost" (Some 3000%N) "/callback" [].

Lemma authorization_roundtrip_witness :
  ∃ auth, create_oauth_authorization client loopback_url None "32 random bytes" "24 random bytes"
          = Ok auth
    ∧ validate_callback
        (FullUrl.mkUrl "http" "localhost" None "/callback" [("state", au_state auth); ("code", "c1")])
        "/callback" (Some (au_state auth))
      = Ok (mkOAuthCallback "c1" (Some (au_state auth))).
Proof.
  destruct (is_ok_inv (create_oauth_authorization client loopback_url None "32 random bytes"
    "24 random bytes")) as [auth H]; [vm_compute; reflexivity|].
  exists auth. split; [exact H|].
  destruct (authorization_roundtrip client loopback_url None "32 random bytes" "24 random bytes" auth
    landing "c1" H) as (_&_&Hall); [vm_compute; reflexivity|cbn; set_solver|discriminate|].
  refine (eq_trans (Hall _ _ _ (au_state auth)) _); [reflexivity..|]. by rewrite decide_True.
Defined.

(** A sign-in attempt through a client with a session cookie. *)
Definition exchange : OAuthKeyExchangeRequest :=
  mkExchangeRequest "c1" (Some "verifier") (Some "S256")
    (CallOptions.default <| CallOptions.headers := [("Cookie", "session=2")] |>).

Definition cookie_jar (t : Transport) : HeaderMap :=
  match t with
  | OwnedTransport => hm_new
  | InjectedTransport => hm_insert hm_new "cookie" "session=9"
  end.

Lemma server_authorized : builder_authorizes env (λ _, None).
Proof.
  intros m url h body built Hb. injection Hb as <-.
  etrans; [apply (get_insert h)|]. case_decide; [discriminate|]. by destruct (hm_get h "authorization").
Qed.

Lemma exchange_withholds_credentials_witness :
  ∃ rq, rq ∈ st_sent (exchange_oauth_key (λ _, Err "no key") env client exchange 0%N).2
    ∧ wire_header cookie_jar rq "authorization" = None
    ∧ wire_header cookie_jar rq "cookie" = None.
Proof.
  destruct (Scenario.one_element (st_sent (exchange_oauth_key (λ _, Err "no key") env client exchange
    0%N).2) 0) as [rq Hin]; [vm_compute; reflexivity|].
  exists rq. split; [exact Hin|].
  destruct (exchange_withholds_credentials (λ _, Err "no key") env cookie_jar (λ _, None) client exchange
    0%N server_builds_ok server_authorized ltac:(intros n _; reflexivity)) as [_ Hall].
  destruct (Hall rq Hin) as (_&_&_&Ha&Hn&_).
  split; [exact Ha|]. apply Hn; [|discriminate]. apply (bool_decide_unpack _). vm_compute. exact I.
Defined.

(** ** Streams through the blocking facade and the C ABI *)

Definition from_str (text : string) : result string Value :=
  if bool_decide (text = "[DONE]") then Err "expected value" else Ok (VObject []).
Definition to_string (v : Value) : result string string :=
  Ok (replace_nul (default "{}" (get "data" v >>? as_str))).

Definition chat_items : list StreamItem := [Decoded "" "one" ""; Decoded "" "two" ""; Decoded "" "[DONE]" ""].
Definition chunks_of (r : Response) : list (Fut (result ReqwestError string)) * Duration := ([], 0%N).
Definition eventsource (l : list (result SseWireError string)) : list StreamItem := chat_items.
Definition ticks : list Instant := [1; 2; 3; 4; 5; 6]%N.

(** A callback that counts and asks for everything. *)
Definition count {A} (n : nat) (item : A) : nat * bool := (S n, true).

Definition recorder_of (o : option (Result Valid)) : option StreamState :=
  match o with Some (Ok v) => src_recorder (v_src v) | _ => None end.

Definition opened_chat : option (Result Valid) :=
  chat_completions_stream chunks_of eventsource env client "u1" (Ok (VObject [])) CallOptions.default 0%N.

Lemma blocking_streams_deliver_witness :
  (blocking_chat_completions_stream chunks_of eventsource from_str env client "u1" (Ok (VObject []))
     CallOptions.default 0%N count 0 ticks 9%N).1 = (Some (Ok ()), 2).
Proof.
  assert (opened_chat = Some (Ok (mkValid (mkSse chat_items (recorder_of opened_chat)) Reading))) as H
    by (vm_compute; reflexivity).
  destruct (blocking_streams_deliver chunks_of eventsource from_str env client chat_items
    (recorder_of opened_chat) ticks 9%N 0%N) as (Hchat&_); [cbn; lia|].
  exact (proj1 (Hchat "u1" (Ok (VObject [])) CallOptions.default nat count 0 H)).
Defined.

(** A heap with one live client. *)
Definition heap : gmap positive Alloc := {[ 1%positive := ClientBox client ]}.

Lemma ffi_results_balanced_witness :
  ∃ out, tr_request_json to_string from_str (λ _, Ok GET) "u1" env (λ _, Ok VNull) heap
           (Some 1%positive) 1 (Some "GET") (Some "/models") None None None 0%N = Some out
    ∧ balanced heap out.
Proof.
  refine (proj1 (ffi_results_balanced to_string from_str (λ _, Ok GET) "u1" env (λ _, Ok VNull)
    chunks_of eventsource heap (Some 1%positive) 0%N _) 1%Z (Some "GET") (Some "/models") None None
    None false).
  exists (Ok client). reflexivity.
Defined.

Definition c_callback (n : nat) (text : string) : nat * Z := (S n, 1%Z).
Definition text_of (event : SseEvent) : string := replace_nul (sse_data event).

Lemma encodes_text : encodes to_string text_of.
Proof. intros event. split; [done|apply replace_nul_clean]. Qed.

Definition opened_raw : option (Result (Sse * option PromptStreamKind)) :=
  validated_raw_sse chunks_of eventsource env client "u1" "/chat/completions"
    (VObject [("stream", VBool true)])
    (CallOptions.default <| CallOptions.idempotency_key := Some "tr-req-u1" |>) 0%N.
Definition raw_recorder : option StreamState :=
  match opened_raw with Some (Ok (s, _)) => src_recorder s | _ => None end.

Lemma ffi_stream_outcome_witness :
  ∃ out, tr_stream_json to_string from_str "u1" env chunks_of eventsource heap (Some 1%positive)
           (Some "/chat/completions") (Some "{}") None None (Some c_callback) 0 0%N ticks 9%N
         = Some (out, 3) ∧ code out.1 = 0%Z.
Proof.
  destruct (ffi_stream_outcome to_string from_str "u1" env chunks_of eventsource heap (Some 1%positive)
    client (Some "/chat/completions") (Some "{}") None None c_callback c_callback 0 0%N ticks 9%N
    "/chat/completions" (VObject [("stream", VBool true)])
    (CallOptions.default <| CallOptions.idempotency_key := Some "tr-req-u1" |>)
    text_of chat_items raw_recorder (Some Chat) "{}")
    as [(out&seen&Hcall&Hcode&_&Hread&_)|(seen&e&rest&_&Hread)].
  - reflexivity.
  - reflexivity.
  - vm_compute. reflexivity.
  - cbn. lia.
  - exact encodes_text.
  - vm_compute. reflexivity.
  - discriminate.
  - exists out. split; [|exact Hcode]. etrans; [exact Hcall|]. f_equal. f_equal.
    apply (f_equal length) in Hread. rewrite length_fmap in Hread. vm_compute in Hread.
    destruct seen as [|? [|? [|? []]]]; try discriminate Hread. reflexivity.
  - exfalso. apply (f_equal (forallb is_ok)) in Hread. rewrite forallb_app in Hread.
    cbn [forallb is_ok] in Hread. rewrite andb_false_r in Hread. vm_compute in Hread. discriminate.
Defined.

(** ** Typed requests and responses *)

Definition chat_request : ChatRequest.t :=
  ChatRequest.with_field (ChatRequest.user "m" "hello") "stream" (VString "mine").

Lemma request_bodies_exact_witness :
  "temperature" ≠ "stream" ∧ ∃ body,
    with_stream (Ok (ChatRequest.to_value (ChatRequest.with_field chat_request "temperature" VNull)))
      false = Ok body
    ∧ get "temperature" body = Some VNull
    ∧ get "stream" body = Some (VBool false)
    ∧ get "model" body = Some (VString "m").
Proof.
  split; [discriminate|].
  destruct (request_bodies_exact "u1") as (routing&table&_&_&_&_&Hfield&_).
  destruct (Hfield chat_request "temperature" VNull ltac:(discriminate)) as (body&Hb&m&->&_&Hm).
  exists (VObject m). split; [exact Hb|]. cbn [get]. rewrite !Hm. repeat split; vm_compute; reflexivity.
Defined.

Definition completion : ChatCompletion.t :=
  ChatCompletion.mk "cmpl-1" "chat.completion" (-1)%Z "m"
    [ChatChoice.mk 0%N (ChatMessage.text "assistant" "hi") (Some "stop") None ∅]
    None (<["x-new" := VBool true]> ∅).

Lemma wire_types_roundtrip_witness :
  of_value ChatCompletion.codec (to_value ChatCompletion.codec completion) = Some completion
  ∧ get "x-new" (to_value ChatCompletion.codec completion) = Some (VBool true).
Proof.
  destruct wire_types_roundtrip as [Htypes _].
  pose proof (Forall_lookup_1 _ _ 2
    (mkDescribed ChatCompletion.t ChatCompletion.shape ChatCompletion.extra) Htypes eq_refl)
    as [[Hback _] _].
  split; [|vm_compute; reflexivity]. apply (Hback completion). split_and!.
  - repeat split; repeat constructor; try discriminate; set_solver.
  - apply map_Forall_insert_2; [done|apply map_Forall_empty].
  - intros name Hin. apply lookup_insert_None. split; [apply lookup_empty|].
    intros <-. revert Hin. apply (bool_decide_unpack _). vm_compute. exact I.
Defined.

End Evidence.
